(* ===== verification/_CoqProject ===== *)
-Q . S2P
Prelude.v
Strconv.v
Base64.v
GoTime.v
External.v
Schema.v
Numeric.v
Tables.v
Replay.v
Ids.v
Http.v
Config.v
Frame.v
Transactions.v
Interleave.v
Rely.v
Sql.v
Indexer.v
IndexerFacts.v
IndexerTotal.v
IndexerProps.v
Ingest.v
IngestFacts.v
IngestProps.v
Webhook.v
WebhookFacts.v
WebhookProps.v
Dispatch.v
Query.v
QueryApi.v
QueryFacts.v
QueryProps.v
QueryLive.v
Csv.v
Merchant.v
MerchantApi.v
MerchantFacts.v
MerchantSteps.v
MerchantProps.v
Races.v
Api.v
ApiFacts.v
Refusals.v
ApiProps.v
App.v
AppProps.v
System.v
SystemFacts.v
Moves.v
Commits.v
Flush.v
Threads.v
Indexing.v
SystemProps.v
IndexingProps.v
LiveProps.v
PlatformProps.v
