(* ===== verification/Prelude.v ===== *)
(** * padma: the indexer, webhook outbox, read side and merchant backend of a
    Fiber network service, modelled and verified

    padma (Go, under src/) turns the semantic events of a Fiber node into Postgres
    tables, fans them out to webhook subscribers through a transactional outbox,
    serves the tables over HTTP, and runs a merchant backend on top of them.  Its
    processes share nothing but the database; this development models that database
    as a record of finite maps and every operation of the program as a function on it.

    ** How the parts interact

    - internal/indexer buffers the events of one raw change and flushes them in one
      transaction: the event row, its projection (invoices, payments, channels), the
      settlement of a merchant order, one delivery per matching subscription, and the
      checkpoint.
    - internal/webhook moves the deliveries the indexer enqueued: workers claim them
      under a lease and mark the outcome, a sweeper re-arms what a dead worker held,
      handlers create and remove subscriptions and replay deliveries.
    - internal/query lists the tables the indexer fills, page by page.
    - internal/merchant creates orders with invoices of the node, refunds them to the
      payer the indexer captured, and reports on the orders the indexer settled.
    - internal/platform is what they share: amounts in NUMERIC columns, identifiers,
      API keys, transactions, HTTP helpers, configuration.

    ** Files

    Foundations.
    - Prelude: Go errors and results, machine integers, strings, tactics.
    - Strconv, Base64, GoTime: the parts of Go's standard library the program's
      behaviour depends on, with their round trips.
    - External: one type class per library or service padma calls (kanaka's amounts,
      events and node RPC, Postgres, crypto), a class of laws next to each where some
      theorem relies on its documented behaviour, and in [Sample] a concrete instance
      of each, on which the witnesses compute.
    - Schema: migrations/ as records, [Database], the state-and-error monad [M] in
      which statements run, and [InTx] (platform/db/tx.go).
    - Tables, Replay, Sql, Frame: generic lemmas; sequences of upserts on a table, what
      repeating a stretch of them leaves, the SELECT clauses in use, and what a
      computation may do to the database whatever it answers ([frames], [quiet],
      [answers], [preserves]).
    - Transactions: what an open transaction sees and has locked.  Interleave: operations
      cut at their statements ([prog]) and pools of threads over one database
      ([pool_step]).  Rely: a rely-guarantee logic for them ([safe], [cut]), with a
      specification of what a transaction makes of the database it sees, whatever others
      commit meanwhile ([tx_cut], [commits]).

    Components; a definition has the name of the Go function it translates, except
    where Rocq or another component already uses the name ([c_eq] for [conds.eq],
    [list_handler], [settlements_handler], [RefundOrder] for [Service.Refund],
    [Reconcile] for [Service.Reconciliation]).
    - Numeric: platform/db/numeric.go.  Ids: platform/id and platform/auth.
      Http: platform/httpx.  Config: platform/config.
    - Indexer: internal/indexer (projector, deliveries, merchant_match), and [project],
      the flush as a pure function of the tables: its specification.
    - Ingest: internal/indexer/run.go and platform/fiber, and [resumes], the histories
      of crashes and restarts the checkpoint interface allows the library's runner.
    - Webhook: internal/webhook (store, backoff, endpoints).  Dispatch: webhook/run.go.
    - Query, QueryApi: internal/query (cursor, repo, queries; handlers).
    - Csv: the Writer of encoding/csv, and an RFC 4180 reader as its specification.
    - Merchant, MerchantApi: internal/merchant (orders, refunds, settlement, export,
      provision; handlers).  MerchantSteps cuts its two methods at their node call.
    - Api: internal/apiserver and the Routes methods, a route table behind a router.
    - App: cmd/app/main.go with platform/db/pool.go and migrate.go.
    - System: all of it on one database; [action], the shape [wf] of a database, and
      [keeps], what no statement undoes.  Moves has a lemma per statement, Commits shows
      that a flush may commit on top of what others have, Flush what it makes of the
      index ([flushed]), Threads has the program of
      every action ([thread]) and [live], the configurations the threads of
      any actions get an empty database into.  Indexing is the system with one runner
      that feeds the changes ([index_step]), the invariant of its index ([feeding]) and of
      an order that one of the changes pays ([pays]).

    The lemmas of a component are in its ...Facts file (IndexerTotal for forward
    execution, QueryLive for listings of a changing table, Refusals for what a refused
    request leaves untouched), its theorems and their witnesses in its ...Props file;
    Races has the theorems on two requests at once, LiveProps those on a client that
    pages while the system runs, IndexingProps those on the
    index and on the orders it settles.

    ** State and effects

    [M A] is [world -> result A * world].  A [world] holds the database, the clock
    (the transaction's now()), the number of random draws so far (one of them also decides
    how many rows of a listing arrive before its connection breaks), the calls made to
    the node, and a list of faults.  Every statement, and the begin and the commit of
    a transaction, consumes one fault: none, a failure, or an acknowledgement lost
    after the work was done; a theorem about an arbitrary world is a theorem about
    every such history.  A statement answers an error when its table's migration has
    not been applied.  [Err] is a Go error, wrapped as the source wraps it, and
    [Panic] a panic.

    A statement is atomic; between the statements of an operation anything may happen.
    Threads cuts every operation of every process at its statements, node calls and
    random draws, and Interleave runs any number of them at once: each step starts an
    operation, lets one of them execute its next statement, at any time and with any
    fault, or kills one.  The statements of a transaction (the flush is the program's
    only one) run at READ COMMITTED, with the time it began as now(): each sees what is
    committed when it starts and the transaction's own writes, which nobody else sees before the commit and whose rows
    nobody else can write ([Tx], [seen], [grants]).  The [wf] and [keeps] of System hold
    of all such runs.  An operation's own answer is described on an undisturbed run of
    it; Races interleaves the two merchant methods with themselves, and WebhookFacts runs
    any sequence of timed operations on the outbox, each of which is one statement (a
    claim takes the rows other transactions hold locked as an argument).

    ** Theorems

    - System, over all interleavings: every database is well formed; an order keeps its
      terms and only moves from pending to paid to refunded; no row is lost and no
      record rewritten; the delivery of an event that was flushed undisturbed stays and
      reaches a worker; the index is that of one pass over the changes, however the
      flushes are interrupted and whatever runs between their statements, and no payment
      of an order is missed; a client that follows the cursors of the payments or events while
      they are written repeats nothing and misses nothing that stays.
    - Indexer: a flush is atomic, refines [project], and commits when it can;
      replaying it changes only the checkpoint; the outbox is complete and sound; the
      event log is append-only; orders are settled exactly once; the checkpoint is
      read back; and a failed flush loses the change it had buffered.
    - Ingest: whatever crashes and restarts, the tables written once are those of one pass
      over the changes reached so far, all tables are when the feed has not gone back
      since, and the rest can always be completed, to the tables of one pass over all
      changes; a seed file comes out of the source as it was written.
    - Webhook: what a claim takes; the exclusion its lease gives; recovery of stranded
      deliveries, also by a sweep that met failures; the delivery state machine under
      every operation; the attempt log; the bounds of the backoff; subscriptions,
      removal, replay.
    - Query: cursors round trip; the generated conditions mean the filters; following
      the cursors lists every matching row once; statistics partition the payments.
    - Merchant: orders are idempotent; refunds are guarded and final, but, for any
      paid order, neither atomic with their record nor exclusive; settlement and reconciliation are exact; the
      export is read back; authentication; provisioning; two requests at once.
    - Api: every request is answered; the merchant routes need a key; orders move only
      for the holder of their merchant's key; GET requests only report; a request
      answered 400, 401 or 404 has done nothing.
    - App: exit codes and messages; cancellation; migration.
    - Platform: amounts survive the database; configuration accepts exactly the valid
      environments.

    ** Bounds and fuel

    The program's loops are structural recursions here.  Three fuels exist:
    [dec_digits] prints with one unit per bit of the number and one more, which
    [format_uint] supplies; [backoff_loop] runs attempt - 1 times, as the Go loop
    does; and the client [walk] of QueryFacts gets one unit per row of the table and
    one more, which the pagination theorems prove to be enough.  The two loops that run
    until a context ends, the stub source's and the sweep's, recurse on the list of what
    their select takes.  Go's int and int64 are wrapped at 64 bits and INT columns are
    range checked; amounts are unbounded integers up to the parser's own limit.

    ** Not modelled

    - Text is a byte string: NUL bytes and invalid UTF-8, which Postgres refuses in
      text columns, are not refused here; timestamps are finite, in the
      years 0 to 9999 that encoding/json can print.
    - JSON request bodies: decoding one is a parameter ([JsonDecoder]).
    - Locks are those of rows: a statement that would write a row another transaction has
      written and not committed waits or fails.  Table, advisory and index locks, which
      matter to no statement of the program, and deadlock detection are only failures.
    - An error while a result set is being streamed is reported as an error of its query,
      as the program does wherever it checks [rows.Err()]; the one listing that does not,
      [list_handler], answers the rows that came first.
    - The library's ingest.Runner and Dispatcher, goose, pgxpool, chi, excelize, the
      HTTP server and client: not part of the repository, parameters here.
    - dbtest, which starts a Postgres for the tests.

    ** Left open

    The answers of an operation while others run between its statements (the lease of a
    claim with a timed guarantee, those of the two merchant methods beyond Races), two
    indexers on one database, and the status code of each handler on every error path. *)

From stdpp Require Export base numbers list strings gmap sorting option.
From Stdlib Require Export ZArith Lia Ascii.

Open Scope Z_scope.

(** ** Go errors *)

(** Sentinel errors compared with [errors.Is]. *)
Inductive sentinel :=
| PgxErrNoRows
| MerchantErrNotFound
| MerchantErrInvalidState
| QueryErrNotFound
| ContextCanceled
| HttpErrServerClosed
| StrconvErrSyntax
| StrconvErrRange.

#[global] Instance sentinel_eq_dec : EqDecision sentinel.
Proof. solve_decision. Defined.

(** A Go [error]: a sentinel, an opaque text, or a [fmt.Errorf] value that
    wraps another error with [%w] between two pieces of text. *)
Inductive error :=
| ESent (s : sentinel)
| EText (s : string)
| EWrap (pre : string) (e : error) (post : string).

#[global] Instance error_eq_dec : EqDecision error.
Proof. solve_decision. Defined.

(** [errors.Is(err, target)]: walk the chain of wrapped errors. *)
Fixpoint errors_Is (e : error) (target : sentinel) : bool :=
  match e with
  | ESent s => bool_decide (s = target)
  | EText _ => false
  | EWrap _ e' _ => errors_Is e' target
  end.

(** [err.Error()], with the text each sentinel was created with. *)
Definition sentinel_text (s : sentinel) : string :=
  match s with
  | PgxErrNoRows => "no rows in result set"
  | MerchantErrNotFound => "merchant: not found"
  | MerchantErrInvalidState => "merchant: invalid state for operation"
  | QueryErrNotFound => "query: not found"
  | ContextCanceled => "context canceled"
  | HttpErrServerClosed => "http: Server closed"
  | StrconvErrSyntax => "invalid syntax"
  | StrconvErrRange => "value out of range"
  end.

Fixpoint error_text (e : error) : string :=
  match e with
  | ESent s => sentinel_text s
  | EText s => s
  | EWrap pre e' post => pre +:+ error_text e' +:+ post
  end.

(** The outcome of a Go call returning [(T, error)]: a value with a nil error,
    a non-nil error, or a panic. *)
Inductive result (A : Type) :=
| Ok (a : A)
| Err (e : error)
| Panic (msg : string).

Arguments Ok {_} _.
Arguments Err {_} _.
Arguments Panic {_} _.

#[global] Instance result_ret : MRet result := fun A a => Ok a.
#[global] Instance result_bind : MBind result := fun A B f m =>
  match m with Ok a => f a | Err e => Err e | Panic p => Panic p end.
#[global] Instance result_fmap : FMap result := fun A B f m =>
  match m with Ok a => Ok (f a) | Err e => Err e | Panic p => Panic p end.

Definition is_ok {A} (r : result A) : bool :=
  match r with Ok _ => true | _ => false end.

(** [fmt.Errorf("pre: %w", err)] applied to the error of a result. *)
Definition wrap_err {A} (pre : string) (r : result A) : result A :=
  match r with Err e => Err (EWrap pre e EmptyString) | _ => r end.

(** ** Machine integers *)

(** Two's-complement wrap-around at width [w]. *)
Definition wrap (w z : Z) : Z := (z + 2 ^ (w - 1)) `mod` 2 ^ w - 2 ^ (w - 1).
Definition wrap64 (z : Z) : Z := wrap 64 z.
Definition wrap32 (z : Z) : Z := wrap 32 z.
Definition int64_max : Z := 2 ^ 63 - 1.
Definition int64_min : Z := - 2 ^ 63.
Definition int32_max : Z := 2 ^ 31 - 1.
Definition int32_min : Z := - 2 ^ 31.

Lemma wrap_small w z : 0 < w -> - 2 ^ (w - 1) <= z < 2 ^ (w - 1) -> wrap w z = z.
Proof.
  intros Hw Hz. unfold wrap.
  assert (2 ^ w = 2 * 2 ^ (w - 1)) as E.
  { rewrite <- Z.pow_succ_r by lia. f_equal; lia. }
  rewrite Z.mod_small; lia.
Qed.

Lemma wrap64_small z : int64_min <= z <= int64_max -> wrap64 z = z.
Proof. unfold int64_min, int64_max. intros. apply wrap_small; lia. Qed.

Lemma wrap32_small z : int32_min <= z <= int32_max -> wrap32 z = z.
Proof. unfold int32_min, int32_max. intros. apply wrap_small; lia. Qed.

(** ** Strings *)

Lemma string_app_assoc (a b c : string) : (a +:+ b) +:+ c = a +:+ (b +:+ c).
Proof.
  induction a as [|x a IH]; [done|].
  change (String x ((a +:+ b) +:+ c) = String x (a +:+ (b +:+ c))). by rewrite IH.
Qed.

Lemma string_app_nil_r (a : string) : a +:+ EmptyString = a.
Proof.
  induction a as [|x a IH]; [done|].
  change (String x (a +:+ EmptyString) = String x a). by rewrite IH.
Qed.

Lemma string_app_cons (c : ascii) (a b : string) :
  String c a +:+ b = String c (a +:+ b).
Proof. done. Qed.

(** Does a character occur in a string? *)
Fixpoint str_mem (c : ascii) (s : string) : bool :=
  match s with
  | EmptyString => false
  | String x s' => bool_decide (x = c) || str_mem c s'
  end.

Lemma str_mem_app c a b : str_mem c (a +:+ b) = str_mem c a || str_mem c b.
Proof.
  induction a as [|x a IH]; [done|].
  rewrite string_app_cons. simpl. by rewrite IH, orb_assoc.
Qed.

(** [strings.Cut(s, sep)] for a one-byte separator: split at the first one. *)
Fixpoint strings_Cut (s : string) (sep : ascii) : option (string * string) :=
  match s with
  | EmptyString => None
  | String x s' =>
      if bool_decide (x = sep) then Some (EmptyString, s')
      else '(a, b) ← strings_Cut s' sep; Some (String x a, b)
  end.

Lemma strings_Cut_app a b sep :
  str_mem sep a = false -> strings_Cut (a +:+ String sep b) sep = Some (a, b).
Proof.
  induction a as [|x a IH].
  - intros _. change (EmptyString +:+ String sep b) with (String sep b). simpl.
    by rewrite bool_decide_true.
  - simpl. intros [Hx Ha]%orb_false_iff.
    change (String.app (String x a) (String sep b)) with (String x (a +:+ String sep b)).
    simpl. by rewrite Hx, IH.
Qed.

Lemma strings_Cut_None s sep : str_mem sep s = false -> strings_Cut s sep = None.
Proof.
  induction s as [|x s IH]; simpl; [done|].
  intros [Hx Hs]%orb_false_iff. by rewrite Hx, IH.
Qed.

(** [strings.Join(elems, sep)]. *)
Fixpoint strings_Join (elems : list string) (sep : string) : string :=
  match elems with
  | [] => EmptyString
  | [x] => x
  | x :: xs => x +:+ sep +:+ strings_Join xs sep
  end.

(** ** Automation *)

(** Split the conjunctions of a goal and close what is trivial. *)
Ltac split_all := repeat split; try done.

(** Case analysis on the scrutinee of a [match] in a hypothesis of the form
    [... = Ok _], discarding the branches that end in an error. *)
Ltac ok_inv H :=
  repeat (simpl in H;
    match type of H with
    | Ok _ = Ok _ => injection H as H; try subst
    | Err _ = Ok _ => discriminate H
    | Panic _ = Ok _ => discriminate H
    | context [match ?m with _ => _ end] =>
        let E := fresh "E" in destruct m eqn:E; try discriminate H
    end).

(** Enumerate the values of a decimal digit. *)
Ltac digit_cases d :=
  let H := fresh "Hdigit" in
  assert (d = 0 ∨ d = 1 ∨ d = 2 ∨ d = 3 ∨ d = 4 ∨ d = 5 ∨ d = 6 ∨ d = 7
    ∨ d = 8 ∨ d = 9) as H by lia;
  destruct_or! H; subst d.

(** Prove an equality of computed values through the normal form of its left side, so
    that the kernel compares each side with constructors only. *)
Ltac by_eval :=
  match goal with |- ?a = ?b =>
    let v := eval vm_compute in a in
    exact_no_check (@eq_trans _ a v b (@eq_refl _ v) (@eq_refl _ v))
  end.

Create HintDb padma discriminated.
Create Rewrite HintDb padma_str.
#[export] Hint Rewrite string_app_assoc string_app_nil_r string_app_cons
  str_mem_app : padma_str.
