(* ===== verification/Strconv.v ===== *)
(** * The parts of Go's [strconv] and [math/big] the program calls

    Decimal printing ([fmt]'s [%d], [strconv.Itoa]), [strconv.Atoi] with its
    64-bit range check, and [big.Int.Text(16)].  These are the standard
    library's, modelled because configuration loading, query-parameter parsing
    and the amount bridge are only as good as them. *)

From S2P Require Import Prelude.
From Stdlib Require Import HexString.

(** ** Decimal digits *)

Definition digit_char (d : Z) : ascii := ascii_of_nat (48 + Z.to_nat d).

Definition digit_val (c : ascii) : option Z :=
  let n := Z.of_nat (nat_of_ascii c) in
  if (48 <=? n) && (n <=? 57) then Some (n - 48) else None.

Arguments digit_char : simpl never.
Arguments digit_val : simpl never.

Lemma digit_val_char d : 0 <= d < 10 -> digit_val (digit_char d) = Some d.
Proof.
  intros. digit_cases d; done.
Qed.

Lemma digit_val_bound c d : digit_val c = Some d -> 0 <= d < 10.
Proof.
  unfold digit_val. case_match; [|done]. intros [= <-]. lia.
Qed.

(** Proofs go through the two lemmas above; evaluation is by [vm_compute]. *)
#[global] Opaque digit_char digit_val.

(** Most significant digit first, in front of [acc]. *)
Fixpoint dec_digits (fuel : nat) (n : Z) (acc : string) : string :=
  match fuel with
  | O => acc
  | S f =>
      let acc' := String (digit_char (n `mod` 10)) acc in
      if n <? 10 then acc' else dec_digits f (n / 10) acc'
  end.

(** Decimal text of a non-negative integer; [log2 n + 1] digits are enough. *)
Definition format_uint (n : Z) : string :=
  dec_digits (S (Z.to_nat (Z.log2 n))) n EmptyString.

(** [strconv.Itoa], and [%d] of [fmt]. *)
Definition Itoa (n : Z) : string :=
  if n <? 0 then String "-" (format_uint (- n)) else format_uint n.

(** ** Atoi *)

Definition dquote : ascii := ascii_of_nat 34.

Definition hex_low (n : nat) : ascii :=
  match String.get n "0123456789abcdef" with Some c => c | None => "0"%char end.

(** [strconv.Quote] ([%q]) of text in which every byte from 0x80 up belongs to a
    printable UTF-8 sequence, which is copied. *)
Definition quote_char (c : ascii) : string :=
  let n := nat_of_ascii c in
  if bool_decide (c = dquote) || bool_decide (n = 92%nat) then
    String (ascii_of_nat 92) (String c EmptyString)
  else if bool_decide (n < 32)%nat || bool_decide (n = 127%nat) then
    String (ascii_of_nat 92)
      match n with
      | 7%nat => "a" | 8%nat => "b" | 9%nat => "t" | 10%nat => "n"
      | 11%nat => "v" | 12%nat => "f" | 13%nat => "r"
      | _ => String "x" (String (hex_low (n / 16)%nat) (String (hex_low (n mod 16)%nat) EmptyString))
      end
  else String c EmptyString.

Fixpoint concat_map (f : ascii -> string) (s : string) : string :=
  match s with EmptyString => EmptyString | String c s' => f c +:+ concat_map f s' end.

Definition go_quote (s : string) : string :=
  String dquote (concat_map quote_char s +:+ String dquote EmptyString).

Definition num_error (fn s : string) (why : sentinel) : error :=
  EWrap ("strconv." +:+ fn +:+ ": parsing " +:+ go_quote s +:+ ": ")
    (ESent why) EmptyString.

Definition uint64_max : Z := 2 ^ 64 - 1.

(** [strconv.ParseUint(s, 10, 64)] after the sign: digit by digit, the range
    check made before the digit is added. *)
Fixpoint parse_uint64 (n : Z) (s : string) : sum sentinel Z :=
  match s with
  | EmptyString => inr n
  | String c s' =>
      match digit_val c with
      | None => inl StrconvErrSyntax
      | Some d =>
          if uint64_max <? n * 10 + d then inl StrconvErrRange
          else parse_uint64 (n * 10 + d) s'
      end
  end.

Definition parse_digits (neg : bool) (s0 s : string) : result Z :=
  match s with
  | EmptyString => Err (num_error "Atoi" s0 StrconvErrSyntax)
  | _ =>
      match parse_uint64 0 s with
      | inl why => Err (num_error "Atoi" s0 why)
      | inr un =>
          if neg then
            if 2 ^ 63 <? un then Err (num_error "Atoi" s0 StrconvErrRange)
            else Ok (- un)
          else
            if 2 ^ 63 <=? un then Err (num_error "Atoi" s0 StrconvErrRange)
            else Ok un
      end
  end.

(** [strconv.Atoi] on a 64-bit platform. *)
Definition Atoi (s : string) : result Z :=
  match s with
  | String c s' =>
      if bool_decide (c = "-"%char) then parse_digits true s s'
      else if bool_decide (c = "+"%char) then parse_digits false s s'
      else parse_digits false s s
  | EmptyString => Err (num_error "Atoi" s StrconvErrSyntax)
  end.

(** ** Hexadecimal text of a [big.Int] *)

(** [big.Int.Text(16)]: lower-case digits, a sign for negatives, no prefix. *)
Definition big_Text16 (v : Z) : string :=
  match v with
  | Z0 => "0"
  | Zpos p => HexString.Raw.of_pos p EmptyString
  | Zneg p => String "-" (HexString.Raw.of_pos p EmptyString)
  end.

(** ** Facts *)

Lemma dec_digits_parse fuel n acc :
  0 <= n < 2 ^ Z.of_nat fuel -> n <= uint64_max ->
  parse_uint64 0 (dec_digits fuel n acc) = parse_uint64 n acc.
Proof.
  revert n acc. induction fuel as [|f IH]; intros n acc Hn Hmax.
  - simpl in *. by replace n with 0 by lia.
  - pose proof (Z.mod_pos_bound n 10 ltac:(lia)).
    pose proof (Z.div_mod n 10 ltac:(lia)) as E.
    cbn [dec_digits]. destruct (Z.ltb_spec n 10).
    + cbn [parse_uint64]. rewrite Z.mod_small, digit_val_char by lia.
      destruct (Z.ltb_spec uint64_max (0 * 10 + n)); [lia|]. done.
    + rewrite Nat2Z.inj_succ, Z.pow_succ_r in Hn by lia.
      rewrite IH; [|split; [apply Z.div_pos; lia|apply Z.div_lt_upper_bound; lia]|lia].
      cbn [parse_uint64]. rewrite digit_val_char by lia.
      replace (n / 10 * 10 + n `mod` 10) with n by lia.
      destruct (Z.ltb_spec uint64_max n); [lia|]. done.
Qed.

Lemma parse_format_uint n acc :
  0 <= n <= uint64_max ->
  parse_uint64 0 (dec_digits (S (Z.to_nat (Z.log2 n))) n acc) = parse_uint64 n acc.
Proof.
  intros. apply dec_digits_parse; [|lia]. split; [lia|].
  rewrite Nat2Z.inj_succ, Z2Nat.id by apply Z.log2_nonneg.
  destruct (decide (n = 0)) as [->|]; [done|]. apply Z.log2_spec. lia.
Qed.

Lemma dec_digits_head fuel n acc :
  0 <= n -> ∃ (d : Z) (s : string), 0 <= d < 10 ∧ dec_digits (S fuel) n acc = String (digit_char d) s.
Proof.
  revert n acc. induction fuel as [|f IH]; intros n acc Hn.
  - exists (n `mod` 10), acc. split; [apply Z.mod_pos_bound; lia|].
    simpl. by case_match.
  - cbn [dec_digits]. destruct (Z.ltb_spec n 10).
    + exists (n `mod` 10), acc. split; [apply Z.mod_pos_bound; lia|]. done.
    + apply (IH (n / 10)). apply Z.div_pos; lia.
Qed.

Lemma digit_char_ne d c : 0 <= d < 10 -> digit_val c = None -> digit_char d ≠ c.
Proof. intros Hd Hc <-. by rewrite digit_val_char in Hc. Qed.

Lemma digit_char_not_sign d :
  0 <= d < 10 -> digit_char d ≠ "-"%char ∧ digit_char d ≠ "+"%char.
Proof.
  intros Hd. split; apply digit_char_ne; try done; vm_compute; reflexivity.
Qed.

Lemma format_uint_head n :
  0 <= n -> ∃ (d : Z) (s : string), 0 <= d < 10 ∧ format_uint n = String (digit_char d) s.
Proof. apply dec_digits_head. Qed.

Lemma parse_digits_format (neg : bool) (s0 : string) (n : Z) :
  0 <= n -> (if neg then n <= 2 ^ 63 else n < 2 ^ 63) ->
  parse_digits neg s0 (format_uint n) = Ok (if neg then - n else n).
Proof.
  intros Hn Hr. destruct (format_uint_head n Hn) as (d & s & Hd & E).
  unfold parse_digits. rewrite E. rewrite <- E. unfold format_uint.
  rewrite parse_format_uint by (unfold uint64_max; destruct neg; lia).
  simpl. destruct neg; case_match; try done; lia.
Qed.

Lemma Atoi_Itoa_ok z : int64_min <= z <= int64_max -> Atoi (Itoa z) = Ok z.
Proof.
  unfold int64_min, int64_max. intros Hz. unfold Itoa. destruct (Z.ltb_spec z 0).
  - unfold Atoi. rewrite bool_decide_true by done.
    rewrite parse_digits_format by lia. f_equal. lia.
  - destruct (format_uint_head z) as (d & s & Hd & E); [lia|].
    unfold Atoi. rewrite E.
    destruct (digit_char_not_sign d Hd).
    rewrite !bool_decide_false by done. rewrite <- E.
    by rewrite parse_digits_format by lia.
Qed.

Lemma parse_uint64_bound n s v :
  0 <= n <= uint64_max -> parse_uint64 n s = inr v -> n <= v <= uint64_max.
Proof.
  revert n. induction s as [|c s IH]; simpl; intros n Hn; [intros [= <-]; lia|].
  destruct (digit_val c) as [d|] eqn:Hd; [|done].
  apply digit_val_bound in Hd.
  destruct (Z.ltb_spec uint64_max (n * 10 + d)); [done|].
  intros H'. apply IH in H'; lia.
Qed.

Lemma parse_digits_range neg s0 s z :
  parse_digits neg s0 s = Ok z -> int64_min <= z <= int64_max.
Proof.
  unfold parse_digits, int64_min, int64_max. intros H. destruct s as [|c s]; [done|].
  destruct (parse_uint64 0 (String c s)) as [why|un] eqn:E; [done|].
  apply parse_uint64_bound in E; [|unfold uint64_max; lia].
  destruct neg; repeat case_match; simplify_eq; lia.
Qed.

Lemma Atoi_range s z : Atoi s = Ok z -> int64_min <= z <= int64_max.
Proof.
  unfold Atoi. destruct s as [|c s]; [done|].
  repeat case_match; apply parse_digits_range.
Qed.

#[export] Hint Resolve Atoi_range : padma.
