(* ===== verification/Base64.v ===== *)
(** * [encoding/base64]: RawURLEncoding

    The unpadded URL-safe alphabet used by the pagination cursors of
    internal/query/cursor.go.  A Go string is a byte sequence, so both sides are
    Rocq strings.  Decoding skips CR and LF and does not check the unused bits of
    the last quantum, as the non-strict Go decoder does. *)

From S2P Require Import Prelude.

Definition byte_of (c : ascii) : Z := Z.of_nat (nat_of_ascii c).
Definition of_byte (z : Z) : ascii := ascii_of_nat (Z.to_nat z).

Definition alphabet : string :=
  "ABCDEFGHIJKLMNOPQRSTUVWXYZabcdefghijklmnopqrstuvwxyz0123456789-_".

Definition b64_char (d : Z) : ascii :=
  match String.get (Z.to_nat d) alphabet with Some c => c | None => "A"%char end.

(** Position of a character in the alphabet. *)
Fixpoint index_of (c : ascii) (s : string) (i : Z) : option Z :=
  match s with
  | EmptyString => None
  | String x s' => if bool_decide (x = c) then Some i else index_of c s' (i + 1)
  end.

Definition b64_val (c : ascii) : option Z := index_of c alphabet 0.

(** [EncodeToString]: three bytes to four characters; a last group of one or two
    bytes gives two or three characters. *)
Fixpoint EncodeToString (s : string) : string :=
  match s with
  | EmptyString => EmptyString
  | String a EmptyString =>
      let v := byte_of a * 2 ^ 16 in
      String (b64_char (v / 2 ^ 18)) (String (b64_char ((v / 2 ^ 12) `mod` 64)) EmptyString)
  | String a (String b EmptyString) =>
      let v := byte_of a * 2 ^ 16 + byte_of b * 2 ^ 8 in
      String (b64_char (v / 2 ^ 18)) (String (b64_char ((v / 2 ^ 12) `mod` 64))
        (String (b64_char ((v / 2 ^ 6) `mod` 64)) EmptyString))
  | String a (String b (String c rest)) =>
      let v := byte_of a * 2 ^ 16 + byte_of b * 2 ^ 8 + byte_of c in
      String (b64_char (v / 2 ^ 18)) (String (b64_char ((v / 2 ^ 12) `mod` 64))
        (String (b64_char ((v / 2 ^ 6) `mod` 64)) (String (b64_char (v `mod` 64))
          (EncodeToString rest))))
  end.

Definition is_newline (c : ascii) : bool :=
  bool_decide (c = "010"%char) || bool_decide (c = "013"%char).

Fixpoint strip_newlines (s : string) : string :=
  match s with
  | EmptyString => EmptyString
  | String c s' => if is_newline c then strip_newlines s' else String c (strip_newlines s')
  end.

Fixpoint decode_quanta (s : string) : option string :=
  match s with
  | EmptyString => Some EmptyString
  | String c0 (String c1 EmptyString) =>
      d0 ← b64_val c0; d1 ← b64_val c1;
      let v := d0 * 2 ^ 18 + d1 * 2 ^ 12 in
      Some (String (of_byte (v / 2 ^ 16)) EmptyString)
  | String c0 (String c1 (String c2 EmptyString)) =>
      d0 ← b64_val c0; d1 ← b64_val c1; d2 ← b64_val c2;
      let v := d0 * 2 ^ 18 + d1 * 2 ^ 12 + d2 * 2 ^ 6 in
      Some (String (of_byte (v / 2 ^ 16)) (String (of_byte ((v / 2 ^ 8) `mod` 256)) EmptyString))
  | String c0 (String c1 (String c2 (String c3 rest))) =>
      d0 ← b64_val c0; d1 ← b64_val c1; d2 ← b64_val c2; d3 ← b64_val c3;
      let v := d0 * 2 ^ 18 + d1 * 2 ^ 12 + d2 * 2 ^ 6 + d3 in
      tl ← decode_quanta rest;
      Some (String (of_byte (v / 2 ^ 16)) (String (of_byte ((v / 2 ^ 8) `mod` 256))
        (String (of_byte (v `mod` 256)) tl)))
  | String _ EmptyString => None
  end.

(** [DecodeString]; the byte offset in the error text is not modelled. *)
Definition DecodeString (s : string) : result string :=
  match decode_quanta (strip_newlines s) with
  | Some b => Ok b
  | None => Err (EText "illegal base64 data")
  end.

(** ** Facts *)

Lemma byte_of_range c : 0 <= byte_of c < 256.
Proof. unfold byte_of. pose proof (nat_ascii_bounded c). lia. Qed.

Lemma of_byte_of c z : z = byte_of c -> of_byte z = c.
Proof. intros ->. unfold of_byte, byte_of. by rewrite Nat2Z.id, ascii_nat_embedding. Qed.

(** The 64 characters, checked one by one. *)
Definition char_checks (d : Z) : bool :=
  bool_decide (b64_val (b64_char d) = Some d) && negb (is_newline (b64_char d)).

Lemma char_checks_all d : 0 <= d < 64 -> char_checks d = true.
Proof.
  intros Hd.
  assert (forallb char_checks (seqZ 0 64) = true) as H by (vm_compute; reflexivity).
  rewrite forallb_forall in H. apply H. apply list_elem_of_In, elem_of_seqZ. lia.
Qed.

Lemma b64_val_char d : 0 <= d < 64 -> b64_val (b64_char d) = Some d.
Proof.
  intros H%char_checks_all. unfold char_checks in H.
  apply andb_prop in H as [H _]. by apply bool_decide_eq_true in H.
Qed.

Lemma b64_char_newline d : 0 <= d < 64 -> is_newline (b64_char d) = false.
Proof.
  intros H%char_checks_all. unfold char_checks in H.
  apply andb_prop in H as [_ H]. by apply negb_true_iff in H.
Qed.

(** Induction three bytes at a time. *)
Lemma string_ind3 (P : string -> Prop) :
  P EmptyString ->
  (forall a, P (String a EmptyString)) ->
  (forall a b, P (String a (String b EmptyString))) ->
  (forall a b c s, P s -> P (String a (String b (String c s)))) ->
  forall s, P s.
Proof.
  intros H0 H1 H2 H3 s.
  enough (forall n s, (String.length s <= n)%nat -> P s) by eauto.
  clear s. induction n as [|n IH]; intros [|a [|b [|c s]]] Hs; simpl in Hs;
    try lia; auto. apply H3, IH. lia.
Qed.

Ltac b64_bytes :=
  repeat match goal with
  | c : ascii |- _ =>
      lazymatch goal with
      | _ : 0 <= byte_of c < 256 |- _ => fail
      | _ => pose proof (byte_of_range c)
      end
  end.

(** The six-bit groups of a 24-bit value. *)
Lemma sextets v :
  0 <= v < 2 ^ 24 ->
  0 <= v / 2 ^ 18 < 64 ∧ 0 <= (v / 2 ^ 12) `mod` 64 < 64 ∧
  0 <= (v / 2 ^ 6) `mod` 64 < 64 ∧ 0 <= v `mod` 64 < 64 ∧
  v = v / 2 ^ 18 * 2 ^ 18 + (v / 2 ^ 12) `mod` 64 * 2 ^ 12
      + (v / 2 ^ 6) `mod` 64 * 2 ^ 6 + v `mod` 64.
Proof.
  intros. change (2 ^ 24) with 16777216 in *.
  assert (v / 2 ^ 12 = v / 64 / 64) as -> by (by rewrite Z.div_div by lia).
  assert (v / 2 ^ 18 = v / 64 / 64 / 64) as -> by (by rewrite !Z.div_div by lia).
  change (2 ^ 18) with 262144. change (2 ^ 12) with 4096. change (2 ^ 6) with 64.
  Z.to_euclidean_division_equations. lia.
Qed.

Lemma strip_newlines_char d s :
  0 <= d < 64 ->
  strip_newlines (String (b64_char d) s) = String (b64_char d) (strip_newlines s).
Proof. intros H. simpl. by rewrite b64_char_newline. Qed.

Lemma strip_newlines_encode s : strip_newlines (EncodeToString s) = EncodeToString s.
Proof.
  induction s as [|a|a b|a b c s IH] using string_ind3; [done|..];
    b64_bytes; cbn [EncodeToString].
  - destruct (sextets (byte_of a * 2 ^ 16)) as (?&?&?&?&_); [lia|].
    by rewrite !strip_newlines_char by done.
  - destruct (sextets (byte_of a * 2 ^ 16 + byte_of b * 2 ^ 8)) as (?&?&?&?&_); [lia|].
    by rewrite !strip_newlines_char by done.
  - destruct (sextets (byte_of a * 2 ^ 16 + byte_of b * 2 ^ 8 + byte_of c))
      as (?&?&?&?&_); [lia|].
    by rewrite !strip_newlines_char, IH by done.
Qed.

Lemma decode_quanta_encode s : decode_quanta (EncodeToString s) = Some s.
Proof.
  induction s as [|a|a b|a b c s IH] using string_ind3; [done|..]; b64_bytes.
  - cbn [EncodeToString].
    destruct (sextets (byte_of a * 2 ^ 16)) as (?&?&?&?&E); [lia|].
    cbn [decode_quanta]. rewrite !b64_val_char by done. cbn [mbind option_bind].
    do 2 f_equal. apply of_byte_of.
    change (2 ^ 18) with 262144 in *. change (2 ^ 12) with 4096 in *.
    change (2 ^ 16) with 65536 in *. change (2 ^ 6) with 64 in *.
    Z.to_euclidean_division_equations. lia.
  - cbn [EncodeToString]. set (v := byte_of a * 2 ^ 16 + byte_of b * 2 ^ 8).
    destruct (sextets v) as (?&?&?&?&E); [lia|].
    cbn [decode_quanta]. rewrite !b64_val_char by done. cbn [mbind option_bind].
    assert (v `mod` 64 = 0) as E0.
    { unfold v. change (2 ^ 16) with (1024 * 64). change (2 ^ 8) with (4 * 64).
      rewrite !Z.mul_assoc, <- Z.mul_add_distr_r. by rewrite Z.mod_mul. }
    rewrite E0, Z.add_0_r in E. rewrite <- E. unfold v.
    do 2 f_equal; [|f_equal]; apply of_byte_of;
      change (2 ^ 16) with 65536 in *; change (2 ^ 8) with 256 in *;
      Z.to_euclidean_division_equations; lia.
  - cbn [EncodeToString].
    set (v := byte_of a * 2 ^ 16 + byte_of b * 2 ^ 8 + byte_of c).
    destruct (sextets v) as (?&?&?&?&E); [lia|].
    cbn [decode_quanta]. rewrite !b64_val_char by done. cbn [mbind option_bind].
    rewrite IH. cbn [mbind option_bind]. rewrite <- E. unfold v.
    do 2 f_equal; [|f_equal; [|f_equal]]; apply of_byte_of;
      change (2 ^ 16) with 65536 in *; change (2 ^ 8) with 256 in *;
      Z.to_euclidean_division_equations; lia.
Qed.

Lemma DecodeString_EncodeToString s : DecodeString (EncodeToString s) = Ok s.
Proof. unfold DecodeString. by rewrite strip_newlines_encode, decode_quanta_encode. Qed.

Lemma EncodeToString_nonempty s : s ≠ EmptyString -> EncodeToString s ≠ EmptyString.
Proof. by destruct s as [|a [|b [|c s]]]. Qed.
