(* ===== verification/GoTime.v ===== *)
(** * Go's [time] package, as the program uses it

    An instant is the number of nanoseconds since 0001-01-01T00:00:00Z, the zero
    [time.Time]; the location is not kept, because every formatting call of the
    program goes through [UTC()] and a database column stores instants.
    [Format] and [Parse] are modelled for the RFC 3339 layouts.  [time.Parse]
    first tries [parseRFC3339], which is modelled in full; what it refuses goes to
    the general layout parser, a parameter here ([TimeParser]), so every theorem
    holds whatever that parser accepts. *)

From S2P Require Import Prelude Strconv.

Abbreviation Time := Z (only parsing).

Definition Nanosecond : Z := 1.
Definition Second : Z := 1000000000.
Definition Minute : Z := 60 * Second.
Definition day_ns : Z := 86400 * Second.

Definition time_IsZero (t : Time) : bool := t =? 0.

(** ** Calendar *)

Definition is_leap (y : Z) : bool :=
  ((y `mod` 4 =? 0) && negb (y `mod` 100 =? 0)) || (y `mod` 400 =? 0).

Definition days_before_year (y : Z) : Z :=
  365 * (y - 1) + (y - 1) / 4 - (y - 1) / 100 + (y - 1) / 400.

Definition month_lengths (y : Z) : list Z :=
  [31; if is_leap y then 29 else 28; 31; 30; 31; 30; 31; 31; 30; 31; 30; 31].

Definition days_in (y m : Z) : Z := nth (Z.to_nat (m - 1)) (month_lengths y) 0.

Definition sum_list (l : list Z) : Z := foldr Z.add 0 l.

Definition days_before_month (y m : Z) : Z :=
  sum_list (take (Z.to_nat (m - 1)) (month_lengths y)).

(** Year and day of the year of a day number, by 400-, 100-, 4- and 1-year
    cycles as the Go runtime does. *)
Definition year_yday (d : Z) : Z * Z :=
  let n400 := d / 146097 in
  let d1 := d `mod` 146097 in
  let n100 := Z.min 3 (d1 / 36524) in
  let d2 := d1 - n100 * 36524 in
  let n4 := d2 / 1461 in
  let d3 := d2 `mod` 1461 in
  let n1 := Z.min 3 (d3 / 365) in
  (400 * n400 + 100 * n100 + 4 * n4 + n1 + 1, d3 - 365 * n1).

Fixpoint find_month (lens : list Z) (m yday : Z) : Z * Z :=
  match lens with
  | [] => (m, yday + 1)
  | l :: rest => if yday <? l then (m, yday + 1) else find_month rest (m + 1) (yday - l)
  end.

Record civil := Civil {
  c_year : Z; c_month : Z; c_day : Z; c_hour : Z; c_min : Z; c_sec : Z; c_nsec : Z
}.

(** [Time.Date] and [Time.Clock] of a UTC instant. *)
Definition to_civil (t : Time) : civil :=
  let d := t / day_ns in
  let tod := t `mod` day_ns in
  let secs := tod / Second in
  let yd := year_yday d in
  let md := find_month (month_lengths (fst yd)) 1 (snd yd) in
  Civil (fst yd) (fst md) (snd md)
    (secs / 3600) ((secs / 60) `mod` 60) (secs `mod` 60) (tod `mod` Second).

(** [time.Date(..., time.UTC)] of in-range fields. *)
Definition of_civil (c : civil) : Time :=
  (days_before_year (c_year c) + days_before_month (c_year c) (c_month c)
     + c_day c - 1) * day_ns
  + (c_hour c * 3600 + c_min c * 60 + c_sec c) * Second + c_nsec c.

(** ** Formatting *)

Definition pad2 (n : Z) (rest : string) : string :=
  String (digit_char (n / 10)) (String (digit_char (n `mod` 10)) rest).

Definition pad4 (n : Z) (rest : string) : string :=
  String (digit_char (n / 1000)) (String (digit_char ((n / 100) `mod` 10))
    (String (digit_char ((n / 10) `mod` 10)) (String (digit_char (n `mod` 10)) rest))).

(** The four-digit year; longer or negative years are not truncated. *)
Definition pad_year (y : Z) (rest : string) : string :=
  if (0 <=? y) && (y <=? 9999) then pad4 y rest
  else if (y <? 0) && (-9999 <=? y) then String "-" (pad4 (- y) rest)
  else Itoa y +:+ rest.

Fixpoint digits_string (ds : list Z) (rest : string) : string :=
  match ds with [] => rest | d :: ds' => String (digit_char d) (digits_string ds' rest) end.

(** The nine digits of a nanosecond count. *)
Definition nine_digits (n : Z) : list Z :=
  (fun k => (n / 10 ^ k) `mod` 10) <$> [8; 7; 6; 5; 4; 3; 2; 1; 0].

Fixpoint trim_zeros (ds : list Z) : list Z :=
  match ds with
  | [] => []
  | d :: ds' =>
      match trim_zeros ds' with
      | [] => if d =? 0 then [] else [d]
      | r => d :: r
      end
  end.

Definition frac_string (nsec : Z) (rest : string) : string :=
  match trim_zeros (nine_digits nsec) with
  | [] => rest
  | ds => String "." (digits_string ds rest)
  end.

Definition format_datetime (c : civil) (rest : string) : string :=
  pad_year (c_year c) (String "-" (pad2 (c_month c) (String "-" (pad2 (c_day c)
    (String "T" (pad2 (c_hour c) (String ":" (pad2 (c_min c) (String ":"
      (pad2 (c_sec c) rest)))))))))).

(** [t.UTC().Format(time.RFC3339Nano)]. *)
Definition format_RFC3339Nano (t : Time) : string :=
  let c := to_civil t in format_datetime c (frac_string (c_nsec c) "Z").

(** The "Z07:00" of a layout, for an offset in seconds east of UTC. *)
Definition format_zone (off : Z) : string :=
  if off =? 0 then "Z"
  else
    let zone := Z.quot off 60 in
    String (if zone <? 0 then "-" else "+")
      (pad2 (Z.abs zone / 60) (String ":" (pad2 (Z.abs zone `mod` 60) EmptyString))).

(** [t.Format(time.RFC3339Nano)] of a time whose location has this offset, which is what
    [Time.MarshalJSON] writes between the quotes. *)
Definition format_RFC3339Nano_in (off : Z) (t : Time) : string :=
  let c := to_civil (t + off * Second) in
  format_datetime c (frac_string (c_nsec c) (format_zone off)).

(** [t.UTC().Format(time.RFC3339)], the same as the layout
    "2006-01-02T15:04:05Z" of a UTC time. *)
Definition format_RFC3339 (t : Time) : string :=
  format_datetime (to_civil t) "Z".

(** ** Parsing *)

(** [parseUint] over two digits, with its range check. *)
Definition parse2 (a b : ascii) (lo hi : Z) : option Z :=
  d1 ← digit_val a; d0 ← digit_val b;
  let x := d1 * 10 + d0 in
  if (lo <=? x) && (x <=? hi) then Some x else None.

Definition parse4 (a b c d : ascii) : option Z :=
  d3 ← digit_val a; d2 ← digit_val b; d1 ← digit_val c; d0 ← digit_val d;
  Some (((d3 * 10 + d2) * 10 + d1) * 10 + d0).

Fixpoint span_digits (s : string) : list Z * string :=
  match s with
  | EmptyString => ([], s)
  | String c s' =>
      match digit_val c with
      | Some d => let '(ds, r) := span_digits s' in (d :: ds, r)
      | None => ([], s)
      end
  end.

Definition digits_value (ds : list Z) : Z := foldl (fun a d => a * 10 + d) 0 ds.

(** [parseNanoseconds]: digits after the ninth are dropped, missing ones are 0. *)
Definition frac_value (ds : list Z) : Z := digits_value (take 9 (ds ++ replicate 9 0)).

Definition parse_frac (s : string) : Z * string :=
  match s with
  | String "." s' =>
      match span_digits s' with
      | ([], _) => (0, s)
      | (ds, r) => (frac_value ds, r)
      end
  | _ => (0, s)
  end.

(** The zone offset in seconds east of UTC. *)
Definition parse_zone (s : string) : option Z :=
  match s with
  | String "Z" EmptyString => Some 0
  | String sg (String a (String b (String ":" (String c (String d EmptyString))))) =>
      hr ← parse2 a b 0 23; mm ← parse2 c d 0 59;
      if bool_decide (sg = "-"%char) then Some (- ((hr * 60 + mm) * 60))
      else if bool_decide (sg = "+"%char) then Some ((hr * 60 + mm) * 60)
      else None
  | _ => None
  end.

(** [parseRFC3339] of package time. *)
Definition parse_RFC3339 (s : string) : option Time :=
  match s with
  | String y3 (String y2 (String y1 (String y0 (String "-" (String m1 (String m0
      (String "-" (String d1 (String d0 (String "T" (String h1 (String h0
      (String ":" (String i1 (String i0 (String ":" (String s1 (String s0
      rest)))))))))))))))))) =>
      year ← parse4 y3 y2 y1 y0;
      month ← parse2 m1 m0 1 12;
      day ← parse2 d1 d0 1 (days_in year month);
      hour ← parse2 h1 h0 0 23;
      min ← parse2 i1 i0 0 59;
      sec ← parse2 s1 s0 0 59;
      let '(nsec, zone) := parse_frac rest in
      off ← parse_zone zone;
      Some (of_civil (Civil year month day hour min sec nsec) - off * Second)
  | _ => None
  end.

(** The layout-driven parser [parse(layout, value, UTC, Local)] that
    [time.Parse] falls back to. *)
Class TimeParser := parse_layout : string -> string -> result Time.

Definition RFC3339 : string := "2006-01-02T15:04:05Z07:00".
Definition RFC3339Nano : string := "2006-01-02T15:04:05.999999999Z07:00".

(** [time.Parse] for these two layouts. *)
Definition time_Parse `{TimeParser} (layout value : string) : result Time :=
  match parse_RFC3339 value with
  | Some t => Ok t
  | None => parse_layout layout value
  end.

Example format_example :
  format_RFC3339Nano 63919197045123456700 = "2026-07-09T12:30:45.1234567Z".
Proof. vm_compute. reflexivity. Qed.

Example parse_example :
  parse_RFC3339 "2026-07-09T14:30:45.1234567+02:00" = Some 63919197045123456700.
Proof. vm_compute. reflexivity. Qed.

(** ** Facts: the calendar *)

Lemma year_yday_spec d y yd :
  year_yday d = (y, yd) ->
  d = days_before_year y + yd ∧ 0 <= yd < (if is_leap y then 366 else 365).
Proof.
  unfold year_yday. intros [= <- <-].
  set (a := d / 146097). set (d1 := d `mod` 146097).
  set (b := Z.min 3 (d1 / 36524)). set (d2 := d1 - b * 36524).
  set (c := d2 / 1461). set (d3 := d2 `mod` 1461). set (e := Z.min 3 (d3 / 365)).
  assert (d = 146097 * a + d1 ∧ 0 <= d1 < 146097) as [Hd Hd1].
  { unfold a, d1. Z.to_euclidean_division_equations. lia. }
  assert (0 <= b <= 3 ∧ 0 <= d2 ∧ (b <= 2 -> d2 < 36524) ∧ d2 <= 36524) as (Hb & Hd2 & ? & ?).
  { pose proof (Z.div_mod d1 36524 ltac:(lia)).
    pose proof (Z.mod_pos_bound d1 36524 ltac:(lia)). unfold d2, b.
    generalize dependent (d1 / 36524). generalize dependent (d1 `mod` 36524). lia. }
  assert (d2 = 1461 * c + d3 ∧ 0 <= d3 < 1461 ∧ 0 <= c <= 24) as (Hd3 & ? & Hc).
  { pose proof (Z.div_mod d2 1461 ltac:(lia)).
    pose proof (Z.mod_pos_bound d2 1461 ltac:(lia)). unfold c, d3.
    generalize dependent (d2 / 1461). generalize dependent (d2 `mod` 1461). lia. }
  assert (0 <= e <= 3 ∧ 0 <= d3 - 365 * e <= 365 ∧ (e <= 2 -> d3 - 365 * e < 365))
    as (He & ? & ?).
  { pose proof (Z.div_mod d3 365 ltac:(lia)).
    pose proof (Z.mod_pos_bound d3 365 ltac:(lia)). unfold e.
    generalize dependent (d3 / 365). generalize dependent (d3 `mod` 365). lia. }
  assert ((d2 = d1 - b * 36524)) as Hd2' by done.
  clearbody a b c e d1 d2 d3.
  set (y := 400 * a + 100 * b + 4 * c + e + 1).
  assert ((y - 1) / 4 = 100 * a + 25 * b + c ∧ (y - 1) / 100 = 4 * a + b
    ∧ (y - 1) / 400 = a) as (E4 & E100 & E400).
  { unfold y. Z.to_euclidean_division_equations. lia. }
  assert (d1 = 36524 * b + 1461 * c + d3) as Ed by lia.
  unfold days_before_year. rewrite E4, E100, E400.
  split; [unfold y in *; lia|].
  split; [lia|].
  assert (is_leap y = true ↔ e = 3 ∧ (c = 24 → b = 3)) as Hl.
  { unfold is_leap. rewrite orb_true_iff, andb_true_iff, negb_true_iff, !Z.eqb_eq, Z.eqb_neq.
    assert (y `mod` 4 = 0 ↔ e = 3) as -> by (unfold y; Z.to_euclidean_division_equations; lia).
    assert (y `mod` 100 = 0 ↔ e = 3 ∧ c = 24) as ->
      by (unfold y; Z.to_euclidean_division_equations; lia).
    assert (y `mod` 400 = 0 ↔ e = 3 ∧ c = 24 ∧ b = 3) as ->
      by (unfold y; Z.to_euclidean_division_equations; lia).
    lia. }
  destruct (is_leap y).
  - lia.
  - assert (¬ (e = 3 ∧ (c = 24 → b = 3))) as Hn by (rewrite <- Hl; done). lia.
Qed.

Lemma find_month_spec y yd m dd :
  0 <= yd < (if is_leap y then 366 else 365) ->
  find_month (month_lengths y) 1 yd = (m, dd) ->
  yd = days_before_month y m + dd - 1 ∧ 1 <= m <= 12 ∧ 1 <= dd <= days_in y m.
Proof.
  unfold month_lengths, days_before_month, days_in, month_lengths.
  destruct (is_leap y); intros Hyd; cbn [find_month];
    repeat match goal with
    | |- context [?a <? ?b] => destruct (Z.ltb_spec a b)
    end; intros [= <- <-];
    repeat match goal with
    | |- context [Z.to_nat ?e] =>
        let v := eval vm_compute in (Z.to_nat e) in change (Z.to_nat e) with v
    end; cbn [take nth sum_list foldr]; lia.
Qed.

Lemma days_in_bound y m : days_in y m <= 31.
Proof.
  unfold days_in, month_lengths.
  destruct (Z.to_nat (m - 1)) as [|[|[|[|[|[|[|[|[|[|[|[|n]]]]]]]]]]]]; simpl;
    try destruct (is_leap y); lia || (destruct n; lia).
Qed.

(** The decomposition of an instant is in range and recomposes. *)
Record civil_ok (c : civil) : Prop := {
  ok_month : 1 <= c_month c <= 12;
  ok_day : 1 <= c_day c <= days_in (c_year c) (c_month c);
  ok_hour : 0 <= c_hour c <= 23;
  ok_min : 0 <= c_min c <= 59;
  ok_sec : 0 <= c_sec c <= 59;
  ok_nsec : 0 <= c_nsec c < Second
}.

Lemma to_civil_spec t : civil_ok (to_civil t) ∧ of_civil (to_civil t) = t.
Proof.
  unfold to_civil.
  destruct (year_yday (t / day_ns)) as [y yd] eqn:Ey.
  apply year_yday_spec in Ey as [Ed Hyd]. cbn [fst snd].
  destruct (find_month (month_lengths y) 1 yd) as [m dd] eqn:Em.
  apply find_month_spec in Em as (Eyd & Hm & Hdd); [|done]. cbn [fst snd].
  set (tod := t `mod` day_ns).
  assert (t = t / day_ns * day_ns + tod ∧ 0 <= tod < day_ns) as [Et Htod].
  { unfold tod, day_ns, Second. Z.to_euclidean_division_equations. lia. }
  set (secs := tod / Second).
  assert (tod = secs * Second + tod `mod` Second ∧ 0 <= tod `mod` Second < Second
    ∧ 0 <= secs < 86400) as (Etod & Hns & Hsecs).
  { unfold secs, day_ns, Second in *. clearbody tod. Z.to_euclidean_division_equations. lia. }
  assert (secs = secs / 3600 * 3600 + (secs / 60) `mod` 60 * 60 + secs `mod` 60
    ∧ 0 <= secs / 3600 <= 23 ∧ 0 <= (secs / 60) `mod` 60 <= 59
    ∧ 0 <= secs `mod` 60 <= 59) as (Esecs & Hh & Hmi & Hs).
  { clearbody secs. replace (secs / 3600) with (secs / 60 / 60) by (by rewrite Z.div_div).
    Z.to_euclidean_division_equations. lia. }
  split; [constructor; assumption|].
  unfold of_civil; cbn [c_year c_month c_day c_hour c_min c_sec c_nsec].
  replace (days_before_year y + days_before_month y m + dd - 1) with (t / day_ns) by lia.
  rewrite <- Esecs. lia.
Qed.

(** ** Facts: text *)

(** The quotient and remainder of [n] by ten, as linear facts. *)
Ltac divmod10 n :=
  pose proof (Z.div_mod n 10 ltac:(lia)); pose proof (Z.mod_pos_bound n 10 ltac:(lia)).

Lemma parse2_pad2 n lo hi :
  0 <= n < 100 -> lo <= n <= hi ->
  parse2 (digit_char (n / 10)) (digit_char (n `mod` 10)) lo hi = Some n.
Proof.
  intros Hn Hr. unfold parse2.
  assert (0 <= n / 10 < 10 ∧ 0 <= n `mod` 10 < 10 ∧ n / 10 * 10 + n `mod` 10 = n)
    as (? & ? & E) by (Z.to_euclidean_division_equations; lia).
  rewrite !digit_val_char by done. cbn [mbind option_bind]. rewrite E.
  by rewrite !(proj2 (Z.leb_le _ _)) by lia.
Qed.

Lemma parse4_pad4 n :
  0 <= n <= 9999 ->
  parse4 (digit_char (n / 1000)) (digit_char ((n / 100) `mod` 10))
    (digit_char ((n / 10) `mod` 10)) (digit_char (n `mod` 10)) = Some n.
Proof.
  intros Hn. unfold parse4.
  replace (n / 1000) with (n / 10 / 10 / 10) by (by rewrite !Z.div_div).
  replace (n / 100) with (n / 10 / 10) by (by rewrite !Z.div_div).
  divmod10 n. divmod10 (n / 10). divmod10 (n / 10 / 10).
  rewrite !digit_val_char by lia. cbn [mbind option_bind]. f_equal. lia.
Qed.

Lemma span_digits_string ds c rest :
  Forall (fun d => 0 <= d < 10) ds -> digit_val c = None ->
  span_digits (digits_string ds (String c rest)) = (ds, String c rest).
Proof.
  intros Hds Hc. induction Hds as [|d ds Hd Hds IH];
    cbn [digits_string span_digits].
  - by rewrite Hc.
  - by rewrite digit_val_char, IH.
Qed.

Lemma trim_zeros_replicate ds :
  ∃ k, ds = trim_zeros ds ++ replicate k 0.
Proof.
  induction ds as [|d ds (k & IH)]; simpl; [by exists 0%nat|].
  destruct (trim_zeros ds) as [|x xs] eqn:E.
  - destruct (Z.eqb_spec d 0) as [->|].
    + exists (S k). simpl in *. by rewrite <- IH.
    + exists k. simpl in *. by rewrite <- IH.
  - exists k. simpl in *. by rewrite <- IH.
Qed.

Lemma frac_value_trim ds :
  length ds = 9%nat -> frac_value (trim_zeros ds) = digits_value ds.
Proof.
  intros Hl. unfold frac_value. f_equal.
  destruct (trim_zeros_replicate ds) as (k & E).
  assert (length (trim_zeros ds) + k = 9)%nat as Hk.
  { rewrite <- Hl. rewrite E at 2. by rewrite length_app, length_replicate. }
  replace 9%nat with (k + (9 - k))%nat at 2 by lia.
  rewrite replicate_add, (assoc_L (++)), <- E.
  rewrite take_app_le by lia. apply take_ge. lia.
Qed.

Lemma nine_digits_value n : 0 <= n < Second -> digits_value (nine_digits n) = n.
Proof.
  unfold Second, digits_value, nine_digits. intros Hn.
  cbn [fmap list_fmap foldl].
  change (10 ^ 8) with (10 * 10 * 10 * 10 * 10 * 10 * 10 * 10).
  change (10 ^ 7) with (10 * 10 * 10 * 10 * 10 * 10 * 10).
  change (10 ^ 6) with (10 * 10 * 10 * 10 * 10 * 10).
  change (10 ^ 5) with (10 * 10 * 10 * 10 * 10).
  change (10 ^ 4) with (10 * 10 * 10 * 10).
  change (10 ^ 3) with (10 * 10 * 10).
  change (10 ^ 2) with (10 * 10). change (10 ^ 1) with 10. change (10 ^ 0) with 1.
  rewrite <- !Z.div_div by lia. rewrite Z.div_1_r.
  divmod10 n. set (n1 := n / 10) in *. divmod10 n1. set (n2 := n1 / 10) in *.
  divmod10 n2. set (n3 := n2 / 10) in *. divmod10 n3. set (n4 := n3 / 10) in *.
  divmod10 n4. set (n5 := n4 / 10) in *. divmod10 n5. set (n6 := n5 / 10) in *.
  divmod10 n6. set (n7 := n6 / 10) in *. divmod10 n7. set (n8 := n7 / 10) in *.
  divmod10 n8. clearbody n1 n2 n3 n4 n5 n6 n7 n8. lia.
Qed.

Lemma nine_digits_range n : Forall (fun d => 0 <= d < 10) (nine_digits n).
Proof.
  unfold nine_digits. apply Forall_fmap, Forall_true. intros k. simpl.
  apply Z.mod_pos_bound. lia.
Qed.

Lemma trim_zeros_Forall (P : Z -> Prop) ds : Forall P ds -> Forall P (trim_zeros ds).
Proof.
  intros H. destruct (trim_zeros_replicate ds) as (k & E).
  rewrite E, Forall_app in H. by destruct H.
Qed.

Lemma parse_frac_string n c s :
  0 <= n < Second -> c ∈ ["Z"; "+"; "-"]%char ->
  parse_frac (frac_string n (String c s)) = (n, String c s).
Proof.
  intros Hn Hc. assert (digit_val c = None ∧ parse_frac (String c s) = (0, String c s)) as [Hd Hz].
  { rewrite !elem_of_cons, elem_of_nil in Hc. by destruct Hc as [->|[->|[->|[]]]]. }
  unfold frac_string. destruct (trim_zeros (nine_digits n)) as [|d ds] eqn:E.
  - rewrite Hz. f_equal. rewrite <- (nine_digits_value n Hn), <- frac_value_trim, E by done.
    by vm_compute.
  - assert (Forall (fun d => 0 <= d < 10) (d :: ds)) as HF.
    { rewrite <- E. apply trim_zeros_Forall, nine_digits_range. }
    cbn [parse_frac]. rewrite span_digits_string by done.
    rewrite <- E, frac_value_trim, nine_digits_value by done. done.
Qed.

Lemma parse_format_datetime c rest :
  civil_ok c -> 0 <= c_year c <= 9999 ->
  parse_RFC3339 (format_datetime c rest) =
    let '(nsec, zone) := parse_frac rest in
    off ← parse_zone zone;
    Some (of_civil (Civil (c_year c) (c_month c) (c_day c) (c_hour c) (c_min c) (c_sec c) nsec)
            - off * Second).
Proof.
  intros [Hm Hd Hh Hi Hs _] Hy. pose proof (days_in_bound (c_year c) (c_month c)).
  unfold format_datetime, pad_year, pad4, pad2.
  rewrite !(proj2 (Z.leb_le _ _)) by lia. cbn [andb parse_RFC3339].
  rewrite parse4_pad4 by done. cbn [mbind option_bind].
  rewrite parse2_pad2 by lia. cbn [mbind option_bind].
  rewrite parse2_pad2 by lia. cbn [mbind option_bind].
  rewrite parse2_pad2 by lia. cbn [mbind option_bind].
  rewrite parse2_pad2 by lia. cbn [mbind option_bind].
  rewrite parse2_pad2 by lia. done.
Qed.

(** Years 0 to 9999 print in four digits and parse back. *)
Definition printable_time (t : Time) : Prop := 0 <= c_year (to_civil t) <= 9999.

(** A zone of whole minutes is read back. *)
Definition minute_zone (off : Z) : Prop := off `mod` 60 = 0 ∧ -86400 < off < 86400.

Lemma parse_format_zone off : minute_zone off -> parse_zone (format_zone off) = Some off.
Proof.
  intros [Hm Hr]. unfold format_zone. destruct (Z.eqb_spec off 0) as [->|Hne]; [done|].
  apply Z.mod_divide in Hm as [z ->]; [|done].
  rewrite Z.quot_mul by done. unfold pad2.
  assert (0 <= Z.abs z / 60 < 24 ∧ 0 <= Z.abs z `mod` 60 < 60
    ∧ Z.abs z / 60 * 60 + Z.abs z `mod` 60 = Z.abs z) as (Hh & Hi & E)
    by (Z.to_euclidean_division_equations; lia).
  destruct (Z.ltb_spec z 0); cbn [parse_zone]; rewrite !parse2_pad2 by lia;
    cbn [mbind option_bind]; rewrite ?E; cbn; f_equal; lia.
Qed.

Lemma format_zone_head off : ∃ c s, format_zone off = String c s ∧ c ∈ ["Z"; "+"; "-"]%char.
Proof.
  unfold format_zone. destruct (off =? 0); [|destruct (_ <? 0)]; eexists _, _;
    (split; [done|]); rewrite !elem_of_cons; auto.
Qed.

(** The instant a time prints in any such zone is the time. *)
Lemma parse_format_RFC3339Nano_in off t :
  minute_zone off -> printable_time (t + off * Second) ->
  parse_RFC3339 (format_RFC3339Nano_in off t) = Some t.
Proof.
  intros Hoff Hy. destruct (to_civil_spec (t + off * Second)) as [Hok Ht].
  unfold format_RFC3339Nano_in. rewrite parse_format_datetime by done.
  pose proof (parse_format_zone off Hoff) as Hz.
  destruct (format_zone_head off) as (c & s & E & Hc). rewrite E in Hz |- *.
  rewrite parse_frac_string by (apply Hok || done). rewrite Hz. cbn [mbind option_bind].
  f_equal. set (v := to_civil _) in *. destruct v. cbn in *. lia.
Qed.

Lemma format_RFC3339Nano_utc t : format_RFC3339Nano_in 0 t = format_RFC3339Nano t.
Proof. unfold format_RFC3339Nano_in. by rewrite Z.mul_0_l, Z.add_0_r. Qed.

Lemma parse_format_RFC3339Nano t :
  printable_time t -> parse_RFC3339 (format_RFC3339Nano t) = Some t.
Proof.
  intros Hy. rewrite <- format_RFC3339Nano_utc. apply parse_format_RFC3339Nano_in; [done|].
  by rewrite Z.mul_0_l, Z.add_0_r.
Qed.

Lemma time_Parse_format `{TimeParser} layout t :
  printable_time t -> time_Parse layout (format_RFC3339Nano t) = Ok t.
Proof. intros Hy. unfold time_Parse. by rewrite parse_format_RFC3339Nano. Qed.

(** No formatted time contains the cursor's separator. *)
Lemma str_mem_digits c ds rest :
  Forall (fun d => 0 <= d < 10) ds -> digit_val c = None ->
  str_mem c (digits_string ds rest) = str_mem c rest.
Proof.
  intros H Hc. induction H as [|d ds Hd _ IH]; [done|].
  cbn [digits_string str_mem]. by rewrite bool_decide_false by (by apply digit_char_ne).
Qed.

Lemma str_mem_frac c nsec rest :
  digit_val c = None -> c ≠ "."%char ->
  str_mem c (frac_string nsec rest) = str_mem c rest.
Proof.
  intros Hc Hdot. unfold frac_string.
  destruct (trim_zeros (nine_digits nsec)) as [|d ds] eqn:E; [done|].
  cbn [str_mem]. rewrite bool_decide_false by done. cbn [orb].
  apply str_mem_digits; [|done].
  rewrite <- E. apply trim_zeros_Forall, nine_digits_range.
Qed.

Lemma str_mem_pad2 c n rest :
  digit_val c = None -> 0 <= n < 100 -> str_mem c (pad2 n rest) = str_mem c rest.
Proof.
  intros. unfold pad2. cbn [str_mem].
  by rewrite !bool_decide_false
    by (apply digit_char_ne; [Z.to_euclidean_division_equations; lia|done]).
Qed.

Lemma str_mem_pad_year c y rest :
  digit_val c = None -> 0 <= y <= 9999 -> str_mem c (pad_year y rest) = str_mem c rest.
Proof.
  intros. unfold pad_year. rewrite !(proj2 (Z.leb_le _ _)) by lia. simpl.
  by rewrite !bool_decide_false
    by (apply digit_char_ne; [Z.to_euclidean_division_equations; lia|done]).
Qed.

Lemma str_mem_other c x rest : x ≠ c -> str_mem c (String x rest) = str_mem c rest.
Proof. intros H. cbn [str_mem]. by rewrite bool_decide_false. Qed.

Lemma format_no_bar t :
  printable_time t -> str_mem "|" (format_RFC3339Nano t) = false.
Proof.
  intros Hy. destruct (to_civil_spec t) as [[Hm Hd Hh Hi Hs _] _].
  assert (digit_val "|" = None) by (vm_compute; reflexivity).
  pose proof (days_in_bound (c_year (to_civil t)) (c_month (to_civil t))).
  unfold format_RFC3339Nano, format_datetime.
  rewrite str_mem_pad_year by done. rewrite str_mem_other by done.
  rewrite str_mem_pad2 by (done || lia). rewrite str_mem_other by done.
  rewrite str_mem_pad2 by (done || lia). rewrite str_mem_other by done.
  rewrite str_mem_pad2 by (done || lia). rewrite str_mem_other by done.
  rewrite str_mem_pad2 by (done || lia). rewrite str_mem_other by done.
  rewrite str_mem_pad2 by (done || lia).
  by rewrite str_mem_frac.
Qed.
