(* ===== verification/External.v ===== *)
(** * The code padma calls but does not contain

    One type class per library or service, with the operations the source uses,
    and a class of laws next to each that states the documented behaviour some
    theorem relies on.  No law is needed to run a definition.  [Sample] gives a
    concrete instance of every class, so that each theorem can be applied to a
    computed input.

    - kanaka/fibertypes: [Amount], a whole quantity of a token's smallest unit;
    - kanaka/events: the semantic events and their payload codecs;
    - kanaka/rpc: the two node calls of the merchant backend ([FiberRPC]);
    - Postgres and pgx: text collation, row order of an unordered scan, the
      [jsonb] and [NUMERIC] input and output, [to_char];
    - crypto: SHA-256, the random source, the ULID text form. *)

From S2P Require Import Prelude Strconv GoTime.
From Stdlib Require Import HexString.

(** ** kanaka/fibertypes *)

Class Fibertypes := {
  Amount : Type;
  BigInt : Amount -> Z;
  Hex : Amount -> string;
  (** the value and the error of [ParseAmount]; callers may ignore the error *)
  ParseAmount : string -> Amount * option error
}.

Class FibertypesLaws `{Fibertypes} : Prop := {
  BigInt_nonneg a : 0 <= BigInt a;
  ParseAmount_BigInt a : ParseAmount ("0x" +:+ big_Text16 (BigInt a)) = (a, None);
  ParseAmount_u128 v :
    0 <= v < 2 ^ 128 ->
    ∃ a, ParseAmount ("0x" +:+ big_Text16 v) = (a, None) ∧ BigInt a = v;
  Hex_BigInt a : Hex a = "0x" +:+ big_Text16 (BigInt a)
}.

(** A call used as [(T, error)]: the value is kept only without an error. *)
Definition of_pair {A} (p : A * option error) : result A :=
  match p with (a, None) => Ok a | (_, Some e) => Err e end.

(** ** pgtype.Numeric *)

Inductive InfinityModifier := Finite | Infinity | NegativeInfinity.

(** [Int] is a pointer; [Exp] is an [int32]. *)
Record Numeric := MkNumeric {
  num_Int : option Z;
  num_Exp : Z;
  num_NaN : bool;
  num_InfinityModifier : InfinityModifier;
  num_Valid : bool
}.

(** [n] is a finite number of integer value [v]; the exponent is an [int32]
    and not the one whose negation overflows. *)
Definition numeric_repr (n : Numeric) (v : Z) : Prop :=
  num_Valid n = true ∧ num_NaN n = false ∧ num_InfinityModifier n = Finite ∧
  int32_min < num_Exp n <= int32_max ∧
  ∃ i, num_Int n = Some i ∧
    if 0 <=? num_Exp n then v = i * 10 ^ num_Exp n else i = v * 10 ^ (- num_Exp n).

(** ** kanaka/events *)

Record Event := MkEvent {
  e_ID : string;
  e_Type : string;
  e_CreatedAt : Time;
  e_FiberRef : string;
  e_Data : string
}.

Section event_data.
Context `{Fibertypes}.

Record InvoicePaidData := MkInvoicePaidData {
  ip_PaymentHash : string; ip_Amount : Amount; ip_Asset : string; ip_SettledAt : Time
}.

Record PaymentReceivedData := MkPaymentReceivedData {
  pr_PaymentHash : string; pr_Amount : Amount; pr_Asset : string; pr_PayerPubkey : string
}.

Record ChannelOpenedData := MkChannelOpenedData {
  co_ChannelID : string; co_Peer : string; co_Capacity : Amount
}.

(** The event-type constants, distinct as the cases of a Go [switch] must be,
    and the JSON codecs of the library's own types. *)
Class KanakaEvents := {
  InvoicePaid : string;
  PaymentReceived : string;
  ChannelOpened : string;
  unmarshal_InvoicePaid : string -> result InvoicePaidData;
  unmarshal_PaymentReceived : string -> result PaymentReceivedData;
  unmarshal_ChannelOpened : string -> result ChannelOpenedData;
  marshal_Event : Event -> result string;
  unmarshal_Event : string -> result Event
}.

(** ** kanaka/rpc *)

Record NewInvoiceParams := MkNewInvoiceParams { ni_Amount : Amount; ni_Description : string }.
Record SendPaymentParams := MkSendPaymentParams {
  sp_TargetPubkey : string; sp_Amount : Amount; sp_Keysend : bool
}.
Record Invoice := MkInvoice { inv_PaymentHash : string; inv_Address : string }.
Record RpcPayment := MkRpcPayment { pay_PaymentHash : string }.

Inductive rpc_call :=
| CallNewInvoice (p : NewInvoiceParams)
| CallSendPayment (p : SendPaymentParams).

(** The node answers a call; its answer may depend on the calls made before. *)
Class FiberRPC := {
  rpc_NewInvoice : list rpc_call -> NewInvoiceParams -> result Invoice;
  rpc_SendPayment : list rpc_call -> SendPaymentParams -> result RpcPayment
}.
End event_data.

Record RawChange := MkRawChange { rc_Seq : Z; rc_Body : string }.

(** ** Postgres *)

Class Postgres := {
  (** the order in which a scan without ORDER BY returns rows *)
  pg_scan : forall {A : Type}, list A -> list A;
  (** the collation of text columns *)
  pg_text_le : string -> string -> bool;
  (** jsonb input: the normal form, or a syntax error *)
  pg_jsonb_in : string -> option string;
  (** pgx's reading of an integer NUMERIC value *)
  pg_numeric_out : Z -> Numeric;
  (** [to_char(t, 'YYYY-MM')] in the session time zone *)
  pg_to_char_month : Time -> string;
  (** the seconds east of UTC of the location of a timestamptz that pgx has scanned, the
      process's [time.Local], at that time *)
  pg_location : Time -> Z;
  (** how many rows of an answer arrive before the connection breaks, for the [k]-th
      answer whose end is not checked; [None] when all do *)
  pg_rows_read : nat -> option nat
}.

Class PostgresLaws `{Postgres} : Prop := {
  pg_scan_perm {A} (l : list A) : pg_scan l ≡ₚ l;
  pg_text_trans a b c : pg_text_le a b = true -> pg_text_le b c = true -> pg_text_le a c = true;
  pg_text_antisym a b : pg_text_le a b = true -> pg_text_le b a = true -> a = b;
  pg_text_total a b : pg_text_le a b = true ∨ pg_text_le b a = true;
  pg_numeric_out_repr v : numeric_repr (pg_numeric_out v) v
}.

(** ** Crypto *)

Class Crypto := {
  sha256 : string -> string;
  (** [ulid.ULID.String] of sixteen bytes *)
  ulid_String : string -> string;
  (** the [k]-th fresh ULID of a process *)
  ulid_New : nat -> string;
  (** [n] bytes of the [k]-th read of the random source *)
  rand_Read : nat -> nat -> string
}.

Class CryptoLaws `{Crypto} : Prop := {
  ulid_New_fresh i j : ulid_New i = ulid_New j -> i = j;
  rand_Read_length k n : String.length (rand_Read k n) = n
}.

(** ** A concrete instance of every class *)

Module Sample.

(** Amounts are natural numbers; only canonical hexadecimal text parses. *)
Definition parse_amount (s : string) : N * option error :=
  let n := HexString.to_N s in
  if bool_decide (HexString.of_N n = s) then (n, None)
  else (0%N, Some (EText "fibertypes: invalid amount")).

#[export] Instance fibertypes : Fibertypes := {|
  Amount := N;
  BigInt := Z.of_N;
  Hex := HexString.of_N;
  ParseAmount := parse_amount
|}.

Lemma of_N_text n : HexString.of_N n = "0x" +:+ big_Text16 (Z.of_N n).
Proof. by destruct n. Qed.

Lemma parse_amount_of_N n : parse_amount (HexString.of_N n) = (n, None).
Proof.
  unfold parse_amount. rewrite HexString.to_N_of_N. by rewrite bool_decide_true.
Qed.

#[export] Instance fibertypes_laws : FibertypesLaws.
Proof.
  split; intros.
  - apply N2Z.is_nonneg.
  - cbn. rewrite <- of_N_text. apply parse_amount_of_N.
  - exists (Z.to_N v). cbn. rewrite Z2N.id by lia. split; [|done].
    rewrite <- (Z2N.id v) at 1 by lia. rewrite <- of_N_text. apply parse_amount_of_N.
  - apply of_N_text.
Qed.

(** Payloads are fields separated by bars. *)
Definition bar : ascii := "|".

Definition field (s : string) : result (string * string) :=
  match strings_Cut s bar with
  | Some p => Ok p
  | None => Err (EText "unexpected end of JSON input")
  end.

Definition sample_InvoicePaid (s : string) : result InvoicePaidData :=
  '(h, s) ← field s; '(a, s) ← field s; '(x, s) ← field s;
  amt ← of_pair (ParseAmount a); t ← Atoi s;
  Ok (MkInvoicePaidData h amt x t).

Definition sample_PaymentReceived (s : string) : result PaymentReceivedData :=
  '(h, s) ← field s; '(a, s) ← field s; '(x, p) ← field s;
  amt ← of_pair (ParseAmount a);
  Ok (MkPaymentReceivedData h amt x p).

Definition sample_ChannelOpened (s : string) : result ChannelOpenedData :=
  '(c, s) ← field s; '(p, a) ← field s;
  amt ← of_pair (ParseAmount a);
  Ok (MkChannelOpenedData c p amt).

Definition sample_marshal (e : Event) : result string :=
  Ok (strings_Join [e_ID e; e_Type e; Itoa (e_CreatedAt e); e_FiberRef e; e_Data e] "|").

Definition sample_unmarshal (s : string) : result Event :=
  '(i, s) ← field s; '(ty, s) ← field s; '(t, s) ← field s; '(r, d) ← field s;
  t ← Atoi t;
  Ok (MkEvent i ty t r d).

#[export] Instance kanaka_events : KanakaEvents := {|
  InvoicePaid := "invoice.paid";
  PaymentReceived := "payment.received";
  ChannelOpened := "channel.opened";
  unmarshal_InvoicePaid := sample_InvoicePaid;
  unmarshal_PaymentReceived := sample_PaymentReceived;
  unmarshal_ChannelOpened := sample_ChannelOpened;
  marshal_Event := sample_marshal;
  unmarshal_Event := sample_unmarshal
|}.

(** The node mints the [k]-th invoice under a hash of its own. *)
#[export] Instance fiber_rpc : FiberRPC := {|
  rpc_NewInvoice calls p :=
    Ok (MkInvoice ("0xinv" +:+ Itoa (Z.of_nat (length calls))) "addr");
  rpc_SendPayment calls p :=
    Ok (MkRpcPayment ("0xpay" +:+ Itoa (Z.of_nat (length calls))))
|}.

Definition numeric_out (v : Z) : Numeric :=
  if v `mod` 10 =? 0 then MkNumeric (Some (v / 10)) 1 false Finite true
  else MkNumeric (Some v) 0 false Finite true.

#[export] Instance postgres : Postgres := {|
  pg_scan A l := l;
  pg_text_le := String.leb;
  pg_jsonb_in s := if bool_decide (s = EmptyString) then None else Some s;
  pg_numeric_out := numeric_out;
  pg_to_char_month t := String.substring 0 7 (format_RFC3339 t);
  pg_location _ := 0;
  pg_rows_read _ := None
|}.

#[export] Instance postgres_laws : PostgresLaws.
Proof.
  split; intros; cbn in *.
  - done.
  - apply Is_true_true. apply Is_true_true in H, H0.
    by apply (transitivity (R := String.le) (y := b)).
  - by apply String.leb_antisym.
  - apply String.leb_total.
  - unfold numeric_out. destruct (Z.eqb_spec (v `mod` 10) 0) as [E|E];
      (split_and!; [done..|eexists; split; [done|]]); cbn.
    + change (Z.pow_pos 10 1) with 10.
      pose proof (Z.div_mod v 10 ltac:(lia)). lia.
    + lia.
Qed.

(** A 256-bit polynomial hash, least significant byte first. *)
Fixpoint poly (s : string) (h : Z) : Z :=
  match s with
  | EmptyString => h
  | String c s' => poly s' ((h * 257 + Z.of_nat (nat_of_ascii c) + 1) `mod` 2 ^ 256)
  end.

Fixpoint bytes_of (n : nat) (h : Z) : string :=
  match n with
  | O => EmptyString
  | S n' => String (ascii_of_nat (Z.to_nat (h `mod` 256))) (bytes_of n' (h / 256))
  end.

Lemma bytes_of_length n h : String.length (bytes_of n h) = n.
Proof. revert h. induction n as [|n IH]; intros h; cbn; [done|]. by rewrite IH. Qed.

#[export] Instance crypto : Crypto := {|
  sha256 s := bytes_of 32 (poly s 7);
  ulid_String s := Itoa (poly s 3);
  ulid_New k := HexString.of_nat k;
  rand_Read k n := bytes_of n (poly (Itoa (Z.of_nat k)) 5)
|}.

#[export] Instance crypto_laws : CryptoLaws.
Proof.
  split; cbn; intros.
  - by rewrite <- (HexString.to_nat_of_nat i), H, HexString.to_nat_of_nat.
  - apply bytes_of_length.
Qed.
End Sample.
