(* ===== verification/Schema.v ===== *)
(** * The Postgres schema (migrations/) and the statements run against it

    One record per table row, one finite map per keyed table, and [Database] for
    the whole schema.  A statement is a function of the current time and the
    database; [exec] runs one in the state-and-error monad [M], where it may hit a
    table no migration has created yet or an injected fault.  [InTx] is
    internal/platform/db/tx.go. *)

From S2P Require Import Prelude Strconv GoTime External.

(** ** Rows *)

Record EventRow := MkEventRow {
  ev_type : string; ev_fiber_ref : option string; ev_asset : option string;
  ev_amount : option Z; ev_data : string; ev_occurred_at : Time;
  ev_ingested_at : Time; ev_checkpoint : Z
}.

Record PaymentRow := MkPaymentRow {
  p_direction : string; p_status : string; p_asset : option string;
  p_amount : option Z; p_fee : option Z; p_peer : option string;
  p_created_at : option Time; p_updated_at : option Time
}.

Record ChannelRow := MkChannelRow {
  ch_peer : option string; ch_state : option string; ch_capacity : option Z;
  ch_local_balance : option Z; ch_remote_balance : option Z;
  ch_opened_at : option Time; ch_closed_at : option Time
}.

Record InvoiceRow := MkInvoiceRow {
  in_status : option string; in_asset : option string; in_amount : option Z;
  in_created_at : option Time; in_settled_at : option Time
}.

Record EndpointRow := MkEndpointRow {
  ep_merchant_id : option string; ep_url : string; ep_secret : string;
  ep_event_types : list string; ep_active : bool; ep_created_at : Time
}.

(** [pending|delivering|succeeded|failed|dead] *)
Inductive DeliveryStatus := DPending | DDelivering | DSucceeded | DFailed | DDead.

#[global] Instance DeliveryStatus_eq_dec : EqDecision DeliveryStatus.
Proof. solve_decision. Defined.

Record DeliveryRow := MkDeliveryRow {
  d_endpoint_id : string; d_event_id : string; d_url : string; d_secret : string;
  d_payload : string; d_status : DeliveryStatus; d_attempts : Z;
  d_next_attempt_at : Time; d_last_error : option string; d_created_at : Time
}.

Record LogRow := MkLogRow {
  lg_delivery_id : string; lg_attempt_no : Z; lg_http_status : option Z;
  lg_response_ms : option Z; lg_error : option string; lg_attempted_at : Time
}.

Record MerchantRow := MkMerchantRow {
  m_name : string; m_api_key_hash : string; m_settlement_asset : string; m_created_at : Time
}.

(** [pending|paid|expired|refunded] *)
Inductive OrderStatus := OPending | OPaid | OExpired | ORefunded.

#[global] Instance OrderStatus_eq_dec : EqDecision OrderStatus.
Proof. solve_decision. Defined.

Definition order_status_text (s : OrderStatus) : string :=
  match s with
  | OPending => "pending" | OPaid => "paid"
  | OExpired => "expired" | ORefunded => "refunded"
  end.

Record OrderRow := MkOrderRow {
  o_merchant_id : string; o_external_order_id : option string;
  o_invoice_payment_hash : option string; o_amount : option Z;
  o_asset : option string; o_status : OrderStatus; o_created_at : Time;
  o_paid_at : option Time
}.

Record RefundRow := MkRefundRow {
  r_order_id : string; r_amount : option Z; r_asset : option string;
  r_reason : option string; r_status : option string;
  r_fiber_payment_hash : option string; r_created_at : Time
}.

Record SettlementDbRow := MkSettlementDbRow {
  s_merchant_id : string; s_period : string; s_gross : option Z; s_fees : option Z;
  s_net : option Z; s_asset : string; s_status : string; s_generated_at : Time
}.

Record ReconRunRow := MkReconRunRow {
  rr_merchant_id : string; rr_period : string; rr_matched : Z;
  rr_unmatched_count : Z; rr_discrepancy_total : option Z; rr_report : string;
  rr_created_at : Time
}.

(** ** The database *)

Record Database := MkDatabase {
  (** how many of the three migrations have been applied *)
  version : Z;
  ingest_checkpoint : option (Z * Time);
  events : gmap string EventRow;
  payments : gmap string PaymentRow;
  channels : gmap string ChannelRow;
  invoices : gmap string InvoiceRow;
  webhook_endpoints : gmap string EndpointRow;
  webhook_deliveries : gmap string DeliveryRow;
  webhook_delivery_log : list LogRow;
  merchants : gmap string MerchantRow;
  merchant_orders : gmap string OrderRow;
  refunds : gmap string RefundRow;
  settlements : gmap string SettlementDbRow;
  reconciliation_runs : gmap string ReconRunRow
}.

Definition empty_db : Database :=
  MkDatabase 0 None ∅ ∅ ∅ ∅ ∅ ∅ [] ∅ ∅ ∅ ∅ ∅.

(** [goose.Up]: all pending migrations; a failure leaves what it had. *)
Definition latest_version : Z := 3.

Definition upd_version v (d : Database) := MkDatabase v (ingest_checkpoint d) (events d) (payments d) (channels d) (invoices d) (webhook_endpoints d) (webhook_deliveries d) (webhook_delivery_log d) (merchants d) (merchant_orders d) (refunds d) (settlements d) (reconciliation_runs d).
Definition upd_checkpoint c (d : Database) := MkDatabase (version d) c (events d) (payments d) (channels d) (invoices d) (webhook_endpoints d) (webhook_deliveries d) (webhook_delivery_log d) (merchants d) (merchant_orders d) (refunds d) (settlements d) (reconciliation_runs d).
Definition upd_events t (d : Database) := MkDatabase (version d) (ingest_checkpoint d) t (payments d) (channels d) (invoices d) (webhook_endpoints d) (webhook_deliveries d) (webhook_delivery_log d) (merchants d) (merchant_orders d) (refunds d) (settlements d) (reconciliation_runs d).
Definition upd_payments t (d : Database) := MkDatabase (version d) (ingest_checkpoint d) (events d) t (channels d) (invoices d) (webhook_endpoints d) (webhook_deliveries d) (webhook_delivery_log d) (merchants d) (merchant_orders d) (refunds d) (settlements d) (reconciliation_runs d).
Definition upd_channels t (d : Database) := MkDatabase (version d) (ingest_checkpoint d) (events d) (payments d) t (invoices d) (webhook_endpoints d) (webhook_deliveries d) (webhook_delivery_log d) (merchants d) (merchant_orders d) (refunds d) (settlements d) (reconciliation_runs d).
Definition upd_invoices t (d : Database) := MkDatabase (version d) (ingest_checkpoint d) (events d) (payments d) (channels d) t (webhook_endpoints d) (webhook_deliveries d) (webhook_delivery_log d) (merchants d) (merchant_orders d) (refunds d) (settlements d) (reconciliation_runs d).
Definition upd_endpoints t (d : Database) := MkDatabase (version d) (ingest_checkpoint d) (events d) (payments d) (channels d) (invoices d) t (webhook_deliveries d) (webhook_delivery_log d) (merchants d) (merchant_orders d) (refunds d) (settlements d) (reconciliation_runs d).
Definition upd_deliveries t (d : Database) := MkDatabase (version d) (ingest_checkpoint d) (events d) (payments d) (channels d) (invoices d) (webhook_endpoints d) t (webhook_delivery_log d) (merchants d) (merchant_orders d) (refunds d) (settlements d) (reconciliation_runs d).
Definition upd_log t (d : Database) := MkDatabase (version d) (ingest_checkpoint d) (events d) (payments d) (channels d) (invoices d) (webhook_endpoints d) (webhook_deliveries d) t (merchants d) (merchant_orders d) (refunds d) (settlements d) (reconciliation_runs d).
Definition upd_merchants t (d : Database) := MkDatabase (version d) (ingest_checkpoint d) (events d) (payments d) (channels d) (invoices d) (webhook_endpoints d) (webhook_deliveries d) (webhook_delivery_log d) t (merchant_orders d) (refunds d) (settlements d) (reconciliation_runs d).
Definition upd_orders t (d : Database) := MkDatabase (version d) (ingest_checkpoint d) (events d) (payments d) (channels d) (invoices d) (webhook_endpoints d) (webhook_deliveries d) (webhook_delivery_log d) (merchants d) t (refunds d) (settlements d) (reconciliation_runs d).
Definition upd_refunds t (d : Database) := MkDatabase (version d) (ingest_checkpoint d) (events d) (payments d) (channels d) (invoices d) (webhook_endpoints d) (webhook_deliveries d) (webhook_delivery_log d) (merchants d) (merchant_orders d) t (settlements d) (reconciliation_runs d).
Definition upd_settlements t (d : Database) := MkDatabase (version d) (ingest_checkpoint d) (events d) (payments d) (channels d) (invoices d) (webhook_endpoints d) (webhook_deliveries d) (webhook_delivery_log d) (merchants d) (merchant_orders d) (refunds d) t (reconciliation_runs d).
Definition upd_recon_runs t (d : Database) := MkDatabase (version d) (ingest_checkpoint d) (events d) (payments d) (channels d) (invoices d) (webhook_endpoints d) (webhook_deliveries d) (webhook_delivery_log d) (merchants d) (merchant_orders d) (refunds d) (settlements d) t.

(** goose has applied the migrations up to [v]; it never takes one back. *)
Definition migrate_to (v : Z) (d : Database) : Database :=
  if (version d <=? v) && (v <=? latest_version) then upd_version v d else d.

(** Errors Postgres reports. *)
Definition err_relation : error := EText "relation does not exist".
Definition err_unique : error := EText "duplicate key value violates unique constraint".
Definition err_foreign_key : error := EText "insert violates foreign key constraint".
Definition err_json : error := EText "invalid input syntax for type json".
Definition err_integer : error := EText "integer out of range".

(** An [INT] column holds 32 bits; a result outside is an error, not a wrap. *)
Definition int4 (z : Z) : result Z :=
  if (int32_min <=? z) && (z <=? int32_max) then Ok z else Err err_integer.

(** A TIMESTAMPTZ column has microsecond resolution; pgx drops the rest of a
    [time.Time] it writes. *)
Definition timestamptz (t : Time) : Time := t / 1000 * 1000.

(** Rows of a keyed table in scan order. *)
Definition scan_table `{Postgres} {R} (t : gmap string R) : list (string * R) :=
  pg_scan (map_to_list t).

(** ** The world and the monad *)

(** What may happen to a statement: it fails with no effect, or it takes effect
    and the acknowledgement is lost, so the caller still sees an error. *)
Inductive fault := NoFault | Fail (e : error) | AckLost (e : error).

Section monad.
Context {FT : Fibertypes}.

Record world := World {
  w_db : Database;
  (** one entry per statement to come; an empty list means no more faults *)
  w_faults : list fault;
  w_now : Time;
  (** draws made from the random source *)
  w_draws : nat;
  (** calls made to the Fiber node *)
  w_calls : list rpc_call
}.

Definition set_db (d : Database) (w : world) : world :=
  World d (w_faults w) (w_now w) (w_draws w) (w_calls w).
Definition set_faults (fs : list fault) (w : world) : world :=
  World (w_db w) fs (w_now w) (w_draws w) (w_calls w).

Definition M (A : Type) : Type := world -> result A * world.

Definition mret_M {A} (a : A) : M A := fun w => (Ok a, w).
Definition mbind_M {A B} (k : A -> M B) (m : M A) : M B := fun w =>
  match m w with
  | (Ok a, w') => k a w'
  | (Err e, w') => (Err e, w')
  | (Panic p, w') => (Panic p, w')
  end.

#[global] Instance M_ret : MRet M := @mret_M.
#[global] Instance M_bind : MBind M := fun A B => @mbind_M A B.

Definition throw {A} (e : error) : M A := fun w => (Err e, w).
Definition lift {A} (r : result A) : M A := fun w => (r, w).

(** [x, err := m; if err == nil { k1 } else { k2 }] *)
Definition attempt {A} (m : M A) : M (sum error A) := fun w =>
  match m w with
  | (Ok a, w') => (Ok (inr a), w')
  | (Err e, w') => (Ok (inl e), w')
  | (Panic p, w') => (Panic p, w')
  end.

(** [if err := m; err != nil { return fmt.Errorf("pre%w", err) }] *)
Definition wrapping {A} (pre : string) (m : M A) : M A := fun w =>
  match m w with
  | (Err e, w') => (Err (EWrap pre e EmptyString), w')
  | r => r
  end.

Definition next_fault (w : world) : fault * world :=
  match w_faults w with
  | [] => (NoFault, w)
  | f :: fs => (f, set_faults fs w)
  end.

(** One statement that needs the tables of migration [need]. *)
Definition run_stmt {A} (need : Z) (f : Time -> Database -> result (A * Database)) : M A :=
  fun w =>
    if version (w_db w) <? need then (Err err_relation, w)
    else match f (w_now w) (w_db w) with
         | Ok (a, d) => (Ok a, set_db d w)
         | Err e => (Err e, w)
         | Panic p => (Panic p, w)
         end.

Definition exec {A} (need : Z) (f : Time -> Database -> result (A * Database)) : M A :=
  fun w =>
    match next_fault w with
    | (Fail e, w') => (Err e, w')
    | (AckLost e, w') => (Err e, snd (run_stmt need f w'))
    | (NoFault, w') => run_stmt need f w'
    end.

(** A statement that only reads. *)
Definition select {A} (need : Z) (f : Database -> result A) : M A :=
  exec need (fun _ d => a ← f d; Ok (a, d)).

(** [InTx]: begin, run, commit; roll back on an error or a panic. *)
Definition InTx {A} (fn : M A) : M A := fun w =>
  match next_fault w with
  | (Fail e, w1) | (AckLost e, w1) => (Err (EWrap "db: begin: " e EmptyString), w1)
  | (NoFault, w1) =>
      match fn w1 with
      | (Panic p, w2) => (Panic p, set_db (w_db w1) w2)
      | (Err e, w2) => (Err e, set_db (w_db w1) w2)
      | (Ok a, w2) =>
          match next_fault w2 with
          | (NoFault, w3) => (Ok a, w3)
          | (Fail e, w3) =>
              (Err (EWrap "db: commit: " e EmptyString), set_db (w_db w1) w3)
          | (AckLost e, w3) => (Err (EWrap "db: commit: " e EmptyString), w3)
          end
      end
  end.

(** [for _, x := range xs { if err := f(x); err != nil { return err } }] *)
Fixpoint for_each {A} (f : A -> M unit) (xs : list A) : M unit :=
  match xs with
  | [] => mret tt
  | x :: xs' => f x ≫= fun _ => for_each f xs'
  end.

(** [id.New()] and the random source. *)
Definition draw : M nat := fun w =>
  (Ok (w_draws w), World (w_db w) (w_faults w) (w_now w) (S (w_draws w)) (w_calls w)).
Definition id_New `{Crypto} : M string := k ← draw; mret (ulid_New k).

(** Calls to the node. *)
Definition log_call (c : rpc_call) (w : world) : world :=
  World (w_db w) (w_faults w) (w_now w) (w_draws w) (w_calls w ++ [c]).
Definition NewInvoice {FR : FiberRPC} (p : NewInvoiceParams) : M Invoice := fun w =>
  (rpc_NewInvoice (w_calls w) p, log_call (CallNewInvoice p) w).
Definition SendPayment {FR : FiberRPC} (p : SendPaymentParams) : M RpcPayment := fun w =>
  (rpc_SendPayment (w_calls w) p, log_call (CallSendPayment p) w).
End monad.

Arguments world {FT}.

(** ** Reasoning about the monad *)

Section monad_facts.
Context {FT : Fibertypes}.
Implicit Types (w : world).

(** A statement leaves the clock, the random source and the node alone. *)
Record same_env (w w' : world) : Prop := {
  env_now : w_now w' = w_now w;
  env_draws : w_draws w' = w_draws w;
  env_calls : w_calls w' = w_calls w
}.

#[global] Instance same_env_preorder : PreOrder same_env.
Proof.
  split; [by split|].
  intros w1 w2 w3 [? ? ?] [? ? ?]. split; congruence.
Qed.

Lemma bind_Ok {A B} (m : M A) (k : A -> M B) w b w' :
  (m ≫= k) w = (Ok b, w') -> ∃ a w1, m w = (Ok a, w1) ∧ k a w1 = (Ok b, w').
Proof.
  unfold mbind, M_bind, mbind_M.
  destruct (m w) as [[a|e|p] w1] eqn:E; [|done..]. eauto.
Qed.

Lemma bind_intro {A B} (m : M A) (k : A -> M B) w a w1 :
  m w = (Ok a, w1) -> (m ≫= k) w = k a w1.
Proof. intros H. unfold mbind, M_bind, mbind_M. by rewrite H. Qed.

Lemma bind_err {A B} (m : M A) (k : A -> M B) w e w1 :
  m w = (Err e, w1) -> (m ≫= k) w = (Err e, w1).
Proof. intros H. unfold mbind, M_bind, mbind_M. by rewrite H. Qed.

Lemma wrapping_Ok {A} pre (m : M A) w a w' :
  wrapping pre m w = (Ok a, w') <-> m w = (Ok a, w').
Proof. unfold wrapping. destruct (m w) as [[x|e|p] w1]; split; naive_solver. Qed.

Lemma attempt_Ok {A} (m : M A) w (r : sum error A) w' :
  attempt m w = (Ok r, w') <->
  m w = (match r with inr a => Ok a | inl e => Err e end, w').
Proof. unfold attempt. destruct (m w) as [[x|e|p] w1]; split; destruct r; naive_solver. Qed.

Lemma next_fault_frame w f w' :
  next_fault w = (f, w') -> w_db w' = w_db w ∧ same_env w w'.
Proof.
  unfold next_fault. destruct (w_faults w); intros [= <- <-]; split; done.
Qed.

Lemma next_fault_none w : w_faults w = [] -> next_fault w = (NoFault, w).
Proof. unfold next_fault. by intros ->. Qed.

Lemma next_fault_cons w f fs : w_faults w = f :: fs -> next_fault w = (f, set_faults fs w).
Proof. unfold next_fault. by intros ->. Qed.

Lemma run_stmt_Ok {A} need (f : Time -> Database -> result (A * Database)) w a w' :
  run_stmt need f w = (Ok a, w') <->
  need <= version (w_db w) ∧
  ∃ d, f (w_now w) (w_db w) = Ok (a, d) ∧ w' = set_db d w.
Proof.
  unfold run_stmt. destruct (Z.ltb_spec (version (w_db w)) need); [split; [done|lia]|].
  destruct (f (w_now w) (w_db w)) as [[x d]|e|p]; split; try done.
  - intros [= -> <-]. eauto.
  - intros (_ & ? & [= -> ->] & ->). done.
  - by intros (_ & ? & ? & _).
  - by intros (_ & ? & ? & _).
Qed.

Lemma exec_Ok {A} need (f : Time -> Database -> result (A * Database)) w a w' :
  exec need f w = (Ok a, w') ->
  need <= version (w_db w) ∧
  f (w_now w) (w_db w) = Ok (a, w_db w') ∧ same_env w w'.
Proof.
  unfold exec. destruct (next_fault w) as [[|e|e] w1] eqn:E; [|done..].
  apply next_fault_frame in E as [Edb [E1 E2 E3]].
  intros (? & d & Hf & ->)%run_stmt_Ok. rewrite E1, Edb in *. cbn. by split_and!.
Qed.

(** A statement whose turn meets no fault, one that fails and one whose acknowledgement
    is lost. *)
Lemma exec_clear {A} need (f : Time -> Database -> result (A * Database)) w w1 a d :
  next_fault w = (NoFault, w1) -> need <= version (w_db w) ->
  f (w_now w) (w_db w) = Ok (a, d) -> exec need f w = (Ok a, set_db d w1).
Proof.
  intros Hf Hv Hd. unfold exec. rewrite Hf. apply next_fault_frame in Hf as [Edb [En _ _]].
  apply run_stmt_Ok. rewrite En, Edb. eauto.
Qed.

Lemma exec_fails {A} need (f : Time -> Database -> result (A * Database)) w w1 e :
  next_fault w = (Fail e, w1) -> exec need f w = (Err e, w1).
Proof. unfold exec. by intros ->. Qed.

Lemma exec_unacknowledged {A} need (f : Time -> Database -> result (A * Database)) w w1 e a d :
  next_fault w = (AckLost e, w1) -> need <= version (w_db w) ->
  f (w_now w) (w_db w) = Ok (a, d) -> exec need f w = (Err e, set_db d w1).
Proof.
  intros Hf Hv Hd. unfold exec. rewrite Hf. apply next_fault_frame in Hf as [Edb [En _ _]].
  by rewrite (proj2 (run_stmt_Ok need f w1 a (set_db d w1))) by (rewrite En, Edb; eauto).
Qed.

Lemma exec_run {A} need (f : Time -> Database -> result (A * Database)) w a d :
  w_faults w = [] -> need <= version (w_db w) ->
  f (w_now w) (w_db w) = Ok (a, d) -> exec need f w = (Ok a, set_db d w).
Proof. intros Hf. by apply exec_clear, next_fault_none. Qed.

Lemma exec_run_err {A} need (f : Time -> Database -> result (A * Database)) w e :
  w_faults w = [] -> need <= version (w_db w) ->
  f (w_now w) (w_db w) = Err e -> exec need f w = (Err e, w).
Proof.
  intros Hf Hv Hd. unfold exec. rewrite next_fault_none by done.
  unfold run_stmt. destruct (Z.ltb_spec (version (w_db w)) need); [lia|]. by rewrite Hd.
Qed.

Lemma select_Ok {A} need (f : Database -> result A) w a w' :
  select need f w = (Ok a, w') ->
  need <= version (w_db w) ∧ f (w_db w) = Ok a ∧ w_db w' = w_db w ∧ same_env w w'.
Proof.
  intros (Hv & Hf & Henv)%exec_Ok. destruct (f (w_db w)) as [x|e|p] eqn:E;
    unfold mbind, result_bind in Hf; simplify_eq. by split_and!.
Qed.

Lemma select_clear {A} need (f : Database -> result A) w w1 a :
  next_fault w = (NoFault, w1) -> need <= version (w_db w) -> f (w_db w) = Ok a ->
  select need f w = (Ok a, w1).
Proof.
  intros Hf Hv Ha. unfold select.
  rewrite (exec_clear _ _ _ w1 a (w_db w)); [|done|done|by rewrite Ha].
  apply next_fault_frame in Hf as [<- _]. by destruct w1.
Qed.

Lemma select_run {A} need (f : Database -> result A) w a :
  w_faults w = [] -> need <= version (w_db w) -> f (w_db w) = Ok a ->
  select need f w = (Ok a, w).
Proof. intros Hf. by apply select_clear, next_fault_none. Qed.

(** Whatever a statement answers, its effect is one run of [f] or nothing. *)
Lemma exec_effect {A} need (f : Time -> Database -> result (A * Database)) w r w' :
  exec need f w = (r, w') ->
  same_env w w' ∧
  (w_db w' = w_db w ∨ ∃ a, f (w_now w) (w_db w) = Ok (a, w_db w')).
Proof.
  assert (forall w1 r1 w1', run_stmt need f w1 = (r1, w1') ->
    same_env w1 w1' ∧ (w_db w1' = w_db w1 ∨ ∃ a, f (w_now w1) (w_db w1) = Ok (a, w_db w1')))
    as Hrun.
  { intros w1 r1 w1'. unfold run_stmt.
    destruct (version (w_db w1) <? need); [intros [= <- <-]; split; auto; done|].
    destruct (f (w_now w1) (w_db w1)) as [[x d]|e|p] eqn:E; intros [= <- <-];
      split; try done; cbn; eauto. }
  unfold exec. destruct (next_fault w) as [[|e|e] w1] eqn:E;
    apply next_fault_frame in E as [Edb Henv]; pose proof Henv as [E1 _ _].
  - intros (Hs & H)%Hrun. rewrite E1, Edb in H. split; [by etrans|done].
  - intros [= <- <-]. split; [done|]. auto.
  - destruct (run_stmt need f w1) as [r1 w2] eqn:Er. intros [= <- <-]. cbn.
    apply Hrun in Er as (Hs & H). rewrite E1, Edb in H. split; [by etrans|done].
Qed.

(** A read changes nothing, whatever it answers, and panics only where [f] does. *)
Lemma select_effect {A} need (f : Database -> result A) w r w' :
  select need f w = (r, w') ->
  w_db w' = w_db w ∧ same_env w w' ∧ match r with Panic p => f (w_db w) = Panic p | _ => True end.
Proof.
  intros H. pose proof (exec_effect _ _ _ _ _ H) as [Henv Hdb]. split_and!; [|done|].
  - destruct Hdb as [?|[a Ha]]; [done|]. unfold mbind, result_bind in Ha.
    destruct (f (w_db w)) as [x|?|?]; congruence.
  - destruct r as [a|e|p]; [done..|]. revert H. unfold select, exec, run_stmt.
    destruct (next_fault w) as [[] w1] eqn:E; [|done..].
    apply next_fault_frame in E as [Edb _]. rewrite Edb. destruct (_ <? _); [done|].
    unfold mbind, result_bind. destruct (f (w_db w)) as [x|?|q]; [done..|]. by intros [= <- _].
Qed.

(** A transaction either leaves the database as it was or runs its whole body. *)
Lemma InTx_cases {A} (fn : M A) w r w' :
  InTx fn w = (r, w') ->
  (w_db w' = w_db w ∧ is_ok r = false) ∨
  (∃ a w1 w2, next_fault w = (NoFault, w1) ∧ fn w1 = (Ok a, w2) ∧
     w_db w' = w_db w2 ∧ same_env w2 w' ∧
     (r = Ok a ∨ ∃ e, r = Err (EWrap "db: commit: " e EmptyString))).
Proof.
  unfold InTx. destruct (next_fault w) as [f w1] eqn:E1.
  pose proof (next_fault_frame _ _ _ E1) as [Edb1 _].
  destruct f as [|e|e]; [|intros [= <- <-]; by left..].
  destruct (fn w1) as [[a|e|p] w2] eqn:Efn;
    [|intros [= <- <-]; left; by rewrite <- Edb1..].
  destruct (next_fault w2) as [f2 w3] eqn:E2.
  pose proof (next_fault_frame _ _ _ E2) as [Edb2 Henv].
  destruct f2 as [|e|e]; intros [= <- <-].
  - right. exists a, w1, w2. split_and!; auto.
  - left. by rewrite <- Edb1.
  - right. exists a, w1, w2. split_and!; eauto.
Qed.

Lemma InTx_Ok {A} (fn : M A) w a w' :
  InTx fn w = (Ok a, w') ->
  ∃ w1 w2, next_fault w = (NoFault, w1) ∧ fn w1 = (Ok a, w2) ∧
    w_db w' = w_db w2 ∧ same_env w2 w'.
Proof.
  intros [[_ H]|(x & w1 & w2 & H1 & H2 & H3 & H4 & [?|[e ?]])]%InTx_cases; simplify_eq/=.
  eauto 10.
Qed.

Lemma InTx_run {A} (fn : M A) w a w2 :
  w_faults w = [] -> fn w = (Ok a, w2) -> w_faults w2 = [] -> InTx fn w = (Ok a, w2).
Proof.
  intros Hf Hfn Hf2. unfold InTx.
  by rewrite next_fault_none, Hfn, next_fault_none by done.
Qed.
End monad_facts.

(** Invert a successful run of a monadic computation one step at a time. *)
Ltac m_inv H :=
  repeat match type of H with
  | (_ ≫= _) _ = (Ok _, _) =>
      let a := fresh "a" in let w := fresh "w" in let H1 := fresh "Hm" in
      apply bind_Ok in H as (a & w & H1 & H);
      lazymatch type of a with unit => destruct a | _ => idtac end
  | wrapping _ _ _ = (Ok _, _) => apply wrapping_Ok in H
  | for_each _ [] _ = _ => cbn [for_each] in H
  | for_each _ (_ :: _) _ = _ => cbn [for_each] in H
  | mret _ _ = (Ok _, _) => injection H as H; try subst
  end.
