(* ===== verification/Numeric.v ===== *)
(** * Amount and NUMERIC (internal/platform/db/numeric.go)

    [AmountToNumeric] and [NumericToAmount] are the only way amounts cross into
    and out of the database.  [numeric_col] is the value a NUMERIC column holds
    after such a [pgtype.Numeric] is written to it. *)

From S2P Require Import Prelude Strconv External.

(** [pow10(exp)]: [big.Int.Exp] with a nil modulus is 1 for an exponent <= 0. *)
Definition pow10 (exp : Z) : Z := if exp <=? 0 then 1 else 10 ^ exp.

Definition AmountToNumeric `{Fibertypes} (a : Amount) : Numeric :=
  MkNumeric (Some (BigInt a)) 0 false Finite true.

(** [-n.Exp] is computed in 32 bits; [QuoRem] truncates; a nil [Int] is
    dereferenced. *)
Definition NumericToAmount `{Fibertypes} (n : Numeric) : result Amount :=
  if negb (num_Valid n) || num_NaN n then
    Err (EText "db: NUMERIC is not a valid finite number")
  else match num_InfinityModifier n with
  | Infinity | NegativeInfinity => Err (EText "db: NUMERIC is infinite")
  | Finite =>
      match num_Int n with
      | None => Panic "invalid memory address or nil pointer dereference"
      | Some i =>
          let scaled : result Z :=
            if 0 <? num_Exp n then Ok (i * pow10 (num_Exp n))
            else if num_Exp n <? 0 then
              let divisor := pow10 (wrap32 (- num_Exp n)) in
              if negb (Z.rem i divisor =? 0) then
                Err (EText "db: NUMERIC has a fractional part, not a whole amount")
              else Ok (Z.quot i divisor)
            else Ok i in
          v ← scaled;
          if v <? 0 then Err (EText "db: NUMERIC is negative")
          else of_pair (ParseAmount ("0x" +:+ big_Text16 v))
      end
  end.

(** What a NUMERIC column stores for a written value (NULL when not valid). *)
Definition numeric_col (n : Numeric) : option Z :=
  if num_Valid n then i ← num_Int n; Some (i * 10 ^ num_Exp n) else None.

(** ** Facts *)

Section facts.
Context {FT : Fibertypes}.

Lemma pow10_pos e : 0 <= e -> pow10 e = 10 ^ e.
Proof.
  intros. unfold pow10. destruct (Z.leb_spec e 0); [|done]. by replace e with 0 by lia.
Qed.

Lemma numeric_col_amount a : numeric_col (AmountToNumeric a) = Some (BigInt a).
Proof. cbn. f_equal. lia. Qed.

(** A finite representation of [v] is read back as the parse of [v]'s text. *)
Lemma NumericToAmount_repr n v :
  numeric_repr n v ->
  NumericToAmount n =
    if v <? 0 then Err (EText "db: NUMERIC is negative")
    else of_pair (ParseAmount ("0x" +:+ big_Text16 v)).
Proof.
  intros (Hv & Hn & Hi & He & i & Hint & Hval).
  unfold NumericToAmount. rewrite Hv, Hn, Hi, Hint. cbn [negb orb].
  destruct (Z.leb_spec 0 (num_Exp n)) as [Hpos|Hneg].
  - subst v. destruct (Z.ltb_spec 0 (num_Exp n)).
    + rewrite pow10_pos by done. done.
    + replace (num_Exp n) with 0 by lia. cbn [Z.ltb Z.compare].
      replace (i * 10 ^ 0) with i by lia. done.
  - destruct (Z.ltb_spec 0 (num_Exp n)); [lia|].
    destruct (Z.ltb_spec (num_Exp n) 0); [|lia].
    unfold int32_min, int32_max in He.
    rewrite wrap32_small by (unfold int32_min, int32_max; lia).
    rewrite pow10_pos by lia. subst i.
    assert (0 < 10 ^ (- num_Exp n)) by (apply Z.pow_pos_nonneg; lia).
    rewrite Z.rem_mul, Z.quot_mul by lia. done.
Qed.

Context {FTL : FibertypesLaws}.

Lemma parse_text_BigInt a :
  of_pair (ParseAmount ("0x" +:+ big_Text16 (BigInt a))) = Ok a.
Proof. by rewrite ParseAmount_BigInt. Qed.

Lemma NumericToAmount_BigInt n a : numeric_repr n (BigInt a) -> NumericToAmount n = Ok a.
Proof.
  intros H. rewrite (NumericToAmount_repr _ _ H).
  destruct (Z.ltb_spec (BigInt a) 0); [pose proof (BigInt_nonneg a); lia|].
  apply parse_text_BigInt.
Qed.

Lemma NumericToAmount_u128 n v :
  numeric_repr n v -> 0 <= v < 2 ^ 128 ->
  ∃ a, NumericToAmount n = Ok a ∧ BigInt a = v.
Proof.
  intros H Hv. rewrite (NumericToAmount_repr _ _ H).
  destruct (Z.ltb_spec v 0); [lia|].
  destruct (ParseAmount_u128 v Hv) as (a & Hp & Ha). exists a. by rewrite Hp.
Qed.

Lemma BigInt_inj a b : BigInt a = BigInt b -> a = b.
Proof.
  intros E. pose proof (parse_text_BigInt a) as Ha. pose proof (parse_text_BigInt b) as Hb.
  rewrite E in Ha. congruence.
Qed.

Lemma Hex_of_value a v : BigInt a = v -> Hex a = "0x" +:+ big_Text16 v.
Proof. intros <-. apply Hex_BigInt. Qed.

(** The converse: an answer is the value the representation denotes. *)
Lemma NumericToAmount_sound n a :
  int32_min < num_Exp n <= int32_max -> NumericToAmount n = Ok a ->
  ∃ v, numeric_repr n v ∧ 0 <= v ∧ ParseAmount ("0x" +:+ big_Text16 v) = (a, None).
Proof.
  intros He H. pose proof He as [He1 He2]. unfold NumericToAmount in H.
  destruct (num_Valid n) eqn:Hv; [|done]. destruct (num_NaN n) eqn:Hn; [done|].
  cbn [negb orb] in H. destruct (num_InfinityModifier n) eqn:Hi; [|done..].
  destruct (num_Int n) as [i|] eqn:Hint; [|done].
  set (v := if 0 <? num_Exp n then i * 10 ^ num_Exp n
            else if num_Exp n <? 0 then Z.quot i (10 ^ (- num_Exp n)) else i).
  assert (numeric_repr n v ∧ 0 <= v ∧ of_pair (ParseAmount ("0x" +:+ big_Text16 v)) = Ok a)
    as (Hr & Hnn & Hp).
  { revert H. unfold v, numeric_repr. destruct (Z.ltb_spec 0 (num_Exp n)).
    - rewrite pow10_pos by lia. cbn. intros H'.
      destruct (Z.ltb_spec (i * 10 ^ num_Exp n) 0); [done|].
      split_and!; try (done || lia). exists i. split; [done|].
      by rewrite (proj2 (Z.leb_le _ _)) by lia.
    - destruct (Z.ltb_spec (num_Exp n) 0).
      + pose proof He as He0. unfold int32_min, int32_max in He0.
        rewrite wrap32_small by (unfold int32_min, int32_max; lia).
        rewrite pow10_pos by lia.
        assert (0 < 10 ^ (- num_Exp n)) by (apply Z.pow_pos_nonneg; lia).
        destruct (Z.eqb_spec (Z.rem i (10 ^ (- num_Exp n))) 0) as [E|]; [|done].
        cbn. intros H'. destruct (Z.ltb_spec (Z.quot i (10 ^ (- num_Exp n))) 0); [done|].
        split_and!; try (done || lia). exists i. split; [done|].
        rewrite (proj2 (Z.leb_gt _ _)) by lia.
        pose proof (Z.quot_rem' i (10 ^ (- num_Exp n))). lia.
      + cbn. intros H'. destruct (Z.ltb_spec i 0); [done|].
        split_and!; try (done || lia). exists i. split; [done|].
        rewrite (proj2 (Z.leb_le _ _)) by lia.
        replace (num_Exp n) with 0 by lia. lia. }
  exists v. split_and!; try done.
  destruct (ParseAmount _) as [x [e|]]; [done|]. by injection Hp as <-.
Qed.
End facts.


