(* ===== verification/Tables.v ===== *)
(** * Keyed tables under sequences of upserts

    Lemmas on finite maps shared by the components: a list of
    [INSERT ... ON CONFLICT] statements seen one key at a time, and when running
    the same list twice is the same as running it once. *)

From S2P Require Import Prelude.

Section upserts.
Context {E V : Type} (key : E -> string) (g : E -> option V -> V).

(** One statement: the row of [key e] becomes [g e old]. *)
Definition upsert (m : gmap string V) (e : E) : gmap string V :=
  <[key e := g e (m !! key e)]> m.
Definition upserts (m : gmap string V) (l : list E) : gmap string V := foldl upsert m l.
Definition upsert_row (o : option V) (e : E) : option V := Some (g e o).

Lemma lookup_upsert m e k :
  upsert m e !! k = if decide (key e = k) then upsert_row (m !! k) e else m !! k.
Proof.
  unfold upsert, upsert_row. rewrite lookup_insert. case_decide; by subst.
Qed.

Lemma lookup_upserts m l k :
  upserts m l !! k = foldl upsert_row (m !! k) (filter (fun e => key e = k) l).
Proof.
  revert m. induction l as [|e l IH]; intros m; [done|].
  change (upserts m (e :: l)) with (upserts (upsert m e) l).
  rewrite IH, lookup_upsert, filter_cons. by case_decide.
Qed.

Lemma upserts_app m l1 l2 : upserts m (l1 ++ l2) = upserts (upserts m l1) l2.
Proof. apply foldl_app. Qed.

(** Running a list of statements on one key twice changes nothing more. *)
Definition absorbing : Prop :=
  forall l o, foldl upsert_row (foldl upsert_row o l) l = foldl upsert_row o l.

Lemma upserts_idem m l : absorbing -> upserts (upserts m l) l = upserts m l.
Proof. intros Ha. apply map_eq. intros k. by rewrite !lookup_upserts, Ha. Qed.

(** ON CONFLICT DO NOTHING. *)
Lemma absorbing_keep : (forall e v, g e (Some v) = v) -> absorbing.
Proof.
  intros Hg l o. assert (forall l v, foldl upsert_row (Some v) l = Some v) as Hs.
  { clear l. induction l as [|e l IH]; intros v; [done|].
    change (foldl upsert_row (Some (g e (Some v))) l = Some v). by rewrite Hg, IH. }
  destruct l as [|e l]; [done|].
  change (foldl upsert_row (foldl upsert_row (Some (g e o)) l) (e :: l)
    = foldl upsert_row (Some (g e o)) l).
  by rewrite !Hs.
Qed.

(** A key no statement names keeps its row. *)
Lemma lookup_upserts_ne m l k :
  Forall (fun e => key e ≠ k) l -> upserts m l !! k = m !! k.
Proof.
  intros H. rewrite lookup_upserts.
  assert (filter (fun e => key e = k) l = []) as ->; [|done].
  induction H as [|e l He _ IH]; [done|]. rewrite filter_cons, decide_False by done. done.
Qed.

Lemma lookup_upserts_keep m l k v :
  (forall e v, g e (Some v) = v) -> m !! k = Some v -> upserts m l !! k = Some v.
Proof.
  intros Hg. revert m. induction l as [|e l IH]; intros m Hm; [done|].
  change (upserts m (e :: l)) with (upserts (upsert m e) l). apply IH.
  rewrite lookup_upsert. case_decide; [|done]. unfold upsert_row. by rewrite Hm, Hg.
Qed.

Lemma lookup_upserts_in m l e : e ∈ l -> is_Some (upserts m l !! key e).
Proof.
  assert (forall l m k, is_Some (m !! k) -> is_Some (upserts m l !! k)) as Hs.
  { clear. induction l as [|e l IH]; intros m k H; [done|]. apply (IH (upsert m e)).
    rewrite lookup_upsert. by case_decide. }
  revert m. induction l as [|e' l IH]; intros m; [by intros ?%not_elem_of_nil|].
  intros [->|H]%elem_of_cons; [|by apply (IH (upsert m e'))].
  apply (Hs l (upsert m e')). rewrite lookup_upsert, decide_True; done.
Qed.

(** Every row afterwards is an old one or was written by a statement. *)
Lemma lookup_upserts_inv m l k v :
  upserts m l !! k = Some v ->
  m !! k = Some v ∨ ∃ e o, e ∈ l ∧ key e = k ∧ v = g e o.
Proof.
  revert m. induction l as [|e l IH]; intros m; [by left|].
  intros [H|(e' & o & ? & ? & ?)]%IH.
  - rewrite lookup_upsert in H. case_decide; [|by left].
    injection H as <-. right. exists e, (m !! k). split_and!; [left|done|done].
  - right. exists e', o. split_and!; [by right|done|done].
Qed.
End upserts.

(** COALESCE of nullable columns. *)
Definition coalesce {A} (a b : option A) : option A :=
  match a with Some _ => a | None => b end.

Lemma foldl_coalesce_Some {A} (x : A) l : foldl coalesce (Some x) l = Some x.
Proof. by induction l. Qed.

(** [fmap] over a table, repeated, is [fmap] of the repeated row function. *)
Lemma foldl_fmap_table {E V} (f : E -> V -> V) (m : gmap string V) l :
  foldl (fun m e => f e <$> m) m l = (fun v => foldl (fun v e => f e v) v l) <$> m.
Proof.
  revert m. induction l as [|e l IH]; intros m; cbn; [by rewrite map_fmap_id|].
  rewrite IH. by rewrite <- map_fmap_compose.
Qed.

(** ** Tables that only grow *)

(** No row is lost, and the rows there are move along [R]. *)
Definition grows {V} (R : relation V) (m m' : gmap string V) : Prop :=
  forall k x, m !! k = Some x -> ∃ y, m' !! k = Some y ∧ R x y.

#[global] Instance grows_preorder {V} (R : relation V) {HR : PreOrder R} : PreOrder (grows R).
Proof.
  split; [intros m k x H; by exists x|].
  intros m1 m2 m3 H12 H23 k x H. destruct (H12 k x H) as (y & Hy & ?).
  destruct (H23 k y Hy) as (z & Hz & ?). exists z. split; [done|by etrans].
Qed.

(** The rows agree on [f]. *)
Definition same {A B} (f : A -> B) : relation A := fun x y => f y = f x.

#[global] Instance same_preorder {A B} (f : A -> B) : PreOrder (same f).
Proof. split; [done|]. intros x y z H1 H2. unfold same in *. congruence. Qed.

Section grows.
Context {V : Type} (R : relation V) {HR : PreOrder R}.
Implicit Types (m : gmap string V).

Lemma grows_insert m k y : (forall x, m !! k = Some x -> R x y) -> grows R m (<[k := y]> m).
Proof.
  intros H k' x Hx. destruct (decide (k = k')) as [<-|Hne].
  - exists y. rewrite lookup_insert_eq. auto.
  - exists x. by rewrite lookup_insert_ne.
Qed.

Lemma grows_new m k y : m !! k = None -> grows R m (<[k := y]> m).
Proof. intros H. apply grows_insert. congruence. Qed.

Lemma grows_fmap m f : (forall x, R x (f x)) -> grows R m (f <$> m).
Proof. intros H k x Hx. exists (f x). by rewrite lookup_fmap, Hx. Qed.

Lemma grows_alter m k f : (forall x, m !! k = Some x -> R x (f x)) -> grows R m (alter f k m).
Proof.
  intros H k' x Hx. destruct (decide (k = k')) as [<-|Hne].
  - exists (f x). rewrite lookup_alter_eq, Hx. auto.
  - exists x. by rewrite lookup_alter_ne.
Qed.

Lemma grows_lookup m m' k x : grows R m m' -> m !! k = Some x -> is_Some (m' !! k).
Proof. intros H Hx. destruct (H k x Hx) as (y & -> & _). by eexists. Qed.
End grows.

Lemma grows_eq {V} (m m' : gmap string V) k x : grows eq m m' -> m !! k = Some x -> m' !! k = Some x.
Proof. intros H Hx. by destruct (H k x Hx) as (y & Hy & ->). Qed.
