(* ===== verification/Replay.v ===== *)
(** * Upserts replayed from any earlier position

    A feed of blocks of statements is applied to a table; now and then it goes back
    to an earlier block and goes on from there, never skipping a block.  These lemmas
    say, one row at a time, that such a feed ends where a single pass ends. *)

From S2P Require Import Prelude Tables.

(** ** Rows made of a last write and of a part that fills up *)

Section last_write.
Context {E V K : Type} (g : E -> option V -> V).
Context (keep : option V -> K) (fill : K -> E -> K) (mk : E -> K -> V).

(** The row a statement leaves is [mk] of it and of the part [keep] of the old row;
    a statement seen before fills in nothing more. *)
Record fills : Prop := {
  fills_mk e o : g e o = mk e (keep o);
  fills_keep e k : keep (Some (mk e k)) = fill k e;
  fills_same e k : mk e (fill k e) = mk e k;
  fills_again l k e : e ∈ l -> fill (foldl fill k l) e = foldl fill k l
}.

Context (HF : fills).

Lemma foldl_fill_again l k l' :
  (forall e, e ∈ l' -> e ∈ l) -> foldl fill (foldl fill k l) l' = foldl fill k l.
Proof.
  induction l' as [|e l' IH]; intros H; [done|]. cbn.
  rewrite (fills_again HF) by (apply H; left). apply IH. intros x Hx. apply H. by right.
Qed.

Lemma foldl_upsert_row_keep l o :
  l ≠ [] -> keep (foldl (upsert_row g) o l) = foldl fill (keep o) l.
Proof.
  revert o. induction l as [|e l IH]; intros o Hl; [done|]. cbn [foldl].
  unfold upsert_row at 2. rewrite (fills_mk HF).
  destruct l as [|e' l]; [cbn; by rewrite (fills_keep HF)|].
  rewrite IH by done. by rewrite (fills_keep HF).
Qed.

Lemma foldl_upsert_row_snoc l o e :
  foldl (upsert_row g) o (l ++ [e]) = Some (mk e (foldl fill (keep o) (l ++ [e]))).
Proof.
  rewrite !foldl_app. cbn. unfold upsert_row at 1. rewrite (fills_mk HF).
  f_equal. rewrite (fills_same HF). f_equal.
  destruct l as [|x l]; [done|]. by apply foldl_upsert_row_keep.
Qed.

Lemma fills_absorbing : absorbing g.
Proof.
  intros l o. destruct l as [|e l _] using rev_ind; [done|].
  rewrite !foldl_upsert_row_snoc. do 2 f_equal. rewrite (fills_keep HF), (fills_again HF).
  - by apply foldl_fill_again.
  - apply elem_of_app. right. left.
Qed.

(** What the first [i] blocks write to the row. *)
Context (bs : list (list E)).
Definition writes (i : nat) : list E := concat (take i bs).

Lemma writes_S i b : bs !! i = Some b -> writes (S i) = writes i ++ b.
Proof.
  intros H. unfold writes. rewrite (take_S_r _ _ _ H), concat_app. cbn. by rewrite app_nil_r.
Qed.

Lemma elem_of_writes i b m e : bs !! i = Some b -> (i < m)%nat -> e ∈ b -> e ∈ writes m.
Proof.
  intros Hb Hi He. apply list_elem_of_In, in_concat. exists b. split; [|by apply list_elem_of_In].
  apply list_elem_of_In, (list_elem_of_lookup_2 _ i). by rewrite lookup_take_lt.
Qed.

(** The row [o] of a feed that has reached block [m] and last applied block [j - 1]:
    every write up to [m] has filled it, and its last write is that of a pass which
    stopped somewhere between [j] and [m]. *)
Definition row_inv (m j : nat) (o0 o : option V) : Prop :=
  ∃ i, (j <= i <= m)%nat ∧ (writes i = [] -> writes m = []) ∧
    o = match list.last (writes i) with
        | None => o0
        | Some e => Some (mk e (foldl fill (keep o0) (writes m)))
        end.

Lemma row_inv_start o0 : row_inv 0 0 o0 o0.
Proof. by exists 0%nat. Qed.

Lemma row_inv_keep m j o0 o :
  row_inv m j o0 o -> keep o = foldl fill (keep o0) (writes m).
Proof.
  intros (i & [_ Hi] & Hnil & ->). destruct (list.last (writes i)) as [e|] eqn:El.
  - rewrite (fills_keep HF), (fills_again HF); [done|].
    apply last_Some_elem_of in El. unfold writes in *.
    apply list_elem_of_In, in_concat in El as (b & Hb & He).
    apply list_elem_of_In, list_elem_of_lookup in Hb as [n Hb].
    apply lookup_take_Some in Hb as [Hb Hn].
    apply (elem_of_writes n b); [done|lia|by apply list_elem_of_In].
  - apply last_None in El. by rewrite (Hnil El).
Qed.

Lemma row_inv_step m j i b o0 o :
  (j <= m)%nat -> (i <= j)%nat -> bs !! i = Some b -> row_inv m j o0 o ->
  row_inv (max m (S i)) (S i) o0 (foldl (upsert_row g) o b).
Proof.
  intros Hjm Hij Hb HI. pose proof (row_inv_keep _ _ _ _ HI) as HK.
  pose proof (writes_S i b Hb) as HW.
  assert (writes (max m (S i)) = if decide (i < m)%nat then writes m else writes m ++ b) as HM.
  { case_decide; [by rewrite Nat.max_l by lia|].
    rewrite Nat.max_r by lia. by replace m with i by lia. }
  destruct b as [|e b _] using rev_ind.
  - rewrite app_nil_r in *. destruct HI as (i0 & Hi0 & Hnil & ->).
    assert (writes (max m (S i)) = writes m) as HM' by (rewrite HM; by case_decide).
    exists (max i0 (S i)). rewrite HM'. split; [lia|].
    destruct (decide (S i <= i0)%nat); [by rewrite Nat.max_l by lia|].
    rewrite Nat.max_r, HW by lia. by replace i with i0 by lia.
  - exists (S i). split; [lia|]. rewrite foldl_upsert_row_snoc, HW.
    split; [intros Hn; exfalso; by destruct (writes i), b|].
    rewrite app_assoc, last_snoc, HK, HM. do 2 f_equal. case_decide.
    + apply foldl_fill_again. intros x Hx. by eapply elem_of_writes.
    + by rewrite (foldl_app fill (writes m)).
Qed.

Lemma row_inv_end o0 o :
  row_inv (length bs) (length bs) o0 o -> o = foldl (upsert_row g) o0 (concat bs).
Proof.
  intros (i & Hi & _ & ->). replace i with (length bs) by lia. unfold writes. rewrite take_ge by lia.
  destruct (concat bs) as [|e l _] using rev_ind; [done|].
  by rewrite last_snoc, foldl_upsert_row_snoc.
Qed.
End last_write.

Arguments fills {_ _ _}.
Arguments row_inv {_ _ _}.

(** A part that the first statement saturates, and one that takes the first value
    it is offered. *)
Lemma saturated_again {K E} (fill : K -> E -> K) :
  (forall k x y, fill (fill k x) y = fill k x) ->
  forall l k e, e ∈ l -> fill (foldl fill k l) e = foldl fill k l.
Proof.
  intros Hf l k e He. destruct l as [|x l]; [by apply not_elem_of_nil in He|]. cbn.
  assert (forall l, foldl fill (fill k x) l = fill k x) as Hs.
  { clear l He. induction l as [|y l IH]; [done|]. cbn. by rewrite Hf. }
  by rewrite Hs, Hf.
Qed.

Lemma coalesce_again {A} (l : list (option A)) k a :
  a ∈ l -> coalesce (foldl coalesce k l) a = foldl coalesce k l.
Proof.
  revert k. induction l as [|b l IH]; intros k Ha; [by apply not_elem_of_nil in Ha|]. cbn.
  apply elem_of_cons in Ha as [->|Ha]; [|by apply IH].
  destruct k as [x|]; cbn; [by rewrite foldl_coalesce_Some|].
  destruct b as [x|]; cbn; [by rewrite foldl_coalesce_Some|]. by destruct (foldl _ _ _).
Qed.

(** The writes to one row of a table. *)
Definition to_key {E} (key : E -> string) (k : string) (l : list E) : list E :=
  filter (fun e => key e = k) l.

Lemma concat_to_key {E} (key : E -> string) k (bs : list (list E)) :
  concat (to_key key k <$> bs) = to_key key k (concat bs).
Proof.
  induction bs as [|b bs IH]; [done|]. cbn. rewrite IH. unfold to_key. by rewrite list.filter_app.
Qed.

(** A whole table, row by row. *)
Definition table_inv {E V K} (key : E -> string) (keep : option V -> K) fill mk
    (bs : list (list E)) (m j : nat) (t0 t : gmap string V) : Prop :=
  forall k, row_inv keep fill mk (to_key key k <$> bs) m j (t0 !! k) (t !! k).

(** The invariant speaks of the first [m] batches only. *)
Lemma table_inv_take {E V K} (key : E -> string) (keep : option V -> K) fill mk bs m j t0 t :
  table_inv key keep fill mk bs m j t0 t ->
  table_inv key keep fill mk (take m bs) m j t0 t.
Proof.
  intros HI k. destruct (HI k) as (i & Hi & Hnil & E1). exists i. unfold writes in *.
  rewrite <- !fmap_take, !take_take, Nat.min_id, Nat.min_l by lia. rewrite !fmap_take. done.
Qed.

Section table.
Context {E V K : Type} (key : E -> string) (g : E -> option V -> V).
Context (keep : option V -> K) (fill : K -> E -> K) (mk : E -> K -> V).
Context (HF : fills g keep fill mk) (bs : list (list E)).

Lemma table_inv_step m j i b t0 t :
  (j <= m)%nat -> (i <= j)%nat -> bs !! i = Some b ->
  table_inv key keep fill mk bs m j t0 t ->
  table_inv key keep fill mk bs (max m (S i)) (S i) t0 (upserts key g t b).
Proof.
  intros Hjm Hij Hb HI k. rewrite lookup_upserts.
  eapply row_inv_step; [done|exact Hjm|exact Hij| |apply HI].
  by rewrite list_lookup_fmap, Hb.
Qed.

Lemma table_inv_end t0 t :
  table_inv key keep fill mk bs (length bs) (length bs) t0 t ->
  t = upserts key g t0 (concat bs).
Proof.
  intros HI. apply map_eq. intros k. rewrite lookup_upserts.
  specialize (HI k). rewrite <- (length_fmap (to_key key k) bs) in HI.
  apply (row_inv_end g) in HI; [|done]. by rewrite HI, concat_to_key.
Qed.
End table.

(** ** Rows written once *)

(** Statements that keep what is there, on keys that are all there, do nothing. *)
Lemma upserts_present {E V} (key : E -> string) (g : E -> option V -> V) m l :
  (forall e v, g e (Some v) = v) -> (forall e, e ∈ l -> is_Some (m !! key e)) ->
  upserts key g m l = m.
Proof.
  intros Hg. induction l as [|e l IH]; intros Hl; [done|].
  change (upserts key g (upsert key g m e) l = m).
  assert (upsert key g m e = m) as ->.
  { destruct (Hl e) as [v Hv]; [left|]. unfold upsert. rewrite Hv, Hg. by apply insert_id. }
  apply IH. intros e' He'. apply Hl. by right.
Qed.

Lemma upserts_is_Some {E V} (key : E -> string) (g : E -> option V -> V) m l k :
  is_Some (m !! k) -> is_Some (upserts key g m l !! k).
Proof.
  revert m. induction l as [|e l IH]; intros m H; [done|].
  change (is_Some (upserts key g (upsert key g m e) l !! k)). apply IH.
  rewrite lookup_upsert. by case_decide.
Qed.
