(* ===== verification/Ids.v ===== *)
(** * Identifiers and secrets (internal/platform/id, internal/platform/auth)

    [Derive] hashes a namespace and parts joined by NUL bytes and prints the
    first sixteen bytes as a ULID.  API keys and webhook secrets are 32 random
    bytes in hexadecimal; only the SHA-256 of an API key is stored. *)

From S2P Require Import Prelude Strconv GoTime External Schema.

Definition NUL : ascii := "000".

(** What is written to the hash: the namespace, then each part after a NUL. *)
Fixpoint hash_parts (parts : list string) : string :=
  match parts with
  | [] => EmptyString
  | p :: ps => String NUL (p +:+ hash_parts ps)
  end.

Definition derive_input (namespace : string) (parts : list string) : string :=
  namespace +:+ hash_parts parts.

Definition hex_digit (d : Z) : ascii :=
  match String.get (Z.to_nat d) "0123456789abcdef" with Some c => c | None => "0" end.

(** [hex.EncodeToString] *)
Fixpoint hex_EncodeToString (s : string) : string :=
  match s with
  | EmptyString => EmptyString
  | String c s' =>
      let n := Z.of_nat (nat_of_ascii c) in
      String (hex_digit (n / 16)) (String (hex_digit (n `mod` 16)) (hex_EncodeToString s'))
  end.

(** [subtle.ConstantTimeCompare]: 1 for equal contents, 0 otherwise (also for
    different lengths). *)
Definition ConstantTimeCompare (x y : string) : Z := if bool_decide (x = y) then 1 else 0.

Section ids.
Context {FT : Fibertypes} {CR : Crypto}.

(** [id.Derive] and [id.DeriveWithPrefix]. *)
Definition Derive (namespace : string) (parts : list string) : string :=
  ulid_String (String.substring 0 16 (sha256 (derive_input namespace parts))).
Definition DeriveWithPrefix (prefix namespace : string) (parts : list string) : string :=
  prefix +:+ Derive namespace parts.

(** The id of the bytes that are hashed. *)
Definition hash_id (input : string) : string := ulid_String (String.substring 0 16 (sha256 input)).

(** [randHex] *)
Definition randHex (n : nat) : M string :=
  k ← draw; mret (hex_EncodeToString (rand_Read k n)).

Definition HashAPIKey (plaintext : string) : string := hex_EncodeToString (sha256 plaintext).

Definition NewAPIKey : M (string * string) :=
  plaintext ← randHex 32; mret (plaintext, HashAPIKey plaintext).

Definition VerifyAPIKey (plaintext hash : string) : bool :=
  ConstantTimeCompare (HashAPIKey plaintext) hash =? 1.

Definition NewWebhookSecret : M string := randHex 32.
End ids.

(** ** Facts *)

Lemma hash_parts_inj ps qs :
  Forall (fun p => str_mem NUL p = false) ps ->
  Forall (fun q => str_mem NUL q = false) qs ->
  hash_parts ps = hash_parts qs -> ps = qs.
Proof.
  assert (forall p q a b, str_mem NUL p = false -> str_mem NUL q = false ->
    (a = EmptyString ∨ ∃ a', a = String NUL a') ->
    (b = EmptyString ∨ ∃ b', b = String NUL b') ->
    p +:+ a = q +:+ b -> p = q ∧ a = b) as Hsplit.
  { induction p as [|c p IH]; intros [|c' q] a b Hp Hq Ha Hb E.
    - done.
    - change (EmptyString +:+ a) with a in E. subst a.
      cbn in Hq. destruct Ha as [Ha|[a' Ha]]; [done|].
      injection Ha as -> _. by rewrite bool_decide_true in Hq.
    - change (EmptyString +:+ b) with b in E. subst b.
      cbn in Hp. destruct Hb as [Hb|[b' Hb]]; [done|].
      injection Hb as -> _. by rewrite bool_decide_true in Hp.
    - rewrite !string_app_cons in E. injection E as -> E.
      cbn in Hp, Hq. apply orb_false_iff in Hp as [_ Hp], Hq as [_ Hq].
      destruct (IH q a b) as [-> ->]; auto. }
  intros Hps. revert qs. induction Hps as [|p ps Hp Hps IH]; intros [|q qs] Hqs E;
    [done|done|done|].
  inversion_clear Hqs as [|? ? Hq Hqs']. cbn in E. injection E as E.
  apply Hsplit in E as [-> E]; [|done|done|by destruct ps; eauto|by destruct qs; eauto].
  f_equal. by apply IH.
Qed.

(** Two inputs without NUL bytes in the namespace or the parts that hash the same
    bytes are the same input. *)
Lemma derive_input_inj ns ns' ps qs :
  str_mem NUL ns = false -> str_mem NUL ns' = false ->
  Forall (fun p => str_mem NUL p = false) ps ->
  Forall (fun q => str_mem NUL q = false) qs ->
  derive_input ns ps = derive_input ns' qs -> ns = ns' ∧ ps = qs.
Proof.
  intros Hn Hn' Hps Hqs E.
  assert (ns :: ps = ns' :: qs) as [= <- <-]; [|done].
  apply hash_parts_inj; [by constructor|by constructor|]. cbn. by f_equal.
Qed.

Lemma hex_digit_inj a b : 0 <= a < 16 -> 0 <= b < 16 -> hex_digit a = hex_digit b -> a = b.
Proof.
  intros Ha Hb.
  assert (forallb (fun a => forallb (fun b =>
    bool_decide (hex_digit a = hex_digit b -> a = b)) (seqZ 0 16)) (seqZ 0 16) = true)
    as H by (vm_compute; reflexivity).
  rewrite forallb_forall in H. specialize (H a).
  rewrite forallb_forall in H. rewrite <- !list_elem_of_In, !elem_of_seqZ in H.
  specialize (H ltac:(lia) b). rewrite <- list_elem_of_In, elem_of_seqZ in H.
  specialize (H ltac:(lia)). by apply bool_decide_eq_true in H.
Qed.

Lemma hex_EncodeToString_inj s t :
  hex_EncodeToString s = hex_EncodeToString t -> s = t.
Proof.
  revert t. induction s as [|c s IH]; intros [|c' t]; cbn -[Z.div Z.modulo]; try done.
  intros [= E1 E2 E3%IH]. subst t. f_equal.
  pose proof (nat_ascii_bounded c). pose proof (nat_ascii_bounded c').
  apply hex_digit_inj in E1, E2;
    try (apply Z.mod_pos_bound; lia);
    try (split; [apply Z.div_pos; lia|apply Z.div_lt_upper_bound; lia]).
  rewrite <- (ascii_nat_embedding c), <- (ascii_nat_embedding c'). f_equal.
  pose proof (Z.div_mod (Z.of_nat (nat_of_ascii c)) 16 ltac:(lia)).
  pose proof (Z.div_mod (Z.of_nat (nat_of_ascii c')) 16 ltac:(lia)). lia.
Qed.

Lemma hex_EncodeToString_length s :
  String.length (hex_EncodeToString s) = (2 * String.length s)%nat.
Proof. induction s as [|c s IH]; cbn; [done|]. rewrite IH. lia. Qed.

Lemma VerifyAPIKey_iff {CR : Crypto} key hash :
  VerifyAPIKey key hash = true <-> hash = HashAPIKey key.
Proof.
  unfold VerifyAPIKey, ConstantTimeCompare. case_bool_decide as E; cbn; [by rewrite E|].
  split; [done|]. by intros ->.
Qed.
