(* ===== verification/Http.v ===== *)
(** * HTTP requests, responses and JSON (internal/platform/httpx)

    A request is what the handlers read of it: the query parameters, the path
    parameters chi extracted, the Authorization header and the outcome of decoding
    the body.  A response is a status with the JSON value, or the bytes, written.
    [json_Marshal] is [encoding/json]'s output for such a value: strings escaped, a raw
    message compacted, a time printed in the location it has. *)

From S2P Require Import Prelude Strconv GoTime External Schema.

(** ** JSON values and their text *)

(** A value handed to [json.Marshal]; an object lists its members in the order
    they are written (struct order, or sorted keys for a map). *)
Inductive json :=
| JStr (s : string)
| JInt (z : Z)
| JBool (b : bool)
| JNull
| JRaw (s : string)
| JArr (l : list json)
| JObj (l : list (string * json)).

(** One character of a JSON string, HTML characters escaped as Go does. *)
Definition json_char (c : ascii) : string :=
  let n := nat_of_ascii c in
  let esc x := String (ascii_of_nat 92) (String x EmptyString) in
  match n with
  | 34%nat => esc c | 92%nat => esc c
  | 8%nat => esc "b"%char | 9%nat => esc "t"%char | 10%nat => esc "n"%char
  | 12%nat => esc "f"%char | 13%nat => esc "r"%char
  | _ =>
      if bool_decide (n < 32)%nat || bool_decide (n ∈ [38; 60; 62]%nat) then
        String (ascii_of_nat 92)
          ("u00" +:+ String (hex_low (n / 16)%nat) (String (hex_low (n mod 16)%nat) EmptyString))
      else String c EmptyString
  end.

(** U+2028 and U+2029, which are escaped as well. *)
Definition line_separator (a b c : ascii) : option string :=
  match nat_of_ascii a, nat_of_ascii b, nat_of_ascii c with
  | 226%nat, 128%nat, 168%nat => Some (String (ascii_of_nat 92) "u2028")
  | 226%nat, 128%nat, 169%nat => Some (String (ascii_of_nat 92) "u2029")
  | _, _, _ => None
  end.

Fixpoint json_chars (s : string) : string :=
  match s with
  | EmptyString => EmptyString
  | String a ((String b (String c rest)) as s') =>
      match line_separator a b c with
      | Some esc => esc +:+ json_chars rest
      | None => json_char a +:+ json_chars s'
      end
  | String a s' => json_char a +:+ json_chars s'
  end.

Definition json_string (s : string) : string :=
  String dquote (json_chars s +:+ String dquote EmptyString).

(** What a [json.RawMessage] is compacted to: spaces outside strings are dropped, HTML
    characters and line separators escaped.  [quoted] and [escaped] are the scanner's
    state: inside a string, after a backslash. *)
Definition json_space (c : ascii) : bool := bool_decide (nat_of_ascii c ∈ [9; 10; 13; 32]%nat).
Definition compact_char (quoted : bool) (c : ascii) : string :=
  if negb quoted && json_space c then EmptyString
  else if bool_decide (nat_of_ascii c ∈ [38; 60; 62]%nat) then json_char c
  else String c EmptyString.

Fixpoint json_compact (quoted escaped : bool) (s : string) : string :=
  match s with
  | EmptyString => EmptyString
  | String a s' =>
      let quoted' := if bool_decide (a = dquote) && negb escaped then negb quoted else quoted in
      let escaped' := quoted && bool_decide (nat_of_ascii a = 92%nat) && negb escaped in
      match s' with
      | String b (String c rest) =>
          match line_separator a b c with
          | Some esc => esc +:+ json_compact quoted false rest
          | None => compact_char quoted a +:+ json_compact quoted' escaped' s'
          end
      | _ => compact_char quoted a +:+ json_compact quoted' escaped' s'
      end
  end.

Fixpoint json_Marshal (j : json) : string :=
  match j with
  | JStr s => json_string s
  | JInt z => Itoa z
  | JBool b => if b then "true" else "false"
  | JNull => "null"
  | JRaw s => json_compact false false s
  | JArr l => "[" +:+ strings_Join (json_Marshal <$> l) "," +:+ "]"
  | JObj l =>
      "{" +:+ strings_Join
        ((fun m => json_string (fst m) +:+ ":" +:+ json_Marshal (snd m)) <$> l) "," +:+ "}"
  end.

(** [,omitempty] on a string and on a pointer. *)
Definition omitempty (k v : string) : list (string * json) :=
  if bool_decide (v = EmptyString) then [] else [(k, JStr v)].
Definition omitnil {A} (k : string) (f : A -> json) (v : option A) : list (string * json) :=
  match v with None => [] | Some x => [(k, f x)] end.

(** A [time.Time] as pgx scanned it, in the location it has. *)
Definition JTime {PG : Postgres} (t : Time) : json := JStr (format_RFC3339Nano_in (pg_location t) t).

Example compact_example :
  let q := String dquote EmptyString in
  json_Marshal (JRaw ("{" +:+ q +:+ "a b" +:+ q +:+ ": [1, " +:+ q +:+ "<" +:+ q +:+ "]}"))
  = "{" +:+ q +:+ "a b" +:+ q +:+ ":[1," +:+ q +:+ "\u003c" +:+ q +:+ "]}".
Proof. vm_compute. reflexivity. Qed.

(** ** Responses *)

Inductive body_out := NoBody | BodyJSON (j : json) | BodyBytes (contentType disposition data : string).

Record response := MkResponse { status : Z; body : body_out }.

Definition StatusOK : Z := 200.
Definition StatusCreated : Z := 201.
Definition StatusAccepted : Z := 202.
Definition StatusNoContent : Z := 204.
Definition StatusBadRequest : Z := 400.
Definition StatusUnauthorized : Z := 401.
Definition StatusNotFound : Z := 404.
Definition StatusInternalServerError : Z := 500.

(** [httpx.JSON] and [httpx.Error]. *)
Definition JSON (st : Z) (v : json) : response := MkResponse st (BodyJSON v).
Definition Error (st : Z) (msg : string) : response := JSON st (JObj [("error", JStr msg)]).

(** ** Requests *)

Record request (B : Type) := MkRequest {
  q_params : list (string * string);
  url_params : list (string * string);
  authorization : string;
  (** what [DecodeJSON] makes of the body *)
  decoded : result B
}.
Arguments MkRequest {_} _ _ _ _.
Arguments q_params {_} _.
Arguments url_params {_} _.
Arguments authorization {_} _.
Arguments decoded {_} _.

(** [url.Values.Get], [chi.URLParam]: the first value, or the empty string. *)
Fixpoint get (l : list (string * string)) (key : string) : string :=
  match l with
  | [] => EmptyString
  | (k, v) :: l' => if bool_decide (k = key) then v else get l' key
  end.

Definition Query_Get {B} (r : request B) (key : string) : string := get (q_params r) key.
Definition URLParam {B} (r : request B) (key : string) : string := get (url_params r) key.

Definition QueryTime {B} `{TimeParser} (r : request B) (key : string) : result (option Time) :=
  let v := Query_Get r key in
  if bool_decide (v = EmptyString) then Ok None
  else t ← time_Parse RFC3339 v; Ok (Some t).

Definition QueryInt {B} (r : request B) (key : string) (def : Z) : Z :=
  let v := Query_Get r key in
  if bool_decide (v = EmptyString) then def
  else match Atoi v with Ok n => n | _ => def end.

(** [if err != nil { httpx.Error(w, code, err.Error()); return }] *)
Definition or_error {FT : Fibertypes} {A} (code : Z) (m : M A) (k : A -> M response) : M response :=
  r ← attempt m;
  match r with
  | inl e => mret (Error code (error_text e))
  | inr a => k a
  end.

(** ** Facts *)

(** A present, decimal parameter in range is read back; anything else is the
    default. *)
Lemma QueryInt_Itoa {B} (r : request B) key def n :
  int64_min <= n <= int64_max -> Query_Get r key = Itoa n -> QueryInt r key def = n.
Proof.
  intros Hn Hq. unfold QueryInt. rewrite Hq. rewrite bool_decide_false.
  - by rewrite Atoi_Itoa_ok.
  - intros E. pose proof (Atoi_Itoa_ok n Hn) as H. rewrite E in H. done.
Qed.

Lemma QueryInt_range {B} (r : request B) key def :
  int64_min <= def <= int64_max -> int64_min <= QueryInt r key def <= int64_max.
Proof.
  intros Hd. unfold QueryInt. case_bool_decide; [done|].
  destruct (Atoi (Query_Get r key)) as [n|e|p] eqn:E; [|done..]. by apply Atoi_range in E.
Qed.

Lemma QueryTime_format {B} `{TimeParser} (r : request B) key t :
  printable_time t -> Query_Get r key = format_RFC3339Nano t ->
  QueryTime r key = Ok (Some t).
Proof.
  intros Ht Hq. unfold QueryTime. rewrite Hq. rewrite bool_decide_false.
  - unfold time_Parse. by rewrite parse_format_RFC3339Nano.
  - intros E. pose proof (parse_format_RFC3339Nano t Ht) as Hp. rewrite E in Hp. discriminate Hp.
Qed.
