(* ===== verification/Config.v ===== *)
(** * Configuration (internal/platform/config)

    [Load] over an environment: [os.Getenv] answers the empty string for an unset
    variable. *)

From S2P Require Import Prelude Strconv.

(** ** Definitions *)

Definition env := string -> string.

Record Config := MkConfig {
  FiberRPCEndpoint : string;
  FiberBiscuitToken : string;
  IngestSource : string;
  DatabaseURL : string;
  WebhookMaxAttempts : Z;
  WebhookWorkers : Z;
  HTTPAddr : string
}.

Definition envOr (getenv : env) (key def : string) : string :=
  let v := getenv key in if bool_decide (v = EmptyString) then def else v.

Definition envInt (getenv : env) (key : string) (def : Z) : result Z :=
  let v := getenv key in
  if bool_decide (v = EmptyString) then Ok def
  else wrap_err ("config: " +:+ key +:+ " must be an integer: ") (Atoi v).

Definition ingest_sources : list string := ["pubsub"; "polling"; "fake"].

Definition Load (getenv : env) : result Config :=
  let source := envOr getenv "INGEST_SOURCE" "fake" in
  attempts ← envInt getenv "WEBHOOK_MAX_ATTEMPTS" 8;
  workers ← envInt getenv "WEBHOOK_WORKERS" 4;
  if bool_decide (getenv "DATABASE_URL" = EmptyString) then
    Err (EText "config: DATABASE_URL is required")
  else if bool_decide (source ∈ ingest_sources) then
    Ok (MkConfig (getenv "FIBER_RPC_ENDPOINT") (getenv "FIBER_BISCUIT_TOKEN") source
          (getenv "DATABASE_URL") attempts workers (envOr getenv "HTTP_ADDR" ":8080"))
  else Err (EText ("config: invalid INGEST_SOURCE " +:+ go_quote source
                   +:+ " (want pubsub|polling|fake)")).

(** ** Facts *)

Lemma envInt_Ok getenv key def n :
  envInt getenv key def = Ok n <->
  (getenv key = EmptyString ∧ n = def) ∨ (getenv key ≠ EmptyString ∧ Atoi (getenv key) = Ok n).
Proof.
  unfold envInt. case_bool_decide as E; [split; [by intros [= ->]; auto|]|].
  - by intros [[_ ->]|[? _]].
  - destruct (Atoi (getenv key)) as [m|e|p]; cbn;
      (split; [intros [= ->]; auto|by intros [[? _]|[_ [= ->]]]]).
Qed.

(** ** Theorems *)

(** [Load] accepts exactly the valid environments: it answers a configuration
    if and only if DATABASE_URL is set, INGEST_SOURCE is unset or one of the three
    sources, and each of the two webhook variables is unset or a decimal int64; the
    configuration holds those values with the documented defaults (8 attempts, 4
    workers, :8080, fake). *)
Theorem Load_accepts getenv cfg :
  Load getenv = Ok cfg <->
  getenv "DATABASE_URL" ≠ EmptyString ∧
  IngestSource cfg ∈ ["pubsub"; "polling"; "fake"] ∧
  FiberRPCEndpoint cfg = getenv "FIBER_RPC_ENDPOINT" ∧
  FiberBiscuitToken cfg = getenv "FIBER_BISCUIT_TOKEN" ∧
  IngestSource cfg = envOr getenv "INGEST_SOURCE" "fake" ∧
  DatabaseURL cfg = getenv "DATABASE_URL" ∧
  ((getenv "WEBHOOK_MAX_ATTEMPTS" = EmptyString ∧ WebhookMaxAttempts cfg = 8)
   ∨ (getenv "WEBHOOK_MAX_ATTEMPTS" ≠ EmptyString
      ∧ Atoi (getenv "WEBHOOK_MAX_ATTEMPTS") = Ok (WebhookMaxAttempts cfg))) ∧
  ((getenv "WEBHOOK_WORKERS" = EmptyString ∧ WebhookWorkers cfg = 4)
   ∨ (getenv "WEBHOOK_WORKERS" ≠ EmptyString
      ∧ Atoi (getenv "WEBHOOK_WORKERS") = Ok (WebhookWorkers cfg))) ∧
  HTTPAddr cfg = envOr getenv "HTTP_ADDR" ":8080".
Proof.
  rewrite <- !envInt_Ok. unfold Load. split.
  - intros H. unfold mbind, result_bind in H.
    destruct (envInt getenv "WEBHOOK_MAX_ATTEMPTS" 8) as [a|?|?]; [|done..].
    destruct (envInt getenv "WEBHOOK_WORKERS" 4) as [b|?|?]; [|done..].
    case_bool_decide; [done|]. case_bool_decide; [|done]. injection H as <-. by split_and!.
  - intros (Hd & Hin & H1 & H2 & H3 & H4 & H5 & H6 & H7). rewrite H5, H6.
    unfold mbind, result_bind. rewrite bool_decide_false by done.
    rewrite <- H1, <- H2, <- H3, <- H4, <- H7, bool_decide_true by done. by destruct cfg.
Qed.
