(* ===== verification/Frame.v ===== *)
(** * Framing: what a computation may do, whatever it answers

    [frames R m] says that every run of [m], successful or not, moves the database
    along [R] and leaves the clock alone.  For a preorder [R] it is closed under the
    monad's combinators, so a handler is reduced to its statements; the [framing]
    tactic does the reduction and leaves one goal per statement.  [moves] is one run,
    for a statement that is only right because of what an earlier one read, and
    [preserves I] the relation of keeping an invariant.  [quiet] computations make no
    node call and [answers] ones never end in an error; [quieting] and [answering]
    reduce to their parts. *)

From S2P Require Import Prelude Strconv GoTime External Schema.

Section frame.
Context {FT : Fibertypes}.
Implicit Types (w : world).

Definition frames (R : Time -> relation Database) {A} (m : M A) : Prop :=
  forall w, R (w_now w) (w_db w) (w_db (snd (m w))) ∧ w_now (snd (m w)) = w_now w.

Context (R : Time -> relation Database) {HR : forall t, PreOrder (R t)}.

Lemma frames_pure {A} (r : world -> result A) (f : world -> world) :
  (forall w, w_db (f w) = w_db w ∧ w_now (f w) = w_now w) ->
  frames R (fun w => (r w, f w)).
Proof. intros Hf w. destruct (Hf w) as [H1 H2]. cbn. rewrite H1. done. Qed.

Lemma frames_mret {A} (a : A) : frames R (mret a).
Proof. by apply (frames_pure (fun _ => Ok a) id). Qed.
Lemma frames_throw {A} e : frames R (throw e : M A).
Proof. by apply (frames_pure (fun _ => Err e) id). Qed.
Lemma frames_lift {A} (r : result A) : frames R (lift r).
Proof. by apply (frames_pure (fun _ => r) id). Qed.
Lemma frames_draw : frames R draw.
Proof. by apply (frames_pure (fun w => Ok (w_draws w))). Qed.
Lemma frames_NewInvoice {FR : FiberRPC} p : frames R (NewInvoice p).
Proof. by apply frames_pure. Qed.
Lemma frames_SendPayment {FR : FiberRPC} p : frames R (SendPayment p).
Proof. by apply frames_pure. Qed.

Lemma frames_bind {A B} (m : M A) (k : A -> M B) :
  frames R m -> (forall a, frames R (k a)) -> frames R (m ≫= k).
Proof.
  intros Hm Hk w. unfold mbind, M_bind, mbind_M. specialize (Hm w).
  destruct (m w) as [[a|e|p] w1]; [|done..]. cbn in Hm. destruct Hm as [H1 H2].
  destruct (Hk a w1) as [H3 H4]. rewrite H2 in *. split; [by etrans|done].
Qed.

Lemma frames_wrapping {A} pre (m : M A) : frames R m -> frames R (wrapping pre m).
Proof. intros Hm w. specialize (Hm w). unfold wrapping. by destruct (m w) as [[] ?]. Qed.

Lemma frames_attempt {A} (m : M A) : frames R m -> frames R (attempt m).
Proof. intros Hm w. specialize (Hm w). unfold attempt. by destruct (m w) as [[] ?]. Qed.

Lemma frames_for_each {A} (f : A -> M unit) xs :
  (forall x, frames R (f x)) -> frames R (for_each f xs).
Proof.
  intros Hf. induction xs as [|x xs IH]; [apply frames_mret|]. by apply frames_bind.
Qed.

Lemma frames_exec {A} need (f : Time -> Database -> result (A * Database)) :
  (forall t d a d', f t d = Ok (a, d') -> R t d d') -> frames R (exec need f).
Proof.
  intros Hf w. destruct (exec need f w) as [r w'] eqn:E.
  apply exec_effect in E as [[En _ _] [Ed|[a Ha]]]; cbn; [by rewrite Ed|].
  split; [by eapply Hf|done].
Qed.

Lemma frames_select {A} need (f : Database -> result A) : frames R (select need f).
Proof.
  apply frames_exec. intros t d a d'. unfold mbind, result_bind.
  by destruct (f d); intros [= _ <-].
Qed.

Lemma frames_InTx {A} (m : M A) : frames R m -> frames R (InTx m).
Proof.
  intros Hm w. unfold InTx. destruct (next_fault w) as [f w1] eqn:E1.
  apply next_fault_frame in E1 as [Edb [En _ _]].
  destruct f; [|cbn; rewrite Edb; done..].
  specialize (Hm w1). rewrite Edb, En in Hm.
  destruct (m w1) as [[a|e|p] w2]; cbn in *; [|rewrite Edb; destruct Hm; done..].
  destruct (next_fault w2) as [f w3] eqn:E2.
  apply next_fault_frame in E2 as [Edb2 [En2 _ _]]. destruct Hm as [H1 H2].
  destruct f; cbn; rewrite ?Edb2, ?Edb; (split; [done|congruence]).
Qed.

Lemma frames_id_New {CR : Crypto} : frames R id_New.
Proof. by apply (frames_pure (fun w => Ok (ulid_New (w_draws w)))). Qed.

(** One run of [m]; the continuation may use what [m] answered. *)
Definition moves w {A} (m : M A) : Prop :=
  R (w_now w) (w_db w) (w_db (snd (m w))) ∧ w_now (snd (m w)) = w_now w.

Lemma moves_bind {A B} (m : M A) (k : A -> M B) w :
  moves w m -> (forall a w1, m w = (Ok a, w1) -> moves w1 (k a)) -> moves w (m ≫= k).
Proof.
  intros Hm Hk. unfold moves, mbind, M_bind, mbind_M in *.
  destruct (m w) as [[a|e|p] w1]; [|done..]. cbn in Hm. destruct Hm as [H1 H2].
  destruct (Hk a w1 eq_refl) as [H3 H4]. rewrite H2 in *. split; [by etrans|done].
Qed.

Lemma moves_exec {A} need (f : Time -> Database -> result (A * Database)) w :
  (forall a d', f (w_now w) (w_db w) = Ok (a, d') -> R (w_now w) (w_db w) d') ->
  moves w (exec need f).
Proof.
  intros Hf. unfold moves. destruct (exec need f w) as [r w'] eqn:E.
  apply exec_effect in E as [[En _ _] [Ed|[a Ha]]]; cbn; [by rewrite Ed|].
  split; [by eapply Hf|done].
Qed.

Lemma moves_wrapping {A} pre (m : M A) w : moves w m -> moves w (wrapping pre m).
Proof. intros Hm. unfold moves, wrapping in *. by destruct (m w) as [[] ?]. Qed.
End frame.

(** Keeping an invariant is such a relation. *)
Definition preserves (I : Database -> Prop) (_ : Time) : relation Database :=
  fun d d' => I d -> I d'.

#[global] Instance preserves_preorder I t : PreOrder (preserves I t).
Proof. split; [by intros d H|]. intros d1 d2 d3 H12 H23 H. by apply H23, H12. Qed.

(** ** Computations that make no node call *)

Section quiet.
Context {FT : Fibertypes}.
Implicit Types (w : world).

Definition quiet {A} (m : M A) : Prop := forall w, w_calls (snd (m w)) = w_calls w.

Lemma quiet_mret {A} (a : A) : quiet (mret a).
Proof. done. Qed.
Lemma quiet_throw {A} e : quiet (throw e : M A).
Proof. done. Qed.
Lemma quiet_lift {A} (r : result A) : quiet (lift r).
Proof. done. Qed.
Lemma quiet_draw : quiet draw.
Proof. done. Qed.
Lemma quiet_id_New {CR : Crypto} : quiet id_New.
Proof. done. Qed.
Lemma quiet_bind {A B} (m : M A) (k : A -> M B) :
  quiet m -> (forall a, quiet (k a)) -> quiet (m ≫= k).
Proof.
  intros Hm Hk w. unfold mbind, M_bind, mbind_M. specialize (Hm w).
  destruct (m w) as [[a|e|p] w1]; [|done..]. cbn in Hm. by rewrite Hk.
Qed.
Lemma quiet_wrapping {A} pre (m : M A) : quiet m -> quiet (wrapping pre m).
Proof. intros Hm w. specialize (Hm w). unfold wrapping. by destruct (m w) as [[] ?]. Qed.
Lemma quiet_attempt {A} (m : M A) : quiet m -> quiet (attempt m).
Proof. intros Hm w. specialize (Hm w). unfold attempt. by destruct (m w) as [[] ?]. Qed.
Lemma quiet_exec {A} need (f : Time -> Database -> result (A * Database)) : quiet (exec need f).
Proof.
  intros w. destruct (exec need f w) as [r w'] eqn:E.
  by apply exec_effect in E as [[_ _ Ec] _].
Qed.
Lemma quiet_for_each {A} (f : A -> M unit) xs : (forall x, quiet (f x)) -> quiet (for_each f xs).
Proof.
  intros Hf. induction xs as [|x xs IH]; [apply quiet_mret|]. by apply quiet_bind.
Qed.
Lemma quiet_select {A} need (f : Database -> result A) : quiet (select need f).
Proof. apply quiet_exec. Qed.

(** Either the first part stops the computation or the rest runs on its answer. *)
Lemma bind_cases {A B} (m : M A) (k : A -> M B) w r w' :
  (m ≫= k) w = (r, w') ->
  (is_ok r = false ∧ w' = snd (m w)) ∨ (∃ a w1, m w = (Ok a, w1) ∧ k a w1 = (r, w')).
Proof.
  unfold mbind, M_bind, mbind_M. destruct (m w) as [[a|e|p] w1] eqn:E.
  - intros H. right. by exists a, w1.
  - intros [= <- <-]. by left.
  - intros [= <- <-]. by left.
Qed.
End quiet.

Ltac quieting :=
  repeat first
    [ apply quiet_mret | apply quiet_throw | apply quiet_lift | apply quiet_draw
    | apply quiet_id_New
    | apply quiet_bind; [|intros ?]
    | apply quiet_for_each; intros ?
    | apply quiet_select | apply quiet_exec | apply quiet_wrapping | apply quiet_attempt
    | match goal with |- quiet (match ?x with _ => _ end) => destruct x end ].

(** Reduce a handler to its statements. *)
Ltac frame_step :=
  first
    [ apply frames_select; [apply _]
    | apply frames_mret; [apply _] | apply frames_throw; [apply _]
    | apply frames_lift; [apply _] | apply frames_draw; [apply _]
    | apply frames_id_New; [apply _] | apply frames_NewInvoice; [apply _]
    | apply frames_SendPayment; [apply _]
    | apply frames_bind; [apply _| |intros ?]
    | apply frames_wrapping | apply frames_attempt
    | apply frames_InTx; [apply _|]
    | apply frames_for_each; [apply _|intros ?]
    | apply frames_exec; [apply _|]
    | match goal with |- frames _ (match ?x with _ => _ end) => destruct x eqn:? end ].
Ltac framing := repeat frame_step.

(** ** Computations that never answer an error *)

Section answers.
Context {FT : Fibertypes}.
Implicit Types (w : world).

Definition answers {A} (m : M A) : Prop := forall w e w', m w ≠ (Err e, w').

Lemma answers_mret {A} (a : A) : answers (mret a).
Proof. by intros w e w' [=]. Qed.
Lemma answers_draw : answers draw.
Proof. by intros w e w' [=]. Qed.
Lemma answers_id_New {CR : Crypto} : answers id_New.
Proof. by intros w e w' [=]. Qed.
Lemma answers_panic {A} p : answers (lift (Panic p) : M A).
Proof. by intros w e w' [=]. Qed.
Lemma answers_attempt {A} (m : M A) : answers (attempt m).
Proof. intros w e w'. unfold attempt. by destruct (m w) as [[] ?]. Qed.
Lemma answers_bind {A B} (m : M A) (k : A -> M B) :
  answers m -> (forall a, answers (k a)) -> answers (m ≫= k).
Proof.
  intros Hm Hk w e w'. unfold mbind, M_bind, mbind_M. specialize (Hm w).
  destruct (m w) as [[a|e1|p] w1]; [apply Hk| |done]. by destruct (Hm e1 w1).
Qed.
End answers.

(** Reduce a handler to its parts; every part answers. *)
Ltac answering :=
  repeat first
    [ apply answers_mret | apply answers_draw | apply answers_id_New | apply answers_panic | apply answers_attempt
    | apply answers_bind; [|intros ?]
    | match goal with |- answers (match ?x with _ => _ end) => destruct x end ].
