(* ===== verification/Transactions.v ===== *)
(** * Open transactions

    Postgres runs padma's one transaction, the flush, at READ COMMITTED: each of its
    statements sees what is committed when it starts and the transaction's own writes,
    and nobody else sees those before the commit.  Its now() is the time it began.  A [Tx]
    remembers that time, the database its last statement saw committed and the one that
    statement left; what differs is what the transaction has written.  [seen] puts that on
    top of what is committed now, and [avoids] says that a change leaves the rows it has
    written, and so holds locked, alone. *)

From S2P Require Import Prelude Strconv GoTime External Schema Tables.

#[global] Instance EventRow_eq_dec : EqDecision EventRow.
Proof. solve_decision. Defined.
#[global] Instance PaymentRow_eq_dec : EqDecision PaymentRow.
Proof. solve_decision. Defined.
#[global] Instance ChannelRow_eq_dec : EqDecision ChannelRow.
Proof. solve_decision. Defined.
#[global] Instance InvoiceRow_eq_dec : EqDecision InvoiceRow.
Proof. solve_decision. Defined.
#[global] Instance EndpointRow_eq_dec : EqDecision EndpointRow.
Proof. solve_decision. Defined.
#[global] Instance DeliveryRow_eq_dec : EqDecision DeliveryRow.
Proof. solve_decision. Defined.
#[global] Instance LogRow_eq_dec : EqDecision LogRow.
Proof. solve_decision. Defined.
#[global] Instance MerchantRow_eq_dec : EqDecision MerchantRow.
Proof. solve_decision. Defined.
#[global] Instance OrderRow_eq_dec : EqDecision OrderRow.
Proof. solve_decision. Defined.
#[global] Instance RefundRow_eq_dec : EqDecision RefundRow.
Proof. solve_decision. Defined.
#[global] Instance SettlementDbRow_eq_dec : EqDecision SettlementDbRow.
Proof. solve_decision. Defined.
#[global] Instance ReconRunRow_eq_dec : EqDecision ReconRunRow.
Proof. solve_decision. Defined.

(** ** One table *)

Section table.
Context {V : Type} `{!EqDecision V}.
Implicit Types (b v m : gmap string V).

(** The rows that were written between [b] and [v]. *)
Definition written b v : gmap string (option V) :=
  merge (fun x y => if decide (x = y) then None else Some y) b v.

(** They, on top of [m]. *)
Definition overlay b v m : gmap string V :=
  merge (fun o x => match o with Some y => y | None => x end) (written b v) m.

(** Nothing happened to them. *)
Definition spared b v m m' : Prop := map_Forall (fun k _ => m' !! k = m !! k) (written b v).

Lemma lookup_written b v k :
  written b v !! k = if decide (b !! k = v !! k) then None else Some (v !! k).
Proof. unfold written. rewrite lookup_merge. by destruct (b !! k), (v !! k). Qed.

Lemma lookup_overlay b v m k :
  overlay b v m !! k = if decide (b !! k = v !! k) then m !! k else v !! k.
Proof.
  unfold overlay. rewrite lookup_merge, lookup_written.
  case_decide; destruct (m !! k); try done; by destruct (v !! k).
Qed.

Lemma spared_lookup b v m m' :
  spared b v m m' <-> forall k, b !! k ≠ v !! k -> m' !! k = m !! k.
Proof.
  unfold spared, map_Forall. setoid_rewrite lookup_written. split.
  - intros H k Hk. apply (H k (v !! k)). by rewrite decide_False.
  - intros H k o Ho. apply H. intros E. by rewrite decide_True in Ho.
Qed.

Lemma overlay_base m v : overlay m v m = v.
Proof. apply map_eq. intros k. rewrite lookup_overlay. by case_decide. Qed.

Lemma overlay_none b m : overlay b b m = m.
Proof. apply map_eq. intros k. rewrite lookup_overlay. by rewrite decide_True. Qed.

#[export] Instance spared_preorder b v : PreOrder (spared b v).
Proof.
  split; [by intros m k o _|]. intros m1 m2 m3 H12 H23 k o Ho.
  rewrite (H23 k o Ho). by apply (H12 k o).
Qed.
End table.

(** ** The database *)

(** A column outside the keyed tables. *)
Definition overlay_val {A} `{!EqDecision A} (b v x : A) : A := if decide (b = v) then x else v.

(** What was appended to the log, after what is there. *)
Definition overlay_log (b v l : list LogRow) : list LogRow :=
  if decide (take (length b) v = b) then l ++ drop (length b) v else v.

Record Tx := MkTx { tx_now : Time; tx_base : Database; tx_view : Database }.

Definition seen (x : Tx) (d : Database) : Database :=
  let b := tx_base x in
  let v := tx_view x in
  MkDatabase (overlay_val (version b) (version v) (version d))
    (overlay_val (ingest_checkpoint b) (ingest_checkpoint v) (ingest_checkpoint d))
    (overlay (events b) (events v) (events d))
    (overlay (payments b) (payments v) (payments d))
    (overlay (channels b) (channels v) (channels d))
    (overlay (invoices b) (invoices v) (invoices d))
    (overlay (webhook_endpoints b) (webhook_endpoints v) (webhook_endpoints d))
    (overlay (webhook_deliveries b) (webhook_deliveries v) (webhook_deliveries d))
    (overlay_log (webhook_delivery_log b) (webhook_delivery_log v) (webhook_delivery_log d))
    (overlay (merchants b) (merchants v) (merchants d))
    (overlay (merchant_orders b) (merchant_orders v) (merchant_orders d))
    (overlay (refunds b) (refunds v) (refunds d))
    (overlay (settlements b) (settlements v) (settlements d))
    (overlay (reconciliation_runs b) (reconciliation_runs v) (reconciliation_runs d)).

Definition avoids (x : Tx) (d d' : Database) : Prop :=
  let b := tx_base x in
  let v := tx_view x in
  (ingest_checkpoint b ≠ ingest_checkpoint v -> ingest_checkpoint d' = ingest_checkpoint d)
  ∧ spared (events b) (events v) (events d) (events d')
  ∧ spared (payments b) (payments v) (payments d) (payments d')
  ∧ spared (channels b) (channels v) (channels d) (channels d')
  ∧ spared (invoices b) (invoices v) (invoices d) (invoices d')
  ∧ spared (webhook_endpoints b) (webhook_endpoints v) (webhook_endpoints d) (webhook_endpoints d')
  ∧ spared (webhook_deliveries b) (webhook_deliveries v) (webhook_deliveries d)
      (webhook_deliveries d')
  ∧ spared (merchants b) (merchants v) (merchants d) (merchants d')
  ∧ spared (merchant_orders b) (merchant_orders v) (merchant_orders d) (merchant_orders d')
  ∧ spared (refunds b) (refunds v) (refunds d) (refunds d')
  ∧ spared (settlements b) (settlements v) (settlements d) (settlements d')
  ∧ spared (reconciliation_runs b) (reconciliation_runs v) (reconciliation_runs d)
      (reconciliation_runs d').

#[global] Instance avoids_dec x d d' : Decision (avoids x d d').
Proof. unfold avoids, spared. apply _. Defined.

#[global] Instance avoids_preorder x : PreOrder (avoids x).
Proof.
  split; [intros d; by split_and!|]. intros d1 d2 d3 H12 H23.
  destruct H12 as (Hc & H12), H23 as (Hc' & H23).
  split; [intros H; by rewrite Hc', Hc|].
  repeat match goal with H : _ ∧ _ |- _ => destruct H end. split_and!; by etrans.
Qed.

Lemma overlay_log_base l v : overlay_log l v l = v.
Proof.
  unfold overlay_log. case_decide as E; [|done]. by rewrite <- E at 1; rewrite take_drop.
Qed.

Lemma overlay_log_none b l : overlay_log b b l = l.
Proof.
  unfold overlay_log. rewrite decide_True by apply firstn_all. by rewrite drop_all, app_nil_r.
Qed.

(** Nothing was committed meanwhile: the transaction sees what it left. *)
Lemma seen_base now d v : seen (MkTx now d v) d = v.
Proof.
  destruct v. unfold seen, overlay_val. cbn. rewrite !overlay_base, overlay_log_base.
  f_equal; by case_decide.
Qed.

(** A transaction that has written nothing sees what is committed. *)
Lemma seen_none now b d : seen (MkTx now b b) d = d.
Proof.
  destruct d. unfold seen, overlay_val. cbn. rewrite !overlay_none, overlay_log_none.
  f_equal; by rewrite decide_True.
Qed.

(** ** What holds of the rows it sees *)

(** A row the transaction sees is committed and its own writes are elsewhere, or it is
    its own and nobody else has touched it. *)
Lemma overlay_cases {V} `{!EqDecision V} (b v m : gmap string V) k :
  spared b v b m ->
  (overlay b v m !! k = m !! k ∧ b !! k = v !! k) ∨ (overlay b v m !! k = v !! k ∧ m !! k = b !! k).
Proof.
  intros H. rewrite lookup_overlay. case_decide; [by left|right].
  split; [done|]. by apply (proj1 (spared_lookup b v b m) H).
Qed.

Lemma grows_overlay {V} `{!EqDecision V} (R : relation V) `{!PreOrder R} (b v m : gmap string V) :
  grows R b v -> spared b v b m -> grows R m (overlay b v m).
Proof.
  intros Hv Hs k x Hx. destruct (overlay_cases b v m k Hs) as [[-> _]|[-> E]]; [by exists x|].
  apply Hv. congruence.
Qed.

(** What it saw has only moved on with what was committed. *)
Lemma grows_seen {V} `{!EqDecision V} (R : relation V) `{!PreOrder R} (b v m : gmap string V) :
  grows R b m -> grows R v (overlay b v m).
Proof.
  intros Hm k x Hx. rewrite lookup_overlay. case_decide as E; [|by exists x].
  apply Hm. by rewrite E.
Qed.

(** What was committed when the last statement ran is still seen. *)
Lemma overlay_more {V} `{!EqDecision V} (R : relation V) (b v m : gmap string V) k :
  grows R b m -> spared b v b m -> is_Some (v !! k) -> is_Some (overlay b v m !! k).
Proof.
  intros Hm Hs [x Hx]. destruct (overlay_cases b v m k Hs) as [[-> E]|[-> _]]; [|by eexists].
  eapply grows_lookup; [done|]. by rewrite E.
Qed.

Lemma overlay_row {V} `{!EqDecision V} (b v m : gmap string V) k x :
  spared b v b m -> overlay b v m !! k = Some x -> m !! k = Some x ∨ v !! k = Some x.
Proof. intros H Hx. destruct (overlay_cases b v m k H) as [[E _]|[E _]]; rewrite E in Hx; auto. Qed.
