(* ===== verification/Interleave.v ===== *)
(** * Interleaving: operations as sequences of statements

    The processes of padma, and the requests inside one, run at the same time and meet
    in the database.  A [prog] is an operation cut at its statements: a tree whose nodes
    are single statements, the begin and the end of a transaction, random draws and node
    calls, and whose branches are their answers; [in_tx] is platform/db/tx.go as such a
    tree.  [run] executes one alone.  A [config] is the threads in flight, each with the
    transaction its connection has open, and the committed database they share.  A
    [pool_step] starts an operation, lets one thread execute one statement, at any time
    and with any fault, unless it would write a row another transaction has written and
    not yet committed ([grants]), or kills one (the process dies, its context is
    cancelled, its transaction is rolled back). *)

From S2P Require Import Prelude Strconv GoTime External Schema Tables Frame Transactions.

(** ** Programs *)

Section programs.
Context {FT : Fibertypes} {FR : FiberRPC}.
Implicit Types (w : world).

Inductive stmt : Type -> Type :=
| SExec {X} (need : Z) (f : Time -> Database -> result (X * Database)) : stmt X
| SBegin : stmt unit
| SCommit : stmt unit
| SRollback : stmt unit
| SDraw : stmt nat
| SNewInvoice (p : NewInvoiceParams) : stmt Invoice
| SSendPayment (p : SendPaymentParams) : stmt RpcPayment
| SGoose (v : Z) : stmt unit.

(** The state of a connection: the transaction it has open, if any. *)
Abbreviation session := (option Tx).

(** The world a statement inside the transaction runs in, and the one it leaves. *)
Definition enter (t : Tx) (w : world) : world :=
  World (seen t (w_db w)) (w_faults w) (tx_now t) (w_draws w) (w_calls w).
Definition leave (w w' : world) : world :=
  World (w_db w) (w_faults w') (w_now w) (w_draws w') (w_calls w').

(** One statement of a session, in the world whose database is the committed one. *)
Definition do_stmt {X} (s : stmt X) (x : session) (w : world) : result X * session * world :=
  match s with
  | SExec need f =>
      match x with
      | None => let '(r, w') := exec need f w in (r, None, w')
      | Some t =>
          let '(r, w') := exec need f (enter t w) in
          (r, Some (MkTx (tx_now t) (w_db w) (w_db w')), leave w w')
      end
  | SBegin =>
      match next_fault w with
      | (NoFault, w') => (Ok tt, Some (MkTx (w_now w') (w_db w') (w_db w')), w')
      | (Fail e, w') | (AckLost e, w') => (Err e, None, w')
      end
  | SCommit =>
      match x with
      | None => (Ok tt, None, w)
      | Some t =>
          match next_fault w with
          | (NoFault, w') => (Ok tt, None, set_db (seen t (w_db w)) w')
          | (Fail e, w') => (Err e, None, w')
          | (AckLost e, w') => (Err e, None, set_db (seen t (w_db w)) w')
          end
      end
  | SRollback => (Ok tt, None, w)
  | SDraw => let '(r, w') := draw w in (r, x, w')
  | SNewInvoice p => let '(r, w') := NewInvoice p w in (r, x, w')
  | SSendPayment p => let '(r, w') := SendPayment p w in (r, x, w')
  | SGoose v => (Ok tt, x, set_db (migrate_to v (w_db w)) w)
  end.

Inductive prog (A : Type) : Type :=
| Done (r : result A)
| Step {X} (s : stmt X) (k : result X -> prog A).
#[global] Arguments Done {A} r.
#[global] Arguments Step {A X} s k.

Fixpoint run {A} (p : prog A) (x : session) (w : world) : result A * session * world :=
  match p with
  | Done r => (r, x, w)
  | Step s k => let '(r, x', w') := do_stmt s x w in run (k r) x' w'
  end.

(** [p], then whatever its answer makes of the rest. *)
Fixpoint pthen {A B} (p : prog A) (k : result A -> prog B) : prog B :=
  match p with
  | Done r => k r
  | Step s j => Step s (fun x => pthen (j x) k)
  end.

Lemma run_pthen {A B} (p : prog A) (k : result A -> prog B) x w :
  run (pthen p k) x w = let '(r, x', w') := run p x w in run (k r) x' w'.
Proof.
  revert x w. induction p as [r|X s j IH]; intros x w; [done|]. cbn.
  destruct (do_stmt s x w) as [[r x'] w']. apply IH.
Qed.

Definition on_ok {A B} (k : A -> prog B) (r : result A) : prog B :=
  match r with
  | Ok a => k a
  | Err e => Done (Err e)
  | Panic p => Done (Panic p)
  end.

(** A program that only changes the answer of [p]. *)
Definition answer {A B} (f : result A -> result B) (p : prog A) : prog B :=
  pthen p (fun r => Done (f r)).

Lemma run_answer {A B} (f : result A -> result B) (p : prog A) x w :
  run (answer f p) x w = (f (fst (fst (run p x w))), snd (fst (run p x w)), snd (run p x w)).
Proof. unfold answer. rewrite run_pthen. by destruct (run p x w) as [[? ?] ?]. Qed.

(** [InTx], statement by statement. *)
Definition commit_after {A} (r : result A) : prog A :=
  match r with
  | Ok a =>
      Step SCommit (fun c =>
        match c with
        | Ok _ => Done (Ok a)
        | Err e => Done (Err (EWrap "db: commit: " e EmptyString))
        | Panic p => Done (Panic p)
        end)
  | Err e => Step SRollback (fun _ => Done (Err e))
  | Panic p => Step SRollback (fun _ => Done (Panic p))
  end.

Definition in_tx {A} (fn : prog A) : prog A :=
  Step SBegin (fun r =>
    match r with
    | Ok _ => pthen fn commit_after
    | Err e => Done (Err (EWrap "db: begin: " e EmptyString))
    | Panic p => Done (Panic p)
    end).

(** ** Threads that share the database *)

Definition tstate : Type := session * prog unit.

Record config := Config { threads : list tstate; shared : Database }.

(** What a statement does outside transactions, or inside its own, leaves the rows another
    open transaction has written alone: it would wait for them.  A statement that waits
    can still fail. *)
Definition grants (x x' : session) (d d' : Database) (y : tstate) : Prop :=
  match fst y, x, x' with
  | None, _, _ => True
  | Some t, Some o, Some o' => avoids t (seen o d) (seen o' d')
  | Some t, _, _ => avoids t d d'
  end.

#[global] Instance grants_dec x x' d d' y : Decision (grants x x' d d' y).
Proof. destruct y as [[t|] p], x, x'; apply _. Defined.

(** One thread executes its next statement, in some world with the shared database. *)
Inductive statement_step : relation config :=
| statement_step_run i x X (s : stmt X) k ps w r x' w' :
    ps !! i = Some (x, Step s k) -> do_stmt s x w = (r, x', w') ->
    Forall (grants x x' (w_db w) (w_db w')) (delete i ps) ->
    statement_step (Config ps (w_db w)) (Config (<[i := (x', k r)]> ps) (w_db w')).

(** [thread] is the program of an operation. *)
Inductive pool_step {Act} (thread : Act -> prog unit) : relation config :=
| pool_start a ps d :
    pool_step thread (Config ps d) (Config (ps ++ [(None, thread a)]) d)
| pool_run c c' :
    statement_step c c' -> pool_step thread c c'
| pool_kill i y e ps d :
    ps !! i = Some y ->
    pool_step thread (Config ps d) (Config (<[i := (None, Done (Err e))]> ps) d).

Definition finished (y : tstate) : Prop :=
  match snd y with Done _ => True | Step _ _ => False end.

#[global] Instance finished_dec y : Decision (finished y).
Proof. destruct y as [x p]. destruct p; apply _. Defined.

(** No transaction is open. *)
Definition closed (ps : list tstate) : Prop := Forall (fun y => fst y = None) ps.
End programs.
Arguments prog {FT} A.
Arguments config {FT}.
Arguments tstate {FT}.
Abbreviation session := (option Tx).

(** ** Scheduling *)

Section scheduling.
Context {FT : Fibertypes} {FR : FiberRPC}.
Implicit Types (w : world) (ps : list tstate).

(** Sessions without a transaction are in nobody's way. *)
Lemma closed_grants x x' d d' ps : closed ps -> Forall (grants x x' d d') ps.
Proof. intros H. eapply list.Forall_impl; [exact H|]. intros [o p]. cbn. by intros ->. Qed.

Lemma delete_insert_same {A} (l : list A) i y : (i < length l)%nat -> delete i (<[i := y]> l) = delete i l.
Proof.
  intros Hi. by rewrite !delete_take_drop, take_insert_ge, drop_insert_lt by lia.
Qed.

(** A thread that is left alone runs to its end, as the operation it cuts does. *)
Lemma thread_alone (p : prog unit) x ps i w :
  ps !! i = Some (x, p) -> closed (delete i ps) ->
  let '(r, x', w') := run p x w in
  rtc statement_step (Config ps (w_db w)) (Config (<[i := (x', Done r)]> ps) (w_db w')).
Proof.
  revert x ps w. induction p as [r|X s k IH]; intros x ps w Hi Hc; cbn.
  - by rewrite list_insert_id.
  - destruct (do_stmt s x w) as [[r x1] w1] eqn:E.
    pose proof (lookup_lt_Some _ _ _ Hi) as Hlt.
    specialize (IH r x1 (<[i := (x1, k r)]> ps) w1).
    rewrite delete_insert_same, list_lookup_insert_eq in IH by done.
    specialize (IH eq_refl Hc). destruct (run (k r) x1 w1) as [[r2 x2] w2].
    rewrite list_insert_insert_eq in IH. eapply rtc_l; [|exact IH].
    eapply statement_step_run; [done|exact E|]. by apply closed_grants.
Qed.

(** A schedule, executed: operations started, threads run by one statement unless they
    have to wait, in one world whose clock and faults the statements share. *)
Inductive choice Act := Spawn (a : Act) | Run (i : nat).
#[global] Arguments Spawn {Act} a.
#[global] Arguments Run {Act} i.

Definition play_one {Act} (thread : Act -> prog unit) (z : list tstate * world) (c : choice Act)
  : list tstate * world :=
  match c with
  | Spawn a => (fst z ++ [(None, thread a)], snd z)
  | Run i =>
      match fst z !! i with
      | Some (x, Step s k) =>
          let '(r, x', w') := do_stmt s x (snd z) in
          if decide (Forall (grants x x' (w_db (snd z)) (w_db w')) (delete i (fst z)))
          then (<[i := (x', k r)]> (fst z), w') else z
      | _ => z
      end
  end.

Definition play {Act} (thread : Act -> prog unit) (l : list (choice Act)) (z : list tstate * world)
  : list tstate * world := foldl (play_one thread) z l.

Lemma play_steps {Act} (thread : Act -> prog unit) l z :
  rtc (pool_step thread) (Config (fst z) (w_db (snd z)))
    (Config (fst (play thread l z)) (w_db (snd (play thread l z)))).
Proof.
  revert z. induction l as [|c l IH]; intros z; [done|]. etrans; [|apply IH].
  destruct z as [ps w], c as [a|i]; cbn.
  - apply rtc_once, pool_start.
  - destruct (ps !! i) as [[x [r|X s k]]|] eqn:E; [done| |done].
    destruct (do_stmt s x w) as [[r x'] w'] eqn:Es. case_decide as Hg; [|done].
    apply rtc_once, pool_run. by eapply statement_step_run.
Qed.
End scheduling.
