(* ===== verification/Rely.v ===== *)
(** * Rely and guarantee for interleaved operations

    [safe b P p Q] says that every statement of the program [p] outside transactions
    keeps the invariant [I] and does only what [G] allows, provided the others do only
    what [R] allows, with assertions that [R] does not invalidate; and that every
    statement inside a transaction keeps [I] and is a write [W] allows on the database
    the transaction sees.  [Hseen] is what makes that enough: the transaction's writes,
    on top of whatever the others commit meanwhile, still are such writes.  [cut P m Q]
    cuts the computation [m] into such a program and [tx_cut K S m] the body of a
    transaction; [cutting] reduces both to the statements, as [framing] does for
    sequential runs.

    [S] says what the whole body does to what the transaction sees, while the others move
    that along [K] between its statements; [commits] carries it to the commit. *)

From S2P Require Import Prelude Strconv GoTime External Schema Tables Frame Transactions Interleave.

Section rely.
Context {FT : Fibertypes} {FR : FiberRPC}.
Implicit Types (w : world) (P : Database -> Prop).

(** [R] is what the other threads may do, [G] what a statement outside transactions
    does, and [W] what one inside a transaction does to what the transaction sees. *)
Context (I : Database -> Prop) (R : relation Database) {HR : PreOrder R}.
Context (G : relation Database) {HG : PreOrder G}
  {HGR : subrelation G R}.
Context (W : relation Database) {HW : PreOrder W}.

(** The move of one statement. *)
Definition step_ok : Time -> relation Database := fun _ d d' => I d -> I d' ∧ G d d'.

#[export] Instance step_ok_preorder t : PreOrder (step_ok t).
Proof.
  split; [by intros d Hd|]. intros d1 d2 d3 H12 H23 Hd1.
  destruct (H12 Hd1) as [Hd2 ?]. destruct (H23 Hd2) as [? ?]. split; [done|by etrans].
Qed.

Definition writes_ok : Time -> relation Database := fun _ d d' => I d -> I d' ∧ W d d'.

(** What no statement of another thread makes false. *)
Definition stable P : Prop := forall d d', I d' -> R d d' -> P d -> P d'.

Lemma stable_True : stable (fun _ => True).
Proof. done. Qed.

Lemma stable_and P P' : stable P -> stable P' -> stable (fun d => P d ∧ P' d).
Proof. intros H H' d d' Hd Hg [? ?]. split; [by eapply H|by eapply H']. Qed.

Definition in_tx_ok {X} (s : stmt X) : Prop :=
  match s with
  | SExec need f => forall t d a d', f t d = Ok (a, d') -> writes_ok t d d'
  | SBegin | SGoose _ => False
  | _ => True
  end.

Definition closes {X} (s : stmt X) : bool :=
  match s with SCommit | SRollback => true | _ => false end.

(** [safe b P p Q]: [p], inside a transaction when [b], is made of such statements. *)
Fixpoint safe {A} (b : bool) P (p : prog A) (Q : result A -> Database -> Prop) : Prop :=
  match p with
  | Done r => b = false ∧ forall d, I d -> P d -> Q r d
  | Step s k =>
      if b then in_tx_ok s ∧ forall r, safe (negb (closes s)) P (k r) Q
      else forall w, I (w_db w) -> P (w_db w) ->
        let '(r, x, w') := do_stmt s None w in
        step_ok (w_now w) (w_db w) (w_db w')
        ∧ ∃ P', stable P' ∧ P' (w_db w') ∧ safe (bool_decide (is_Some x)) P' (k r) Q
  end.

Lemma safe_pre {A} b P P' (p : prog A) Q :
  safe b P' p Q -> (forall d, I d -> P d -> P' d) -> safe b P p Q.
Proof.
  intros Hp HP. revert b Hp. induction p as [r|X s k IH]; cbn; intros b Hp.
  - destruct Hp. auto.
  - destruct b; [destruct Hp; auto|]. intros w Hi Hw. by apply Hp, HP.
Qed.

Lemma safe_post {A} b P (p : prog A) Q Q' :
  safe b P p Q -> (forall r d, I d -> Q r d -> Q' r d) -> safe b P p Q'.
Proof.
  intros Hp HQ. revert b P Hp. induction p as [r|X s k IH]; cbn; intros b P Hp.
  - destruct Hp. auto.
  - destruct b; [destruct Hp; eauto|]. intros w Hi Hw. specialize (Hp w Hi Hw).
    destruct (do_stmt s None w) as [[r x] w'].
    destruct Hp as (Hs & P' & ? & ? & Hk). split; [done|]. exists P'. auto.
Qed.

(** A stable assertion survives the program. *)
Lemma safe_frame {A} b P (p : prog A) Q F :
  safe b P p Q -> stable F -> safe b (fun d => P d ∧ F d) p (fun r d => Q r d ∧ F d).
Proof.
  intros Hp HF. revert b P Hp. induction p as [r|X s k IH]; cbn; intros b P Hp.
  - destruct Hp as [? HQ]. split; [done|]. intros d Hd [? ?]. auto.
  - destruct b; [destruct Hp; auto|]. intros w Hi [Hw HFw]. specialize (Hp w Hi Hw).
    destruct (do_stmt s None w) as [[r x] w'].
    destruct Hp as (Hs & P' & HP' & Hw' & Hk). split; [done|]. destruct (Hs Hi) as [Hi' Hg].
    exists (fun d => P' d ∧ F d).
    split_and!; [by apply stable_and|done|by eapply HF, HFw; [|apply HGR]|auto].
Qed.

Lemma safe_pthen {A B} b P (p : prog A) Q (k : result A -> prog B) Q' :
  safe b P p Q -> (forall r, safe false (Q r) (k r) Q') -> safe b P (pthen p k) Q'.
Proof.
  intros Hp Hk. revert b P Hp. induction p as [r|X s j IH]; cbn; intros b P Hp.
  - destruct Hp as [-> Hp]. eapply safe_pre; [apply Hk|exact Hp].
  - destruct b; [destruct Hp; auto|]. intros w Hi Hw. specialize (Hp w Hi Hw).
    destruct (do_stmt s None w) as [[r x] w'].
    destruct Hp as (Hs & P' & ? & ? & Hj). split; [done|]. exists P'. auto.
Qed.

(** ** Cutting a computation *)

Record cut {A} P (m : M A) (Q : result A -> Database -> Prop) := Cut {
  cut_prog : prog A;
  cut_run w : run cut_prog None w = (fst (m w), None, snd (m w));
  cut_safe : safe false P cut_prog Q
}.
Arguments Cut {A P m Q} _ _ _.
Arguments cut_prog {A P m Q} _.
Arguments cut_run {A P m Q} _ _.
Arguments cut_safe {A P m Q} _.

(** A computation whose statements are all right wherever they run. *)
Definition calm {A} (m : M A) : Type := cut (fun _ => True) m (fun _ _ => True).

Definition cut_pre {A} P P' (m : M A) Q (HP : forall d, I d -> P d -> P' d) (c : cut P' m Q)
  : cut P m Q := Cut (cut_prog c) (cut_run c) (safe_pre _ P P' _ Q (cut_safe c) HP).

Definition cut_post {A} P (m : M A) Q Q' (HQ : forall r d, I d -> Q r d -> Q' r d)
    (c : cut P m Q) : cut P m Q' :=
  Cut (cut_prog c) (cut_run c) (safe_post _ P _ Q Q' (cut_safe c) HQ).

(** A calm computation keeps what is stable. *)
Definition cut_calm {A} P (m : M A) (HP : stable P) (c : calm m) : cut P m (fun _ => P) :=
  cut_pre P (fun d => True ∧ P d) m _ (fun _ _ H => conj Logic.I H)
    (cut_post _ m (fun _ d => True ∧ P d) _ (fun _ _ _ H => proj2 H)
      (Cut (cut_prog c) (cut_run c) (safe_frame _ _ _ _ P (cut_safe c) HP))).

Definition cut_done {A} P (r : result A) (Q : result A -> Database -> Prop)
    (HQ : forall d, I d -> P d -> Q r d) : cut P (fun w => (r, w)) Q :=
  Cut (m := fun w => (r, w)) (Done r) (fun w => eq_refl) (conj eq_refl HQ).

(** One statement, outside transactions. *)
Definition cut_stmt {X} P (s : stmt X) (m : M X) Q
    (Hm : forall w, do_stmt s None w = (fst (m w), None, snd (m w)))
    (Hs : forall w r w', I (w_db w) -> P (w_db w) -> m w = (r, w') ->
       step_ok (w_now w) (w_db w) (w_db w') ∧ Q r (w_db w'))
    (HQ : forall r, stable (Q r)) : cut P m Q.
Proof.
  refine (Cut (Step s Done) _ _).
  - intros w. cbn. by rewrite Hm.
  - cbn. intros w Hi Hw. rewrite Hm. destruct (m w) as [r w'] eqn:E.
    destruct (Hs w r w' Hi Hw E). split; [done|]. by exists (Q r).
Defined.

Definition cut_bind {A B} P (m : M A) Q (k : A -> M B) Q' (c : cut P m Q)
    (ck : forall a, cut (Q (Ok a)) (k a) Q')
    (Herr : forall e d, I d -> Q (Err e) d -> Q' (Err e) d)
    (Hpanic : forall p d, I d -> Q (Panic p) d -> Q' (Panic p) d) : cut P (m ≫= k) Q'.
Proof.
  refine (Cut (pthen (cut_prog c) (on_ok (fun a => cut_prog (ck a)))) _ _).
  - intros w. rewrite run_pthen, cut_run. unfold mbind, M_bind, mbind_M.
    destruct (m w) as [[a|e|p] w']; [apply cut_run|done..].
  - apply (safe_pthen _ _ _ Q); [apply cut_safe|]. intros [a|e|p]; cbn; [apply cut_safe|auto..].
Defined.

(** A computation that differs from [m] in its answer only. *)
Definition cut_answer {A B} P (f : result A -> result B) (m : M A) (m' : M B) Q Q'
    (Hm : forall w, m' w = (f (fst (m w)), snd (m w))) (c : cut P m Q)
    (HQ : forall r d, I d -> Q r d -> Q' (f r) d) : cut P m' Q'.
Proof.
  refine (Cut (answer f (cut_prog c)) _ _).
  - intros w. by rewrite run_answer, cut_run, Hm.
  - apply (safe_pthen _ _ _ Q); [apply cut_safe|]. cbn. auto.
Defined.

Definition wrap_answer {A} pre (r : result A) : result A :=
  match r with Err e => Err (EWrap pre e EmptyString) | r => r end.
Definition attempt_answer {A} (r : result A) : result (sum error A) :=
  match r with Ok a => Ok (inr a) | Err e => Ok (inl e) | Panic p => Panic p end.

Lemma wrapping_answer {A} pre (m : M A) w :
  wrapping pre m w = (wrap_answer pre (fst (m w)), snd (m w)).
Proof. unfold wrapping. by destruct (m w) as [[] ?]. Qed.
Lemma attempt_is_answer {A} (m : M A) w : attempt m w = (attempt_answer (fst (m w)), snd (m w)).
Proof. unfold attempt. by destruct (m w) as [[] ?]. Qed.

(** What a computation promises with its answer, if it answers one. *)
Definition on_answer {A} (Φ : A -> Database -> Prop) (r : result A) (d : Database) : Prop :=
  match r with Ok a => Φ a d | _ => True end.

Lemma on_answer_stable {A} (Φ : A -> Database -> Prop) r :
  (forall a, stable (Φ a)) -> stable (on_answer Φ r).
Proof. intros H. destruct r; [apply H|done..]. Qed.

Definition cut_exec {A} P need (f : Time -> Database -> result (A * Database)) Φ
    (Hf : forall t d a d', P d -> f t d = Ok (a, d') -> step_ok t d d' ∧ Φ a d')
    (HΦ : forall a, stable (Φ a)) : cut P (exec need f) (on_answer Φ).
Proof.
  refine (cut_stmt P (SExec need f) _ _ _ _ (fun r => on_answer_stable Φ r HΦ)); cbn.
  { intros w. by destruct (exec need f w). }
  intros w r w' Hi Hp E. pose proof (exec_effect _ _ _ _ _ E) as [_ Hdb]. split.
  - destruct Hdb as [->|[a Ha]]; [done|]. by apply (Hf _ _ _ _ Hp Ha).
  - destruct r as [a|e|p]; [|done..]. apply exec_Ok in E as (_ & Ha & _).
    by apply (Hf _ _ _ _ Hp Ha).
Defined.

Definition cut_select {A} P need (f : Database -> result A) Φ
    (Hf : forall d a, P d -> f d = Ok a -> Φ a d) (HΦ : forall a, stable (Φ a))
  : cut P (select need f) (on_answer Φ).
Proof.
  apply cut_exec; [|exact HΦ]. intros t d a d' Hp H. unfold mbind, result_bind in H.
  destruct (f d) as [x|e|p] eqn:E; [|done..]. injection H as <- <-. split; [done|by apply Hf].
Defined.

(** A calm computation in the middle of one that relies on [P]. *)
Definition cut_keep {A} P (m : M A) (HP : stable P) (c : calm m) : cut P m (on_answer (fun _ => P)) :=
  cut_post P m (fun _ => P) _ (fun r d _ H => match r with Ok _ => H | _ => Logic.I end)
    (cut_calm P m HP c).

(** Sequencing, when only an answer matters. *)
Definition cut_then {A B} P (m : M A) Φ (k : A -> M B) Ψ (c : cut P m (on_answer Φ))
    (ck : forall a, cut (Φ a) (k a) (on_answer Ψ)) : cut P (m ≫= k) (on_answer Ψ) :=
  cut_bind P m _ k _ c ck (fun _ _ _ H => H) (fun _ _ _ H => H).

Definition cut_wrapping {A} P pre (m : M A) Φ (c : cut P m (on_answer Φ))
  : cut P (wrapping pre m) (on_answer Φ).
Proof. apply (cut_answer P _ m _ _ _ (wrapping_answer pre m) c). by intros [] d. Defined.

Definition cut_attempt {A} P (m : M A) Φ (c : cut P m (on_answer Φ))
  : cut P (attempt m) (on_answer (fun r d => match r with inr a => Φ a d | inl _ => True end)).
Proof. apply (cut_answer P _ m _ _ _ (attempt_is_answer m) c). by intros [] d. Defined.

(** ** Calm computations *)

Definition calm_done {A} (r : result A) : calm (fun w => (r, w)) :=
  cut_done _ r _ (fun _ _ _ => Logic.I).
Definition calm_mret {A} (a : A) : calm (mret a) := calm_done (Ok a).
Definition calm_throw {A} e : calm (throw e : M A) := calm_done (Err e).
Definition calm_lift {A} (r : result A) : calm (lift r) := calm_done r.

Definition calm_stmt {X} (s : stmt X) (m : M X)
    (Hm : forall w, do_stmt s None w = (fst (m w), None, snd (m w))) (Hs : frames step_ok m)
  : calm m.
Proof.
  refine (cut_stmt _ s m _ Hm _ (fun _ => stable_True)).
  intros w r w' _ _ E. destruct (Hs w) as [H _]. by rewrite E in H.
Defined.

Definition calm_exec {A} need (f : Time -> Database -> result (A * Database))
    (Hf : forall t d a d', f t d = Ok (a, d') -> step_ok t d d') : calm (exec need f).
Proof.
  refine (calm_stmt (SExec need f) _ _ (frames_exec _ _ _ Hf)).
  intros w. cbn. by destruct (exec need f w).
Defined.
Definition calm_select {A} need (f : Database -> result A) : calm (select need f).
Proof.
  apply calm_exec. intros t d a d' H. unfold mbind, result_bind in H.
  destruct (f d); [|done..]. by injection H as _ <-.
Defined.
Definition calm_draw : calm draw := calm_stmt SDraw draw (fun w => eq_refl) (frames_draw _).
Definition calm_NewInvoice p : calm (NewInvoice p) :=
  calm_stmt (SNewInvoice p) (NewInvoice p) (fun w => eq_refl) (frames_NewInvoice _ p).
Definition calm_SendPayment p : calm (SendPayment p) :=
  calm_stmt (SSendPayment p) (SendPayment p) (fun w => eq_refl) (frames_SendPayment _ p).

Definition calm_bind {A B} (m : M A) (k : A -> M B) (c : calm m) (ck : forall a, calm (k a))
  : calm (m ≫= k) :=
  cut_bind _ m _ k _ c ck (fun _ _ _ H => H) (fun _ _ _ H => H).
Definition calm_wrapping {A} pre (m : M A) (c : calm m) : calm (wrapping pre m) :=
  cut_answer _ _ m _ _ _ (wrapping_answer pre m) c (fun _ _ _ H => H).
Definition calm_attempt {A} (m : M A) (c : calm m) : calm (attempt m) :=
  cut_answer _ _ m _ _ _ (attempt_is_answer m) c (fun _ _ _ H => H).
Definition calm_id_New {CR : Crypto} : calm id_New :=
  calm_bind draw _ calm_draw (fun k => calm_mret (ulid_New k)).

Fixpoint calm_for_each {A} (f : A -> M unit) (c : forall x, calm (f x)) xs
  : calm (for_each f xs) :=
  match xs with
  | [] => calm_mret tt
  | x :: xs' => calm_bind (f x) _ (c x) (fun _ => calm_for_each f c xs')
  end.

(** A calm computation is as good where something is known. *)
Definition cut_weak {A} P (m : M A) (c : calm m) : cut P m (fun _ _ => True) :=
  cut_pre P (fun _ => True) m _ (fun _ _ _ => Logic.I) c.

(** Only the first part relies on [P]. *)
Definition cut_head {A B} P (m : M A) (k : A -> M B) (c : cut P m (fun _ _ => True))
    (ck : forall a, calm (k a)) : cut P (m ≫= k) (fun _ _ => True) :=
  cut_bind P m _ k _ c ck (fun _ _ _ H => H) (fun _ _ _ H => H).

(** A value computed without the database. *)
Definition cut_lift {A B} P (r : result A) (k : A -> M B) Ψ
    (ck : forall a, r = Ok a -> cut P (k a) (on_answer Ψ)) : cut P (lift r ≫= k) (on_answer Ψ).
Proof. destruct r as [a|e|p]; [exact (ck a eq_refl)|by apply cut_done..]. Defined.

(** A loop that relies on [P] all along, over elements that satisfy [good]. *)
Definition cut_for_each {A} P (good : A -> Prop) (f : A -> M unit)
    (c : forall x, good x -> cut P (f x) (on_answer (fun _ => P))) xs (Hxs : Forall good xs)
  : cut P (for_each f xs) (on_answer (fun _ => P)).
Proof.
  induction xs as [|x xs IH]; [by apply cut_done|].
  apply (cut_then _ _ (fun _ => P)); [apply c, (Forall_inv Hxs)|].
  intros _. apply IH, (Forall_inv_tail Hxs).
Defined.

(** ** Inside a transaction *)

Fixpoint tx_prog {A} (p : prog A) : Prop :=
  match p with
  | Done _ => True
  | Step s k => (in_tx_ok s ∧ closes s = false) ∧ forall r, tx_prog (k r)
  end.

(** What a statement may answer on the database [v] a transaction sees, and what the
    transaction sees then; of one that fails nothing is said. *)
Definition outcome {X} (s : stmt X) (v : Database) : result X -> Database -> Prop :=
  match s in stmt X return result X -> Database -> Prop with
  | SExec need f => fun r v' => match r with Ok a => ∃ t, f t v = Ok (a, v') | _ => True end
  | _ => fun _ v' => v' = v
  end.

(** What the others make of what a transaction sees, between its statements. *)
Context (K : relation Database) {HK : PreOrder K}.

(** If [p] answers, then [Q] of the answer and of what the transaction sees. *)
Fixpoint tx_does {A} (p : prog A) (v : Database) (Q : A -> Database -> Prop) : Prop :=
  match p with
  | Done r => match r with Ok a => Q a v | _ => True end
  | Step s k => forall v1 r v2, K v v1 -> I v1 -> outcome s v1 r v2 -> tx_does (k r) v2 Q
  end.

(** [m], cut for a transaction whose last statement saw what is committed now. *)
Record tx_cut {A} (S : relation Database) (m : M A) := TxCut {
  tx_body : prog A;
  tx_run w v : w_now (snd (m (set_db v w))) = w_now w
    ∧ run tx_body (Some (MkTx (w_now w) (w_db w) v)) w =
        let '(r, w') := m (set_db v w) in
        (r, Some (MkTx (w_now w) (w_db w) (w_db w')), set_db (w_db w) w');
  tx_safe : tx_prog tx_body;
  tx_spec v : tx_does tx_body v (fun _ v' => S v v')
}.
Arguments TxCut {A S m} _ _ _ _.
Arguments tx_body {A S m} _.
Arguments tx_run {A S m} _ _ _.
Arguments tx_safe {A S m} _.
Arguments tx_spec {A S m} _ _.

Lemma tx_prog_pthen {A B} (p : prog A) (k : result A -> prog B) :
  tx_prog p -> (forall r, tx_prog (k r)) -> tx_prog (pthen p k).
Proof.
  intros Hp Hk. induction p as [r|X s j IH]; cbn in *; [done|]. destruct Hp as [? Hp]. auto.
Qed.

Lemma tx_does_pthen {A B} (p : prog A) (k : result A -> prog B) v Q Q' :
  tx_does p v Q -> (forall a v', Q a v' -> tx_does (k (Ok a)) v' Q') ->
  (forall r v', is_ok r = false -> tx_does (k r) v' Q') -> tx_does (pthen p k) v Q'.
Proof.
  intros Hp Ha He. revert v Hp. induction p as [[a|e|q]|X s j IH]; cbn; intros v Hp; [auto..|].
  intros v1 r v2 H1 H2 H3. by eapply IH, Hp.
Qed.

Lemma tx_does_weaken {A} (p : prog A) v (Q Q' : A -> Database -> Prop) :
  tx_does p v Q -> (forall a v', Q a v' -> Q' a v') -> tx_does p v Q'.
Proof.
  intros Hp HQ. revert v Hp. induction p as [[a|e|q]|X s j IH]; cbn; intros v Hp; [auto..|eauto].
Qed.

Lemma safe_tx {A B} P (p : prog A) (k : result A -> prog B) Q :
  tx_prog p -> (forall r, safe true P (k r) Q) -> safe true P (pthen p k) Q.
Proof.
  intros Hp Hk. induction p as [r|X s j IH]; cbn in *; [done|]. destruct Hp as [[Hs ->] Hp]. auto.
Qed.

Definition tx_weaken {A} (S S' : relation Database) (m : M A) (HS : forall v v', S v v' -> S' v v')
    (c : tx_cut S m) : tx_cut S' m :=
  TxCut (tx_body c) (tx_run c) (tx_safe c)
    (fun v => tx_does_weaken _ v _ _ (tx_spec c v) (fun _ v' H => HS v v' H)).

Definition tx_done {A} (r : result A) : tx_cut K (fun w => (r, w)).
Proof.
  refine (TxCut (Done r : prog A) _ _ _); [|done|].
  - intros w v. cbn. by destruct w.
  - intros v. destruct r; cbn; [reflexivity|done..].
Defined.
Definition tx_mret {A} (a : A) : tx_cut K (mret a) := tx_done (Ok a).
Definition tx_throw {A} e : tx_cut K (throw e : M A) := tx_done (Err e).
Definition tx_lift {A} (r : result A) : tx_cut K (lift r) := tx_done r.

Definition tx_exec {A} (S : relation Database) need (f : Time -> Database -> result (A * Database))
    (Hf : forall t d a d', f t d = Ok (a, d') -> writes_ok t d d')
    (HS : forall v t d a d', K v d -> I d -> f t d = Ok (a, d') -> S v d')
  : tx_cut S (exec need f).
Proof.
  refine (TxCut (Step (SExec need f) Done) _ _ _).
  - intros w v. destruct (exec need f (set_db v w)) as [r w'] eqn:E.
    pose proof (exec_effect _ _ _ _ _ E) as [[En _ _] _]. cbn in En. cbn. split; [done|].
    unfold enter. cbn. rewrite seen_base. change (World v _ _ _ _) with (set_db v w). rewrite E.
    unfold leave. by rewrite <- En; destruct w'.
  - by split; [split|].
  - cbn. intros v v1 [a|e|q] v2 Hk Hi; [|done..]. intros [t Ht]. by eapply HS.
Defined.

Definition tx_select {A} need (f : Database -> result A) : tx_cut K (select need f).
Proof.
  apply tx_exec; [intros t d a d' H|intros v t d a d' Hv _ H];
    unfold mbind, result_bind in H; (destruct (f d); [|done..]); injection H as _ <-; [|done].
  by intros Hd.
Defined.

Definition tx_bind {A B} (S1 S2 S : relation Database) (m : M A) (k : A -> M B)
    (HS : forall v v1 v2, S1 v v1 -> S2 v1 v2 -> S v v2)
    (c : tx_cut S1 m) (ck : forall a, tx_cut S2 (k a)) : tx_cut S (m ≫= k).
Proof.
  refine (TxCut (pthen (tx_body c) (on_ok (fun a => tx_body (ck a)))) _ _ _).
  - intros w v. rewrite run_pthen. destruct (tx_run c w v) as [En ->].
    unfold mbind, M_bind, mbind_M. destruct (m (set_db v w)) as [[a|e|p] w']; [|done..].
    cbn in En. pose proof (tx_run (ck a) (set_db (w_db w) w') (w_db w')) as [En' H].
    cbn in H, En'. rewrite En in H, En'. destruct w'. cbn in *. rewrite H. done.
  - apply tx_prog_pthen; [apply tx_safe|]. intros [a|e|p]; [apply tx_safe|done..].
  - intros v. eapply tx_does_pthen; [apply tx_spec| |by intros []].
    intros a v1 H1. eapply tx_does_weaken; [apply (tx_spec (ck a))|]. intros b v2. by apply HS.
Defined.

Definition tx_answer {A B} (S : relation Database) (f : result A -> result B) (m : M A) (m' : M B)
    (Hf : forall r, is_ok (f r) = is_ok r)
    (Hm : forall w, m' w = (f (fst (m w)), snd (m w))) (c : tx_cut S m) : tx_cut S m'.
Proof.
  refine (TxCut (answer f (tx_body c)) _ _ _).
  - intros w v. rewrite run_answer, Hm. destruct (tx_run c w v) as [En ->].
    by destruct (m (set_db v w)).
  - by apply tx_prog_pthen; [apply tx_safe|].
  - intros v. eapply tx_does_pthen; [apply tx_spec|..].
    + intros a v' H. cbn. by destruct (f (Ok a)).
    + intros r v' Hr. cbn. rewrite <- Hf in Hr. by destruct (f r).
Defined.

Definition tx_wrapping {A} S pre (m : M A) (c : tx_cut S m) : tx_cut S (wrapping pre m).
Proof.
  apply (tx_answer S (wrap_answer pre) m); [by intros []|apply wrapping_answer|exact c].
Defined.

(** A query, whose answer the rest relies on. *)
Definition tx_read {A B} (S1 : A -> relation Database) (S : relation Database) pre need
    (f : Database -> result A) (k : A -> M B)
    (HS : forall v v1 v2 a, K v v1 -> f v1 = Ok a -> S1 a v1 v2 -> S v v2)
    (ck : forall a, tx_cut (S1 a) (k a)) : tx_cut S (wrapping pre (select need f) ≫= k).
Proof.
  pose (g := fun (_ : Time) (d : Database) => a ← f d; Ok (a, d)).
  assert (forall t d a d', g t d = Ok (a, d') -> f d = Ok a ∧ d' = d) as Hg.
  { intros t d a d' H. unfold g, mbind, result_bind in H. destruct (f d); [|done..].
    by injection H as <- <-. }
  refine (TxCut (Step (SExec need g)
    (fun r => on_ok (fun a => tx_body (ck a)) (wrap_answer pre r)) : prog B) _ _ _).
  - intros w v. unfold mbind, M_bind, mbind_M. rewrite wrapping_answer. cbn.
    unfold enter. cbn. rewrite seen_base. change (World v _ _ _ _) with (set_db v w).
    change (select need f) with (exec need g).
    destruct (exec need g (set_db v w)) as [r w'] eqn:E.
    pose proof (exec_effect _ _ _ _ _ E) as [[En _ _] _]. cbn in En.
    destruct r as [a|e|q]; cbn; [|unfold leave; by rewrite <- En; destruct w'..].
    pose proof (tx_run (ck a) (leave w w') (w_db w')) as [En' H]. cbn in H, En'.
    replace (set_db (w_db w') (leave w w')) with w' in H, En'
      by (unfold leave; rewrite <- En; by destruct w').
    split; [by rewrite En'|]. rewrite H. by destruct (k a w').
  - split; [split; [|done]|].
    + intros t d a d' [_ ->]%Hg Hd. split; [done|reflexivity].
    + intros [a|e|q]; [apply tx_safe|done..].
  - cbn. intros v v1 [a|e|q] v2 Hk Hi; [|done..]. intros [t [Ha ->]%Hg].
    eapply tx_does_weaken; [apply (tx_spec (ck a))|]. intros b v3. by apply HS.
Defined.

(** A value computed without the database. *)
Definition tx_decode {A B} S pre (r : result A) (k : A -> M B)
    (ck : forall a, r = Ok a -> tx_cut S (k a)) : tx_cut S (wrapping pre (lift r) ≫= k).
Proof.
  destruct r as [a|e|p]; [exact (ck a eq_refl)|..].
  - refine (TxCut (Done (Err (EWrap pre e EmptyString)) : prog B) _ _ _); [|done..].
    intros w v. by destruct w.
  - refine (TxCut (Done (Panic p) : prog B) _ _ _); [|done..]. intros w v. by destruct w.
Defined.

Fixpoint each {A} (S : A -> relation Database) (xs : list A) : relation Database := fun v v' =>
  match xs with
  | [] => K v v'
  | x :: xs' => ∃ v1, S x v v1 ∧ each S xs' v1 v'
  end.

Fixpoint tx_for_each {A} S (f : A -> M unit) (c : forall x, tx_cut (S x) (f x)) xs
  : tx_cut (each S xs) (for_each f xs) :=
  match xs with
  | [] => tx_done (Ok tt)
  | x :: xs' => tx_bind (S x) (each S xs') _ (f x) _ (fun v v1 v2 H1 H2 => ex_intro _ v1 (conj H1 H2))
                  (c x) (fun _ => tx_for_each S f c xs')
  end.

Lemma set_db_id w : set_db (w_db w) w = w.
Proof. by destruct w. Qed.

Lemma next_fault_set_db d w :
  next_fault (set_db d w) = (fst (next_fault w), set_db d (snd (next_fault w))).
Proof. unfold next_fault. cbn. by destruct (w_faults w). Qed.

Definition calm_InTx {A} S (m : M A) (c : tx_cut S m) : calm (InTx m).
Proof.
  refine (Cut (in_tx (tx_body c)) _ _).
  - intros w. cbn. unfold InTx. destruct (next_fault w) as [f w1].
    destruct f; [|done..]. rewrite run_pthen. destruct (tx_run c w1 (w_db w1)) as [_ ->].
    rewrite set_db_id. destruct (m w1) as [[a|e|p] w2]; [|done..]. cbn.
    rewrite next_fault_set_db, seen_base. destruct (next_fault w2) as [f w3] eqn:E.
    apply next_fault_frame in E as [E _]. rewrite <- E. by destruct f, w3.
  - cbn. intros w Hi _. destruct (next_fault w) as [f w1] eqn:E.
    apply next_fault_frame in E as [E _].
    destruct f; (split; [intros _; rewrite E; split; [exact Hi|reflexivity]|]);
      exists (fun _ => True); (split_and!; [done..|]);
      [|by rewrite bool_decide_eq_false_2 by (by intros [? ?])..].
    rewrite bool_decide_eq_true_2 by done. apply safe_tx; [apply tx_safe|].
    intros [a|e|p]; (split; [done|]); [intros [[]|e|p]|done..]; done.
Defined.

(** *** The commit *)

Definition is_commit {X} (s : stmt X) : bool := match s with SCommit => true | _ => false end.
Definition is_done {A} (p : prog A) : Prop := match p with Done _ => True | Step _ _ => False end.

(** [p], in a transaction that sees [v], ends with it, and what it commits satisfies [Q]. *)
Fixpoint commits {A} (p : prog A) (v : Database) (Q : Database -> Prop) : Prop :=
  match p with
  | Done _ => True
  | Step s k =>
      if closes s
      then (is_commit s = true -> forall v1, K v v1 -> Q v1) ∧ forall r, is_done (k r)
      else forall v1 r v2, K v v1 -> I v1 -> outcome s v1 r v2 -> commits (k r) v2 Q
  end.

Lemma commits_after {A} (p : prog A) v Q :
  tx_prog p -> tx_does p v (fun _ => Q) -> (forall v1 v2, K v1 v2 -> Q v1 -> Q v2) ->
  commits (pthen p commit_after) v Q.
Proof.
  intros Hp Hd HQ. revert v Hd. induction p as [[a|e|q]|X s k IH]; cbn; intros v Hd.
  - split; [eauto|]. by intros [].
  - split; [done|]. by intros [].
  - split; [done|]. by intros [].
  - destruct Hp as [[_ ->] Hp]. intros v1 r v2 H1 H2 H3. eapply IH, Hd; eauto.
Qed.

(** ** Safe threads stay safe *)

(** An open transaction: its writes are moves, and they are still locked. *)
Definition tx_ok (t : Tx) (d : Database) : Prop :=
  I (tx_base t) ∧ W (tx_base t) (tx_view t) ∧ R (tx_base t) d ∧ avoids t (tx_base t) d.

(** What a transaction sees is one it could have left had it started now. *)
Context {HWR : subrelation W R}
  (Hseen : forall t d, tx_ok t d -> I (tx_view t) -> I d -> I (seen t d) ∧ W d (seen t d)).

Definition thread_safe (d : Database) (y : tstate) : Prop :=
  match fst y with Some t => tx_ok t d ∧ I (tx_view t) | None => True end
  ∧ ∃ P, stable P ∧ P d ∧ safe (bool_decide (is_Some (fst y))) P (snd y) (fun _ _ => True).

Definition pool_safe (c : config) : Prop :=
  I (shared c) ∧ Forall (thread_safe (shared c)) (threads c).

Lemma thread_safe_move d d' y :
  I d' -> R d d' -> match fst y with Some t => avoids t d d' | None => True end ->
  thread_safe d y -> thread_safe d' y.
Proof.
  intros Hi Hg Ha [Ht (P & HP & Hd & Hp)].
  split; [|exists P; split_and!; [done|by eapply HP|done]].
  destruct (fst y) as [t|]; [|done]. destruct Ht as [(? & ? & ? & ?) ?].
  split; [|done]. split_and!; [done|done|by etrans|by etrans].
Qed.

Lemma thread_safe_done d r : thread_safe d (None, Done r).
Proof. split; [done|]. by exists (fun _ => True). Qed.

(** A statement outside transactions may open one. *)
Lemma do_stmt_opens {X} (s : stmt X) w r x w' :
  do_stmt s None w = (r, x, w') -> x = None ∨ x = Some (MkTx (w_now w') (w_db w') (w_db w')).
Proof.
  destruct s as [X need f| | | | | | |]; cbn.
  - destruct (exec need f w). intros [= _ <- _]. by left.
  - destruct (next_fault w) as [[] w1]; intros [= _ <- <-]; auto.
  - intros [= _ <- _]. by left.
  - intros [= _ <- _]. by left.
  - intros [= _ <- _]. by left.
  - intros [= _ <- _]. by left.
  - intros [= _ <- _]. by left.
  - intros [= _ <- _]. by left.
Qed.

(** A statement inside one adds to its writes, or ends it. *)
Lemma do_stmt_in_tx {X} (s : stmt X) t w r x w' :
  do_stmt s (Some t) w = (r, x, w') -> in_tx_ok s -> tx_ok t (w_db w) -> I (tx_view t) ->
  I (w_db w) ->
  match x with
  | Some t' => w_db w' = w_db w ∧ tx_ok t' (w_db w) ∧ I (tx_view t') ∧ closes s = false
  | None => I (w_db w') ∧ W (w_db w) (w_db w') ∧ closes s = true
  end.
Proof.
  intros E Hs Ht Hv Hi. destruct (Hseen t (w_db w) Ht Hv Hi) as [Hsi Hsw].
  destruct s as [X need f| | | | | | |]; cbn in E; [|done| | | | | |done].
  - destruct (exec need f (enter t w)) as [r1 w1] eqn:E1.
    injection E as <- <- <-. apply exec_effect in E1 as [_ Hdb]. cbn in *.
    assert (I (w_db w1) ∧ W (w_db w) (w_db w1)) as [? ?].
    { destruct Hdb as [->|[a Ha]]; [done|]. destruct (Hs _ _ _ _ Ha Hsi). split; [done|by etrans]. }
    by split_and!.
  - destruct (next_fault w) as [f w1] eqn:E1. apply next_fault_frame in E1 as [E1 _].
    destruct f; injection E as <- <- <-; cbn; rewrite ?E1; split_and!; auto; done.
  - injection E as <- <- <-. by split_and!.
  - injection E as <- <- <-. by split_and!.
  - injection E as <- <- <-. by split_and!.
  - injection E as <- <- <-. by split_and!.
Qed.

(** A safe thread executes a statement: outside transactions it does what [G] allows, and
    a transaction changes nothing before it commits what [W] allows. *)
Lemma thread_step_safe {X} (s : stmt X) x k w r x' w' :
  do_stmt s x w = (r, x', w') -> I (w_db w) -> thread_safe (w_db w) (x, Step s k) ->
  I (w_db w') ∧ thread_safe (w_db w') (x', k r)
  ∧ match x, x' with
    | None, _ => G (w_db w) (w_db w')
    | Some _, Some _ => w_db w' = w_db w
    | Some _, None => W (w_db w) (w_db w')
    end.
Proof.
  intros E Hinv [Ht (P & HP & Hd & Hp)]. cbn in *. destruct x as [t|]; cbn in *.
  - destruct Ht as [Ht Hv]. destruct Hp as [Hs Hk].
    pose proof (do_stmt_in_tx s t w r x' w' E Hs Ht Hv Hinv) as H. specialize (Hk r).
    destruct x' as [t'|].
    + destruct H as (Ew & Ht' & Hv' & Ec). rewrite Ec in Hk. rewrite Ew.
      split_and!; [done| |done]. split; [done|]. by exists P.
    + destruct H as (? & ? & Ec). rewrite Ec in Hk. split_and!; [done| |done]. split; [done|].
      exists P. split_and!; [done|by eapply HP, Hd; [|apply HWR]|done].
  - specialize (Hp w Hinv Hd). rewrite E in Hp. destruct Hp as (Hs & P' & ? & ? & ?).
    destruct (Hs Hinv). split_and!; [done| |done]. split; [|by exists P'].
    destruct (do_stmt_opens s w r x' w' E) as [->| ->]; [done|]. by split_and!.
Qed.

(** What one thread does is what the others may expect. *)
Lemma thread_step_moves {X} (s : stmt X) x k w r x' w' :
  do_stmt s x w = (r, x', w') -> I (w_db w) -> thread_safe (w_db w) (x, Step s k) ->
  R (w_db w) (w_db w') ∧ (is_Some x -> is_Some x' -> w_db w' = w_db w).
Proof.
  intros E Hi Hy. destruct (thread_step_safe s x k w r x' w' E Hi Hy) as (_ & _ & H).
  destruct x, x'; (split; [|by (intros [? ?] [? ?] || intros _ _ || intros [? ?])]);
    [rewrite H; reflexivity|by apply HWR|by apply HGR..].
Qed.

(** A statement leaves the writes of the open transactions it is granted alone. *)
Lemma grants_avoids x x' d d' y :
  grants x x' d d' y -> (is_Some x -> is_Some x' -> d' = d) ->
  match fst y with Some t => avoids t d d' | None => True end.
Proof.
  unfold grants. intros Hgr Hsame. destruct (fst y) as [t|]; [|done].
  destruct x, x'; try done. by rewrite Hsame by done.
Qed.

Lemma granted_other x x' d d' ps i n y :
  Forall (grants x x' d d') (delete i ps) -> (is_Some x -> is_Some x' -> d' = d) ->
  ps !! n = Some y -> n ≠ i -> match fst y with Some t => avoids t d d' | None => True end.
Proof.
  intros Hgr Hsame Hn Hne. eapply grants_avoids; [|exact Hsame].
  eapply list.Forall_forall; [exact Hgr|]. rewrite delete_take_drop. apply elem_of_app.
  destruct (decide (n < i)%nat).
  - left. apply (list_elem_of_lookup_2 _ n). by rewrite lookup_take_lt.
  - right. apply (list_elem_of_lookup_2 _ (n - S i)). rewrite lookup_drop.
    by replace (S i + (n - S i))%nat with n by lia.
Qed.

(** The thread that moved, and the others. *)
Lemma pool_safe_insert ps i y' x x' d d' :
  Forall (thread_safe d) ps -> Forall (grants x x' d d') (delete i ps) ->
  I d' -> R d d' -> thread_safe d' y' -> (is_Some x -> is_Some x' -> d' = d) ->
  Forall (thread_safe d') (<[i := y']> ps).
Proof.
  intros Hps Hgr Hd' Hg Hy' Hsame. apply list.Forall_lookup. intros n y Hn.
  apply list_lookup_insert_Some in Hn as [(-> & <- & _)|[Hne Hn]]; [done|].
  eapply thread_safe_move; [done..|by eapply granted_other|].
  rewrite list.Forall_lookup in Hps. by eapply Hps.
Qed.

Lemma statement_step_safe c c' :
  statement_step c c' -> pool_safe c -> pool_safe c' ∧ R (shared c) (shared c').
Proof.
  intros [i x X s k ps w r x' w' Hi E Hgr] [Hinv Hps]. cbn in *.
  pose proof Hps as Hall. rewrite list.Forall_lookup in Hall. specialize (Hall i _ Hi).
  destruct (thread_step_safe s x k w r x' w' E Hinv Hall) as (Hi' & Hy & _).
  destruct (thread_step_moves s x k w r x' w' E Hinv Hall) as [Hg Hsame].
  split; [split; [done|]|done]. by eapply pool_safe_insert.
Qed.

Lemma pool_step_safe {Act} (thread : Act -> prog unit) c c' :
  (forall a d, thread_safe d (None, thread a)) ->
  pool_step thread c c' -> pool_safe c -> pool_safe c' ∧ R (shared c) (shared c').
Proof.
  intros Ht [a ps d|c1 c2 H|i y e ps d Hi] Hc.
  - destruct Hc as [Hi Hps]. split; [split; [done|]|done]. cbn in *.
    apply Forall_app. split; [done|]. by apply Forall_singleton.
  - by apply statement_step_safe.
  - destruct Hc as [Hd Hps]. split; [split; [done|]|done]. cbn in *.
    apply Forall_insert; [done|apply thread_safe_done].
Qed.

Lemma pool_steps_safe {Act} (thread : Act -> prog unit) c c' :
  (forall a d, thread_safe d (None, thread a)) ->
  rtc (pool_step thread) c c' -> pool_safe c -> pool_safe c' ∧ R (shared c) (shared c').
Proof.
  intros Ht. induction 1 as [c|c1 c2 c3 H _ IH]; intros Hc; [done|].
  destruct (pool_step_safe thread _ _ Ht H Hc) as [Hc2 Hg].
  destruct (IH Hc2) as [Hc3 Hg']. split; [done|by etrans].
Qed.

(** A step of a transaction whose fate is known. *)
Lemma commits_step {A X} (s : stmt X) t (k : result X -> prog A) w r x' w' Q :
  do_stmt s (Some t) w = (r, x', w') -> in_tx_ok s -> commits (Step s k) (tx_view t) Q ->
  K (tx_view t) (seen t (w_db w)) -> I (tx_view t) -> I (seen t (w_db w)) ->
  match x' with
  | Some t' => commits (k r) (tx_view t') Q
      ∧ (t' = t ∨ tx_base t' = w_db w)
  | None => is_done (k r) ∧ (w_db w' = w_db w ∨ Q (w_db w'))
  end.
Proof.
  intros E Hs Hc Hsk Hv Hsi. cbn in Hc.
  destruct s as [X need f| | | | | | |]; cbn in E, Hc; [|done| | | | | |done].
  - destruct (exec need f (enter t w)) as [r1 w1] eqn:E1. injection E as <- <- <-. cbn.
    split; [|by right]. apply (Hc (seen t (w_db w)) r1); [done|done|].
    destruct r1 as [a|e|p]; [|done..]. apply exec_Ok in E1 as (_ & E1 & _).
    exists (tx_now t). exact E1.
  - destruct Hc as [Hq Hd]. destruct (next_fault w) as [f w1] eqn:E1.
    apply next_fault_frame in E1 as [E1 _].
    destruct f; injection E as <- <- <-; cbn; (split; [apply Hd|]); [right|by left|right]; auto.
  - destruct Hc as [_ Hd]. injection E as <- <- <-. split; [apply Hd|by left].
  - injection E as <- <- <-. split; [|by left]. by apply (Hc (tx_view t)).
  - injection E as <- <- <-. split; [|by left]. by apply (Hc (tx_view t)).
  - injection E as <- <- <-. split; [|by left]. by apply (Hc (tx_view t)).
Qed.
End rely.
Arguments cut_prog {FT FR I R G W A P m Q} _.
Arguments cut_run {FT FR I R G W A P m Q} _ _.
Arguments cut_safe {FT FR I R G W A P m Q} _.
Arguments Cut {FT FR I R G W A P m Q} _ _ _.
Arguments cut_pre [FT FR I R G W A P] P' [m Q] _ _.
Arguments cut_post [FT FR I R G W A P m] Q [Q'] _ _.
Arguments cut_keep [FT FR I R G HGR W A P m] _ _.
Arguments cut_done [FT FR I R G W A P r Q] _.
Arguments cut_exec [FT FR I R G HG W A P need f] Φ _ _.
Arguments cut_select [FT FR I R G HG W A P need f] Φ _ _.
Arguments cut_bind [FT FR I R G W A B P m] Q [k Q'] _ _ _ _.
Arguments cut_answer [FT FR I R G W A B P] f [m m' Q Q'] _ _ _.
Arguments cut_then [FT FR I R G W A B P m] Φ [k Ψ] _ _.
Arguments cut_wrapping [FT FR I R G W A P pre m Φ] _.
Arguments cut_attempt [FT FR I R G W A P m Φ] _.
Arguments cut_weak [FT FR I R G W A P m] _.
Arguments cut_head [FT FR I R G W A B P m k] _ _.
Arguments cut_lift [FT FR I R G W A B P r k Ψ] _.
Arguments cut_for_each [FT FR I R G W A P] good [f] _ [xs] _.
Arguments calm_bind [FT FR I R G W A B m k] _ _.
Arguments calm_mret [FT FR I R G W A] a.
Arguments calm_stmt [FT FR I R G W X] s [m] _ _.
Arguments calm_InTx [FT FR I R G HG W K A S m] _.
Arguments tx_body {FT FR I W K A S m} _.
Arguments tx_safe {FT FR I W K A S m} _.
Arguments tx_spec {FT FR I W K A S m} _ _.

(** Transactions may be allowed more. *)
Section writes.
Context {FT : Fibertypes} {FR : FiberRPC}.
Context (I : Database -> Prop) (R G W W' : relation Database) {HW : subrelation W W'}.

Lemma safe_writes {A} b P (p : prog A) Q : safe I R G W b P p Q -> safe I R G W' b P p Q.
Proof.
  revert b P. induction p as [r|X s k IH]; cbn; intros b P; [done|]. destruct b.
  - intros [Hs Hk]. split; [|auto]. destruct s; try done. cbn in *. intros t d a d' H Hd.
    destruct (Hs t d a d' H Hd). split; [done|by apply HW].
  - intros H w Hi Hw. specialize (H w Hi Hw). destruct (do_stmt s None w) as [[r x] w'].
    destruct H as (? & P' & ? & ? & ?). split; [done|]. exists P'. auto.
Qed.

Definition calm_writes {A} (m : M A) (c : calm I R G W m) : calm I R G W' m :=
  Cut (cut_prog c) (cut_run c) (safe_writes _ _ _ _ (cut_safe c)).
End writes.

(** Reduce a computation to its statements. *)
Ltac cut_step :=
  first
    [ apply calm_select; [apply _]
    | apply calm_mret | apply calm_throw | apply calm_lift
    | apply calm_draw; [apply _] | apply calm_id_New; [apply _]
    | apply calm_NewInvoice; [apply _] | apply calm_SendPayment; [apply _]
    | apply calm_bind; [|intros ?]
    | apply calm_wrapping | apply calm_attempt
    | apply calm_for_each; intros ?
    | apply calm_exec; [apply _|]
    | match goal with |- calm _ _ _ _ (match ?x with _ => _ end) => destruct x eqn:? end ].
Ltac cutting := repeat cut_step.

