(* ===== verification/Sql.v ===== *)
(** * Queries: ordering, grouping and aggregates

    The clauses of a SELECT the read side and the merchant reports use, over the
    rows of one table: ORDER BY a timestamp and a key (both DESC, NULLs first),
    GROUP BY a text expression in the order of its collation, SUM. *)

From S2P Require Import Prelude Strconv GoTime External Schema.

(** SUM over a nullable NUMERIC column, with COALESCE(..., 0). *)
Definition sql_sum (l : list (option Z)) : Z := foldr Z.add 0 (omap id l).

(** [b] does not come before [a] in DESC order; NULLs are first. *)
Definition ts_desc (a b : option Time) : bool :=
  match a, b with
  | None, _ => true
  | Some _, None => false
  | Some x, Some y => y <=? x
  end.

Section sql.
Context {PG : Postgres}.

(** ORDER BY ts DESC, id DESC on pairs of a key and a row. *)
Definition desc_order {R} (ts : R -> option Time) (x y : string * R) : Prop :=
  if bool_decide (ts x.2 = ts y.2) then pg_text_le y.1 x.1 = true
  else ts_desc (ts x.2) (ts y.2) = true.
#[global] Instance desc_order_dec {R} (ts : R -> option Time) x y :
  Decision (desc_order ts x y).
Proof. unfold desc_order. destruct (bool_decide _); apply _. Defined.

(** ORDER BY a text value. *)
Definition text_order {A} (f : A -> string) (x y : A) : Prop := pg_text_le (f x) (f y) = true.
#[global] Instance text_order_dec {A} (f : A -> string) x y : Decision (text_order f x y).
Proof. unfold text_order. apply _. Defined.

(** GROUP BY [f] ORDER BY it: each value once, with its rows. *)
Definition group_by {A} (f : A -> string) (l : list A) : list (string * list A) :=
  (fun g => (g, filter (fun x => f x = g) l))
    <$> merge_sort (text_order id) (remove_dups (f <$> l)).
End sql.

(** ** Facts *)

Lemma filter_none {A} (P : A -> Prop) `{forall x, Decision (P x)} (l : list A) :
  (forall x, x ∈ l -> ¬ P x) -> filter P l = [].
Proof.
  induction l as [|x l IH]; intros Hl; [done|].
  rewrite filter_cons_False by (apply Hl; left). apply IH. intros y Hy. apply Hl. by right.
Qed.

Lemma filter_agree {A} (P Q : A -> Prop) `{forall x, Decision (P x), forall x, Decision (Q x)}
    (l : list A) :
  (forall x, x ∈ l -> P x <-> Q x) -> filter P l = filter Q l.
Proof.
  induction l as [|x l IH]; intros H1; [done|]. rewrite !filter_cons.
  rewrite IH by (intros; apply H1; by right). destruct (H1 x) as [H2 H3]; [left|].
  destruct (decide (P x)), (decide (Q x)); tauto.
Qed.

Lemma filter_all {A} (P : A -> Prop) `{forall x, Decision (P x)} (l : list A) :
  (forall x, x ∈ l -> P x) -> filter P l = l.
Proof.
  induction l as [|x l IH]; intros Hl; [done|].
  rewrite filter_cons_True by (apply Hl; left). f_equal. apply IH.
  intros y Hy. apply Hl. by right.
Qed.

Lemma filter_fmap_pull {A B} (f : A -> B) (P : B -> Prop) `{forall x, Decision (P x)} (l : list A) :
  filter P (f <$> l) = f <$> filter (fun x => P (f x)) l.
Proof.
  induction l as [|x l IH]; [done|]. cbn [fmap list_fmap].
  rewrite !list.filter_cons. case_decide; cbn; by rewrite <- IH.
Qed.

Lemma length_filter_bool {A} (p : A -> bool) (l : list A) :
  (length (filter (fun x => p x = true) l) + length (filter (fun x => p x = false) l)
   = length l)%nat.
Proof.
  induction l as [|x l IH]; [done|]. rewrite !list.filter_cons.
  destruct (p x); [rewrite decide_True, decide_False by done
                  |rewrite decide_False, decide_True by done]; cbn [length]; lia.
Qed.

Lemma sql_sum_perm l l' : l ≡ₚ l' -> sql_sum l = sql_sum l'.
Proof.
  unfold sql_sum. induction 1 as [|[x|] l l' _ IH|[x|] [y|] l|l1 l2 l3 _ IH1 _ IH2]; cbn;
    try lia.
Qed.

Lemma sql_sum_app l l' : sql_sum (l ++ l') = sql_sum l + sql_sum l'.
Proof.
  unfold sql_sum. induction l as [|[x|] l IH]; cbn; [done|rewrite IH; lia|done].
Qed.

Lemma sql_sum_nonneg l : Forall (fun o => forall v, o = Some v -> 0 <= v) l -> 0 <= sql_sum l.
Proof.
  unfold sql_sum. induction 1 as [|[x|] l Hx _ IH]; cbn; [done| |done].
  specialize (Hx x eq_refl). unfold id in *. lia.
Qed.

(** A sum splits along a predicate. *)
Lemma sql_sum_filter {A} (g : A -> option Z) (P : A -> Prop) `{forall x, Decision (P x)} l :
  sql_sum (g <$> l) = sql_sum (g <$> filter P l) + sql_sum (g <$> filter (fun x => ¬ P x) l).
Proof.
  rewrite <- sql_sum_app, <- fmap_app. apply sql_sum_perm. f_equiv.
  symmetry. by apply filter_app_complement.
Qed.

(** Totals are conserved by grouping. *)
Definition sumZ (l : list Z) : Z := foldr Z.add 0 l.

Lemma sumZ_app l l' : sumZ (l ++ l') = sumZ l + sumZ l'.
Proof. unfold sumZ. induction l as [|x l IH]; cbn; [done|rewrite IH; lia]. Qed.

Lemma sumZ_perm l l' : l ≡ₚ l' -> sumZ l = sumZ l'.
Proof. unfold sumZ. induction 1; cbn; lia. Qed.

Lemma sumZ_ones {A} (l : list A) : sumZ ((fun _ => 1) <$> l) = Z.of_nat (length l).
Proof.
  induction l as [|x l IH]; [done|].
  change (1 + sumZ ((fun _ => 1) <$> l) = Z.of_nat (S (length l))). rewrite IH. lia.
Qed.

Lemma sumZ_point {A} (f : A -> string) (w : A -> Z) (x : A) gs :
  NoDup gs -> f x ∈ gs -> sumZ ((fun g => if decide (f x = g) then w x else 0) <$> gs) = w x.
Proof.
  assert (forall l, f x ∉ l -> sumZ ((fun g => if decide (f x = g) then w x else 0) <$> l) = 0)
    as H0.
  { unfold sumZ. induction l as [|g l IH]; intros Hn; [done|]. cbn.
    rewrite decide_False by (intros E; apply Hn; rewrite E; left).
    apply IH. intros ?. apply Hn. by right. }
  induction 1 as [|g gs Hg _ IH]; [by intros ?%not_elem_of_nil|].
  cbn. intros [E|Hin]%elem_of_cons.
  - rewrite decide_True by done. unfold sumZ in H0. rewrite H0 by (by rewrite E). lia.
  - rewrite decide_False by (intros E; apply Hg; by rewrite <- E). apply IH in Hin.
    unfold sumZ in *. lia.
Qed.

Lemma sum_groups {A} (f : A -> string) (w : A -> Z) l gs :
  NoDup gs -> (forall x, x ∈ l -> f x ∈ gs) ->
  sumZ ((fun g => sumZ (w <$> filter (fun x => f x = g) l)) <$> gs) = sumZ (w <$> l).
Proof.
  intros Hnd. induction l as [|x l IH]; intros Hl.
  { cbn. clear. induction gs as [|g gs IH]; cbn; [done|]. unfold sumZ in *. cbn. lia. }
  assert (forall gs', sumZ ((fun g => sumZ (w <$> filter (fun x => f x = g) (x :: l))) <$> gs')
    = sumZ ((fun g => if decide (f x = g) then w x else 0) <$> gs')
      + sumZ ((fun g => sumZ (w <$> filter (fun x => f x = g) l)) <$> gs')) as E.
  { induction gs' as [|g gs' IHg]; [done|]. cbn [fmap list_fmap sumZ foldr] in *.
    unfold sumZ in *. cbn [foldr]. rewrite IHg, list.filter_cons. case_decide; cbn; lia. }
  rewrite E, IH by (intros y Hy; apply Hl; by right).
  rewrite sumZ_point by (done || apply Hl; left). done.
Qed.

Section facts.
Context {PG : Postgres} {PGL : PostgresLaws}.

Lemma group_by_keys {A} (f : A -> string) l : (group_by f l).*1 ≡ₚ remove_dups (f <$> l).
Proof.
  unfold group_by. rewrite <- list_fmap_compose.
  rewrite (list_fmap_ext _ id) by done. rewrite list_fmap_id. apply merge_sort_Permutation.
Qed.

Lemma group_by_NoDup {A} (f : A -> string) l : NoDup (group_by f l).*1.
Proof. rewrite group_by_keys. apply NoDup_remove_dups. Qed.

Lemma elem_of_group_by {A} (f : A -> string) l g rows :
  (g, rows) ∈ group_by f l <-> g ∈ f <$> l ∧ rows = filter (fun x => f x = g) l.
Proof.
  unfold group_by. rewrite list_elem_of_fmap. split.
  - intros (g' & [= -> ->] & H). rewrite merge_sort_Permutation, elem_of_remove_dups in H. done.
  - intros [H ->]. exists g. split; [done|].
    by rewrite merge_sort_Permutation, elem_of_remove_dups.
Qed.

(** Summing per group sums everything. *)
Lemma group_by_total {A} (f : A -> string) (w : A -> Z) l :
  sumZ ((fun g => sumZ (w <$> g.2)) <$> group_by f l) = sumZ (w <$> l).
Proof.
  rewrite <- (sum_groups f w l (group_by f l).*1).
  - f_equal. unfold group_by. rewrite <- !list_fmap_compose. by apply list_fmap_ext.
  - apply group_by_NoDup.
  - intros x Hx. rewrite group_by_keys, elem_of_remove_dups. apply list_elem_of_fmap. eauto.
Qed.

Lemma scan_table_perm {R} (t : gmap string R) : scan_table t ≡ₚ map_to_list t.
Proof. apply pg_scan_perm. Qed.

Lemma elem_of_scan_table {R} (t : gmap string R) k r : (k, r) ∈ scan_table t <-> t !! k = Some r.
Proof. by rewrite scan_table_perm, elem_of_map_to_list. Qed.

Lemma scan_table_NoDup {R} (t : gmap string R) : NoDup (scan_table t).*1.
Proof. rewrite scan_table_perm. apply NoDup_fst_map_to_list. Qed.

Lemma NoDup_fst_filter {A B} (P : A * B -> Prop) `{forall x, Decision (P x)} l :
  NoDup l.*1 -> NoDup (filter P l).*1.
Proof. intros Hl. eapply sublist_NoDup; [exact Hl|apply fmap_sublist, sublist_filter]. Qed.

Lemma pg_text_refl a : pg_text_le a a = true.
Proof. by destruct (pg_text_total a a). Qed.

#[global] Instance text_order_total {A} (f : A -> string) : Total (text_order f).
Proof. intros x y. unfold text_order. apply pg_text_total. Qed.
#[global] Instance text_order_trans {A} (f : A -> string) : Transitive (text_order f).
Proof. intros x y z. unfold text_order. apply pg_text_trans. Qed.

Context {R : Type} (ts : R -> option Time).

#[global] Instance desc_order_total : Total (desc_order ts).
Proof.
  intros [k r] [k' r']. unfold desc_order. cbn.
  case_bool_decide as E; [rewrite bool_decide_true by done; apply pg_text_total|].
  rewrite bool_decide_false by congruence.
  destruct (ts r) as [x|], (ts r') as [y|]; cbn; auto. rewrite !Z.leb_le. lia.
Qed.

Lemma pg_text_trans_flip a b c :
  pg_text_le b a = true -> pg_text_le c b = true -> pg_text_le c a = true.
Proof. intros H1 H2. by eapply pg_text_trans. Qed.

#[global] Instance desc_order_trans : Transitive (desc_order ts).
Proof.
  intros [k1 r1] [k2 r2] [k3 r3]. unfold desc_order. cbn.
  generalize (ts r1) (ts r2) (ts r3). intros a b c.
  case_bool_decide as E12; case_bool_decide as E23; case_bool_decide as E13; try congruence;
    [by apply pg_text_trans_flip|..];
    destruct a as [x|], b as [y|], c as [z|]; cbn; try done; rewrite !Z.leb_le; intros H1 H2;
    simplify_eq; try lia.
  destruct E12. f_equal. lia.
Qed.

(** Two rows with different keys are strictly ordered. *)
Lemma desc_order_antisym x y : desc_order ts x y -> desc_order ts y x -> x.1 = y.1.
Proof.
  destruct x as [k r], y as [k' r']. unfold desc_order. cbn.
  case_bool_decide as E; [rewrite bool_decide_true by done; intros; by apply pg_text_antisym|].
  rewrite bool_decide_false by congruence.
  destruct (ts r) as [x|], (ts r') as [y|]; cbn; try done.
  rewrite !Z.leb_le. intros. assert (x = y) by lia. congruence.
Qed.

(** Selecting before or after sorting is the same. *)
Lemma merge_sort_filter (P : string * R -> Prop) `{forall x, Decision (P x)} l :
  NoDup l.*1 ->
  merge_sort (desc_order ts) (filter P l) = filter P (merge_sort (desc_order ts) l).
Proof.
  intros Hnd. apply (StronglySorted_unique_strong (desc_order ts)).
  - intros x y Hx Hy H1 H2.
    rewrite merge_sort_Permutation in Hx.
    apply list_elem_of_filter in Hx as [_ Hx], Hy as [_ Hy].
    rewrite merge_sort_Permutation in Hy.
    pose proof (desc_order_antisym x y H1 H2) as E.
    apply list_elem_of_lookup in Hx as [i Hi], Hy as [j Hj].
    assert (i = j) as <-; [|by simplify_eq].
    eapply (list.NoDup_lookup l.*1 i j x.1); [done|..]; rewrite list_lookup_fmap.
    + by rewrite Hi.
    + rewrite Hj. cbn. by f_equal.
  - apply StronglySorted_merge_sort; apply _.
  - pose proof (StronglySorted_merge_sort (desc_order ts) l) as Hs.
    induction Hs as [|x l' Hs IH Hx]; [constructor|]. rewrite filter_cons.
    case_decide; [|done]. constructor; [done|].
    apply list.Forall_forall. intros y [_ Hy]%list_elem_of_filter.
    rewrite list.Forall_forall in Hx. auto.
  - rewrite merge_sort_Permutation. apply filter_Permutation. symmetry.
    apply merge_sort_Permutation.
Qed.
End facts.
