(* ===== verification/Indexer.v ===== *)
(** * The transactional-outbox projector (internal/indexer)

    [Handle] buffers the events of one raw change; [Save] flushes them in one
    transaction: the append-only event row, the projection the event's type
    selects, the settlement of a pending merchant order, one delivery per matching
    subscription, and the checkpoint.  [project] is the same flush as a pure
    function of the tables; IndexerFacts.v proves that [Save] refines it. *)

From S2P Require Import Prelude Strconv GoTime External Schema Numeric Tables Ids.

Section indexer.
Context {FT : Fibertypes} {KE : KanakaEvents} {PG : Postgres} {CR : Crypto}.

(** ** Definitions *)

Record Projector := MkProjector { buf : list Event }.

Definition New : Projector := MkProjector [].

Definition Handle (p : Projector) (e : Event) : Projector := MkProjector (buf p ++ [e]).

(** [nullText]: the empty string is SQL NULL. *)
Definition nullText (s : string) : option string :=
  if bool_decide (s = EmptyString) then None else Some s.

(** [assetAmount]: nils when the type carries neither or the payload is bad. *)
Definition assetAmount (e : Event) : option string * option Numeric :=
  if bool_decide (e_Type e = InvoicePaid) then
    match unmarshal_InvoicePaid (e_Data e) with
    | Ok d => (nullText (ip_Asset d), Some (AmountToNumeric (ip_Amount d)))
    | _ => (None, None)
    end
  else if bool_decide (e_Type e = PaymentReceived) then
    match unmarshal_PaymentReceived (e_Data e) with
    | Ok d => (nullText (pr_Asset d), Some (AmountToNumeric (pr_Amount d)))
    | _ => (None, None)
    end
  else (None, None).

(** INSERT INTO events ... ON CONFLICT (id) DO NOTHING. *)
Definition event_row (e : Event) (data : string) (seq : Z) (now : Time) : EventRow :=
  let '(asset, amount) := assetAmount e in
  MkEventRow (e_Type e) (nullText (e_FiberRef e)) asset (n ← amount; numeric_col n)
    data (timestamptz (e_CreatedAt e)) now seq.

Definition insert_event (e : Event) (seq : Z) (now : Time) (d : Database)
  : result (unit * Database) :=
  match pg_jsonb_in (e_Data e) with
  | None => Err err_json
  | Some data =>
      match events d !! e_ID e with
      | Some _ => Ok (tt, d)
      | None => Ok (tt, upd_events (<[e_ID e := event_row e data seq now]> (events d)) d)
      end
  end.

(** INSERT INTO invoices ... ON CONFLICT (payment_hash) DO UPDATE. *)
Definition invoice_upsert (d : InvoicePaidData) (old : option InvoiceRow) : InvoiceRow :=
  let asset := nullText (ip_Asset d) in
  let amount := numeric_col (AmountToNumeric (ip_Amount d)) in
  match old with
  | None => MkInvoiceRow (Some "paid") asset amount None (Some (timestamptz (ip_SettledAt d)))
  | Some r =>
      MkInvoiceRow (Some "paid") (coalesce (in_asset r) asset)
        (coalesce (in_amount r) amount) (in_created_at r) (Some (timestamptz (ip_SettledAt d)))
  end.

(** INSERT INTO payments ... ON CONFLICT (payment_hash) DO UPDATE; the fee of an
    existing row and its created_at are kept. *)
Definition payment_upsert (x : Event * PaymentReceivedData) (old : option PaymentRow)
  : PaymentRow :=
  let '(e, d) := x in
  let asset := nullText (pr_Asset d) in
  let amount := numeric_col (AmountToNumeric (pr_Amount d)) in
  let peer := nullText (pr_PayerPubkey d) in
  match old with
  | None =>
      MkPaymentRow "received" "succeeded" asset amount None peer
        (Some (timestamptz (e_CreatedAt e))) (Some (timestamptz (e_CreatedAt e)))
  | Some r =>
      MkPaymentRow "received" "succeeded" asset amount (p_fee r) peer
        (p_created_at r) (Some (timestamptz (e_CreatedAt e)))
  end.

(** INSERT INTO channels ... ON CONFLICT (channel_id) DO UPDATE. *)
Definition channel_upsert (x : Event * ChannelOpenedData) (old : option ChannelRow)
  : ChannelRow :=
  let '(e, d) := x in
  let peer := nullText (co_Peer d) in
  let capacity := numeric_col (AmountToNumeric (co_Capacity d)) in
  match old with
  | None => MkChannelRow peer (Some "open") capacity None None (Some (timestamptz (e_CreatedAt e))) None
  | Some r =>
      MkChannelRow peer (Some "open") capacity (ch_local_balance r)
        (ch_remote_balance r) (Some (timestamptz (e_CreatedAt e))) (ch_closed_at r)
  end.

(** UPDATE merchant_orders SET status = 'paid' ... AND status = 'pending'. *)
Definition settle_row (d : InvoicePaidData) (o : OrderRow) : OrderRow :=
  if bool_decide (o_invoice_payment_hash o = Some (ip_PaymentHash d))
     && bool_decide (o_status o = OPending) then
    MkOrderRow (o_merchant_id o) (o_external_order_id o) (o_invoice_payment_hash o)
      (o_amount o) (o_asset o) OPaid (o_created_at o) (Some (timestamptz (ip_SettledAt d)))
  else o.

Definition matchMerchantOrder (d : InvoicePaidData) : M unit :=
  there ← wrapping "indexer: probe merchant_orders: "
    (select 0 (fun db => Ok (3 <=? version db)));
  if there : bool then
    wrapping "indexer: match merchant order: "
      (exec 3 (fun _ db => Ok (tt, upd_orders (settle_row d <$> merchant_orders db) db)))
  else mret tt.

Definition projectInvoicePaid (e : Event) : M unit :=
  d ← wrapping "indexer: decode invoice.paid: " (lift (unmarshal_InvoicePaid (e_Data e)));
  _ ← wrapping "indexer: project invoice.paid: "
    (exec 1 (fun _ db =>
      Ok (tt, upd_invoices (upsert ip_PaymentHash invoice_upsert (invoices db) d) db)));
  matchMerchantOrder d.

Definition payment_key (x : Event * PaymentReceivedData) : string := pr_PaymentHash (snd x).

Definition projectPaymentReceived (e : Event) : M unit :=
  d ← wrapping "indexer: decode payment.received: "
    (lift (unmarshal_PaymentReceived (e_Data e)));
  wrapping "indexer: project payment.received: "
    (exec 1 (fun _ db =>
      Ok (tt, upd_payments (upsert payment_key payment_upsert (payments db) (e, d)) db))).

Definition channel_key (x : Event * ChannelOpenedData) : string := co_ChannelID (snd x).

Definition projectChannelOpened (e : Event) : M unit :=
  d ← wrapping "indexer: decode channel.opened: "
    (lift (unmarshal_ChannelOpened (e_Data e)));
  wrapping "indexer: project channel.opened: "
    (exec 1 (fun _ db =>
      Ok (tt, upd_channels (upsert channel_key channel_upsert (channels db) (e, d)) db))).

Record endpointSnapshot := MkSnapshot { es_id : string; es_url : string; es_secret : string }.

(** SELECT id, url, secret FROM webhook_endpoints WHERE active AND ... *)
Definition endpoint_matches (eventType : string) (r : EndpointRow) : bool :=
  ep_active r && bool_decide (eventType ∈ ep_event_types r).

Definition select_endpoints (eventType : string) (d : Database) : list endpointSnapshot :=
  (fun x : string * EndpointRow => MkSnapshot (fst x) (ep_url (snd x)) (ep_secret (snd x)))
    <$> filter (fun x => endpoint_matches eventType (snd x) = true)
          (scan_table (webhook_endpoints d)).

Definition matchingEndpoints (eventType : string) : M (list endpointSnapshot) :=
  there ← wrapping "indexer: probe webhook_endpoints: "
    (select 0 (fun db => Ok (2 <=? version db)));
  if there : bool then
    wrapping "indexer: select endpoints: "
      (select 2 (fun db => Ok (select_endpoints eventType db)))
  else mret [].

Definition delivery_id (e : Event) (ep : endpointSnapshot) : string :=
  DeriveWithPrefix "dlv_" "delivery" [e_ID e; es_id ep].

Definition delivery_row (e : Event) (ep : endpointSnapshot) (payload : string) (now : Time)
  : DeliveryRow :=
  MkDeliveryRow (es_id ep) (e_ID e) (es_url ep) (es_secret ep) payload DPending 0 now None now.

(** INSERT INTO webhook_deliveries ... ON CONFLICT (id) DO NOTHING, with the
    foreign keys of migration 0002. *)
Definition insert_delivery (e : Event) (ep : endpointSnapshot) (payload : string)
    (now : Time) (d : Database) : result (unit * Database) :=
  match pg_jsonb_in payload with
  | None => Err err_json
  | Some j =>
      let did := delivery_id e ep in
      match webhook_deliveries d !! did with
      | Some _ => Ok (tt, d)
      | None =>
          match webhook_endpoints d !! es_id ep, events d !! e_ID e with
          | Some _, Some _ =>
              Ok (tt, upd_deliveries
                        (<[did := delivery_row e ep j now]> (webhook_deliveries d)) d)
          | _, _ => Err err_foreign_key
          end
      end
  end.

Definition enqueueDeliveries (e : Event) : M unit :=
  eps ← matchingEndpoints (e_Type e);
  match eps with
  | [] => mret tt
  | _ =>
      payload ← wrapping "indexer: marshal delivery payload: " (lift (marshal_Event e));
      for_each (fun ep => wrapping "indexer: enqueue delivery: "
        (exec 2 (insert_delivery e ep payload))) eps
  end.

(** The [switch e.Type] of [applyEvent]. *)
Definition project_type (e : Event) : M unit :=
  if bool_decide (e_Type e = InvoicePaid) then projectInvoicePaid e
  else if bool_decide (e_Type e = PaymentReceived) then projectPaymentReceived e
  else if bool_decide (e_Type e = ChannelOpened) then projectChannelOpened e
  else mret tt.

Definition applyEvent (seq : Z) (e : Event) : M unit :=
  _ ← wrapping ("indexer: insert event " +:+ e_ID e +:+ ": ") (exec 1 (insert_event e seq));
  _ ← project_type e;
  enqueueDeliveries e.

Definition save_checkpoint (seq : Z) : M unit :=
  wrapping "indexer: save checkpoint: "
    (exec 1 (fun now db => Ok (tt, upd_checkpoint (Some (seq, now)) db))).

(** [Save]: the buffer is taken (and cleared) before the transaction runs. *)
Definition Save (p : Projector) (seq : Z) : Projector * M unit :=
  (MkProjector [],
   InTx (_ ← for_each (applyEvent seq) (buf p); save_checkpoint seq)).

Definition Load : M Z :=
  r ← attempt (select 1 (fun d =>
        match ingest_checkpoint d with
        | Some (seq, _) => Ok seq
        | None => Err (ESent PgxErrNoRows)
        end));
  match r with
  | inr seq => mret seq
  | inl e => if errors_Is e PgxErrNoRows then mret 0
             else throw (EWrap "indexer: load checkpoint: " e EmptyString)
  end.

(** ** The flush as a function of the tables *)

Definition jsonb (s : string) : string := default EmptyString (pg_jsonb_in s).

Definition event_keep (seq : Z) (now : Time) (e : Event) (old : option EventRow) : EventRow :=
  default (event_row e (jsonb (e_Data e)) seq now) old.

Definition paid_of (e : Event) : option InvoicePaidData :=
  if bool_decide (e_Type e = InvoicePaid) then
    match unmarshal_InvoicePaid (e_Data e) with Ok d => Some d | _ => None end
  else None.

Definition received_of (e : Event) : option (Event * PaymentReceivedData) :=
  if bool_decide (e_Type e = InvoicePaid) then None
  else if bool_decide (e_Type e = PaymentReceived) then
    match unmarshal_PaymentReceived (e_Data e) with Ok d => Some (e, d) | _ => None end
  else None.

Definition opened_of (e : Event) : option (Event * ChannelOpenedData) :=
  if bool_decide (e_Type e = InvoicePaid) then None
  else if bool_decide (e_Type e = PaymentReceived) then None
  else if bool_decide (e_Type e = ChannelOpened) then
    match unmarshal_ChannelOpened (e_Data e) with Ok d => Some (e, d) | _ => None end
  else None.

Definition payload_of (e : Event) : string :=
  match marshal_Event e with Ok p => jsonb p | _ => EmptyString end.

(** The (event, subscription) pairs of a change, in order. *)
Definition fanout (d : Database) (evs : list Event) : list (Event * endpointSnapshot) :=
  if version d <? 2 then []
  else e ← evs; ep ← select_endpoints (e_Type e) d; [(e, ep)].

Definition delivery_key (x : Event * endpointSnapshot) : string := delivery_id (fst x) (snd x).
Definition delivery_keep (now : Time) (x : Event * endpointSnapshot)
    (old : option DeliveryRow) : DeliveryRow :=
  default (delivery_row (fst x) (snd x) (payload_of (fst x)) now) old.

Definition settle_all (ds : list InvoicePaidData) (o : OrderRow) : OrderRow :=
  foldl (fun o d => settle_row d o) o ds.

Definition project_events (seq : Z) (now : Time) (evs : list Event) (d : Database) : Database :=
  MkDatabase (version d) (ingest_checkpoint d)
    (upserts e_ID (event_keep seq now) (events d) evs)
    (upserts payment_key payment_upsert (payments d) (omap received_of evs))
    (upserts channel_key channel_upsert (channels d) (omap opened_of evs))
    (upserts ip_PaymentHash invoice_upsert (invoices d) (omap paid_of evs))
    (webhook_endpoints d)
    (upserts delivery_key (delivery_keep now) (webhook_deliveries d) (fanout d evs))
    (webhook_delivery_log d) (merchants d)
    (if version d <? 3 then merchant_orders d
     else settle_all (omap paid_of evs) <$> merchant_orders d)
    (refunds d) (settlements d) (reconciliation_runs d).

Definition project (seq : Z) (now : Time) (evs : list Event) (d : Database) : Database :=
  upd_checkpoint (Some (seq, now)) (project_events seq now evs d).
End indexer.
