(* ===== verification/IndexerFacts.v ===== *)
(** * The projector refines its table-level specification

    The lemmas behind the indexer's theorems: each statement of the flush, run
    successfully, is one upsert of [project_events]; the whole [Save] is
    [project] or nothing; [project] run twice is [project]. *)

From S2P Require Import Prelude Strconv GoTime External Schema Numeric Tables Replay Ids Indexer.

Section facts.
Context {FT : Fibertypes} {KE : KanakaEvents} {PG : Postgres} {CR : Crypto}.
Implicit Types (w : world).

(** ** One event *)

Lemma insert_event_spec e seq now d d' :
  insert_event e seq now d = Ok (tt, d') ->
  d' = upd_events (upsert e_ID (event_keep seq now) (events d) e) d
  ∧ is_Some (pg_jsonb_in (e_Data e)).
Proof.
  unfold insert_event, upsert, event_keep, jsonb.
  destruct (pg_jsonb_in (e_Data e)) as [j|]; [|done].
  destruct (events d !! e_ID e) as [r|] eqn:E; intros [= <-]; split; try done.
  cbn. rewrite insert_id by done. by destruct d.
Qed.

Lemma matchMerchantOrder_spec ip w w' :
  matchMerchantOrder ip w = (Ok tt, w') ->
  w_db w' = upd_orders (if version (w_db w) <? 3 then merchant_orders (w_db w)
                        else settle_row ip <$> merchant_orders (w_db w)) (w_db w)
  ∧ same_env w w'.
Proof.
  unfold matchMerchantOrder. intros H. m_inv H.
  apply wrapping_Ok, select_Ok in Hm as (_ & [= <-] & Edb & Henv).
  destruct (Z.leb_spec 3 (version (w_db w))) as [Hv|Hv].
  - apply wrapping_Ok, exec_Ok in H as (_ & [= H] & Henv'). rewrite Edb in H.
    rewrite (proj2 (Z.ltb_ge _ _)) by lia. split; [done|by etrans].
  - m_inv H. rewrite (proj2 (Z.ltb_lt _ _)) by lia. split; [|done].
    rewrite Edb. by destruct (w_db w).
Qed.

(** The projections the type of [e] selects, as one database update. *)
Definition project_switch e d : Database :=
  MkDatabase (version d) (ingest_checkpoint d) (events d)
    (upserts payment_key payment_upsert (payments d) (omap received_of [e]))
    (upserts channel_key channel_upsert (channels d) (omap opened_of [e]))
    (upserts ip_PaymentHash invoice_upsert (invoices d) (omap paid_of [e]))
    (webhook_endpoints d) (webhook_deliveries d) (webhook_delivery_log d) (merchants d)
    (if version d <? 3 then merchant_orders d
     else settle_all (omap paid_of [e]) <$> merchant_orders d)
    (refunds d) (settlements d) (reconciliation_runs d).

Lemma settle_none_table (d : Database) :
  (if version d <? 3 then merchant_orders d
   else settle_all [] <$> merchant_orders d) = merchant_orders d.
Proof. case_match; [done|]. apply map_fmap_id. Qed.

Lemma project_type_spec e w w' :
  project_type e w = (Ok tt, w') ->
  w_db w' = project_switch e (w_db w) ∧ same_env w w'.
Proof.
  unfold project_type, project_switch, paid_of, received_of, opened_of. cbn [omap list_omap].
  case_bool_decide as E1.
  - unfold projectInvoicePaid. intros H. m_inv H.
    apply wrapping_Ok in Hm. injection Hm as Hd <-. rewrite Hd.
    apply wrapping_Ok, exec_Ok in Hm0 as (_ & [= Hdb] & Henv).
    apply matchMerchantOrder_spec in H as [H Henv'].
    split; [|by etrans; [eassumption|]]. rewrite H, <- Hdb. by destruct (w_db w).
  - case_bool_decide as E2.
    + unfold projectPaymentReceived. intros H. m_inv H.
      apply wrapping_Ok in Hm. injection Hm as Hd <-. rewrite Hd.
      apply exec_Ok in H as (_ & [= Hdb] & Henv).
      split; [|done]. rewrite <- Hdb, settle_none_table. by destruct (w_db w).
    + case_bool_decide as E3.
      * unfold projectChannelOpened. intros H. m_inv H.
        apply wrapping_Ok in Hm. injection Hm as Hd <-. rewrite Hd.
        apply exec_Ok in H as (_ & [= Hdb] & Henv).
        split; [|done]. rewrite <- Hdb, settle_none_table. by destruct (w_db w).
      * intros H. m_inv H. split; [|done]. rewrite settle_none_table.
        by destruct (w_db w').
Qed.

Lemma matchingEndpoints_spec ty w eps w' :
  matchingEndpoints ty w = (Ok eps, w') ->
  eps = (if version (w_db w) <? 2 then [] else select_endpoints ty (w_db w))
  ∧ w_db w' = w_db w ∧ same_env w w'.
Proof.
  unfold matchingEndpoints. intros H. m_inv H.
  apply wrapping_Ok, select_Ok in Hm as (_ & [= <-] & Edb & Henv).
  destruct (Z.leb_spec 2 (version (w_db w))).
  - apply wrapping_Ok, select_Ok in H as (_ & [= <-] & Edb' & Henv').
    rewrite (proj2 (Z.ltb_ge _ _)) by lia. rewrite Edb' , Edb. split_and!; try done. by etrans; [eassumption|].
  - m_inv H. rewrite (proj2 (Z.ltb_lt _ _)) by lia. done.
Qed.

Lemma insert_delivery_spec e ep payload now d d' :
  insert_delivery e ep payload now d = Ok (tt, d') ->
  d' = upd_deliveries
         (<[delivery_id e ep :=
              default (delivery_row e ep (jsonb payload) now)
                (webhook_deliveries d !! delivery_id e ep)]> (webhook_deliveries d)) d.
Proof.
  unfold insert_delivery, jsonb. destruct (pg_jsonb_in payload); [|done]. cbn.
  destruct (webhook_deliveries d !! delivery_id e ep) as [r|] eqn:E.
  - intros [= <-]. rewrite insert_id by done. by destruct d.
  - destruct (webhook_endpoints d !! _); [|done].
    destruct (events d !! _); [|done]. by intros [= <-].
Qed.

Lemma enqueue_each_spec e payload eps w w' :
  marshal_Event e = Ok payload ->
  for_each (fun ep => wrapping "indexer: enqueue delivery: "
    (exec 2 (insert_delivery e ep payload))) eps w = (Ok tt, w') ->
  w_db w' = upd_deliveries
    (upserts delivery_key (delivery_keep (w_now w)) (webhook_deliveries (w_db w))
       (pair e <$> eps)) (w_db w)
  ∧ same_env w w'.
Proof.
  intros Hp. revert w. induction eps as [|ep eps IH]; intros w H.
  - m_inv H. split; [|done]. cbn. by destruct (w_db w').
  - m_inv H.
    apply wrapping_Ok, exec_Ok in Hm as (_ & Hins & Henv).
    apply insert_delivery_spec in Hins.
    apply IH in H as [H Henv']. split; [|by etrans; [eassumption|]].
    rewrite H, Hins, (env_now _ _ Henv).
    unfold upd_deliveries. cbn. f_equal. f_equal.
    unfold upsert, delivery_keep, payload_of, delivery_key. cbn. by rewrite Hp.
Qed.

Lemma enqueueDeliveries_spec e w w' :
  enqueueDeliveries e w = (Ok tt, w') ->
  w_db w' = upd_deliveries
    (upserts delivery_key (delivery_keep (w_now w)) (webhook_deliveries (w_db w))
       (fanout (w_db w) [e])) (w_db w)
  ∧ same_env w w'.
Proof.
  unfold enqueueDeliveries. intros H. m_inv H.
  apply matchingEndpoints_spec in Hm as (Heps & Edb & Henv).
  assert (pair e <$> a = fanout (w_db w) [e]) as Ef.
  { unfold fanout. subst a. destruct (version (w_db w) <? 2); [done|].
    cbn. rewrite app_nil_r. generalize (select_endpoints (e_Type e) (w_db w)).
    induction l as [|x l IH]; cbn; [done|]. by rewrite IH. }
  rewrite <- Ef. destruct a as [|ep eps].
  - m_inv H. split; [|done]. rewrite Edb. cbn. by destruct (w_db w).
  - apply bind_Ok in H as (payload & w1 & Hm & H).
    apply wrapping_Ok in Hm. injection Hm as Hp <-.
    apply enqueue_each_spec in H as [H Henv']; [|done].
    split; [|by etrans; [eassumption|]]. by rewrite H, Edb, (env_now _ _ Henv).
Qed.

Lemma applyEvent_spec seq e w w' :
  applyEvent seq e w = (Ok tt, w') ->
  w_db w' = project_events seq (w_now w) [e] (w_db w) ∧ same_env w w'.
Proof.
  unfold applyEvent. intros H. m_inv H.
  apply wrapping_Ok, exec_Ok in Hm as (_ & Hins & Henv).
  apply insert_event_spec in Hins as [Hins _].
  apply project_type_spec in Hm0 as [Hsw Henv0].
  apply enqueueDeliveries_spec in H as [H Henv1].
  split; [|by repeat (etrans; [eassumption|])].
  rewrite H, Hsw, Hins, (env_now _ _ Henv0), (env_now _ _ Henv).
  by destruct (w_db w).
Qed.

(** ** A whole change *)

Lemma fanout_tables d d' evs :
  version d = version d' -> webhook_endpoints d = webhook_endpoints d' ->
  fanout d evs = fanout d' evs.
Proof.
  intros Ev Ee. unfold fanout. rewrite Ev. case_match; [done|].
  unfold select_endpoints. by rewrite Ee.
Qed.

Lemma fanout_cons d e evs : fanout d (e :: evs) = fanout d [e] ++ fanout d evs.
Proof. unfold fanout. case_match; [done|]. cbn. by rewrite app_nil_r. Qed.

Lemma omap_cons_app {A B} (f : A -> option B) x l : omap f (x :: l) = omap f [x] ++ omap f l.
Proof. cbn. by destruct (f x). Qed.

Lemma settle_table_app d l1 l2 :
  (if version d <? 3 then
     (if version d <? 3 then merchant_orders d else settle_all l1 <$> merchant_orders d)
   else settle_all l2 <$>
     (if version d <? 3 then merchant_orders d else settle_all l1 <$> merchant_orders d))
  = if version d <? 3 then merchant_orders d else settle_all (l1 ++ l2) <$> merchant_orders d.
Proof.
  case_match; [done|]. rewrite <- map_fmap_compose. apply map_fmap_ext. intros k o _.
  cbn. unfold settle_all. by rewrite foldl_app.
Qed.

Lemma project_events_nil seq now d : project_events seq now [] d = d.
Proof.
  unfold project_events. cbn. rewrite settle_none_table.
  unfold fanout. replace (if version d <? 2 then [] else _) with
    ([] : list (Event * endpointSnapshot)) by (by case_match). by destruct d.
Qed.

Lemma project_events_cons seq now e evs d :
  project_events seq now (e :: evs) d =
  project_events seq now evs (project_events seq now [e] d).
Proof.
  unfold project_events at 1 2.
  rewrite (omap_cons_app received_of), (omap_cons_app opened_of), (omap_cons_app paid_of).
  rewrite fanout_cons, !upserts_app, <- settle_table_app. done.
Qed.

Lemma apply_all_spec seq evs w w' :
  for_each (applyEvent seq) evs w = (Ok tt, w') ->
  w_db w' = project_events seq (w_now w) evs (w_db w) ∧ same_env w w'.
Proof.
  revert w. induction evs as [|e evs IH]; intros w H.
  - m_inv H. by rewrite project_events_nil.
  - m_inv H.
    apply applyEvent_spec in Hm as [Hdb Henv].
    apply IH in H as [H Henv']. split; [|by etrans; [eassumption|]].
    by rewrite H, Hdb, (env_now _ _ Henv), <- project_events_cons.
Qed.

Lemma flush_spec seq evs w w' :
  (_ ← for_each (applyEvent seq) evs; save_checkpoint seq) w = (Ok tt, w') ->
  w_db w' = project seq (w_now w) evs (w_db w) ∧ same_env w w'.
Proof.
  intros H. m_inv H. apply apply_all_spec in Hm as [Hdb Henv].
  unfold save_checkpoint in H. apply wrapping_Ok, exec_Ok in H as (_ & [= H] & Henv').
  split; [|by etrans; [eassumption|]]. unfold project. by rewrite <- H, Hdb, (env_now _ _ Henv).
Qed.

(** The transaction is all or nothing, whatever it answers. *)
Lemma Save_cases p seq w r w' :
  snd (Save p seq) w = (r, w') ->
  w_db w' = w_db w ∨ w_db w' = project seq (w_now w) (buf p) (w_db w).
Proof.
  intros [[H _]|([] & w1 & w2 & Hf & Hfl & H & _)]%InTx_cases; [by left|right].
  apply next_fault_frame in Hf as [Edb Henv]. apply flush_spec in Hfl as [Hdb _].
  by rewrite H, Hdb, Edb, (env_now _ _ Henv).
Qed.

Lemma Save_Ok_project p seq w w' :
  snd (Save p seq) w = (Ok tt, w') ->
  w_db w' = project seq (w_now w) (buf p) (w_db w) ∧ same_env w w'.
Proof.
  intros (w1 & w2 & Hf & Hfl & H & Henv2)%InTx_Ok.
  apply next_fault_frame in Hf as [Edb Henv]. apply flush_spec in Hfl as [Hdb Henv1].
  rewrite H, Hdb, Edb, (env_now _ _ Henv). split; [done|].
  by repeat (etrans; [eassumption|]).
Qed.

(** ** Replays *)

Definition payment_keep (o : option PaymentRow) : option Z * option (option Time) :=
  (o ≫= p_fee, p_created_at <$> o).
Definition payment_fill (k : option Z * option (option Time)) (x : Event * PaymentReceivedData) :=
  (k.1, Some (default (Some (timestamptz (e_CreatedAt x.1))) k.2)).
Definition payment_mk (x : Event * PaymentReceivedData) (k : option Z * option (option Time)) :=
  MkPaymentRow "received" "succeeded" (nullText (pr_Asset x.2))
    (numeric_col (AmountToNumeric (pr_Amount x.2))) k.1 (nullText (pr_PayerPubkey x.2))
    (default (Some (timestamptz (e_CreatedAt x.1))) k.2) (Some (timestamptz (e_CreatedAt x.1))).

Lemma payment_fills : fills payment_upsert payment_keep payment_fill payment_mk.
Proof.
  split.
  - by intros [e d] [r|].
  - by intros [e d] [fee created].
  - by intros [e d] [fee created].
  - apply saturated_again. by intros [fee created] e e'.
Qed.

Definition channel_keep (o : option ChannelRow) : option Z * option Z * option Time :=
  (o ≫= ch_local_balance, o ≫= ch_remote_balance, o ≫= ch_closed_at).
Definition channel_mk (x : Event * ChannelOpenedData) (k : option Z * option Z * option Time) :=
  MkChannelRow (nullText (co_Peer x.2)) (Some "open")
    (numeric_col (AmountToNumeric (co_Capacity x.2))) k.1.1 k.1.2
    (Some (timestamptz (e_CreatedAt x.1))) k.2.

Lemma channel_fills : fills channel_upsert channel_keep (fun k _ => k) channel_mk.
Proof.
  split.
  - by intros [e d] [r|].
  - by intros [e d] [[l r] c].
  - done.
  - done.
Qed.

Definition invoice_keep (o : option InvoiceRow) : option string * option Z * option Time :=
  (o ≫= in_asset, o ≫= in_amount, o ≫= in_created_at).
Definition invoice_fill (k : option string * option Z * option Time) (d : InvoicePaidData) :=
  (coalesce (k.1.1) (nullText (ip_Asset d)),
   coalesce (k.1.2) (numeric_col (AmountToNumeric (ip_Amount d))), k.2).
Definition invoice_mk (d : InvoicePaidData) (k : option string * option Z * option Time) :=
  MkInvoiceRow (Some "paid") (coalesce k.1.1 (nullText (ip_Asset d)))
    (coalesce k.1.2 (numeric_col (AmountToNumeric (ip_Amount d)))) k.2
    (Some (timestamptz (ip_SettledAt d))).

Lemma foldl_invoice_fill l k :
  foldl invoice_fill k l =
    (foldl coalesce k.1.1 ((fun x => nullText (ip_Asset x)) <$> l),
     foldl coalesce k.1.2 ((fun x => numeric_col (AmountToNumeric (ip_Amount x))) <$> l), k.2).
Proof.
  revert k. induction l as [|d l IH]; intros k; cbn; [by destruct k as [[??]?]|].
  by rewrite IH.
Qed.

Lemma invoice_fills : fills invoice_upsert invoice_keep invoice_fill invoice_mk.
Proof.
  split.
  - by intros d [r|].
  - by intros d [[a m] c].
  - intros d [[[a|] [m|]] c]; unfold invoice_mk, invoice_fill; cbn;
      by destruct (nullText (ip_Asset d)).
  - intros l k d Hd. rewrite foldl_invoice_fill. unfold invoice_fill at 1. cbn [fst snd].
    rewrite !coalesce_again; [done|..]; apply list_elem_of_fmap; by exists d.
Qed.

Lemma payment_absorbing : absorbing payment_upsert.
Proof. apply (fills_absorbing _ _ _ _ payment_fills). Qed.
Lemma channel_absorbing : absorbing channel_upsert.
Proof. apply (fills_absorbing _ _ _ _ channel_fills). Qed.
Lemma invoice_absorbing : absorbing invoice_upsert.
Proof. apply (fills_absorbing _ _ _ _ invoice_fills). Qed.

Lemma event_absorbing seq now : absorbing (event_keep seq now).
Proof. by apply absorbing_keep. Qed.

Lemma delivery_absorbing now : absorbing (delivery_keep now).
Proof. by apply absorbing_keep. Qed.

Lemma settle_row_paid ip o : o_status o ≠ OPending -> settle_row ip o = o.
Proof.
  intros H. unfold settle_row. by rewrite (bool_decide_false (o_status o = _)), andb_false_r.
Qed.

Lemma settle_all_paid ds o : o_status o ≠ OPending -> settle_all ds o = o.
Proof.
  intros H. induction ds as [|d ds IH]; [done|]. unfold settle_all. cbn.
  rewrite settle_row_paid by done. apply IH.
Qed.

(** Either no invoice settles the order, or the first one naming it does. *)
Lemma settle_all_cases ds o :
  settle_all ds o = o ∨ o_status (settle_all ds o) = OPaid.
Proof.
  induction ds as [|d ds IH]; [by left|].
  change (settle_all (d :: ds) o) with (settle_all ds (settle_row d o)).
  unfold settle_row. case_match; [|done]. right. by rewrite settle_all_paid.
Qed.

Lemma settle_all_idem ds o : settle_all ds (settle_all ds o) = settle_all ds o.
Proof.
  destruct (settle_all_cases ds o) as [E|E]; [by rewrite !E|].
  apply settle_all_paid. by rewrite E.
Qed.

(** The tables of a database without the checkpoint's timestamp. *)
Definition same_tables (d d' : Database) : Prop :=
  upd_checkpoint None d = upd_checkpoint None d'
  ∧ fst <$> ingest_checkpoint d = fst <$> ingest_checkpoint d'.

(** Keeping statements ignore the time and sequence number of a replay. *)
Lemma upserts_keep_again {E V} (key : E -> string) (g g' : E -> option V -> V) m l :
  (forall e v, g' e (Some v) = v) ->
  upserts key g' (upserts key g m l) l = upserts key g m l.
Proof.
  intros Hg. apply map_eq. intros k.
  destruct (upserts key g m l !! k) as [v|] eqn:Ek.
  - by apply lookup_upserts_keep.
  - rewrite lookup_upserts_ne; [done|]. apply Forall_forall. intros e He <-.
    apply list_elem_of_In in He.
    destruct (lookup_upserts_in key g m l e He) as [v Hv]. congruence.
Qed.

Lemma project_idem seq now seq' now' evs d :
  same_tables (project seq' now' evs (project seq now evs d))
    (upd_checkpoint (Some (seq', now')) (project seq now evs d)).
Proof.
  split; [|done]. set (d1 := project seq now evs d).
  assert (fanout d1 evs = fanout d evs) as Hf by (by apply fanout_tables).
  unfold project, project_events at 1, upd_checkpoint. cbn. rewrite Hf. cbn.
  f_equal.
  - by apply upserts_keep_again.
  - apply upserts_idem, payment_absorbing.
  - apply upserts_idem, channel_absorbing.
  - apply upserts_idem, invoice_absorbing.
  - by apply upserts_keep_again.
  - destruct (version d <? 3); [done|].
    rewrite <- map_fmap_compose. apply map_fmap_ext. intros k o _. apply settle_all_idem.
Qed.
End facts.
