(* ===== verification/IndexerTotal.v ===== *)
(** * The projector answers: when a flush succeeds

    Forward execution of [Save]: with the schema migrated, no injected fault and
    every buffered event well-formed, the transaction commits. *)

From S2P Require Import Prelude Strconv GoTime External Schema Numeric Tables Ids Indexer IndexerFacts.

Section total.
Context {FT : Fibertypes} {KE : KanakaEvents} {PG : Postgres} {CR : Crypto}.
Implicit Types (w : world).

(** An event whose data is JSON, decodes as its type says and marshals. *)
Definition event_ok (e : Event) : bool :=
  bool_decide (is_Some (pg_jsonb_in (e_Data e)))
  && (if bool_decide (e_Type e = InvoicePaid) then is_ok (unmarshal_InvoicePaid (e_Data e))
      else if bool_decide (e_Type e = PaymentReceived) then
        is_ok (unmarshal_PaymentReceived (e_Data e))
      else if bool_decide (e_Type e = ChannelOpened) then
        is_ok (unmarshal_ChannelOpened (e_Data e))
      else true)
  && match marshal_Event e with
     | Ok p => bool_decide (is_Some (pg_jsonb_in p))
     | _ => false
     end.

(** A world no fault is planned for, with every migration applied. *)
Definition healthy w : Prop := w_faults w = [] ∧ version (w_db w) = latest_version.

(** The next statement meets no fault, and every migration is applied. *)
Definition clear w w1 : Prop := next_fault w = (NoFault, w1) ∧ version (w_db w) = latest_version.

Lemma healthy_clear w : healthy w -> clear w w.
Proof. intros [Hf Hv]. split; [by apply next_fault_none|done]. Qed.

Lemma select_on_clear {A} need (f : Database -> result A) w w1 a :
  clear w w1 -> need <= 3 -> f (w_db w) = Ok a -> select need f w = (Ok a, w1).
Proof. intros [Hf Hv] Hn. apply select_clear; [done|]. rewrite Hv. done. Qed.

Lemma wrapping_run {A} pre (m : M A) w a w' :
  m w = (Ok a, w') -> wrapping pre m w = (Ok a, w').
Proof. apply wrapping_Ok. Qed.

(** Run one fault-free statement. *)
Lemma exec_healthy {A} need (f : Time -> Database -> result (A * Database)) w a d :
  healthy w -> need <= 3 -> f (w_now w) (w_db w) = Ok (a, d) ->
  exec need f w = (Ok a, set_db d w).
Proof. intros [Hf Hv] Hn. apply exec_run; [done|]. rewrite Hv. done. Qed.

Lemma select_healthy {A} need (f : Database -> result A) w a :
  healthy w -> need <= 3 -> f (w_db w) = Ok a -> select need f w = (Ok a, w).
Proof. intros [Hf Hv] Hn. apply select_run; [done|]. rewrite Hv. done. Qed.

Lemma healthy_set_db d w : healthy w -> version d = version (w_db w) -> healthy (set_db d w).
Proof. intros [Hf Hv] E. split; [done|]. cbn. by rewrite E. Qed.

Lemma insert_event_runs e seq w :
  healthy w -> is_Some (pg_jsonb_in (e_Data e)) ->
  ∃ d, exec 1 (insert_event e seq) w = (Ok tt, set_db d w)
    ∧ version d = version (w_db w) ∧ webhook_endpoints d = webhook_endpoints (w_db w)
    ∧ is_Some (events d !! e_ID e).
Proof.
  intros Hw [j Hj].
  destruct (events (w_db w) !! e_ID e) as [r|] eqn:E.
  - exists (w_db w). split_and!; try done.
    apply exec_healthy; [done|lia|]. unfold insert_event. by rewrite Hj, E.
  - eexists. split_and!.
    + apply exec_healthy; [done|lia|]. unfold insert_event. by rewrite Hj, E.
    + done.
    + done.
    + cbn. by rewrite lookup_insert_eq.
Qed.

Lemma matchMerchantOrder_runs ip w :
  healthy w -> ∃ t, matchMerchantOrder ip w = (Ok tt, set_db (upd_orders t (w_db w)) w).
Proof.
  intros Hw. eexists. unfold matchMerchantOrder.
  erewrite bind_intro by (apply wrapping_run, select_healthy; [done|lia|done]).
  destruct Hw as [Hf Hv]. rewrite Hv. cbn [Z.leb Z.compare Pos.compare latest_version].
  apply wrapping_run, exec_healthy; [done|lia|]. reflexivity.
Qed.

(** The switch touches neither the events nor the endpoints. *)
Lemma project_type_runs e w :
  healthy w -> event_ok e = true ->
  ∃ d, project_type e w = (Ok tt, set_db d w)
    ∧ version d = version (w_db w) ∧ webhook_endpoints d = webhook_endpoints (w_db w)
    ∧ events d = events (w_db w).
Proof.
  intros Hw Hok. unfold event_ok in Hok.
  apply andb_prop in Hok as [[_ Hd]%andb_prop _]. unfold project_type.
  destruct (bool_decide (e_Type e = InvoicePaid)).
  - destruct (unmarshal_InvoicePaid (e_Data e)) as [d|?|?] eqn:E; [|done..].
    unfold projectInvoicePaid.
    erewrite bind_intro by (apply wrapping_run; unfold lift; by rewrite E).
    erewrite bind_intro by (apply wrapping_run, exec_healthy; [done|lia|reflexivity]).
    edestruct (matchMerchantOrder_runs d) as [t Ht]; [|rewrite Ht; by eexists].
    by apply healthy_set_db.
  - destruct (bool_decide (e_Type e = PaymentReceived)).
    + destruct (unmarshal_PaymentReceived (e_Data e)) as [d|?|?] eqn:E; [|done..].
      unfold projectPaymentReceived.
      erewrite bind_intro by (apply wrapping_run; unfold lift; by rewrite E).
      eexists. split; [apply wrapping_run, exec_healthy; [done|lia|reflexivity]|done].
    + destruct (bool_decide (e_Type e = ChannelOpened)).
      * destruct (unmarshal_ChannelOpened (e_Data e)) as [d|?|?] eqn:E; [|done..].
        unfold projectChannelOpened.
        erewrite bind_intro by (apply wrapping_run; unfold lift; by rewrite E).
        eexists. split; [apply wrapping_run, exec_healthy; [done|lia|reflexivity]|done].
      * exists (w_db w). split; [by destruct w|done].
Qed.

Lemma insert_delivery_runs e ep payload w :
  healthy w -> is_Some (pg_jsonb_in payload) ->
  is_Some (webhook_endpoints (w_db w) !! es_id ep) -> is_Some (events (w_db w) !! e_ID e) ->
  ∃ t, exec 2 (insert_delivery e ep payload) w
         = (Ok tt, set_db (upd_deliveries t (w_db w)) w).
Proof.
  intros Hw [j Hj] [x Hx] [y Hy].
  destruct (webhook_deliveries (w_db w) !! delivery_id e ep) as [r|] eqn:E.
  - exists (webhook_deliveries (w_db w)). apply exec_healthy; [done|lia|].
    unfold insert_delivery. rewrite Hj, E. by destruct (w_db w).
  - eexists. apply exec_healthy; [done|lia|].
    unfold insert_delivery. by rewrite Hj, E, Hx, Hy.
Qed.

Lemma enqueue_each_runs e payload eps w :
  healthy w -> is_Some (pg_jsonb_in payload) -> is_Some (events (w_db w) !! e_ID e) ->
  Forall (fun ep => is_Some (webhook_endpoints (w_db w) !! es_id ep)) eps ->
  ∃ t, for_each (fun ep => wrapping "indexer: enqueue delivery: "
         (exec 2 (insert_delivery e ep payload))) eps w
       = (Ok tt, set_db (upd_deliveries t (w_db w)) w).
Proof.
  intros Hw Hj He. revert w Hw He. induction eps as [|ep eps IH]; intros w Hw He Hall.
  - exists (webhook_deliveries (w_db w)). cbn. by destruct w as [[] ? ? ? ?].
  - inversion_clear Hall as [|? ? Hep Heps].
    destruct (insert_delivery_runs e ep payload w Hw Hj Hep He) as [t Ht].
    cbn [for_each]. erewrite bind_intro by (apply wrapping_run; exact Ht).
    destruct (IH (set_db (upd_deliveries t (w_db w)) w)) as [t' Ht']; try done.
    exists t'. rewrite Ht'. done.
Qed.

Context {PGL : PostgresLaws}.

Lemma select_endpoints_spec ty d ep :
  ep ∈ select_endpoints ty d <->
  ∃ r, webhook_endpoints d !! es_id ep = Some r ∧ endpoint_matches ty r = true
    ∧ ep = MkSnapshot (es_id ep) (ep_url r) (ep_secret r).
Proof.
  unfold select_endpoints, scan_table. rewrite list_elem_of_fmap. split.
  - intros ([k r] & -> & [Hm Hin]%list_elem_of_filter). cbn in *.
    rewrite pg_scan_perm in Hin. apply elem_of_map_to_list in Hin. eauto.
  - intros (r & Hr & Hm & E). exists (es_id ep, r). split; [done|].
    apply list_elem_of_filter. split; [done|].
    rewrite pg_scan_perm. by apply elem_of_map_to_list.
Qed.

Lemma enqueueDeliveries_runs e w :
  healthy w -> event_ok e = true -> is_Some (events (w_db w) !! e_ID e) ->
  ∃ t, enqueueDeliveries e w = (Ok tt, set_db (upd_deliveries t (w_db w)) w).
Proof.
  intros Hw Hok He. unfold enqueueDeliveries, matchingEndpoints.
  assert ((there ← wrapping "indexer: probe webhook_endpoints: "
             (select 0 (fun db => Ok (2 <=? version db)));
           if there : bool then wrapping "indexer: select endpoints: "
             (select 2 (fun db => Ok (select_endpoints (e_Type e) db)))
           else mret []) w = (Ok (select_endpoints (e_Type e) (w_db w)), w)) as Hsel.
  { erewrite bind_intro by (apply wrapping_run, select_healthy; [done|lia|done]).
    pose proof Hw as [_ Hv]. rewrite Hv. cbn [Z.leb Z.compare Pos.compare latest_version].
    by apply wrapping_run, select_healthy. }
  erewrite bind_intro by exact Hsel.
  destruct (select_endpoints (e_Type e) (w_db w)) as [|ep eps] eqn:E.
  - exists (webhook_deliveries (w_db w)). by destruct w as [[] ? ? ? ?].
  - unfold event_ok in Hok. apply andb_prop in Hok as [_ Hp].
    destruct (marshal_Event e) as [payload|?|?] eqn:Em; [|done..].
    apply bool_decide_eq_true in Hp.
    erewrite bind_intro by (apply wrapping_run; reflexivity).
    apply enqueue_each_runs; try done. rewrite <- E.
    apply Forall_forall. intros x Hx%list_elem_of_In.
    apply select_endpoints_spec in Hx as (r & Hr & _). by rewrite Hr.
Qed.

Lemma applyEvent_runs seq e w :
  healthy w -> event_ok e = true ->
  ∃ d, applyEvent seq e w = (Ok tt, set_db d w) ∧ version d = version (w_db w).
Proof.
  intros Hw Hok. unfold applyEvent.
  assert (is_Some (pg_jsonb_in (e_Data e))) as Hj.
  { unfold event_ok in Hok. apply andb_prop in Hok as [[Hj _]%andb_prop _].
    by apply bool_decide_eq_true in Hj. }
  destruct (insert_event_runs e seq w Hw Hj) as (d1 & H1 & Hv1 & _ & He).
  erewrite bind_intro by (apply wrapping_run; exact H1).
  assert (healthy (set_db d1 w)) as Hw1 by (by apply healthy_set_db).
  destruct (project_type_runs e _ Hw1 Hok) as (d2 & H2 & Hv2 & _ & Hev).
  erewrite bind_intro by exact H2.
  assert (healthy (set_db d2 (set_db d1 w))) as Hw2 by (by apply healthy_set_db).
  destruct (enqueueDeliveries_runs e _ Hw2 Hok) as [t H3]; [cbn; by rewrite Hev|].
  rewrite H3. eexists. split; [reflexivity|]. cbn. by rewrite Hv2.
Qed.

Lemma apply_all_runs seq evs w :
  healthy w -> forallb event_ok evs = true ->
  ∃ d, for_each (applyEvent seq) evs w = (Ok tt, set_db d w) ∧ version d = version (w_db w).
Proof.
  revert w. induction evs as [|e evs IH]; intros w Hw Hall.
  - exists (w_db w). split; [by destruct w|done].
  - cbn in Hall. apply andb_prop in Hall as [He Hall].
    destruct (applyEvent_runs seq e w Hw He) as (d & Hd & Hv).
    cbn [for_each]. erewrite bind_intro by exact Hd.
    destruct (IH (set_db d w)) as (d' & Hd' & Hv'); [by apply healthy_set_db|done|].
    exists d'. rewrite Hd'. split; [done|]. rewrite Hv'. done.
Qed.

Lemma Save_runs p seq w :
  healthy w -> forallb event_ok (buf p) = true ->
  ∃ w', snd (Save p seq) w = (Ok tt, w') ∧ w_faults w' = [].
Proof.
  intros Hw Hall. destruct (apply_all_runs seq (buf p) w Hw Hall) as (d & Hd & Hv).
  pose proof Hw as [Hf _]. eexists. cbn [Save snd]. split.
  - apply InTx_run; [done| |].
    + erewrite bind_intro by exact Hd. unfold save_checkpoint.
      apply wrapping_run, exec_healthy; [by apply healthy_set_db|lia|reflexivity].
    + done.
  - done.
Qed.
End total.
