(* ===== verification/IndexerProps.v ===== *)
(** * What the projector guarantees

    The theorems about a whole [Save], each stated on the operation of Indexer.v
    and proved from the refinement lemmas of IndexerFacts.v and the forward
    execution of IndexerTotal.v.  The sample world at the top feeds the
    witnesses. *)

From S2P Require Import Prelude Strconv GoTime External Schema Numeric Tables Ids Indexer IndexerFacts IndexerTotal.

(** ** A sample world *)

Module IndexerSample.
Import Sample.

Definition paid_event : Event :=
  MkEvent "evt_1" "invoice.paid" 63000000000000000123 "0xh" "0xh|0x64|CKB|63000000000000000".
Definition opened_event : Event :=
  MkEvent "evt_2" "channel.opened" 63000000000000001000 "0xc" "0xc|peer|0x3e8".
Definition change : Projector := MkProjector [paid_event; opened_event].

Definition endpoint : EndpointRow :=
  MkEndpointRow None "https://shop.test/hook" "s3cret" ["invoice.paid"] true 10.
Definition order : OrderRow :=
  MkOrderRow "mer_1" (Some "ext-1") (Some "0xh") (Some 100) (Some "CKB") OPending 20 None.

Definition db : Database :=
  upd_version 3 (upd_endpoints {[ "whk_1" := endpoint ]}
    (upd_orders {[ "ord_1" := order ]} empty_db)).

Definition world0 : world := World db [] 1000 0 [].

(** A world in which the fifth statement of the flush is refused. *)
Definition world_fault : world :=
  World db [NoFault; NoFault; NoFault; NoFault; Fail (EText "timeout")] 1000 0 [].
End IndexerSample.

(** ** Lemmas the theorems share *)

Section lemmas.
Context {FT : Fibertypes} {KE : KanakaEvents} {PG : Postgres} {CR : Crypto}.
Implicit Types (w : world).

(** A run that answered, as [project] of the tables it started from. *)
Lemma Save_ok_db p seq w w' :
  snd (Save p seq) w = (Ok tt, w') -> w_db w' = project seq (w_now w) (buf p) (w_db w).
Proof. by intros [H _]%Save_Ok_project. Qed.

(** Whatever [Save] answered, each row an ON CONFLICT DO NOTHING table held stays. *)
Lemma event_row_kept seq now evs d k r :
  events d !! k = Some r -> events (project seq now evs d) !! k = Some r.
Proof. cbn. by apply lookup_upserts_keep. Qed.

Lemma delivery_row_kept seq now evs d k r :
  webhook_deliveries d !! k = Some r -> webhook_deliveries (project seq now evs d) !! k = Some r.
Proof. cbn. by apply lookup_upserts_keep. Qed.

Lemma elem_of_fanout (PGL : PostgresLaws) d evs e ep :
  (e, ep) ∈ fanout d evs <->
  2 <= version d ∧ e ∈ evs ∧
  ∃ r, webhook_endpoints d !! es_id ep = Some r ∧ ep_active r = true
    ∧ e_Type e ∈ ep_event_types r ∧ ep = MkSnapshot (es_id ep) (ep_url r) (ep_secret r).
Proof.
  unfold fanout. destruct (Z.ltb_spec (version d) 2) as [Hv|Hv].
  { split; [by intros ?%not_elem_of_nil|lia]. }
  rewrite list_elem_of_bind. setoid_rewrite list_elem_of_bind.
  setoid_rewrite list_elem_of_singleton. setoid_rewrite select_endpoints_spec.
  unfold endpoint_matches. split.
  - intros (e' & (ep' & [= -> ->] & r & Hr & [Ha Ht%bool_decide_eq_true]%andb_prop & Es) & He).
    split_and!; try done. exists r. by split_and!.
  - intros (_ & He & r & Hr & Ha & Ht & Es). exists e. split; [|done].
    exists ep. split; [done|]. exists r. rewrite Ha, bool_decide_true by done. done.
Qed.

(** A delivery row the flush adds is one of the fan-out's. *)
Lemma project_delivery_new seq now evs d did row :
  webhook_deliveries d !! did = None ->
  webhook_deliveries (project seq now evs d) !! did = Some row ->
  ∃ e ep, (e, ep) ∈ fanout d evs ∧ did = delivery_id e ep
    ∧ row = delivery_row e ep (payload_of e) now.
Proof.
  intros Hn Hrow. cbn in Hrow. rewrite lookup_upserts, Hn in Hrow.
  assert (forall l r, foldl (upsert_row (delivery_keep now)) (Some r) l = Some r) as Hs.
  { induction l as [|x l IH]; intros r; [done|]. apply (IH r). }
  destruct (filter _ _) as [|[e ep] l] eqn:Ef; [done|].
  assert (Hin : (e, ep) ∈ filter (fun x => delivery_key x = did) (fanout d evs))
    by (rewrite Ef; left).
  apply list_elem_of_filter in Hin as [<- Hin]. exists e, ep. split_and!; [done|done|].
  change (foldl (upsert_row (delivery_keep now)) (Some (delivery_keep now (e, ep) None)) l
    = Some row) in Hrow.
  rewrite Hs in Hrow. by injection Hrow.
Qed.

(** The first invoice of a change that names an order. *)
Definition settling (ds : list InvoicePaidData) (o : OrderRow) : option InvoicePaidData :=
  head (filter (fun d => o_invoice_payment_hash o = Some (ip_PaymentHash d)) ds).

Lemma settle_all_spec ds o :
  settle_all ds o =
    match o_status o, settling ds o with
    | OPending, Some d =>
        MkOrderRow (o_merchant_id o) (o_external_order_id o) (o_invoice_payment_hash o)
          (o_amount o) (o_asset o) OPaid (o_created_at o) (Some (timestamptz (ip_SettledAt d)))
    | _, _ => o
    end.
Proof.
  destruct (decide (o_status o = OPending)) as [E|E];
    [|rewrite settle_all_paid by done; by destruct (o_status o)].
  rewrite E. unfold settling. induction ds as [|d ds IH]; [done|].
  change (settle_all (d :: ds) o) with (settle_all ds (settle_row d o)).
  rewrite filter_cons. unfold settle_row. rewrite (bool_decide_true (o_status o = _)) by done.
  rewrite andb_true_r. case_decide as Eh.
  - rewrite bool_decide_true by done. by rewrite settle_all_paid.
  - by rewrite bool_decide_false.
Qed.
End lemmas.

(** ** Theorems *)

Section props.
Context {FT : Fibertypes} {KE : KanakaEvents} {PG : Postgres} {CR : Crypto}.
Implicit Types (w : world).

(** C9.  One [Save] is atomic: it answers success and the database is exactly
    [project] of the buffered events at the transaction's time, or it answers an
    error (or panics) and the database is untouched; only a commit whose
    acknowledgement is lost may have taken effect under an error, and then all of
    it has. *)
Theorem Save_atomic p seq w :
  let '(r, w') := snd (Save p seq) w in
  let flushed := project seq (w_now w) (buf p) (w_db w) in
  (r = Ok tt ∧ w_db w' = flushed)
  ∨ (is_ok r = false ∧ w_db w' = w_db w)
  ∨ (∃ e, r = Err (EWrap "db: commit: " e EmptyString) ∧ w_db w' = flushed).
Proof.
  destruct (snd (Save p seq) w) as [r w'] eqn:E. cbn zeta.
  pose proof E as [[H1 H2]|([] & w1 & w2 & Hf & Hfl & H & _ & Hr)]%InTx_cases; [by auto|].
  apply next_fault_frame in Hf as [Edb Henv]. apply flush_spec in Hfl as [Hdb _].
  rewrite H, Hdb, Edb, (env_now _ _ Henv).
  destruct Hr as [->|[e ->]]; eauto.
Qed.

Context {PGL : PostgresLaws}.

(** [Save] makes progress: with the schema migrated, no fault and every
    buffered event well-formed (its data is JSON and decodes as its type says), the
    transaction commits, the buffer is empty and the database is the projection. *)
Theorem Save_commits p seq w :
  healthy w -> forallb event_ok (buf p) = true ->
  ∃ w', Save p seq = (New, snd (Save p seq)) ∧ snd (Save p seq) w = (Ok tt, w')
    ∧ w_db w' = project seq (w_now w) (buf p) (w_db w).
Proof.
  intros Hw Hok. destruct (Save_runs p seq w Hw Hok) as (w' & H & _).
  exists w'. split_and!; [done|done|]. by apply Save_Ok_project in H as [H _].
Qed.

(** Replays are idempotent: running [Save] on the same change again, at any
    later time and under any sequence number, on the database the first run
    committed, changes nothing but the checkpoint row. *)
Theorem Save_replay p seq seq' w w1 w2 w3 :
  snd (Save p seq) w = (Ok tt, w1) -> w_db w2 = w_db w1 ->
  snd (Save p seq') w2 = (Ok tt, w3) ->
  w_db w3 = upd_checkpoint (Some (seq', w_now w2)) (w_db w1).
Proof.
  intros H1%Save_ok_db E H2%Save_ok_db. rewrite H2, E, H1.
  pose proof (project_idem seq (w_now w) seq' (w_now w2) (buf p) (w_db w)) as [H _].
  revert H. unfold project, upd_checkpoint. cbn. intros H. injection H; intros.
  by f_equal.
Qed.

(** The event log is append-only and deliveries are written once: whatever
    [Save] answers, every event row and every delivery row there was is still there,
    unchanged. *)
Theorem Save_append_only p seq w :
  events (w_db w) ⊆ events (w_db (snd (snd (Save p seq) w)))
  ∧ webhook_deliveries (w_db w) ⊆ webhook_deliveries (w_db (snd (snd (Save p seq) w))).
Proof.
  destruct (snd (Save p seq) w) as [r w'] eqn:E. cbn [snd].
  apply Save_cases in E as [->| ->]; [done|].
  split; apply map_subseteq_spec; intros k r' H;
    [by apply event_row_kept|by apply delivery_row_kept].
Qed.

(** Every event of a committed change is recorded, once: a known id keeps its
    row, a new id gets the row of the first buffered event that carries it, stamped
    with the change's sequence number; no other row appears. *)
Theorem Save_records_events p seq w w' k :
  snd (Save p seq) w = (Ok tt, w') ->
  events (w_db w') !! k =
    match events (w_db w) !! k with
    | Some r => Some r
    | None => (fun e => event_row e (jsonb (e_Data e)) seq (w_now w))
                <$> head (filter (fun e => e_ID e = k) (buf p))
    end.
Proof.
  intros H%Save_ok_db. rewrite H. cbn [project upd_checkpoint project_events events].
  rewrite lookup_upserts.
  assert (forall l r, foldl (upsert_row (event_keep seq (w_now w))) (Some r) l = Some r) as Hs.
  { induction l as [|e l IH]; intros r; [done|]. apply (IH r). }
  destruct (events (w_db w) !! k) as [r|]; [apply Hs|].
  destruct (filter _ (buf p)) as [|e l]; [done|]. apply Hs.
Qed.

(** Transactional outbox, completeness: once a change commits, every pair of
    one of its events and an active subscription to the event's type has its delivery
    row, which is the pair's own unless an earlier replay had already written it. *)
Theorem Save_outbox_complete p seq w w' e k r :
  snd (Save p seq) w = (Ok tt, w') ->
  2 <= version (w_db w) -> e ∈ buf p ->
  webhook_endpoints (w_db w) !! k = Some r -> ep_active r = true ->
  e_Type e ∈ ep_event_types r ->
  is_Some (webhook_deliveries (w_db w') !!
    DeriveWithPrefix "dlv_" "delivery" [e_ID e; k]).
Proof.
  intros H%Save_ok_db Hv He Hk Ha Ht. rewrite H. cbn.
  apply (lookup_upserts_in delivery_key _ _ _ (e, MkSnapshot k (ep_url r) (ep_secret r))).
  apply elem_of_fanout; [done|]. cbn. split_and!; eauto.
Qed.

(** C10.  Transactional outbox, soundness: every delivery row a change adds belongs
    to one of its events and a subscription that was active and asked for the event's
    type; it is pending, never attempted, due at once, and carries the subscription's
    url and secret and the event's JSON as they were. *)
Theorem Save_outbox_sound p seq w w' did row :
  snd (Save p seq) w = (Ok tt, w') ->
  webhook_deliveries (w_db w) !! did = None ->
  webhook_deliveries (w_db w') !! did = Some row ->
  ∃ e k r, e ∈ buf p ∧ webhook_endpoints (w_db w) !! k = Some r ∧ ep_active r = true
    ∧ e_Type e ∈ ep_event_types r ∧ did = DeriveWithPrefix "dlv_" "delivery" [e_ID e; k]
    ∧ row = MkDeliveryRow k (e_ID e) (ep_url r) (ep_secret r) (payload_of e) DPending 0
              (w_now w) None (w_now w).
Proof.
  intros H%Save_ok_db Hn Hrow. rewrite H in Hrow.
  apply project_delivery_new in Hrow as (e & ep & Hin & -> & ->); [|done].
  apply elem_of_fanout in Hin as (_ & He & r & Hr & Ha & Ht & ->); [|done].
  by exists e, (es_id ep), r.
Qed.

(** C17.  Payment matching: a committed change settles exactly the pending orders
    whose invoice one of its invoice.paid events names, at the settlement time of the
    first such event, and leaves every other order as it was; no order is added or
    removed. *)
Theorem Save_settles_orders p seq w w' k o :
  snd (Save p seq) w = (Ok tt, w') -> 3 <= version (w_db w) ->
  merchant_orders (w_db w) !! k = Some o ->
  merchant_orders (w_db w') !! k = Some
    (match o_status o, settling (omap paid_of (buf p)) o with
     | OPending, Some d =>
         MkOrderRow (o_merchant_id o) (o_external_order_id o) (o_invoice_payment_hash o)
           (o_amount o) (o_asset o) OPaid (o_created_at o) (Some (timestamptz (ip_SettledAt d)))
     | _, _ => o
     end).
Proof.
  intros H%Save_ok_db Hv Hk. rewrite H. cbn.
  rewrite (proj2 (Z.ltb_ge _ _)) by lia.
  by rewrite lookup_fmap, Hk, <- settle_all_spec.
Qed.

(** The checkpoint round trip: after a committed [Save seq], [Load] answers
    [seq]; on a database with no checkpoint row it answers 0. *)
Theorem Load_after_Save p seq w w' :
  snd (Save p seq) w = (Ok tt, w') -> 1 <= version (w_db w) -> w_faults w' = [] ->
  Load w' = (Ok seq, w').
Proof.
  intros H%Save_ok_db Hv Hf. unfold Load.
  assert (select 1 (fun d => match ingest_checkpoint d with
    | Some (s, _) => Ok s | None => Err (ESent PgxErrNoRows) end) w' = (Ok seq, w')) as Hs.
  { apply select_run; [done|rewrite H; cbn; lia|]. by rewrite H. }
  erewrite bind_intro; [|apply (proj2 (attempt_Ok _ _ (inr seq) w')); exact Hs]. done.
Qed.

(** The payments read model holds the last received event per payment hash:
    a payment.received event with no later one for its hash in the change fixes the
    row's status, asset, amount and peer, while the fee and the creation time of a
    row that existed are kept. *)
Theorem Save_payment_projection p seq w w' l e d l' :
  snd (Save p seq) w = (Ok tt, w') ->
  omap received_of (buf p) = l ++ (e, d) :: l' ->
  Forall (fun x => pr_PaymentHash (snd x) ≠ pr_PaymentHash d) l' ->
  ∃ r, payments (w_db w') !! pr_PaymentHash d = Some r
    ∧ p_direction r = "received" ∧ p_status r = "succeeded"
    ∧ p_asset r = nullText (pr_Asset d) ∧ p_amount r = Some (BigInt (pr_Amount d))
    ∧ p_peer r = nullText (pr_PayerPubkey d)
    ∧ p_updated_at r = Some (timestamptz (e_CreatedAt e))
    ∧ (forall old, payments (w_db w) !! pr_PaymentHash d = Some old ->
         p_fee r = p_fee old ∧ p_created_at r = p_created_at old).
Proof.
  intros H%Save_ok_db El Hl'. rewrite H. cbn. rewrite El.
  replace (l ++ (e, d) :: l') with ((l ++ [(e, d)]) ++ l') by (by rewrite <- app_assoc).
  rewrite !upserts_app, lookup_upserts_ne by done.
  set (m := upserts payment_key payment_upsert (payments (w_db w)) l).
  assert (upserts payment_key payment_upsert m [(e, d)] !! pr_PaymentHash d
    = Some (payment_upsert (e, d) (m !! pr_PaymentHash d))) as -> by apply lookup_insert_eq.
  eexists. split; [done|]. pose proof (numeric_col_amount (pr_Amount d)) as Ha.
  split_and!; try (by destruct (m !! pr_PaymentHash d)).
  intros old Hold.
  assert (∃ r, m !! pr_PaymentHash d = Some r ∧ p_fee r = p_fee old
    ∧ p_created_at r = p_created_at old) as (r & -> & Hf & Hc); [|by cbn].
  unfold m. generalize (payments (w_db w)) Hold. clear. intros t Hold.
  rewrite lookup_upserts, Hold. generalize (filter (fun x => payment_key x = pr_PaymentHash d) l).
  clear. intros l. revert old. induction l as [|[e' d'] l IH]; intros old; [eauto|].
  cbn [foldl]. edestruct IH as (r & Hr & H1 & H2). exists r. split; [exact Hr|].
  by rewrite H1, H2.
Qed.

(** C27.  A failed [Save] has already dropped the change: the buffer is cleared
    before the transaction runs, so a retry of the checkpoint callback in a healthy
    world succeeds and moves the checkpoint past the change, with none of its events,
    projections or deliveries written. *)
Theorem Save_failure_drops_change p seq w r w1 :
  snd (Save p seq) w = (r, w1) -> is_ok r = false -> w_db w1 = w_db w ->
  version (w_db w) = latest_version ->
  ∃ w2, snd (Save (fst (Save p seq)) seq) (set_faults [] w1) = (Ok tt, w2)
    ∧ w_db w2 = upd_checkpoint (Some (seq, w_now w1)) (w_db w).
Proof.
  intros _ _ E Hv.
  destruct (Save_runs (fst (Save p seq)) seq (set_faults [] w1)) as (w2 & H & _).
  - split; [done|]. cbn. by rewrite E.
  - done.
  - exists w2. split; [done|]. apply Save_ok_db in H. rewrite H.
    unfold project. cbn. by rewrite project_events_nil, E.
Qed.
End props.

(** ** Witnesses *)

Module IndexerWitness.
Import Sample IndexerSample.

Definition save7 : M unit := snd (Save change 7).
Definition world1 : world := snd (save7 world0).

Lemma save7_ok : save7 world0 = (Ok tt, world1).
Proof. by_eval. Qed.

(** The sample change commits. *)
Lemma Save_commits_witness : ∃ w', save7 world0 = (Ok tt, w').
Proof.
  destruct (Save_commits change 7 world0) as (w' & _ & H & _).
  - split; reflexivity.
  - by_eval.
  - exists w'. exact H.
Defined.

Lemma Save_replay_witness :
  w_db (snd (snd (Save change 9) world1)) = upd_checkpoint (Some (9, 1000)) (w_db world1).
Proof.
  apply (Save_replay change 7 9 world0 world1 world1);
    [exact save7_ok|reflexivity|by_eval].
Defined.

Lemma Save_records_events_witness :
  events (w_db world1) !! "evt_2" =
    Some (MkEventRow "channel.opened" (Some "0xc") None None "0xc|peer|0x3e8"
      63000000000000001000 1000 7).
Proof.
  rewrite (Save_records_events change 7 world0 world1 "evt_2" save7_ok). by_eval.
Defined.

Lemma Save_outbox_complete_witness :
  is_Some (webhook_deliveries (w_db world1) !!
    DeriveWithPrefix "dlv_" "delivery" ["evt_1"; "whk_1"]).
Proof.
  apply (Save_outbox_complete change 7 world0 world1 paid_event "whk_1" endpoint).
  - exact save7_ok.
  - cbn. lia.
  - left.
  - by_eval.
  - reflexivity.
  - left.
Defined.

Definition delivery_of_1 : string := DeriveWithPrefix "dlv_" "delivery" ["evt_1"; "whk_1"].

Lemma Save_outbox_sound_witness :
  ∃ e k r, e ∈ [paid_event; opened_event] ∧ webhook_endpoints db !! k = Some r
    ∧ delivery_of_1 = DeriveWithPrefix "dlv_" "delivery" [e_ID e; k].
Proof.
  destruct (webhook_deliveries (w_db world1) !! delivery_of_1) as [row|] eqn:E.
  - destruct (Save_outbox_sound change 7 world0 world1 delivery_of_1 row)
      as (e & k & r & He & Hr & _ & _ & Hid & _); [exact save7_ok|by_eval|exact E|].
    exists e, k, r. exact (conj He (conj Hr Hid)).
  - exfalso. vm_compute in E. discriminate E.
Defined.

Lemma Save_settles_orders_witness :
  merchant_orders (w_db world1) !! "ord_1" = Some
    (MkOrderRow "mer_1" (Some "ext-1") (Some "0xh") (Some 100) (Some "CKB") OPaid 20
       (Some 63000000000000000)).
Proof.
  rewrite (Save_settles_orders change 7 world0 world1 "ord_1" order);
    [by_eval|exact save7_ok|cbn; lia|by_eval].
Defined.

Lemma Load_after_Save_witness : Load world1 = (Ok 7, world1).
Proof.
  apply (Load_after_Save change 7 world0 world1 save7_ok); [cbn; lia|by_eval].
Defined.

(** A received payment on a hash whose row has a fee. *)
Definition received_event : Event :=
  MkEvent "evt_3" "payment.received" 5000 "0xh" "0xp|0x64|CKB|02ab".
Definition world_payment : world :=
  World (upd_payments {[ "0xp" := MkPaymentRow "sent" "failed" None None (Some 3) None
           (Some 1000) None ]} db) [] 1000 0 [].

Lemma Save_payment_projection_witness :
  ∃ r, payments (w_db (snd (snd (Save (MkProjector [received_event]) 8) world_payment)))
         !! "0xp" = Some r ∧ p_status r = "succeeded" ∧ p_fee r = Some 3.
Proof.
  destruct (Save_payment_projection (MkProjector [received_event]) 8 world_payment
    (snd (snd (Save (MkProjector [received_event]) 8) world_payment)) [] received_event
    (MkPaymentReceivedData "0xp" (100%N : @Amount fibertypes) "CKB" "02ab") [])
    as (r & Hr & _ & Hs & _ & _ & _ & _ & Hold).
  - by_eval.
  - by_eval.
  - constructor.
  - exists r. split; [exact Hr|]. split; [exact Hs|].
    edestruct Hold as [Hf _]; [vm_compute; reflexivity|exact Hf].
Defined.

Lemma Save_failure_drops_change_witness :
  ∃ w2, w_db w2 = upd_checkpoint (Some (7, 1000)) db.
Proof.
  destruct (Save_failure_drops_change change 7 world_fault
    (fst (save7 world_fault)) (snd (save7 world_fault))) as (w2 & _ & H).
  - apply surjective_pairing.
  - by_eval.
  - by_eval.
  - reflexivity.
  - exists w2. exact H.
Defined.
End IndexerWitness.
