(* ===== verification/Ingest.v ===== *)
(** * The indexer's wiring (internal/indexer/run.go, internal/platform/fiber)

    The seed file, the stand-in source and normalizer it feeds, and [Run], which hands
    them with a fresh projector to the library's runner.  The runner is not part of
    the repository: [Run] takes it as an argument, and [resumes] is the contract the
    checkpoint interface gives it, stated on what reaches the database. *)

From S2P Require Import Prelude Strconv GoTime External Schema Config Indexer.

(** ** platform/fiber *)

Record FakeSource := MkFakeSource { Changes : list RawChange }.

(** What the goroutine of [Subscribe] sees at its [k]-th turn: whether the context
    is already done, and whether [select] takes the send rather than [ctx.Done]. *)
Record turn := MkTurn { ctx_done : bool; select_send : bool }.

Fixpoint send_loop (obs : nat -> turn) (k : nat) (cs : list RawChange) : list RawChange :=
  match cs with
  | [] => []
  | c :: cs' =>
      if ctx_done (obs k) then []
      else if select_send (obs k) then c :: send_loop obs (S k) cs'
      else []
  end.

(** [Subscribe]: what is received from the channel before it is closed. *)
Definition Subscribe (s : FakeSource) (obs : nat -> turn) : list RawChange :=
  send_loop obs 0 (Changes s).

(** The library's decoding of a seed file: an array of [seedRecord]. *)
Record seedRecord := MkSeedRecord { sr_Seq : Z; sr_Event : Event }.
Class SeedFiles := {
  os_ReadFile : string -> result string;
  unmarshal_seed : string -> result (list seedRecord)
}.

Section ingest.
Context {FT : Fibertypes} {KE : KanakaEvents} {PG : Postgres} {CR : Crypto} {SF : SeedFiles}.

(** [StubNormalizer.Normalize] *)
Definition Normalize (raw : RawChange) : result (list Event) :=
  e ← wrap_err ("fiber: stub normalize seq " +:+ Itoa (rc_Seq raw) +:+ ": ")
        (unmarshal_Event (rc_Body raw));
  Ok [e].

(** ** run.go *)

(** The loop of [loadSeed]. *)
Fixpoint encode_records (recs : list seedRecord) : result (list RawChange) :=
  match recs with
  | [] => Ok []
  | r :: recs' =>
      body ← wrap_err "indexer: encode seed event: " (marshal_Event (sr_Event r));
      cs ← encode_records recs';
      Ok (MkRawChange (sr_Seq r) body :: cs)
  end.

Definition loadSeed (path : string) : result (list RawChange) :=
  if bool_decide (path = EmptyString) then Ok []
  else
    b ← wrap_err ("indexer: read seed " +:+ path +:+ ": ") (os_ReadFile path);
    recs ← wrap_err ("indexer: parse seed " +:+ path +:+ ": ") (unmarshal_seed b);
    encode_records recs.

(** The normalizer is the stub whenever there is a source. *)
Definition buildSource (getenv : env) (cfg : Config)
  : result (FakeSource * (RawChange -> result (list Event))) :=
  let s := IngestSource cfg in
  if bool_decide (s = "fake") then
    changes ← loadSeed (getenv "SEED_FILE");
    Ok (MkFakeSource changes, Normalize)
  else if bool_decide (s = "polling") || bool_decide (s = "pubsub") then
    Err (EText ("indexer: INGEST_SOURCE=" +:+ s +:+
      " needs the store_changes spike (concrete Source/Normalizer not yet in the library)"))
  else Err (EText ("indexer: unknown INGEST_SOURCE " +:+ go_quote s)).

(** [Run]: [runner] is [ingest.Runner.Run] with its fields and handler. *)
Definition Run (runner : FakeSource -> (RawChange -> result (list Event)) -> Projector -> M unit)
    (getenv : env) (cfg : Config) : M unit :=
  match buildSource getenv cfg with
  | Ok (src, norm) => runner src norm New
  | Err e => throw e
  | Panic p => lift (Panic p)
  end.

(** ** The changes that reach the projector *)

(** A normalized change, as the runner feeds it: [Handle] for each event, then
    [Save] with the sequence number. *)
Record change := MkChange { c_Seq : Z; c_Events : list Event }.

Definition feed (p : Projector) (c : change) : M unit :=
  snd (Save (foldl Handle p (c_Events c)) (c_Seq c)).

Definition normalize_change (raw : RawChange) : result change :=
  evs ← Normalize raw; Ok (MkChange (rc_Seq raw) evs).

(** The checkpoint row of [d] is the one the [j]-th change leaves ([0]: none). *)
Definition at_position (cs : list change) (j : nat) (d : Database) : Prop :=
  fst <$> ingest_checkpoint d = c_Seq <$> list.last (take j cs).

(** Any history of the indexer over the changes [cs]: processes start, feed changes
    with an empty buffer in worlds of their own, fail, crash and start again.  The
    only thing asked of the runner is that it never feeds a change beyond the one
    after the checkpoint; it may go back as far as it likes. *)
Inductive resumes (cs : list change) (d0 : Database) : Database -> Prop :=
| resumes_start : resumes cs d0 d0
| resumes_feed j i c p w r w' :
    resumes cs d0 (w_db w) ->
    at_position cs j (w_db w) -> (j <= length cs)%nat -> (i <= j)%nat ->
    cs !! i = Some c -> buf p = [] ->
    feed p c w = (r, w') ->
    resumes cs d0 (w_db w').

(** One pass over the changes, each flushed once, at its own time. *)
Definition one_pass (d0 : Database) (cs : list change) (ts : list Time) : Database :=
  foldl (fun d x => project (c_Seq x.1) x.2 (c_Events x.1) d) d0 (zip cs ts).
End ingest.
