(* ===== verification/IngestFacts.v ===== *)
(** * The indexer's histories refine one pass over the changes

    The invariant of [resumes]: after any history that has reached change [m] and
    whose checkpoint is at change [j], the tables written once are those of one pass
    over the first [m] changes, and every other row is where a replay from [j] on
    brings it to that pass again. *)

From S2P Require Import Prelude Strconv GoTime External Schema Numeric Tables Replay Ids Config Indexer IndexerFacts Ingest.

Section facts.
Context {FT : Fibertypes} {KE : KanakaEvents} {PG : Postgres} {CR : Crypto}.
Implicit Types (w : world).

(** ** Feeding and positions *)

Lemma buf_Handle p evs : buf (foldl Handle p evs) = buf p ++ evs.
Proof.
  revert p. induction evs as [|e evs IH]; intros p; cbn [foldl]; [by rewrite app_nil_r|].
  rewrite IH. cbn. by rewrite <- app_assoc.
Qed.

Lemma feed_cases p c w r w' :
  buf p = [] -> feed p c w = (r, w') ->
  w_db w' = w_db w ∨ w_db w' = project (c_Seq c) (w_now w) (c_Events c) (w_db w).
Proof. unfold feed. intros Hp H%Save_cases. by rewrite buf_Handle, Hp in H. Qed.

Lemma last_take_S {A} (l : list A) i x : l !! i = Some x -> list.last (take (S i) l) = Some x.
Proof. intros H. by rewrite (take_S_r _ _ _ H), last_snoc. Qed.

Lemma at_position_inj (cs : list change) d i j :
  NoDup (c_Seq <$> cs) -> (i <= length cs)%nat -> (j <= length cs)%nat ->
  at_position cs i d -> at_position cs j d -> i = j.
Proof.
  assert (forall n, (n <= length cs)%nat -> n = 0%nat ∨ ∃ m c, n = S m ∧ cs !! m = Some c) as Hn.
  { intros [|m] Hm; [by left|right].
    destruct (lookup_lt_is_Some_2 cs m) as [c Hc]; [lia|]. by exists m, c. }
  unfold at_position. intros Hnd Hi Hj Ei Ej. rewrite Ei in Ej.
  destruct (Hn i Hi) as [->|(i' & c & -> & Hc)], (Hn j Hj) as [->|(j' & c' & -> & Hc')];
    [done|rewrite ?(last_take_S _ _ _ Hc), ?(last_take_S _ _ _ Hc') in Ej; cbn in Ej..];
    [done|done|].
  f_equal. injection Ej as Ej. eapply (NoDup_lookup (c_Seq <$> cs)); [done|..];
    rewrite list_lookup_fmap; [by rewrite Hc|rewrite Hc'; cbn; by rewrite Ej].
Qed.

Lemma one_pass_snoc d0 cs ts c t :
  length ts = length cs ->
  one_pass d0 (cs ++ [c]) (ts ++ [t]) = project (c_Seq c) t (c_Events c) (one_pass d0 cs ts).
Proof. intros H. unfold one_pass. by rewrite zip_with_app, foldl_app. Qed.

(** ** What a flush writes to each table *)

Definition paid_in_change (c : change) : list InvoicePaidData := omap paid_of (c_Events c).
Definition received_in (c : change) : list (Event * PaymentReceivedData) :=
  omap received_of (c_Events c).
Definition opened_in (c : change) : list (Event * ChannelOpenedData) :=
  omap opened_of (c_Events c).

(** Everything of a database a flush leaves alone. *)
Definition rest (d : Database) :=
  (version d, webhook_endpoints d, webhook_delivery_log d, merchants d, refunds d,
   settlements d, reconciliation_runs d).

(** The tables whose rows are written once, or settled once. *)
Definition once (d : Database) :=
  (events d, webhook_deliveries d, merchant_orders d, rest d).

Lemma same_tables_intro d d' :
  once d = once d' -> payments d = payments d' -> channels d = channels d' ->
  invoices d = invoices d' -> fst <$> ingest_checkpoint d = fst <$> ingest_checkpoint d' ->
  same_tables d d'.
Proof.
  unfold once, rest, same_tables, upd_checkpoint.
  intros [= -> -> -> -> -> -> -> -> -> ->] -> -> -> ?. split; done.
Qed.

Lemma fanout_rest d d' evs : rest d = rest d' -> fanout d evs = fanout d' evs.
Proof. unfold rest. intros H. apply fanout_tables; congruence. Qed.

(** A change whose rows are all there. *)
Record written (d0 d : Database) (c : change) : Prop := {
  written_events e : e ∈ c_Events c -> is_Some (events d !! e_ID e);
  written_deliveries x : x ∈ fanout d0 (c_Events c) ->
    is_Some (webhook_deliveries d !! delivery_key x);
  written_orders k o : merchant_orders d !! k = Some o -> 3 <= version d ->
    settle_all (paid_in_change c) o = o
}.

Lemma written_project d0 d c seq t :
  rest d = rest d0 -> written d0 (project seq t (c_Events c) d) c.
Proof.
  intros Hr. split.
  - intros e He. apply (lookup_upserts_in e_ID). done.
  - intros x Hx. rewrite <- (fanout_rest d d0) in Hx by done.
    by apply (lookup_upserts_in delivery_key).
  - intros k o. cbn. destruct (Z.ltb_spec (version d) 3); [lia|].
    rewrite lookup_fmap_Some. intros (o' & <- & _) _. apply settle_all_idem.
Qed.

Lemma written_kept d0 d c c' seq t :
  written d0 d c -> written d0 (project seq t (c_Events c') d) c.
Proof.
  intros [He Hd Ho]. split.
  - intros e H. apply upserts_is_Some. auto.
  - intros x H. apply upserts_is_Some. auto.
  - intros k o. cbn. destruct (Z.ltb_spec (version d) 3); [lia|].
    rewrite lookup_fmap_Some. intros (o' & <- & H') Hv. specialize (Ho _ _ H' Hv).
    destruct (settle_all_cases (omap paid_of (c_Events c')) o') as [->|E]; [done|].
    apply settle_all_paid. by rewrite E.
Qed.

(** Flushing it again leaves the tables that are written once alone. *)
Lemma once_replay d0 d c seq t :
  rest d = rest d0 -> written d0 d c -> once (project seq t (c_Events c) d) = once d.
Proof.
  intros Hr [He Hd Ho]. unfold once, rest, project, project_events. cbn.
  rewrite (upserts_present e_ID), (fanout_rest d d0), (upserts_present delivery_key) by done.
  destruct (Z.ltb_spec (version d) 3) as [|Hv]; [done|]. do 2 f_equal.
  apply map_eq. intros k. rewrite lookup_fmap.
  destruct (merchant_orders d !! k) as [o|] eqn:E; [cbn|done]. f_equal. by eapply Ho.
Qed.

Lemma once_project d d' c seq t :
  once d = once d' -> once (project seq t (c_Events c) d) = once (project seq t (c_Events c) d').
Proof.
  intros H. assert (rest d = rest d') as Hr by (unfold once in H; congruence).
  pose proof (fanout_rest d d' (c_Events c) Hr) as Hf.
  unfold once, rest in H. injection H as He Hd Ho Hv Hep Hl Hm Hrf Hs Hrr.
  unfold once, rest, project, project_events. cbn.
  by rewrite Hf, He, Hd, Ho, Hv, Hep, Hl, Hm, Hrf, Hs, Hrr.
Qed.

(** ** The invariant *)

Section history.
Context (cs : list change) (d0 : Database).

Record history (ts : list Time) (m j : nat) (d : Database) : Prop := {
  hist_len : length ts = m ∧ (m <= length cs)%nat ∧ (j <= m)%nat;
  hist_once : once d = once (one_pass d0 (take m cs) ts);
  hist_rest : rest d = rest d0;
  hist_written i c : (i < m)%nat -> cs !! i = Some c -> written d0 d c;
  hist_payments : table_inv payment_key payment_keep payment_fill payment_mk
    (received_in <$> cs) m j (payments d0) (payments d);
  hist_channels : table_inv channel_key channel_keep (fun k _ => k) channel_mk
    (opened_in <$> cs) m j (channels d0) (channels d);
  hist_invoices : table_inv ip_PaymentHash invoice_keep invoice_fill invoice_mk
    (paid_in_change <$> cs) m j (invoices d0) (invoices d);
  hist_position : at_position cs j d
}.

Lemma history_start : ingest_checkpoint d0 = None -> history [] 0 0 d0.
Proof.
  intros H. split; try done.
  - split_and!; [done|lia..].
  - intros i c Hi. lia.
  - intros k. apply row_inv_start.
  - intros k. apply row_inv_start.
  - intros k. apply row_inv_start.
  - unfold at_position. by rewrite H, take_0.
Qed.

(** The parts of the invariant that a flush of change [i] moves in the same way,
    whether it is new or a replay. *)
Lemma history_tables ts m j i c t d :
  history ts m j d -> (i <= j)%nat -> cs !! i = Some c ->
  let d' := project (c_Seq c) t (c_Events c) d in
  rest d' = rest d0 ∧
  table_inv payment_key payment_keep payment_fill payment_mk
    (received_in <$> cs) (max m (S i)) (S i) (payments d0) (payments d') ∧
  table_inv channel_key channel_keep (fun k _ => k) channel_mk
    (opened_in <$> cs) (max m (S i)) (S i) (channels d0) (channels d') ∧
  table_inv ip_PaymentHash invoice_keep invoice_fill invoice_mk
    (paid_in_change <$> cs) (max m (S i)) (S i) (invoices d0) (invoices d') ∧
  at_position cs (S i) d'.
Proof.
  intros H Hi Hc d'. destruct (hist_len _ _ _ _ H) as (_ & _ & Hj).
  split_and!.
  - apply (hist_rest _ _ _ _ H).
  - apply (table_inv_step _ _ _ _ _ payment_fills _ m j); [done|done| |apply H].
    by rewrite list_lookup_fmap, Hc.
  - apply (table_inv_step _ _ _ _ _ channel_fills _ m j); [done|done| |apply H].
    by rewrite list_lookup_fmap, Hc.
  - apply (table_inv_step _ _ _ _ _ invoice_fills _ m j); [done|done| |apply H].
    by rewrite list_lookup_fmap, Hc.
  - unfold at_position. by rewrite (last_take_S _ _ _ Hc).
Qed.

Lemma history_replay ts m j i c t d :
  history ts m j d -> (i <= j)%nat -> (i < m)%nat -> cs !! i = Some c ->
  history ts m (S i) (project (c_Seq c) t (c_Events c) d).
Proof.
  intros H Hi Him Hc. pose proof (history_tables ts m j i c t d H Hi Hc) as HT.
  rewrite Nat.max_l in HT by lia. destruct HT as (Hr & Hp & Hch & Hin & Hpos).
  pose proof (hist_len _ _ _ _ H) as (Hl & Hm & Hj). split; try done.
  - rewrite (once_replay d0); [apply H|apply H|by eapply hist_written].
  - intros i' c' Hi' Hc'. apply written_kept. by eapply hist_written.
Qed.

Lemma history_new ts m c t d :
  history ts m m d -> cs !! m = Some c ->
  history (ts ++ [t]) (S m) (S m) (project (c_Seq c) t (c_Events c) d).
Proof.
  intros H Hc. pose proof (history_tables ts m m m c t d H (le_n m) Hc) as HT.
  rewrite Nat.max_r in HT by lia. destruct HT as (Hr & Hp & Hch & Hin & Hpos).
  pose proof (hist_len _ _ _ _ H) as (Hl & Hm & Hj). pose proof (lookup_lt_Some _ _ _ Hc).
  split; try done.
  - rewrite length_app. cbn. lia.
  - rewrite (take_S_r _ _ _ Hc), one_pass_snoc by (rewrite length_take; lia).
    apply once_project, H.
  - intros i' c' Hi' Hc'. destruct (decide (i' = m)) as [->|Hne].
    + rewrite Hc in Hc'. injection Hc' as <-. apply written_project, H.
    + apply written_kept. eapply hist_written; [done| |done]. lia.
Qed.

Lemma resumes_history d :
  NoDup (c_Seq <$> cs) -> ingest_checkpoint d0 = None -> resumes cs d0 d ->
  ∃ ts m j, history ts m j d.
Proof.
  intros Hnd H0. induction 1 as [|j i c p w r w' _ (ts & m & j' & IH) Hj Hjl Hi Hc Hp Hf].
  - exists [], 0%nat, 0%nat. by apply history_start.
  - pose proof (hist_len _ _ _ _ IH) as (_ & Hm & Hj').
    assert (j = j') as -> by (eapply at_position_inj; [done|done| |done|apply IH]; lia).
    destruct (feed_cases _ _ _ _ _ Hp Hf) as [-> | ->]; [eauto|].
    destruct (decide (i < m)%nat).
    + eexists _, _, _. by eapply history_replay.
    + assert (i = m) as -> by lia. assert (j' = m) as -> by lia.
      eexists _, _, _. by apply history_new.
Qed.
End history.

(** ** One pass, table by table *)

Lemma one_pass_tables d0 cs ts :
  length ts = length cs ->
  let d := one_pass d0 cs ts in
  payments d = upserts payment_key payment_upsert (payments d0) (concat (received_in <$> cs)) ∧
  channels d = upserts channel_key channel_upsert (channels d0) (concat (opened_in <$> cs)) ∧
  invoices d = upserts ip_PaymentHash invoice_upsert (invoices d0)
                 (concat (paid_in_change <$> cs)) ∧
  (cs ≠ [] -> fst <$> ingest_checkpoint d = c_Seq <$> list.last cs).
Proof.
  revert ts. induction cs as [|c cs IH] using rev_ind; intros ts Hl; [done|].
  destruct ts as [|t ts _] using rev_ind; rewrite ?length_app in Hl; cbn in Hl; [lia|].
  rewrite one_pass_snoc by lia. destruct (IH ts ltac:(lia)) as (Hp & Hc & Hi & _).
  rewrite !fmap_app, !concat_app. cbn. rewrite !app_nil_r, Hp, Hc, Hi, !upserts_app.
  split_and!; try done. intros _. by rewrite last_snoc.
Qed.

(** ** What a history leaves *)

Section left.
Context (cs : list change) (d0 : Database).
Hypothesis distinct : NoDup (c_Seq <$> cs).
Hypothesis fresh : ingest_checkpoint d0 = None.

(** After a history whose checkpoint is at change [j] some [m] changes have been
    flushed; the tables written once are those of a pass over them, and all tables are
    when the history has not gone back since. *)
Lemma resumes_tables d j :
  resumes cs d0 d -> at_position cs j d -> (j <= length cs)%nat ->
  ∃ m ts, (j <= m <= length cs)%nat ∧ length ts = m
    ∧ once d = once (one_pass d0 (take m cs) ts)
    ∧ (j = m -> same_tables d (one_pass d0 (take m cs) ts)).
Proof.
  intros Hr Hp Hj. destruct (resumes_history cs d0 d distinct fresh Hr) as (ts & m & j' & H).
  destruct (hist_len _ _ _ _ _ _ H) as (Hl & Hm & Hj').
  assert (j' = j) as -> by (eapply at_position_inj; [done| |done|apply H|done]; lia).
  pose proof (hist_once _ _ _ _ _ _ H) as Ho.
  exists m, ts. split_and!; [lia|lia|done|done|]. intros ->.
  assert (length (take m cs) = m) as Hlen by (rewrite length_take; lia).
  destruct (one_pass_tables d0 (take m cs) ts ltac:(lia)) as (Hpay & Hch & Hin & Hk).
  apply same_tables_intro; [done|rewrite Hpay|rewrite Hch|rewrite Hin|].
  - apply (table_inv_end _ _ _ _ _ payment_fills). rewrite length_fmap, Hlen, fmap_take.
    apply table_inv_take, H.
  - apply (table_inv_end _ _ _ _ _ channel_fills). rewrite length_fmap, Hlen, fmap_take.
    apply table_inv_take, H.
  - apply (table_inv_end _ _ _ _ _ invoice_fills). rewrite length_fmap, Hlen, fmap_take.
    apply table_inv_take, H.
  - unfold at_position in Hp. rewrite Hp. destruct (take m cs) as [|c cs'].
    + cbn in Hlen. subst m. destruct ts; [|done]. cbn. by rewrite fresh.
    + by rewrite Hk.
Qed.

Lemma resumes_end d :
  resumes cs d0 d -> at_position cs (length cs) d ->
  ∃ ts, length ts = length cs ∧ same_tables d (one_pass d0 cs ts).
Proof.
  intros Hr Hp. destruct (resumes_tables d (length cs) Hr Hp) as (m & ts & Hm & Hl & _ & H); [lia|].
  assert (m = length cs) as -> by lia. exists ts. rewrite take_ge in H by lia. by auto.
Qed.
End left.
End facts.
