(* ===== verification/IngestProps.v ===== *)
(** * What the ingest pipeline guarantees

    Exactly-once projection under crashes, faults and replays; progress to the end of
    the feed; and what the seed source delivers. *)

From S2P Require Import Prelude Strconv GoTime External Schema Numeric Tables Replay Ids Config Indexer IndexerFacts IndexerTotal IndexerProps Ingest IngestFacts.

Section props.
Context {FT : Fibertypes} {KE : KanakaEvents} {PG : Postgres} {PGL : PostgresLaws} {CR : Crypto}
  {SF : SeedFiles}.
Implicit Types (w : world).

(** ** The checkpointed feed *)

(** C6.  Exactly-once projection: over changes with distinct sequence numbers, from a
    database no change has reached, whatever the history of the indexer, with processes
    failing and crashing anywhere, commits whose acknowledgement is lost, and feeds that
    go back any distance before the checkpoint: when the checkpoint is at change [j], there
    is an [m], no less than [j], such that the tables whose rows are written once (events,
    deliveries, orders, and the ones the indexer does not write) are exactly those of
    one pass that flushed each of the first [m] changes once, in order; when the history
    has not gone back since ([j] is [m]) so are all the tables; and at the last change
    that is one pass over all of them. *)
Theorem resume_exactly_once cs d0 d j :
  NoDup (c_Seq <$> cs) -> ingest_checkpoint d0 = None ->
  resumes cs d0 d -> at_position cs j d -> (j <= length cs)%nat ->
  ∃ m ts, (j <= m <= length cs)%nat ∧ length ts = m
    ∧ once d = once (one_pass d0 (take m cs) ts)
    ∧ (j = m -> same_tables d (one_pass d0 (take m cs) ts))
    ∧ (j = length cs -> same_tables d (one_pass d0 cs ts)).
Proof.
  intros Hnd H0 Hr Hp Hj.
  destruct (resumes_tables cs d0 Hnd H0 d j Hr Hp Hj) as (m & ts & Hm & Hl & Ho & Hs).
  exists m, ts. split_and!; [lia|lia|done|done|done|]. intros ->.
  assert (m = length cs) as -> by lia. rewrite take_ge in Hs by lia. by auto.
Qed.

Lemma feed_runs c w :
  healthy w -> forallb event_ok (c_Events c) = true ->
  ∃ w', feed New c w = (Ok tt, w') ∧ healthy w'
    ∧ w_db w' = project (c_Seq c) (w_now w) (c_Events c) (w_db w).
Proof.
  intros Hw Hok. unfold feed.
  destruct (Save_runs (foldl Handle New (c_Events c)) (c_Seq c) w Hw) as (w' & H & Hf);
    [by rewrite buf_Handle|].
  exists w'. pose proof (Save_Ok_project _ _ _ _ H) as [Hdb _].
  rewrite buf_Handle in Hdb. cbn in Hdb.
  split_and!; [done| |done]. split; [done|]. rewrite Hdb. apply Hw.
Qed.

Lemma feed_to_end cs d0 j w :
  resumes cs d0 (w_db w) -> at_position cs j (w_db w) -> (j <= length cs)%nat ->
  healthy w -> forallb (fun c => forallb event_ok (c_Events c)) cs = true ->
  ∃ w', for_each (feed New) (drop j cs) w = (Ok tt, w')
    ∧ at_position cs (length cs) (w_db w') ∧ resumes cs d0 (w_db w').
Proof.
  remember (length cs - j)%nat as n eqn:En. revert j w En.
  induction n as [|n IH]; intros j w En Hr Hp Hj Hw Hok.
  - assert (j = length cs) as -> by lia. rewrite drop_ge by lia. by exists w.
  - destruct (lookup_lt_is_Some_2 cs j) as [c Hc]; [lia|].
    rewrite forallb_forall in Hok.
    destruct (feed_runs c w Hw) as (w1 & H1 & Hw1 & Hdb).
    { apply Hok, list_elem_of_In. by eapply list_elem_of_lookup_2. }
    destruct (IH (S j) w1) as (w' & H' & Hend); [lia| | |lia|done| |].
    + by eapply (resumes_feed cs d0 j j c New w (Ok tt) w1).
    + unfold at_position. by rewrite Hdb, (last_take_S _ _ _ Hc).
    + by apply forallb_forall.
    + exists w'. split; [|done]. rewrite (drop_S _ _ _ Hc). cbn [for_each].
      by rewrite (bind_intro _ _ w tt w1).
Qed.

(** C39.  The feed completes: from any point a history of the indexer over changes with
    distinct sequence numbers can reach from a database no change has reached, in a
    healthy world and with well-formed events, feeding the changes after the checkpoint
    succeeds, one [Save] each, and ends with the checkpoint at the last change and the
    tables exactly those of one pass that flushed every change once, in order. *)
Theorem resume_completes cs d0 j w :
  NoDup (c_Seq <$> cs) -> ingest_checkpoint d0 = None ->
  resumes cs d0 (w_db w) -> at_position cs j (w_db w) -> (j <= length cs)%nat ->
  healthy w -> forallb (fun c => forallb event_ok (c_Events c)) cs = true ->
  ∃ w', for_each (feed New) (drop j cs) w = (Ok tt, w')
    ∧ at_position cs (length cs) (w_db w') ∧ resumes cs d0 (w_db w')
    ∧ ∃ ts, length ts = length cs ∧ same_tables (w_db w') (one_pass d0 cs ts).
Proof.
  intros Hnd H0 Hr Hp Hj Hw Hok.
  destruct (feed_to_end cs d0 j w Hr Hp Hj Hw Hok) as (w' & H & Hend & Hr').
  exists w'. split_and!; [done|done|done|]. by apply resumes_end.
Qed.

(** ** The seed source *)

Lemma send_loop_prefix obs k cs : send_loop obs k cs `prefix_of` cs.
Proof.
  revert k. induction cs as [|c cs IH]; intros k; cbn; [done|].
  case_match; [apply prefix_nil|]. case_match; [apply prefix_cons, IH|apply prefix_nil].
Qed.

Lemma send_loop_all obs k cs :
  (forall i, obs i = MkTurn false true) -> send_loop obs k cs = cs.
Proof.
  intros Ho. revert k. induction cs as [|c cs IH]; intros k; cbn; [done|].
  rewrite Ho. cbn. by rewrite IH.
Qed.

Lemma encode_records_normalize (canon : Event -> Event) recs raws :
  (forall r b, r ∈ recs -> marshal_Event (sr_Event r) = Ok b ->
     unmarshal_Event b = Ok (canon (sr_Event r))) ->
  encode_records recs = Ok raws ->
  normalize_change <$> raws =
    (fun r => Ok (MkChange (sr_Seq r) [canon (sr_Event r)])) <$> recs.
Proof.
  revert raws. induction recs as [|r recs IH]; intros raws Hcodec; cbn;
    [by intros [= <-]|].
  destruct (marshal_Event (sr_Event r)) as [b|?|?] eqn:Eb; [|done..]. cbn.
  destruct (encode_records recs) as [raws'|?|?]; [|done..]. cbn. intros [= <-].
  cbn. rewrite (IH raws'); [|by intros r' b' Hr'; apply Hcodec; right|done].
  f_equal. unfold normalize_change, Normalize. cbn. by rewrite (Hcodec r b) by (left || done).
Qed.

Lemma buildSource_fake getenv cfg raws :
  IngestSource cfg = "fake" -> loadSeed (getenv "SEED_FILE") = Ok raws ->
  buildSource getenv cfg = Ok (MkFakeSource raws, Normalize).
Proof. unfold buildSource. intros -> H. by rewrite bool_decide_true, H by done. Qed.

(** The seed source: when a seed file loads, the source delivers its records in
    order, all of them unless the context is done first, in which case a prefix, and
    the normalizer turns each delivered change into the one event of its record, up to
    the normal form [canon] that the library's own encoding gives an event. *)
Theorem seed_source_delivers (canon : Event -> Event) path content recs src norm getenv cfg obs :
  (forall r b, r ∈ recs -> marshal_Event (sr_Event r) = Ok b ->
     unmarshal_Event b = Ok (canon (sr_Event r))) ->
  IngestSource cfg = "fake" -> getenv "SEED_FILE" = path -> path ≠ EmptyString ->
  os_ReadFile path = Ok content -> unmarshal_seed content = Ok recs ->
  buildSource getenv cfg = Ok (src, norm) ->
  let delivered := normalize_change <$> Subscribe src obs in
  let expected := (fun r => Ok (MkChange (sr_Seq r) [canon (sr_Event r)])) <$> recs in
  delivered `prefix_of` expected ∧
  ((forall i, obs i = MkTurn false true) -> delivered = expected) ∧
  (ctx_done (obs 0%nat) = true -> delivered = []).
Proof.
  intros Hcodec Hs Hp Hne Hf Hr. unfold buildSource. rewrite Hs, Hp, bool_decide_true by done.
  unfold loadSeed. rewrite (bool_decide_false (path = _)), Hf by done. cbn. rewrite Hr. cbn.
  destruct (encode_records recs) as [raws|?|?] eqn:Er; cbn; [|done..]. intros [= <- <-].
  pose proof (encode_records_normalize canon recs raws Hcodec Er) as <-. unfold Subscribe. cbn.
  split_and!.
  - destruct (send_loop_prefix obs 0 raws) as [rest E].
    exists (normalize_change <$> rest). by rewrite <- fmap_app, <- E.
  - intros Ho. by rewrite send_loop_all.
  - intros Hd. destruct raws; [done|]. cbn. by rewrite Hd.
Qed.

(** No other source exists yet, and without a seed file the stub source is empty. *)
Theorem buildSource_errors getenv cfg :
  (IngestSource cfg ≠ "fake" -> ∃ msg, buildSource getenv cfg = Err (EText msg)) ∧
  (IngestSource cfg = "fake" -> getenv "SEED_FILE" = EmptyString ->
     buildSource getenv cfg = Ok (MkFakeSource [], Normalize)).
Proof.
  split.
  - intros H. unfold buildSource. rewrite bool_decide_false by done. case_match; by eexists.
  - intros Hs E. apply buildSource_fake; [done|]. by rewrite E.
Qed.
End props.

(** ** Witnesses *)

Module IngestWitness.
Import Sample IndexerSample.

Definition settled_event : Event :=
  MkEvent "evt_1" "invoice.paid" 6000 "0xh" "0xh|0x64|CKB|63000000000000000".
Definition received_event : Event :=
  MkEvent "evt_3" "payment.received" 5000 "0xh" "0xp|0x64|CKB|02ab".
Definition c1 : Ingest.change := MkChange 7 [settled_event].
Definition c2 : Ingest.change := MkChange 8 [received_event].

(** The first flush of [c1] fails at its first statement; the second commits and
    loses the acknowledgement; the third replays [c1]; then [c2] is flushed. *)
Definition at_db (d : Database) (t : Time) (fs : list fault) : world := World d fs t 0 [].
Definition next (c : Ingest.change) (d : Database) (t : Time) (fs : list fault) : Database :=
  w_db (snd (feed New c (at_db d t fs))).

Lemma resumes_next cs d0 j i c d t fs :
  resumes cs d0 d -> at_position cs j d -> (j <= length cs)%nat -> (i <= j)%nat ->
  cs !! i = Some c -> resumes cs d0 (next c d t fs).
Proof.
  intros Hr Hp Hj Hi Hc.
  by apply (resumes_feed cs d0 j i c New (at_db d t fs) _ _ Hr Hp Hj Hi Hc eq_refl
    (surjective_pairing _)).
Qed.

Definition lost_commit : list fault := replicate 9 NoFault ++ [AckLost (EText "gone")].
Definition d_a : Database := next c1 db 1000 [NoFault; Fail (EText "timeout")].
Definition d_b : Database := next c1 d_a 2000 lost_commit.
Definition d_c : Database := next c1 d_b 3000 [].
Definition d_d : Database := next c2 d_c 4000 [].

Lemma acknowledgement_lost : is_ok (fst (feed New c1 (at_db d_a 2000 lost_commit))) = false.
Proof. by_eval. Qed.

Lemma position_a : fst <$> ingest_checkpoint d_a = None.
Proof. by_eval. Qed.
Lemma position_b : fst <$> ingest_checkpoint d_b = Some 7.
Proof. by_eval. Qed.
Lemma position_c : fst <$> ingest_checkpoint d_c = Some 7.
Proof. by_eval. Qed.
Lemma position_d : fst <$> ingest_checkpoint d_d = Some 8.
Proof. by_eval. Qed.

Lemma history_a : resumes [c1; c2] db d_a.
Proof. apply (resumes_next _ _ 0 0); [apply resumes_start|done|cbn; lia|lia|done]. Qed.
Lemma history_b : resumes [c1; c2] db d_b.
Proof. apply (resumes_next _ _ 0 0); [exact history_a|exact position_a|cbn; lia|lia|done]. Qed.
Lemma history_c : resumes [c1; c2] db d_c.
Proof. apply (resumes_next _ _ 1 0); [exact history_b|exact position_b|cbn; lia|lia|done]. Qed.
Lemma history_d : resumes [c1; c2] db d_d.
Proof. apply (resumes_next _ _ 1 1); [exact history_c|exact position_c|cbn; lia|lia|done]. Qed.

Lemma distinct_seqs : NoDup (c_Seq <$> [c1; c2]).
Proof. apply (bool_decide_eq_true_1 (NoDup [7; 8])). by_eval. Qed.

Lemma resume_exactly_once_witness :
  ∃ ts, same_tables d_d (one_pass db [c1; c2] ts).
Proof.
  destruct (resume_exactly_once [c1; c2] db d_d 2) as (m & ts & _ & _ & _ & _ & H);
    [exact distinct_seqs|reflexivity|exact history_d|exact position_d|cbn; lia|].
  exists ts. exact (H eq_refl).
Defined.

Lemma resume_completes_witness :
  ∃ w' ts, for_each (feed New) [c2] (at_db d_c 4000 []) = (Ok tt, w')
    ∧ same_tables (w_db w') (one_pass db [c1; c2] ts).
Proof.
  destruct (resume_completes [c1; c2] db 1 (at_db d_c 4000 [])) as (w' & H & _ & _ & ts & _ & Ht).
  - exact distinct_seqs.
  - reflexivity.
  - exact history_c.
  - exact position_c.
  - cbn. lia.
  - split; [reflexivity|]. by_eval.
  - by_eval.
  - exists w', ts. exact (conj H Ht).
Defined.

(** A seed file of two records, in the sample codec. *)
#[local] Instance seed_files : SeedFiles := {|
  os_ReadFile _ := Ok "seed";
  unmarshal_seed _ := Ok [MkSeedRecord 7 settled_event; MkSeedRecord 8 received_event]
|}.
Definition getenv (k : string) : string := "changes.json".
Definition cfg : Config := MkConfig EmptyString EmptyString "fake" "db" 8 4 ":8080".
Definition raw (seq : Z) (e : Event) : RawChange :=
  MkRawChange seq (match marshal_Event e with Ok b => b | _ => EmptyString end).

Lemma seed_source_delivers_witness :
  normalize_change <$> Subscribe
(MkFakeSource [raw 7 settled_event; raw 8 received_event])
      (fun _ => MkTurn false true)
    = [Ok c1; Ok c2].
Proof.
  destruct (seed_source_delivers id "changes.json" "seed"
    [MkSeedRecord 7 settled_event; MkSeedRecord 8 received_event]
    (MkFakeSource [raw 7 settled_event; raw 8 received_event])
    Normalize getenv cfg (fun _ => MkTurn false true)) as (_ & H & _).
  - intros r b Hr. apply elem_of_cons in Hr as [->|Hr]; [intros [= <-]; by_eval|].
    apply list_elem_of_singleton in Hr as ->. intros [= <-]. by_eval.
  - reflexivity.
  - reflexivity.
  - discriminate.
  - reflexivity.
  - reflexivity.
  - apply buildSource_fake; [reflexivity|by_eval].
  - etransitivity; [exact (H (fun _ => eq_refl))|]. by_eval.
Defined.
End IngestWitness.
