(* ===== verification/Webhook.v ===== *)
(** * The webhook outbox (internal/webhook)

    [Store] moves deliveries through pending, delivering, succeeded, failed and
    dead; the five endpoint handlers manage subscriptions; [expJitter] is the retry
    schedule.  The dispatcher that calls [Store] is kanaka's. *)

From S2P Require Import Prelude Strconv GoTime External Schema Ids Indexer Http.

(** ** Backoff *)

(** The doubling loop of [expJitter]: [n] iterations left, 64-bit durations. *)
Fixpoint backoff_loop (n : nat) (max d : Z) : Z :=
  match n with
  | O => d
  | S n' =>
      let d' := wrap64 (d * 2) in
      if max <=? d' then max else backoff_loop n' max d'
  end.

(** [rand n] stands for the call [rand.Int64N(n)]. *)
Definition expJitter (base max : Z) (rand : Z -> Z) (attempt : Z) : Z :=
  let d := backoff_loop (Z.to_nat (attempt - 1)) max base in
  let half := Z.quot d 2 in
  if half <=? 0 then d else wrap64 (half + rand (wrap64 (half + 1))).

(** ** The delivery store *)

Definition defaultLeaseTTL : Z := 5 * Minute.

Record Store := MkStore { leaseTTL : Z }.
Definition NewStore : Store := MkStore defaultLeaseTTL.

(** The interval text carries whole seconds. *)
Definition lease_interval (s : Store) : Z := Z.quot (leaseTTL s) Second * Second.

Record Delivery := MkDelivery {
  D_ID : string; D_EndpointID : string; D_EventID : string; D_URL : string;
  D_Secret : string; D_Payload : string; D_Attempts : Z; D_NextAttemptAt : Time;
  D_EventType : option string
}.

Definition set_status (st : DeliveryStatus) (r : DeliveryRow) : DeliveryRow :=
  MkDeliveryRow (d_endpoint_id r) (d_event_id r) (d_url r) (d_secret r) (d_payload r)
    st (d_attempts r) (d_next_attempt_at r) (d_last_error r) (d_created_at r).
Definition set_schedule (next : Time) (r : DeliveryRow) : DeliveryRow :=
  MkDeliveryRow (d_endpoint_id r) (d_event_id r) (d_url r) (d_secret r) (d_payload r)
    (d_status r) (d_attempts r) next (d_last_error r) (d_created_at r).
Definition set_attempts (n : Z) (r : DeliveryRow) : DeliveryRow :=
  MkDeliveryRow (d_endpoint_id r) (d_event_id r) (d_url r) (d_secret r) (d_payload r)
    (d_status r) n (d_next_attempt_at r) (d_last_error r) (d_created_at r).
Definition set_error (e : option string) (r : DeliveryRow) : DeliveryRow :=
  MkDeliveryRow (d_endpoint_id r) (d_event_id r) (d_url r) (d_secret r) (d_payload r)
    (d_status r) (d_attempts r) (d_next_attempt_at r) e (d_created_at r).

(** WHERE status IN ('pending', 'failed') AND next_attempt_at <= now(). *)
Definition due (now : Time) (r : DeliveryRow) : bool :=
  bool_decide (d_status r ∈ [DPending; DFailed]) && (d_next_attempt_at r <=? now).

Definition schedule_le (x y : string * DeliveryRow) : Prop :=
  d_next_attempt_at (snd x) <= d_next_attempt_at (snd y).
#[global] Instance schedule_le_dec x y : Decision (schedule_le x y).
Proof. unfold schedule_le. apply _. Defined.

(** ORDER BY created_at DESC. *)
Definition newest_first (x y : string * EndpointRow) : Prop :=
  ep_created_at (snd y) <= ep_created_at (snd x).
#[global] Instance newest_first_dec x y : Decision (newest_first x y).
Proof. unfold newest_first. apply _. Defined.

Section webhook.
Context {FT : Fibertypes} {PG : Postgres} {CR : Crypto}.

(** The subquery of [ClaimDue]: due rows that no other transaction holds, oldest
    schedule first, at most [limit]. *)
Definition claim_set (locked : string -> bool) (limit : Z) (now : Time) (d : Database)
  : list (string * DeliveryRow) :=
  take (Z.to_nat limit)
    (merge_sort schedule_le
      (filter (fun x => due now (snd x) = true ∧ locked (fst x) = false)
         (scan_table (webhook_deliveries d)))).

Definition claim_row (s : Store) (now : Time) (r : DeliveryRow) : DeliveryRow :=
  set_schedule (now + lease_interval s) (set_status DDelivering r).

Definition claimed_delivery (s : Store) (now : Time) (d : Database) (x : string * DeliveryRow)
  : Delivery :=
  let r := snd x in
  MkDelivery (fst x) (d_endpoint_id r) (d_event_id r) (d_url r) (d_secret r) (d_payload r)
    (d_attempts r) (now + lease_interval s)
    (ev_type <$> events d !! d_event_id r).

Definition claim_all (s : Store) (now : Time) (xs : list (string * DeliveryRow))
    (t : gmap string DeliveryRow) : gmap string DeliveryRow :=
  foldl (fun t x => <[fst x := claim_row s now (snd x)]> t) t xs.

Definition claim_stmt (s : Store) (locked : string -> bool) (limit : Z) (now : Time)
    (d : Database) : result (list Delivery * Database) :=
  if limit <? 0 then Err (EText "LIMIT must not be negative")
  else
    let xs := claim_set locked limit now d in
    Ok (claimed_delivery s now d <$> xs,
        upd_deliveries (claim_all s now xs (webhook_deliveries d)) d).

(** A NULL event type cannot be scanned into a string. *)
Definition scan_delivery (x : Delivery) : M unit :=
  match D_EventType x with
  | Some _ => mret tt
  | None => throw (EWrap "webhook: scan delivery: " (EText "cannot scan NULL into *string") EmptyString)
  end.

(** [locked] are the rows other transactions hold locked at that moment. *)
Definition ClaimDue (s : Store) (locked : string -> bool) (limit : Z) : M (list Delivery) :=
  out ← wrapping "webhook: claim due: " (exec 2 (claim_stmt s locked limit));
  _ ← for_each scan_delivery out;
  mret out.

Definition log_row (did : string) (attempt : Z) (err : option string) (now : Time) : LogRow :=
  MkLogRow did attempt None None err now.

(** UPDATE ... WHERE id = $1 RETURNING an attempt number, and one log row per row
    updated. *)
Definition mark_stmt (did : string) (f : DeliveryRow -> result (DeliveryRow * Z))
    (err : option string) (now : Time) (d : Database) : result (unit * Database) :=
  match webhook_deliveries d !! did with
  | None => Ok (tt, d)
  | Some r =>
      '(r', n) ← f r;
      Ok (tt, upd_log (webhook_delivery_log d ++ [log_row did n err now])
                (upd_deliveries (<[did := r']> (webhook_deliveries d)) d))
  end.

Definition MarkSucceeded (did : string) : M unit :=
  wrapping "webhook: mark succeeded: " (exec 2 (mark_stmt did
    (fun r => n ← int4 (d_attempts r + 1); Ok (set_status DSucceeded r, n)) None)).

Definition MarkFailed (did : string) (nextAttempt : Time) (errMsg : string) : M unit :=
  wrapping "webhook: mark failed: " (exec 2 (mark_stmt did
    (fun r => n ← int4 (d_attempts r + 1);
       Ok (set_error (Some errMsg) (set_schedule (timestamptz nextAttempt)
             (set_status DFailed (set_attempts n r))), n)) (Some errMsg))).

Definition MarkDead (did : string) : M unit :=
  wrapping "webhook: mark dead: " (exec 2 (mark_stmt did
    (fun r => n ← int4 (d_attempts r + 1); Ok (set_status DDead (set_attempts n r), n))
    (Some "max attempts exceeded"))).

(** WHERE status = 'delivering' AND next_attempt_at <= now(). *)
Definition stuck (now : Time) (r : DeliveryRow) : bool :=
  bool_decide (d_status r = DDelivering) && (d_next_attempt_at r <=? now).

Definition requeue_row (now : Time) (r : DeliveryRow) : DeliveryRow :=
  if stuck now r then set_schedule now (set_status DPending r) else r.

Definition Requeue : M Z :=
  wrapping "webhook: requeue stuck: " (exec 2 (fun now d =>
    Ok (Z.of_nat (size (filter (fun x => stuck now (snd x) = true) (webhook_deliveries d))),
        upd_deliveries (requeue_row now <$> webhook_deliveries d) d))).

(** ** Subscriptions *)

Record createReq := MkCreateReq { cr_URL : string; cr_EventTypes : list string }.

Definition endpoint_id (url : string) : string := DeriveWithPrefix "whk_" "endpoint" [url].

(** The secret is omitted when empty, as it is in a listing. *)
Definition endpointResp (eid url secret : string) (types : list string) (active : bool) : json :=
  JObj ([("id", JStr eid); ("url", JStr url)] ++ omitempty "secret" secret
        ++ [("event_types", JArr (JStr <$> types)); ("active", JBool active)]).

(** INSERT ... ON CONFLICT (id) DO UPDATE SET url, event_types, active. *)
Definition endpoint_upsert (eid url secret : string) (types : list string) (now : Time)
    (d : Database) : result (unit * Database) :=
  let row := match webhook_endpoints d !! eid with
    | None => MkEndpointRow None url secret types true now
    | Some r => MkEndpointRow (ep_merchant_id r) url (ep_secret r) types true (ep_created_at r)
    end in
  Ok (tt, upd_endpoints (<[eid := row]> (webhook_endpoints d)) d).

Definition create (r : request createReq) : M response :=
  match decoded r with
  | Panic p => lift (Panic p)
  | Err e => mret (Error StatusBadRequest ("invalid body: " +:+ error_text e))
  | Ok req =>
      if bool_decide (cr_URL req = EmptyString) || bool_decide (cr_EventTypes req = []) then
        mret (Error StatusBadRequest "url and event_types are required")
      else
        let eid := endpoint_id (cr_URL req) in
        secret ← NewWebhookSecret;
        or_error StatusInternalServerError
          (exec 2 (endpoint_upsert eid (cr_URL req) secret (cr_EventTypes req)))
          (fun _ => mret (JSON StatusCreated
             (endpointResp eid (cr_URL req) secret (cr_EventTypes req) true)))
  end.

(** [list]. It does not look at [rows.Err()], so a connection that breaks while the rows
    arrive leaves the ones read before it; a scan of these four columns does not fail. *)
Definition list_endpoints (d : Database) : list json :=
  (fun x => endpointResp (fst x) (ep_url (snd x)) EmptyString
              (ep_event_types (snd x)) (ep_active (snd x)))
    <$> merge_sort newest_first (scan_table (webhook_endpoints d)).

Definition rows_before (k : nat) (out : list json) : list json :=
  match pg_rows_read k with Some n => take n out | None => out end.

Definition list_handler : M response :=
  or_error StatusInternalServerError (select 2 (fun d => Ok (list_endpoints d)))
    (fun out =>
       k ← draw;
       mret (JSON StatusOK (JObj [("items", JArr (rows_before k out))]))).

Definition deactivate (r : EndpointRow) : EndpointRow :=
  MkEndpointRow (ep_merchant_id r) (ep_url r) (ep_secret r) (ep_event_types r) false
    (ep_created_at r).

(** [remove]: a soft delete. *)
Definition remove {B} (r : request B) : M response :=
  let eid := URLParam r "id" in
  or_error StatusInternalServerError
    (exec 2 (fun _ d =>
       match webhook_endpoints d !! eid with
       | None => Ok (0, d)
       | Some row => Ok (1, upd_endpoints (<[eid := deactivate row]> (webhook_endpoints d)) d)
       end))
    (fun affected =>
       if affected =? 0 then mret (Error StatusNotFound "endpoint not found")
       else mret (MkResponse StatusNoContent NoBody)).

(** The synthetic event and delivery of [test]. *)
Definition ping (eid : string) : string :=
  json_Marshal (JObj [("endpoint_id", JStr eid); ("type", JStr "webhook.test")]).

Definition insert_test_event (evtID eid data : string) (now : Time) (d : Database)
  : result (unit * Database) :=
  match pg_jsonb_in data with
  | None => Err err_json
  | Some j =>
      match events d !! evtID with
      | Some _ => Err err_unique
      | None =>
          Ok (tt, upd_events (<[evtID :=
                MkEventRow "webhook.test" (Some eid) None None j now now 0]> (events d)) d)
      end
  end.

Definition insert_test_delivery (dlvID eid evtID url secret data : string) (now : Time)
    (d : Database) : result (unit * Database) :=
  match pg_jsonb_in data with
  | None => Err err_json
  | Some j =>
      match webhook_deliveries d !! dlvID with
      | Some _ => Err err_unique
      | None =>
          match webhook_endpoints d !! eid, events d !! evtID with
          | Some _, Some _ =>
              Ok (tt, upd_deliveries (<[dlvID :=
                    MkDeliveryRow eid evtID url secret j DPending 0 now None now]>
                    (webhook_deliveries d)) d)
          | _, _ => Err err_foreign_key
          end
      end
  end.

Definition select_active (eid : string) (d : Database) : result (string * string) :=
  match webhook_endpoints d !! eid with
  | Some r => if ep_active r then Ok (ep_url r, ep_secret r) else Err (ESent PgxErrNoRows)
  | None => Err (ESent PgxErrNoRows)
  end.

Definition queued (dlvID st : string) : json :=
  JObj [("delivery_id", JStr dlvID); ("status", JStr st)].

Definition test {B} (r : request B) : M response :=
  let eid := URLParam r "id" in
  found ← attempt (select 2 (select_active eid));
  match found with
  | inl e =>
      if errors_Is e PgxErrNoRows then mret (Error StatusNotFound "endpoint not found")
      else mret (Error StatusInternalServerError (error_text e))
  | inr (url, secret) =>
      evtID ← id_New;
      or_error StatusInternalServerError (exec 1 (insert_test_event evtID eid (ping eid)))
        (fun _ =>
           dlvID ← id_New;
           or_error StatusInternalServerError
             (exec 2 (insert_test_delivery dlvID eid evtID url secret (ping eid)))
             (fun _ => mret (JSON StatusAccepted (queued dlvID "queued"))))
  end.

Definition rearm (now : Time) (r : DeliveryRow) : DeliveryRow :=
  set_error None (set_schedule now (set_attempts 0 (set_status DPending r))).

Definition replay_stmt (dlvID eid : string) (now : Time) (d : Database)
  : result (Z * Database) :=
  match webhook_deliveries d !! dlvID with
  | Some r =>
      if bool_decide (d_endpoint_id r = eid) then
        Ok (1, upd_deliveries (<[dlvID := rearm now r]> (webhook_deliveries d)) d)
      else Ok (0, d)
  | None => Ok (0, d)
  end.

Definition replay {B} (r : request B) : M response :=
  let dlvID := URLParam r "delivery_id" in
  or_error StatusInternalServerError (exec 2 (replay_stmt dlvID (URLParam r "id")))
    (fun affected =>
       if affected =? 0 then mret (Error StatusNotFound "delivery not found for endpoint")
       else mret (JSON StatusAccepted (queued dlvID "requeued"))).
End webhook.
