(* ===== verification/WebhookFacts.v ===== *)
(** * Lemmas on the webhook outbox

    The claim as a map update, the delivery state machine as a relation, and one
    framing lemma per operation: every operation moves every delivery along the
    state machine, and none but its own mark, replay or an expired lease moves a
    claimed one. *)

From stdpp Require Import relations.
From S2P Require Import Prelude Strconv GoTime External Schema Tables Ids Sql Indexer IndexerFacts Http Frame Webhook.

(** ** Claiming *)

Section claim.
Context {FT : Fibertypes} {PG : Postgres} {PGL : PostgresLaws} {CR : Crypto}.

Definition due_unlocked (locked : string -> bool) (now : Time) (d : Database)
    (x : string * DeliveryRow) : Prop :=
  webhook_deliveries d !! fst x = Some (snd x)
  ∧ due now (snd x) = true ∧ locked (fst x) = false.

Definition candidates (locked : string -> bool) (now : Time) (d : Database) :=
  merge_sort schedule_le
    (filter (fun x => due now (snd x) = true ∧ locked (fst x) = false)
       (scan_table (webhook_deliveries d))).

Lemma elem_of_candidates locked now d x :
  x ∈ candidates locked now d <-> due_unlocked locked now d x.
Proof.
  unfold candidates, due_unlocked. rewrite merge_sort_Permutation, list_elem_of_filter.
  rewrite scan_table_perm. destruct x as [k r]. rewrite elem_of_map_to_list. cbn. tauto.
Qed.

Lemma candidates_NoDup locked now d : NoDup ((candidates locked now d).*1).
Proof.
  unfold candidates. rewrite merge_sort_Permutation.
  eapply sublist_NoDup; [|apply fmap_sublist, sublist_filter].
  rewrite scan_table_perm. apply NoDup_fst_map_to_list.
Qed.

Lemma candidates_length locked now d :
  (length (candidates locked now d) <= size (webhook_deliveries d))%nat.
Proof.
  unfold candidates. rewrite merge_sort_Permutation, <- length_map_to_list.
  rewrite <- (scan_table_perm (webhook_deliveries d)). apply length_filter.
Qed.

#[global] Instance schedule_le_total : Total schedule_le.
Proof. intros x y. unfold schedule_le. lia. Qed.
#[global] Instance schedule_le_trans : Transitive schedule_le.
Proof. intros x y z. unfold schedule_le. lia. Qed.

Lemma candidates_sorted locked now d : StronglySorted schedule_le (candidates locked now d).
Proof. apply StronglySorted_merge_sort; apply _. Qed.

Lemma lookup_claim_all s now xs t k :
  NoDup xs.*1 ->
  claim_all s now xs t !! k =
    match list_find (fun x => x.1 = k) xs with
    | Some (_, x) => Some (claim_row s now x.2)
    | None => t !! k
    end.
Proof.
  revert t. induction xs as [|[k' r] xs IH]; intros t; [done|].
  cbn [fmap list_fmap fst]. intros [Hk Hnd]%list.NoDup_cons.
  change (claim_all s now ((k', r) :: xs) t)
    with (claim_all s now xs (<[k' := claim_row s now r]> t)).
  rewrite IH by done. cbn. destruct (decide (k' = k)) as [->|Hne].
  - assert (list_find (fun x : string * DeliveryRow => x.1 = k) xs = None) as ->.
    { apply list_find_None, list.Forall_forall. intros x Hx <-. apply Hk.
      apply list_elem_of_fmap. by exists x. }
    by rewrite lookup_insert_eq.
  - rewrite lookup_insert_ne by done.
    by destruct (list_find (fun x : string * DeliveryRow => x.1 = k) xs) as [[i y]|].
Qed.

Lemma claim_all_in s now xs t k r :
  NoDup xs.*1 -> (k, r) ∈ xs -> claim_all s now xs t !! k = Some (claim_row s now r).
Proof.
  intros Hnd Hin. rewrite lookup_claim_all by done.
  destruct (list_find _ xs) as [[i [k' r']]|] eqn:E.
  - apply list_find_Some in E as (Hi & E & _). cbn in *. subst k'.
    apply list_elem_of_lookup in Hin as [j Hj].
    assert (i = j) as <-; [|by simplify_eq].
    eapply (list.NoDup_lookup xs.*1 i j k); [done|..];
      rewrite list_lookup_fmap; by rewrite ?Hi, ?Hj.
  - apply list_find_None in E. rewrite list.Forall_forall in E.
    by destruct (E (k, r)).
Qed.

Lemma claim_all_out s now xs t k :
  NoDup xs.*1 -> k ∉ xs.*1 -> claim_all s now xs t !! k = t !! k.
Proof.
  intros Hnd Hk. rewrite lookup_claim_all by done.
  destruct (list_find _ xs) as [[i x]|] eqn:E; [|done].
  apply list_find_Some in E as (Hi & <- & _). destruct Hk.
  apply list_elem_of_fmap. exists x. split; [done|]. by eapply list_elem_of_lookup_2.
Qed.

Lemma claim_set_NoDup locked limit now d : NoDup (claim_set locked limit now d).*1.
Proof.
  change (NoDup (take (Z.to_nat limit) (candidates locked now d)).*1).
  rewrite fmap_take. eapply sublist_NoDup; [apply candidates_NoDup|apply sublist_take].
Qed.

Lemma elem_of_claim_set locked limit now d x :
  x ∈ claim_set locked limit now d -> due_unlocked locked now d x.
Proof. intros H. apply elem_of_candidates. by eapply elem_of_take in H as (i & ? & ?); eapply list_elem_of_lookup_2. Qed.
End claim.

(** ** The delivery state machine *)

(** One move of one delivery at time [now]. *)
Inductive delivery_step (now : Time) : relation DeliveryRow :=
| step_claim r s :
    due now r = true -> delivery_step now r (claim_row s now r)
| step_requeue r :
    stuck now r = true ->
    delivery_step now r (set_schedule now (set_status DPending r))
| step_succeed r :
    delivery_step now r (set_status DSucceeded r)
| step_fail r n next msg :
    int4 (d_attempts r + 1) = Ok n ->
    delivery_step now r
      (set_error (Some msg) (set_schedule next (set_status DFailed (set_attempts n r))))
| step_dead r n :
    int4 (d_attempts r + 1) = Ok n ->
    delivery_step now r (set_status DDead (set_attempts n r))
| step_replay r :
    delivery_step now r (rearm now r).

(** What no move changes: where a delivery goes and what it carries. *)
Definition snapshot (r : DeliveryRow) : string * string * string * string * string * Time :=
  (d_endpoint_id r, d_event_id r, d_url r, d_secret r, d_payload r, d_created_at r).

Lemma delivery_step_snapshot now r r' : delivery_step now r r' -> snapshot r' = snapshot r.
Proof. by destruct 1. Qed.

Lemma delivery_steps_snapshot now r r' : rtc (delivery_step now) r r' -> snapshot r' = snapshot r.
Proof. induction 1; [done|]. etrans; [done|]. by eapply delivery_step_snapshot. Qed.

Section ops.
Context {FT : Fibertypes} {KE : KanakaEvents} {PG : Postgres} {PGL : PostgresLaws} {CR : Crypto}.

(** Everything that runs against the outbox: the dispatcher's calls, the sweeper,
    the endpoint handlers, and the indexer's flush. *)
Inductive op :=
| OpClaim (s : Store) (locked : string -> bool) (limit : Z)
| OpSucceeded (k : string)
| OpFailed (k : string) (next : Time) (msg : string)
| OpDead (k : string)
| OpRequeue
| OpCreate (r : request createReq)
| OpRemove (r : request unit)
| OpTest (r : request unit)
| OpReplay (r : request unit)
| OpSave (p : Projector) (seq : Z).

Definition run_op (o : op) : M unit :=
  match o with
  | OpClaim s locked limit => _ ← ClaimDue s locked limit; mret tt
  | OpSucceeded k => MarkSucceeded k
  | OpFailed k next msg => MarkFailed k next msg
  | OpDead k => MarkDead k
  | OpRequeue => _ ← Requeue; mret tt
  | OpCreate r => _ ← create r; mret tt
  | OpRemove r => _ ← remove r; mret tt
  | OpTest r => _ ← test r; mret tt
  | OpReplay r => _ ← replay r; mret tt
  | OpSave p seq => snd (Save p seq)
  end.

Lemma int4_bind_Ok {A} z (k : Z -> A) a :
  (n ← int4 z; Ok (k n)) = Ok a -> ∃ n, int4 z = Ok n ∧ a = k n.
Proof.
  unfold mbind, result_bind. destruct (int4 z) as [n|e|p]; intros [= <-]. eauto.
Qed.

(** The delivery an operation names. *)
Definition names (o : op) : option string :=
  match o with
  | OpSucceeded k | OpFailed k _ _ | OpDead k => Some k
  | OpReplay r => Some (URLParam r "delivery_id")
  | _ => None
  end.

Definition at_time (t : Time) (w : world) : world :=
  World (w_db w) (w_faults w) t (w_draws w) (w_calls w).

(** A flush leaves the clock alone, whatever it answers. *)
Lemma Save_now p seq w : w_now (snd (snd (Save p seq) w)) = w_now w.
Proof.
  assert (frames (fun _ _ _ => True) (snd (Save p seq))) as H; [|apply H].
  assert (forall t : Time, PreOrder (fun _ _ : Database => True)) as HT by (by repeat split).
  cbn [Save snd]. unfold applyEvent, project_type, projectInvoicePaid, projectPaymentReceived,
    projectChannelOpened, matchMerchantOrder, enqueueDeliveries, matchingEndpoints,
    save_checkpoint.
  framing; done.
Qed.

(** A schedule of operations, each at its own time, whatever each answers. *)
Definition run_trace (tr : list (Time * op)) (w : world) : world :=
  foldl (fun w x => snd (run_op x.2 (at_time x.1 w))) w tr.

(** The statements that write deliveries, under a relation that only looks at that
    table and knows it row by row. *)
Section rowwise.
Context (P : Time -> string -> relation DeliveryRow).
Context {HP : forall t k, PreOrder (P t k)}.

Definition rows_move (t : Time) (d d' : Database) : Prop :=
  forall k r, webhook_deliveries d !! k = Some r ->
    ∃ r', webhook_deliveries d' !! k = Some r' ∧ P t k r r'.

#[global] Instance rows_move_preorder t : PreOrder (rows_move t).
Proof.
  split; [intros d k r H; by exists r|].
  intros d1 d2 d3 H12 H23 k r H. destruct (H12 k r H) as (r' & H' & HP1).
  destruct (H23 k r' H') as (r'' & H'' & HP2). exists r''. split; [done|by etrans].
Qed.

Lemma rows_move_same t d d' :
  webhook_deliveries d' = webhook_deliveries d -> rows_move t d d'.
Proof. intros E k r H. rewrite E. by exists r. Qed.

Lemma rows_move_new t d d' k x :
  webhook_deliveries d !! k = None ->
  webhook_deliveries d' = <[k := x]> (webhook_deliveries d) -> rows_move t d d'.
Proof.
  intros Hn E k' r H. rewrite E. exists r. rewrite lookup_insert_ne; [done|congruence].
Qed.

Lemma rows_move_one t d d' k x :
  webhook_deliveries d' = <[k := x]> (webhook_deliveries d) ->
  (forall r, webhook_deliveries d !! k = Some r -> P t k r x) -> rows_move t d d'.
Proof.
  intros E HPx k' r H. rewrite E. destruct (decide (k = k')) as [->|Hne].
  - exists x. rewrite lookup_insert_eq. auto.
  - exists r. by rewrite lookup_insert_ne.
Qed.

Lemma rows_move_mark t d u d' did f e :
  mark_stmt did f e t d = Ok (u, d') ->
  (forall r r' n, f r = Ok (r', n) -> P t did r r') -> rows_move t d d'.
Proof.
  unfold mark_stmt. intros H Hf.
  destruct (webhook_deliveries d !! did) as [r|] eqn:E; [|by injection H as _ <-].
  destruct (f r) as [[r' n]|?|?] eqn:Ef; [|done..]. injection H as _ <-.
  apply (rows_move_one _ _ _ did r'); [done|].
  intros r0 H0. rewrite E in H0. injection H0 as <-. by eapply Hf.
Qed.

Lemma rows_move_claim t d d' s locked limit out :
  claim_stmt s locked limit t d = Ok (out, d') ->
  (forall k r, due t r = true -> P t k r (claim_row s t r)) -> rows_move t d d'.
Proof.
  unfold claim_stmt. destruct (limit <? 0); [done|]. intros [= _ <-] Hc k r H. cbn.
  destruct (decide (k ∈ (claim_set locked limit t d).*1)) as [Hin|Hout].
  - apply list_elem_of_fmap in Hin as ([k' r'] & -> & Hin).
    exists (claim_row s t r').
    rewrite (claim_all_in s t _ _ k' r') by (apply claim_set_NoDup || done).
    apply elem_of_claim_set in Hin as (Hl & Hdue & _). cbn in *.
    split; [done|]. rewrite H in Hl. injection Hl as <-. auto.
  - exists r. by rewrite claim_all_out by (apply claim_set_NoDup || done).
Qed.

Lemma rows_move_requeue t d :
  (forall k r, stuck t r = true -> P t k r (requeue_row t r)) ->
  rows_move t d (upd_deliveries (requeue_row t <$> webhook_deliveries d) d).
Proof.
  intros Hs k r H. exists (requeue_row t r). cbn. rewrite lookup_fmap, H.
  split; [done|]. destruct (stuck t r) eqn:E; [auto|]. unfold requeue_row. by rewrite E.
Qed.

Lemma rows_move_project t d seq evs : rows_move t d (project seq t evs d).
Proof. intros k r H. exists r. split; [by apply lookup_upserts_keep|done]. Qed.

(** One operation, given what claims, requeues and the moves of the delivery it
    names do. *)
Lemma run_op_rows o :
  (forall t k r s, due t r = true -> P t k r (claim_row s t r)) ->
  (forall t k r, stuck t r = true -> P t k r (requeue_row t r)) ->
  (forall t k r r', names o = Some k -> delivery_step t r r' -> P t k r r') ->
  frames rows_move (run_op o).
Proof.
  intros Hclaim Hreq Hname.
  destruct o as [s locked limit|did|did next msg|did| |req|req|req|req|p seq];
    cbn [run_op names] in *.
  - unfold ClaimDue, scan_delivery. framing. intros t d out d' H.
    eapply rows_move_claim; eauto.
  - unfold MarkSucceeded. framing. intros t d [] d' H. eapply rows_move_mark; [done|].
    intros r r' n (m & E & [= -> _])%int4_bind_Ok. apply Hname; [done|constructor].
  - unfold MarkFailed. framing. intros t d [] d' H. eapply rows_move_mark; [done|].
    intros r r' n (m & E & [= -> _])%int4_bind_Ok. apply Hname; [done|by constructor].
  - unfold MarkDead. framing. intros t d [] d' H. eapply rows_move_mark; [done|].
    intros r r' n (m & E & [= -> _])%int4_bind_Ok. apply Hname; [done|by constructor].
  - unfold Requeue. framing. intros t d n d' H. injection H as _ <-.
    apply rows_move_requeue. intros k r. apply Hreq.
  - unfold create, or_error, NewWebhookSecret, randHex. framing.
    intros t d [] d'. unfold endpoint_upsert. intros [= <-]. by apply rows_move_same.
  - unfold remove, or_error. framing. intros t d n d'.
    case_match; intros [= _ <-]; by apply rows_move_same.
  - unfold test, or_error, id_New. framing.
    + intros t d [] d'. unfold insert_test_event.
      case_match; [|done]. case_match; [done|]. intros [= <-]. by apply rows_move_same.
    + intros t d [] d'. unfold insert_test_delivery. case_match; [|done].
      case_match eqn:E; [done|]. do 2 (case_match; [|done]). intros [= <-].
      by eapply rows_move_new.
  - unfold replay, or_error. framing. intros t d n d'. unfold replay_stmt.
    case_match eqn:E; [|intros [= _ <-]; by apply rows_move_same].
    case_match; intros [= _ <-]; [|by apply rows_move_same].
    eapply rows_move_one; [done|]. intros r' Hr. rewrite E in Hr. injection Hr as ->.
    apply Hname; [done|constructor].
  - intros w. destruct (snd (Save p seq) w) as [r w'] eqn:E. cbn.
    pose proof (Save_now p seq w) as Hn. rewrite E in Hn. split; [|done].
    apply Save_cases in E as [->| ->]; [done|]. apply rows_move_project.
Qed.

(** A whole schedule, when every operation of it moves the row of [k] along one
    relation. *)
Lemma run_trace_row (Q : relation DeliveryRow) `{!PreOrder Q} (k : string) tr w r :
  Forall (fun x => forall w0 r0, webhook_deliveries (w_db w0) !! k = Some r0 ->
    ∃ r1, webhook_deliveries (w_db (snd (run_op x.2 (at_time x.1 w0)))) !! k = Some r1
      ∧ Q r0 r1) tr ->
  webhook_deliveries (w_db w) !! k = Some r ->
  ∃ r', webhook_deliveries (w_db (run_trace tr w)) !! k = Some r' ∧ Q r r'.
Proof.
  intros Htr. revert w r. induction Htr as [|x tr Hx _ IH]; intros w r Hr; [by exists r|].
  destruct (Hx w r Hr) as (r1 & Hr1 & HQ1). destruct (IH _ _ Hr1) as (r2 & Hr2 & HQ2).
  exists r2. split; [exact Hr2|by etrans].
Qed.
End rowwise.

(** *** Three relations on one row *)

(** Anything the state machine allows. *)
Lemma run_op_steps o t w k r :
  webhook_deliveries (w_db w) !! k = Some r ->
  ∃ r', webhook_deliveries (w_db (snd (run_op o (at_time t w)))) !! k = Some r'
    ∧ rtc (delivery_step t) r r'.
Proof.
  intros Hr. destruct (run_op_rows (fun t _ => rtc (delivery_step t)) o) with
    (w := at_time t w) as [H _].
  - intros t' k' r' s Hd. by apply rtc_once, step_claim.
  - intros t' k' r' Hs. unfold requeue_row. rewrite Hs. by apply rtc_once, step_requeue.
  - intros t' k' r1 r2 _ Hs. by apply rtc_once.
  - by apply H.
Qed.

(** A claimed row, at any time before its lease ends. *)
Definition held (T : Time) (r : DeliveryRow) : Prop :=
  d_status r = DDelivering ∧ d_next_attempt_at r = T.

Definition keeps (P : DeliveryRow -> Prop) : relation DeliveryRow := fun r r' => P r -> r' = r.

#[global] Instance keeps_preorder P : PreOrder (keeps P).
Proof.
  split; [done|]. intros r1 r2 r3 H12 H23 H1. specialize (H12 H1). subst r2. by apply H23.
Qed.

(** A condition a claim or a requeue at a time in [tok] excludes is kept by every
    operation that does not name the row. *)
Lemma run_op_keeps (tok : Time -> Prop) (P : DeliveryRow -> Prop) o t w k r :
  (forall t' r', tok t' -> P r' -> due t' r' = false ∧ stuck t' r' = false) ->
  names o ≠ Some k -> tok t ->
  webhook_deliveries (w_db w) !! k = Some r ->
  ∃ r', webhook_deliveries (w_db (snd (run_op o (at_time t w)))) !! k = Some r'
    ∧ keeps P r r'.
Proof.
  intros HP Hn Ht Hr.
  destruct (run_op_rows (fun t' k' => keeps (fun r' => k' = k ∧ tok t' ∧ P r')) o) with
    (w := at_time t w) as [H _].
  - intros t' k' r' s Hd (-> & Ht' & HPr). by destruct (HP t' r' Ht' HPr) as [? _]; congruence.
  - intros t' k' r' Hs (-> & Ht' & HPr). by destruct (HP t' r' Ht' HPr) as [_ ?]; congruence.
  - intros t' k' r1 r2 Hk Hs (-> & _). congruence.
  - destruct (H k r Hr) as (r' & Hr' & Hk). exists r'. split; [done|].
    intros HPr. by apply Hk.
Qed.
End ops.
