(* ===== verification/WebhookProps.v ===== *)
(** * What the webhook outbox guarantees

    Claims, leases and crash recovery over arbitrary schedules of operations; the
    delivery state machine and its log; the retry schedule; the subscription
    handlers. *)

From stdpp Require Import relations.
From S2P Require Import Prelude Strconv GoTime External Schema Tables Ids Indexer IndexerFacts IndexerTotal IndexerProps Http Frame Webhook WebhookFacts.

(** ** Lemmas the theorems share *)

Section lemmas.
Context {FT : Fibertypes} {KE : KanakaEvents} {PG : Postgres} {PGL : PostgresLaws} {CR : Crypto}.

Lemma scan_all_spec (out : list Delivery) w w' :
  for_each scan_delivery out w = (Ok tt, w') -> w' = w.
Proof.
  revert w. induction out as [|x out IH]; intros w H; m_inv H; [done|].
  revert Hm. unfold scan_delivery. case_match; [|done]. intros Hm. m_inv Hm. by apply IH.
Qed.

(** A claim that answered, as its statement on the tables. *)
Lemma ClaimDue_Ok s locked limit w out w' :
  ClaimDue s locked limit w = (Ok out, w') ->
  0 <= limit ∧
  out = claimed_delivery s (w_now w) (w_db w) <$> claim_set locked limit (w_now w) (w_db w)
  ∧ webhook_deliveries (w_db w') =
      claim_all s (w_now w) (claim_set locked limit (w_now w) (w_db w))
        (webhook_deliveries (w_db w)).
Proof.
  unfold ClaimDue. intros H. m_inv H.
  apply wrapping_Ok, exec_Ok in Hm as (_ & Hs & _). apply scan_all_spec in Hm0 as ->.
  unfold claim_stmt in Hs. destruct (Z.ltb_spec limit 0); [done|].
  injection Hs as <- Hdb. by rewrite <- Hdb.
Qed.

Lemma claimed_ids s now d xs : D_ID <$> (claimed_delivery s now d <$> xs) = xs.*1.
Proof. rewrite <- list_fmap_compose. by apply list_fmap_ext. Qed.

Lemma for_each_scan_runs (out : list Delivery) w :
  Forall (fun x => is_Some (D_EventType x)) out -> for_each scan_delivery out w = (Ok tt, w).
Proof.
  induction 1 as [|x out [ty Hx] _ IH]; [done|]. cbn [for_each].
  erewrite bind_intro; [exact IH|]. unfold scan_delivery. by rewrite Hx.
Qed.

(** One mark of an existing delivery, in a healthy world. *)
Lemma mark_runs did f err w r r' n pre :
  healthy w -> webhook_deliveries (w_db w) !! did = Some r -> f r = Ok (r', n) ->
  wrapping pre (exec 2 (mark_stmt did f err)) w =
    (Ok tt, set_db (upd_log (webhook_delivery_log (w_db w) ++ [log_row did n err (w_now w)])
              (upd_deliveries (<[did := r']> (webhook_deliveries (w_db w))) (w_db w))) w).
Proof.
  intros Hw Hr Hf. apply wrapping_run, exec_healthy; [done|lia|].
  unfold mark_stmt. by rewrite Hr, Hf.
Qed.

Lemma int4_small z : int32_min <= z <= int32_max -> int4 z = Ok z.
Proof.
  intros [H1 H2]. unfold int4. by rewrite (proj2 (Z.leb_le _ _) H1), (proj2 (Z.leb_le _ _) H2).
Qed.
End lemmas.

(** The ideal delay of attempt [n]: [min(max, base * 2^(n-1))]. *)
Definition ideal_delay (base max attempt : Z) : Z := Z.min max (base * 2 ^ (attempt - 1)).

Lemma backoff_loop_spec n max d :
  0 < d <= max -> 2 * max <= int64_max ->
  backoff_loop n max d = Z.min max (d * 2 ^ Z.of_nat n).
Proof.
  intros Hd Hmax. revert d Hd. induction n as [|n IH]; intros d Hd.
  { cbn [backoff_loop Z.of_nat]. rewrite Z.pow_0_r. lia. }
  cbn [backoff_loop]. unfold int64_max in *.
  rewrite wrap64_small by (unfold int64_min, int64_max; lia).
  rewrite Nat2Z.inj_succ, Z.pow_succ_r by lia.
  assert (0 < 2 ^ Z.of_nat n) by (apply Z.pow_pos_nonneg; lia).
  destruct (Z.leb_spec max (d * 2)); [nia|]. rewrite IH by lia. f_equal. lia.
Qed.

(** The dispatcher's calls for a delivery that fails [fs] times and is then given
    up; each failure brings its next attempt time and its message. *)
Definition fail_then_dead {FT : Fibertypes} (did : string) (fs : list (Time * string)) : M unit :=
  _ ← for_each (fun x => MarkFailed did x.1 x.2) fs; MarkDead did.

(** The log rows of attempts [a+1], [a+2], ... *)
Fixpoint attempt_log (did : string) (now : Time) (a : Z) (msgs : list string) : list LogRow :=
  match msgs with
  | [] => []
  | m :: ms => log_row did (a + 1) (Some m) now :: attempt_log did now (a + 1) ms
  end.

Lemma attempt_log_app did now a l1 l2 :
  attempt_log did now a (l1 ++ l2) =
  attempt_log did now a l1 ++ attempt_log did now (a + Z.of_nat (length l1)) l2.
Proof.
  revert a. induction l1 as [|m l1 IH]; intros a; cbn; [f_equal; lia|].
  rewrite IH. do 3 f_equal. lia.
Qed.

Section failures.
Context {FT : Fibertypes}.
Implicit Types (w : world).

Lemma MarkFailed_run did next msg w r :
  healthy w -> webhook_deliveries (w_db w) !! did = Some r ->
  0 <= d_attempts r < int32_max ->
  ∃ w' r', MarkFailed did next msg w = (Ok tt, w') ∧ healthy w' ∧ w_now w' = w_now w
    ∧ webhook_deliveries (w_db w') !! did = Some r' ∧ d_attempts r' = d_attempts r + 1
    ∧ webhook_delivery_log (w_db w') =
        webhook_delivery_log (w_db w) ++ [log_row did (d_attempts r + 1) (Some msg) (w_now w)].
Proof.
  intros Hw Hr H0.
  assert (int4 (d_attempts r + 1) = Ok (d_attempts r + 1)) as Hi.
  { apply int4_small. unfold int32_min, int32_max in *. lia. }
  eexists _, _. unfold MarkFailed. split_and!.
  - eapply (mark_runs _ _ _ _ r); [done|done|]. by rewrite Hi.
  - by apply healthy_set_db.
  - done.
  - cbn. apply lookup_insert_eq.
  - done.
  - done.
Qed.

Lemma fails_run did fs w r :
  healthy w -> webhook_deliveries (w_db w) !! did = Some r ->
  0 <= d_attempts r -> d_attempts r + Z.of_nat (length fs) <= int32_max ->
  ∃ w' r', for_each (fun x => MarkFailed did x.1 x.2) fs w = (Ok tt, w')
    ∧ healthy w' ∧ w_now w' = w_now w
    ∧ webhook_deliveries (w_db w') !! did = Some r'
    ∧ d_attempts r' = d_attempts r + Z.of_nat (length fs)
    ∧ webhook_delivery_log (w_db w') =
        webhook_delivery_log (w_db w) ++ attempt_log did (w_now w) (d_attempts r) fs.*2.
Proof.
  revert w r. induction fs as [|[next msg] fs IH]; intros w r Hw Hr H0 Hmax.
  { exists w, r. cbn. rewrite app_nil_r. split_and!; try done. lia. }
  cbn [length] in Hmax.
  destruct (MarkFailed_run did next msg w r) as (w1 & r1 & H1 & Hw1 & Hn1 & Hr1 & Ha1 & Hl1);
    [done|done|lia|].
  destruct (IH w1 r1) as (w' & r' & Hrun & Hw' & Hn & Hr' & Ha & Hlog); [done|done|lia|lia|].
  exists w', r'. split_and!; [|done|congruence|done|cbn [length]; lia|].
  - cbn [for_each]. by erewrite bind_intro.
  - rewrite Hlog, Hl1, Hn1, Ha1, <- app_assoc. done.
Qed.
End failures.

Section props.
Context {FT : Fibertypes} {KE : KanakaEvents} {PG : Postgres} {PGL : PostgresLaws} {CR : Crypto}.
Implicit Types (w : world).

(** C18.  What a claim does: it answers at most [limit] distinct deliveries, each of
    which was pending or failed, due, and not locked by another transaction, and is
    now delivering with its schedule pushed to the end of the lease; every other
    delivery is untouched; a due, unlocked delivery is left behind only when the
    limit is reached, and then every claimed one was scheduled no later. *)
Theorem ClaimDue_spec s locked limit w out w' :
  ClaimDue s locked limit w = (Ok out, w') ->
  let t := webhook_deliveries (w_db w) in
  let t' := webhook_deliveries (w_db w') in
  Z.of_nat (length out) <= limit ∧ NoDup (D_ID <$> out) ∧
  (forall k, k ∈ D_ID <$> out -> ∃ r, t !! k = Some r ∧ due (w_now w) r = true
     ∧ locked k = false ∧ t' !! k = Some (claim_row s (w_now w) r)) ∧
  (forall k, k ∉ D_ID <$> out -> t' !! k = t !! k) ∧
  (forall k r, t !! k = Some r -> due (w_now w) r = true -> locked k = false ->
     k ∉ D_ID <$> out -> Z.of_nat (length out) = limit ∧
     forall k' r', k' ∈ D_ID <$> out -> t !! k' = Some r' ->
       d_next_attempt_at r' <= d_next_attempt_at r).
Proof.
  intros (Hl & -> & E)%ClaimDue_Ok. cbn zeta. rewrite E, claimed_ids.
  set (now := w_now w). set (d := w_db w).
  pose proof (claim_set_NoDup locked limit now d) as Hnd.
  assert (forall k, k ∈ (claim_set locked limit now d).*1 ->
    ∃ r, (k, r) ∈ claim_set locked limit now d) as Hin.
  { intros k ([k' r] & -> & Hx)%list_elem_of_fmap. by exists r. }
  split_and!; [|done| | |].
  - rewrite length_fmap. unfold claim_set. rewrite length_take. lia.
  - intros k (r & Hr)%Hin. pose proof (elem_of_claim_set _ _ _ _ _ Hr) as (H1 & H2 & H3).
    exists r. split_and!; try done. by apply claim_all_in.
  - intros k Hk. by apply claim_all_out.
  - intros k r Hk Hd Hu Hout.
    assert ((k, r) ∈ candidates locked now d) as Hc by (by apply elem_of_candidates).
    change (claim_set locked limit now d) with
      (take (Z.to_nat limit) (candidates locked now d)) in *.
    rewrite <- (take_drop (Z.to_nat limit) (candidates locked now d)) in Hc.
    apply elem_of_app in Hc as [Hc|Hc].
    { destruct Hout. apply list_elem_of_fmap. by exists (k, r). }
    split.
    + apply list_elem_of_lookup in Hc as [i Hi]. rewrite lookup_drop in Hi.
      apply lookup_lt_Some in Hi. rewrite length_fmap, length_take. lia.
    + intros k' r' Hk' Hr'. destruct (Hin k' Hk') as [r0 Hr0].
      assert (r0 = r') as ->.
      { apply elem_of_claim_set in Hr0 as (H1 & _). cbn in H1. fold d in Hr'. congruence. }
      pose proof (candidates_sorted locked now d) as Hs.
      rewrite <- (take_drop (Z.to_nat limit) (candidates locked now d)) in Hs.
      by apply (StronglySorted_app_1_elem_of _ _ _ (k', r') (k, r) Hs).
Qed.

(** A claim answers: with the schema migrated, no fault, a non-negative limit
    and every delivery's event present (the foreign key), [ClaimDue] succeeds. *)
Theorem ClaimDue_total s locked limit w :
  healthy w -> 0 <= limit ->
  (forall k r, webhook_deliveries (w_db w) !! k = Some r ->
     is_Some (events (w_db w) !! d_event_id r)) ->
  ∃ out w', ClaimDue s locked limit w = (Ok out, w')
    ∧ length out = min (Z.to_nat limit) (length (candidates locked (w_now w) (w_db w))).
Proof.
  intros Hw Hl Hfk.
  exists (claimed_delivery s (w_now w) (w_db w) <$> claim_set locked limit (w_now w) (w_db w)).
  eexists. split.
  - unfold ClaimDue. erewrite bind_intro.
    + erewrite bind_intro; [reflexivity|]. apply for_each_scan_runs.
      apply list.Forall_forall. intros x (y & -> & Hy)%list_elem_of_fmap.
      apply elem_of_claim_set in Hy as (Hy & _). destruct (Hfk _ _ Hy) as [e He].
      cbn. by rewrite He.
    + apply wrapping_run, exec_healthy; [done|lia|]. unfold claim_stmt.
      by rewrite (proj2 (Z.ltb_ge _ _) Hl).
  - by rewrite length_fmap; apply length_take.
Qed.

(** C11.  The lease is exclusive: once a claim has answered a delivery, no schedule
    of operations before its lease ends, claims by any worker, the sweeper, flushes
    and handlers included and whatever each of them answers, moves it, unless one
    of them marks or replays that very delivery; and no claim made then answers it. *)
Theorem claim_lease_exclusive s locked limit w out w1 k tr s' locked' limit' t out' w2 :
  ClaimDue s locked limit w = (Ok out, w1) -> k ∈ D_ID <$> out ->
  Forall (fun x => x.1 < w_now w + lease_interval s ∧ names x.2 ≠ Some k) tr ->
  ClaimDue s' locked' limit' (at_time t (run_trace tr w1)) = (Ok out', w2) ->
  webhook_deliveries (w_db (run_trace tr w1)) !! k = webhook_deliveries (w_db w1) !! k
  ∧ k ∉ D_ID <$> out'.
Proof.
  intros (_ & -> & E)%ClaimDue_Ok Hk Htr Hc2. rewrite claimed_ids in Hk.
  apply list_elem_of_fmap in Hk as ([k' r] & -> & Hr). cbn [fst] in *.
  assert (webhook_deliveries (w_db w1) !! k' = Some (claim_row s (w_now w) r)) as H1.
  { rewrite E. by apply claim_all_in; [apply claim_set_NoDup|]. }
  set (T := w_now w + lease_interval s) in *.
  destruct (run_trace_row (keeps (held T)) k' tr w1
    (claim_row s (w_now w) r)) with (2 := H1) as (r2 & H2 & HQ).
  - eapply list.Forall_impl; [exact Htr|]. cbn beta. intros x [Ht Hn] w0 r0 H0.
    apply (run_op_keeps (fun t => t < T)); try done. intros t' r' Ht' [Hs Hx].
    unfold due, stuck. rewrite Hs, Hx, (proj2 (Z.leb_gt T t')) by done.
    by rewrite !andb_false_r.
  - rewrite H1, H2. rewrite (HQ (conj eq_refl eq_refl)) in *. split; [done|].
    apply ClaimDue_Ok in Hc2 as (_ & -> & _). rewrite claimed_ids.
    intros ([k0 r0] & -> & H0)%list_elem_of_fmap.
    apply elem_of_claim_set in H0 as (H0 & Hd & _).
    cbn [fst snd at_time w_db w_now] in *. rewrite H2 in H0. injection H0 as <-. done.
Qed.

(** C21.  Crash recovery: a delivery whose worker died is not lost.  Once its lease
    is over, a sweep makes it pending and due, and a claim that follows answers it
    unless other deliveries fill the whole limit or lock it. *)
Theorem requeue_recovers k r s locked limit w n w1 t out w2 :
  webhook_deliveries (w_db w) !! k = Some r -> stuck (w_now w) r = true ->
  Requeue w = (Ok n, w1) -> w_now w <= t ->
  ClaimDue s locked limit (at_time t w1) = (Ok out, w2) -> locked k = false ->
  webhook_deliveries (w_db w1) !! k = Some (set_schedule (w_now w) (set_status DPending r))
  ∧ (k ∈ D_ID <$> out ∨ Z.of_nat (length out) = limit).
Proof.
  intros Hr Hst (_ & Hs & _)%wrapping_Ok%exec_Ok Ht (Hl & -> & _)%ClaimDue_Ok Hlk.
  injection Hs as _ Hdb.
  assert (webhook_deliveries (w_db w1) !! k =
    Some (set_schedule (w_now w) (set_status DPending r))) as H1.
  { rewrite <- Hdb. cbn. rewrite lookup_fmap, Hr. cbn. unfold requeue_row. by rewrite Hst. }
  split; [done|]. rewrite claimed_ids, length_fmap.
  destruct (decide (k ∈ (claim_set locked limit t (w_db w1)).*1)) as [?|Hout]; [by left|right].
  set (r1 := set_schedule (w_now w) (set_status DPending r)) in *.
  assert ((k, r1) ∈ candidates locked t (w_db w1)) as Hc.
  { apply elem_of_candidates. split_and!; [done| |done]. unfold due. cbn.
    by rewrite (proj2 (Z.leb_le _ _) Ht). }
  change (Z.of_nat (length (take (Z.to_nat limit) (candidates locked t (w_db w1)))) = limit).
  rewrite <- (take_drop (Z.to_nat limit) (candidates locked t (w_db w1))) in Hc.
  apply elem_of_app in Hc as [Hc|Hc].
  - destruct Hout. apply list_elem_of_fmap. by exists (k, r1).
  - apply list_elem_of_lookup in Hc as [i Hi]. rewrite lookup_drop in Hi.
    apply lookup_lt_Some in Hi. rewrite length_take. lia.
Qed.

(** The delivery state machine: no operation, at any time and whatever it
    answers, removes a delivery or moves it other than by claims of due rows,
    requeues of expired leases, marks and replays; and through all of them its
    endpoint, event, url, secret and payload stay as they were enqueued. *)
Theorem deliveries_follow_state_machine o t w k r :
  webhook_deliveries (w_db w) !! k = Some r ->
  ∃ r', webhook_deliveries (w_db (snd (run_op o (at_time t w)))) !! k = Some r'
    ∧ rtc (delivery_step t) r r' ∧ snapshot r' = snapshot r.
Proof.
  intros Hr. destruct (run_op_steps o t w k r Hr) as (r' & Hr' & Hs).
  exists r'. split_and!; [done|done|]. by eapply delivery_steps_snapshot.
Qed.

(** Final states are final: a succeeded or dead delivery stays exactly as it is
    under every schedule of operations that does not mark or replay it; it is never
    sent or retried again. *)
Theorem final_deliveries_stay k r tr w :
  webhook_deliveries (w_db w) !! k = Some r ->
  d_status r = DSucceeded ∨ d_status r = DDead ->
  Forall (fun x => names x.2 ≠ Some k) tr ->
  webhook_deliveries (w_db (run_trace tr w)) !! k = Some r.
Proof.
  intros Hr Hst Htr.
  destruct (run_trace_row (keeps (fun r => d_status r = DSucceeded ∨ d_status r = DDead))
    k tr w r) with (2 := Hr) as (r2 & H2 & HQ).
  - eapply list.Forall_impl; [exact Htr|]. cbn beta. intros x Hn w0 r0 H0.
    apply (run_op_keeps (fun _ => True)); try done.
    intros t' r' _ [Hs|Hs]; unfold due, stuck; by rewrite Hs.
  - by rewrite H2, HQ.
Qed.

(** C19.  Dead-lettering: a delivery that fails n times and is then given up ends
    dead with exactly n+1 attempts more than it had, and the log gains exactly one
    row per attempt, numbered consecutively from the stored count, each with its
    error, the last one saying why. *)
Theorem dead_letter_log did fs w r :
  healthy w -> webhook_deliveries (w_db w) !! did = Some r ->
  0 <= d_attempts r -> d_attempts r + Z.of_nat (length fs) + 1 <= int32_max ->
  ∃ w' r', fail_then_dead did fs w = (Ok tt, w')
    ∧ webhook_deliveries (w_db w') !! did = Some r' ∧ d_status r' = DDead
    ∧ d_attempts r' = d_attempts r + Z.of_nat (length fs) + 1
    ∧ webhook_delivery_log (w_db w') = webhook_delivery_log (w_db w)
        ++ attempt_log did (w_now w) (d_attempts r) (fs.*2 ++ ["max attempts exceeded"]).
Proof.
  intros Hw Hr H0 Hmax.
  destruct (fails_run did fs w r Hw Hr H0) as (w1 & r1 & Hrun & Hw1 & Hn & Hr1 & Ha & Hlog);
    [lia|].
  assert (int4 (d_attempts r1 + 1) = Ok (d_attempts r1 + 1)) as Hi.
  { apply int4_small. unfold int32_min, int32_max in *. lia. }
  eexists _, _. unfold fail_then_dead. erewrite bind_intro by exact Hrun. unfold MarkDead.
  split_and!.
  - eapply (mark_runs _ _ _ _ r1); [done|done|]. by rewrite Hi.
  - cbn. apply lookup_insert_eq.
  - done.
  - cbn. lia.
  - cbn. rewrite Hlog, <- app_assoc, Hn, attempt_log_app, length_fmap, Ha. done.
Qed.

(** C22.  The retry schedule: for a positive base and a cap that two 64-bit
    doublings cannot overflow, attempt n waits between half of and the whole of
    [min(max, base * 2^(n-1))], whatever the random source answers in its range; in
    particular the delay never exceeds the cap, wraps or is negative. *)
Theorem expJitter_bounds base max rand attempt :
  0 < base <= max -> 2 * max <= int64_max -> 1 <= attempt ->
  (forall n, 0 < n -> 0 <= rand n < n) ->
  let d := ideal_delay base max attempt in
  d / 2 <= expJitter base max rand attempt <= d.
Proof.
  intros Hb Hmax Ha Hr d. unfold expJitter.
  rewrite backoff_loop_spec by done. rewrite Z2Nat.id by lia.
  change (Z.min max (base * 2 ^ (attempt - 1))) with d.
  assert (0 < 2 ^ (attempt - 1)) by (apply Z.pow_pos_nonneg; lia).
  assert (0 < d <= max) as Hd by (unfold d, ideal_delay; nia).
  rewrite Z.quot_div_nonneg by lia.
  pose proof (Z.div_mod d 2 ltac:(lia)). pose proof (Z.mod_pos_bound d 2 ltac:(lia)).
  unfold int64_max in *.
  destruct (Z.leb_spec (d / 2) 0); [lia|].
  rewrite (wrap64_small (d / 2 + 1)) by (unfold int64_min, int64_max; lia).
  specialize (Hr (d / 2 + 1) ltac:(lia)).
  rewrite wrap64_small by (unfold int64_min, int64_max; lia). lia.
Qed.

(** Subscribing twice: [create] for a url that already has an endpoint answers
    201 with a freshly drawn secret, but the row keeps the old one; only the event
    types and the active flag are replaced.  The returned secret is stored only when
    the endpoint is new. *)
Theorem create_secret r req w w' resp :
  decoded r = Ok req -> create r w = (Ok resp, w') -> status resp = StatusCreated ->
  let eid := endpoint_id (cr_URL req) in
  let fresh := hex_EncodeToString (rand_Read (w_draws w) 32) in
  resp = JSON StatusCreated (endpointResp eid (cr_URL req) fresh (cr_EventTypes req) true) ∧
  ∃ row, webhook_endpoints (w_db w') !! eid = Some row
    ∧ ep_url row = cr_URL req ∧ ep_event_types row = cr_EventTypes req ∧ ep_active row = true
    ∧ ep_secret row = match webhook_endpoints (w_db w) !! eid with
                      | Some old => ep_secret old
                      | None => fresh
                      end.
Proof.
  unfold create. intros Hd H Hst. rewrite Hd in H. cbn zeta.
  destruct (bool_decide (cr_URL req = EmptyString) || bool_decide (cr_EventTypes req = [])).
  { m_inv H. discriminate Hst. }
  unfold NewWebhookSecret, randHex, or_error in H. m_inv H.
  cbv [draw mbind M_bind mbind_M mret M_ret mret_M] in Hm. injection Hm as <- <-.
  destruct a0 as [e|[]]; m_inv H; [discriminate Hst|].
  apply attempt_Ok, exec_Ok in Hm0 as (_ & Hs & _). cbn in Hs. injection Hs as Hs.
  split; [done|]. rewrite <- Hs. cbn.
  eexists. rewrite lookup_insert_eq. split; [done|].
  by destruct (webhook_endpoints (w_db w) !! _).
Qed.

(** Unsubscribing: once [remove] has answered 204 for an endpoint, a flush
    that commits on the database it left adds no delivery to that endpoint, whatever
    events it carries; the deliveries there were are kept. *)
Theorem remove_stops_deliveries (r : request unit) w resp w1 p seq w2 w3 :
  remove r w = (Ok resp, w1) -> status resp = StatusNoContent ->
  w_db w2 = w_db w1 -> snd (Save p seq) w2 = (Ok tt, w3) ->
  forall did row, webhook_deliveries (w_db w3) !! did = Some row ->
    d_endpoint_id row = URLParam r "id" -> webhook_deliveries (w_db w) !! did = Some row.
Proof.
  unfold remove, or_error. intros H Hst E2 H3 did row Hrow Hid. m_inv H.
  destruct a as [e|n]; [by m_inv H|].
  apply attempt_Ok, exec_Ok in Hm as (_ & Hs & _).
  destruct (webhook_endpoints (w_db w) !! URLParam r "id") as [ep|] eqn:Eep;
    injection Hs as <- Hs; cbn in H; injection H as <- <-; [|discriminate Hst].
  apply Save_Ok_project in H3 as [H3 _]. rewrite H3, E2, <- Hs in Hrow.
  destruct (webhook_deliveries (w_db w) !! did) as [old|] eqn:Eold.
  - rewrite (delivery_row_kept _ _ _ _ _ old) in Hrow by done. done.
  - apply project_delivery_new in Hrow as (e & x & Hin & _ & ->); [|done].
    apply elem_of_fanout in Hin as (_ & _ & r' & Hr' & Ha & _); [|done].
    cbn in Hid, Hr'. rewrite Hid, lookup_insert_eq in Hr'. injection Hr' as <-. done.
Qed.

(** C28.  Manual replay: 202 exactly when the delivery exists and belongs to the
    endpoint, and then, from any state, it is pending, due at once, with no attempts
    and no error, every other delivery being untouched; otherwise 404 and nothing
    changes. *)
Theorem replay_spec (r : request unit) w :
  healthy w ->
  let k := URLParam r "delivery_id" in
  match webhook_deliveries (w_db w) !! k with
  | Some row =>
      if bool_decide (d_endpoint_id row = URLParam r "id") then
        ∃ row', replay r w = (Ok (JSON StatusAccepted (queued k "requeued")),
            set_db (upd_deliveries (<[k := row']> (webhook_deliveries (w_db w))) (w_db w)) w)
          ∧ due (w_now w) row' = true ∧ d_status row' = DPending ∧ d_attempts row' = 0
          ∧ d_last_error row' = None ∧ snapshot row' = snapshot row
      else replay r w = (Ok (Error StatusNotFound "delivery not found for endpoint"), w)
  | None => replay r w = (Ok (Error StatusNotFound "delivery not found for endpoint"), w)
  end.
Proof.
  intros Hw k.
  assert (forall n d, replay_stmt k (URLParam r "id") (w_now w) (w_db w) = Ok (n, d) ->
    replay r w = ((if n =? 0 then Ok (Error StatusNotFound "delivery not found for endpoint")
                   else Ok (JSON StatusAccepted (queued k "requeued"))), set_db d w)) as Hrun.
  { intros n d Hs. unfold replay, or_error. erewrite bind_intro.
    2: { apply attempt_Ok with (r := inr n). by apply exec_healthy. }
    cbn beta iota. by destruct (n =? 0). }
  unfold replay_stmt in Hrun. destruct (webhook_deliveries (w_db w) !! k) as [row|].
  - case_bool_decide.
    + exists (rearm (w_now w) row). rewrite (Hrun 1 _ eq_refl). split_and!; try done.
      unfold due. cbn. by rewrite Z.leb_refl.
    + rewrite (Hrun 0 _ eq_refl). by destruct w.
  - rewrite (Hrun 0 _ eq_refl). by destruct w.
Qed.

(** A listing whose connection breaks after [n] rows is answered 200 with those rows, as
    if there were no others. *)
Theorem list_answers_prefix w n :
  healthy w -> pg_rows_read (w_draws w) = Some n ->
  ∃ w', list_handler w =
      (Ok (JSON StatusOK (JObj [("items", JArr (take n (list_endpoints (w_db w))))])), w')
    ∧ w_db w' = w_db w.
Proof.
  intros Hw Hn. unfold list_handler, or_error.
  rewrite (bind_intro _ _ w (inr (list_endpoints (w_db w))) w).
  2: { apply attempt_Ok with (r := inr (list_endpoints (w_db w))).
    apply select_healthy; [done|lia|done]. }
  eexists. cbv [draw mbind M_bind mbind_M mret M_ret mret_M]. unfold rows_before. by rewrite Hn.
Qed.

(** A test ping: for an active endpoint, in a healthy world where the two
    fresh identifiers are unused, [test] answers 202 with a new delivery that is
    pending, due at once and addressed with the endpoint's url and secret, backed by
    a synthetic event row; nothing else changes. *)
Theorem test_spec (r : request unit) w ep j :
  healthy w -> webhook_endpoints (w_db w) !! URLParam r "id" = Some ep -> ep_active ep = true ->
  pg_jsonb_in (ping (URLParam r "id")) = Some j ->
  events (w_db w) !! ulid_New (w_draws w) = None ->
  webhook_deliveries (w_db w) !! ulid_New (S (w_draws w)) = None ->
  let eid := URLParam r "id" in
  let evt := ulid_New (w_draws w) in
  let dlv := ulid_New (S (w_draws w)) in
  ∃ w', test r w = (Ok (JSON StatusAccepted (queued dlv "queued")), w')
    ∧ events (w_db w') = <[evt := MkEventRow "webhook.test" (Some eid) None None j
          (w_now w) (w_now w) 0]> (events (w_db w))
    ∧ webhook_deliveries (w_db w') = <[dlv := MkDeliveryRow eid evt (ep_url ep) (ep_secret ep) j
          DPending 0 (w_now w) None (w_now w)]> (webhook_deliveries (w_db w)).
Proof.
  intros Hw Hep Hact Hj Hev Hdl eid evt dlv. pose proof Hw as [Hf Hv].
  eexists. split_and!.
  - unfold test, or_error. erewrite bind_intro.
    2: { apply attempt_Ok with (r := inr (ep_url ep, ep_secret ep)).
         apply select_healthy; [done|lia|]. unfold select_active. by rewrite Hep, Hact. }
    cbn beta iota. erewrite bind_intro by reflexivity. erewrite bind_intro.
    2: { apply attempt_Ok with (r := inr tt). apply exec_healthy; [by split|lia|].
         unfold insert_test_event. cbn [w_db w_draws w_now set_db events upd_events webhook_deliveries webhook_endpoints].
         by rewrite Hj, Hev. }
    cbn beta iota. erewrite bind_intro by reflexivity. erewrite bind_intro.
    2: { apply attempt_Ok with (r := inr tt). apply exec_healthy; [by split|lia|].
         unfold insert_test_delivery. cbn [w_db w_draws w_now set_db events upd_events webhook_deliveries webhook_endpoints].
         by rewrite Hj, Hdl, Hep, lookup_insert_eq. }
    reflexivity.
  - done.
  - done.
Qed.
End props.

(** ** Witnesses *)

Module WebhookWitness.
Import Sample IndexerSample IndexerWitness.

Definition store : Store := NewStore.
Definition nobody (k : string) : bool := false.
Definition row1 : DeliveryRow :=
  MkDeliveryRow "whk_1" "evt_1" "https://shop.test/hook" "s3cret" "payload" DPending 0 900 None 900.
Definition dead_worker_row : DeliveryRow := set_schedule 950 (set_status DDelivering row1).
Definition with_deliveries (t : gmap string DeliveryRow) : world :=
  World (upd_deliveries t (w_db world1)) [] 1000 0 [].
Definition world_due : world := with_deliveries {[ "dlv_1" := row1; "dlv_2" := set_schedule 800 row1 ]}.
Definition world_stuck : world := with_deliveries {[ "dlv_1" := dead_worker_row ]}.

Definition world_claimed : world := snd (ClaimDue store nobody 1 world_due).

Definition claim_answer : list Delivery :=
  [claimed_delivery store 1000 (w_db world_due) ("dlv_2", set_schedule 800 row1)].

Lemma claim1_ok : ClaimDue store nobody 1 world_due = (Ok claim_answer, world_claimed).
Proof. by_eval. Qed.

Lemma ClaimDue_spec_witness :
  webhook_deliveries (w_db world_claimed) !! "dlv_1" = Some row1.
Proof.
  destruct (ClaimDue_spec store nobody 1 world_due claim_answer world_claimed claim1_ok) as (_ & _ & _ & H & _).
  rewrite (H "dlv_1"); [by_eval|]. cbn. by intros ?%list_elem_of_singleton.
Defined.

Lemma ClaimDue_total_witness :
  ∃ out w', ClaimDue store nobody 10 world_due = (Ok out, w') ∧ length out = 2%nat.
Proof.
  destruct (ClaimDue_total store nobody 10 world_due) as (out & w' & H & Hl).
  - split; reflexivity.
  - lia.
  - intros k r Hk. assert (d_event_id r = "evt_1") as ->.
    { revert Hk. cbn [world_due with_deliveries w_db upd_deliveries webhook_deliveries].
      rewrite lookup_insert_Some. intros [[_ <-]|[_ Hk]]; [reflexivity|].
      rewrite lookup_singleton_Some in Hk. by destruct Hk as [_ <-]. }
    destruct (events (w_db world_due) !! "evt_1") as [x|] eqn:E; [exists x; reflexivity|].
    vm_compute in E. discriminate E.
  - exists out, w'. split; [exact H|]. rewrite Hl. by_eval.
Defined.

Definition sweeps : list (Time * op) := [(2000, OpRequeue); (300000000999, OpRequeue)].

Lemma claim_lease_exclusive_witness :
  webhook_deliveries (w_db (run_trace sweeps world_claimed)) !! "dlv_2"
    = webhook_deliveries (w_db world_claimed) !! "dlv_2".
Proof.
  apply (claim_lease_exclusive store nobody 1 world_due claim_answer world_claimed "dlv_2" sweeps
    store nobody 10 300000000999
    [claimed_delivery store 300000000999 (w_db world_due) ("dlv_1", row1)]
    (snd (ClaimDue store nobody 10 (at_time 300000000999 (run_trace sweeps world_claimed))))
    claim1_ok).
  - left.
  - repeat constructor; cbn; done.
  - by_eval.
Defined.

Lemma requeue_recovers_witness :
  "dlv_1" ∈ D_ID <$> [claimed_delivery store 2000 (w_db world_stuck) ("dlv_1", row1)].
Proof.
  destruct (requeue_recovers "dlv_1" dead_worker_row store nobody 5 world_stuck 1
    (snd (Requeue world_stuck)) 2000
    [claimed_delivery store 2000 (w_db world_stuck) ("dlv_1", row1)]
    (snd (ClaimDue store nobody 5 (at_time 2000 (snd (Requeue world_stuck))))))
    as [_ [H|H]]; [by_eval|by_eval|by_eval|cbn; lia|by_eval|reflexivity|exact H|].
  exfalso. cbn in H. lia.
Defined.

Lemma deliveries_follow_state_machine_witness :
  ∃ r', webhook_deliveries (w_db (snd (run_op OpRequeue (at_time 1000 world_stuck)))) !! "dlv_1"
    = Some r' ∧ snapshot r' = snapshot dead_worker_row.
Proof.
  destruct (deliveries_follow_state_machine OpRequeue 1000 world_stuck "dlv_1" dead_worker_row)
    as (r' & H & _ & Hs); [by_eval|]. exists r'. exact (conj H Hs).
Defined.

Lemma final_deliveries_stay_witness :
  webhook_deliveries (w_db (run_trace [(5000, OpRequeue); (6000, OpClaim store nobody 9)]
    (with_deliveries {[ "dlv_1" := set_status DDead row1 ]}))) !! "dlv_1"
  = Some (set_status DDead row1).
Proof.
  apply final_deliveries_stay; [by_eval|by right|]. repeat constructor; cbn; done.
Defined.

Lemma dead_letter_log_witness :
  ∃ w' r', fail_then_dead "dlv_1" [(5000, "boom"); (6000, "500")] world_due = (Ok tt, w')
    ∧ webhook_deliveries (w_db w') !! "dlv_1" = Some r' ∧ d_attempts r' = 3.
Proof.
  destruct (dead_letter_log "dlv_1" [(5000, "boom"); (6000, "500")] world_due row1)
    as (w' & r' & H1 & H2 & _ & H3 & _); [split; reflexivity|by_eval|done|done|].
  exists w', r'. exact (conj H1 (conj H2 H3)).
Defined.

Lemma expJitter_bounds_witness :
  16 * Second / 2 <= expJitter Second (5 * Minute) (fun _ => 0) 5 <= 16 * Second.
Proof.
  apply (expJitter_bounds Second (5 * Minute) (fun _ => 0) 5);
    [done|done|done|intros n Hn; lia].
Defined.

Definition create_req : request createReq :=
  MkRequest [] [] EmptyString (Ok (MkCreateReq "https://shop.test/hook" ["payment.received"])).
Definition created := create create_req world0.
Definition created_again := create create_req (snd created).

Lemma create_secret_witness :
  ∃ row, webhook_endpoints (w_db (snd created_again)) !! endpoint_id "https://shop.test/hook"
      = Some row
    ∧ ep_secret row = hex_EncodeToString (rand_Read 0 32).
Proof.
  destruct (create_secret create_req (MkCreateReq "https://shop.test/hook" ["payment.received"])
    (snd created) (snd created_again)
    (JSON StatusCreated (endpointResp (endpoint_id "https://shop.test/hook")
      "https://shop.test/hook" (hex_EncodeToString (rand_Read 1 32)) ["payment.received"] true)))
    as [_ (row & Hrow & _ & _ & _ & Hs)]; [reflexivity|by_eval|reflexivity|].
  exists row. split; [exact Hrow|]. rewrite Hs. by_eval.
Defined.

Definition by_id : request unit := MkRequest [] [("id", "whk_1")] EmptyString (Ok tt).
Definition removed := remove by_id world0.

Lemma remove_stops_deliveries_witness :
  webhook_deliveries (w_db (snd (snd (Save change 7) (snd removed)))) !! delivery_of_1 = None.
Proof.
  destruct (webhook_deliveries (w_db (snd (snd (Save change 7) (snd removed)))) !! delivery_of_1)
    as [row|] eqn:E; [|reflexivity].
  assert (webhook_deliveries (w_db world0) !! delivery_of_1 = Some row) as H; [|discriminate H].
  apply (remove_stops_deliveries by_id world0 (MkResponse StatusNoContent NoBody) (snd removed)
    change 7 (snd removed) (snd (snd (Save change 7) (snd removed)))).
  - by_eval.
  - reflexivity.
  - reflexivity.
  - by_eval.
  - exact E.
  - vm_compute in E. discriminate E.
Defined.

Definition replay_req : request unit :=
  MkRequest [] [("id", "whk_1"); ("delivery_id", "dlv_1")] EmptyString (Ok tt).

Lemma replay_spec_witness :
  ∃ row', replay replay_req world_stuck = (Ok (JSON StatusAccepted (queued "dlv_1" "requeued")),
    set_db (upd_deliveries (<["dlv_1" := row']> (webhook_deliveries (w_db world_stuck)))
      (w_db world_stuck)) world_stuck).
Proof.
  assert (healthy world_stuck) as Hw by (split; reflexivity).
  destruct (replay_spec replay_req world_stuck Hw) as (row' & H & _). exists row'. exact H.
Defined.

Lemma test_spec_witness :
  ∃ w', test by_id world0 = (Ok (JSON StatusAccepted (queued "0x1" "queued")), w').
Proof.
  destruct (test_spec by_id world0 endpoint (ping "whk_1")) as (w' & H & _);
    [split; reflexivity|by_eval|reflexivity|by_eval|by_eval|by_eval|].
  exists w'. exact H.
Defined.
End WebhookWitness.
