(* ===== verification/Dispatch.v ===== *)
(** * The dispatcher's wiring (internal/webhook/run.go)

    [Run] hands the outbox, the sender and the retry schedule to the library's
    dispatcher, which is an argument here, next to a background [sweep] that re-arms
    what a crashed worker held.  The sweep is a loop over what its [select] takes. *)

From S2P Require Import Prelude Strconv GoTime External Schema Config Webhook.

(** [kwebhook.Dispatcher], as [Run] fills it; the sender is an HTTP client with a
    timeout.  [Backoff] takes the random source's draw. *)
Record Dispatcher := MkDispatcher {
  dp_Store : Store;
  dp_SenderTimeout : Z;
  dp_Backoff : (Z -> Z) -> Z -> Z;
  dp_MaxAttempts : Z;
  dp_Workers : Z;
  dp_PollInterval : Z
}.

Definition dispatcher_of (cfg : Config) : Dispatcher :=
  MkDispatcher NewStore (10 * Second) (expJitter Second (5 * Minute)) (WebhookMaxAttempts cfg)
    (WebhookWorkers cfg) Second.

Definition sweep_interval : Z := 30 * Second.

(** What [select] takes: the context's end, or a tick at some time. *)
Inductive selected := CtxDone | Tick (t : Time).

Section dispatch.
Context {FT : Fibertypes}.

(** The time passes. *)
Definition wait_until (t : Time) : M unit :=
  fun w => (Ok tt, World (w_db w) (w_faults w) t (w_draws w) (w_calls w)).

Definition rearmed (n : Z) : string :=
  "dispatcher: re-armed " +:+ Itoa n +:+ " stuck deliveries".

Definition sweep_line (r : sum error Z) : list string :=
  match r with
  | inr n => if 0 <? n then [rearmed n] else []
  | inl _ => []
  end.

(** The lines [sweep] prints; a failed requeue is ignored until the next tick. *)
Fixpoint sweep (obs : list selected) : M (list string) :=
  match obs with
  | [] | CtxDone :: _ => mret []
  | Tick t :: obs' =>
      _ ← wait_until t;
      r ← attempt Requeue;
      rest ← sweep obs';
      mret (sweep_line r ++ rest)
  end.

(** The printed line, and what the dispatcher answers; the sweep runs beside it. *)
Definition Run (dispatch : Dispatcher -> M unit) (cfg : Config)
  : M (list string * option error) :=
  r ← attempt (dispatch (dispatcher_of cfg));
  mret (["dispatcher: workers=" +:+ Itoa (WebhookWorkers cfg) +:+ " max_attempts="
           +:+ Itoa (WebhookMaxAttempts cfg)],
        match r with inl e => Some e | inr _ => None end).
End dispatch.
