(* ===== verification/Query.v ===== *)
(** * The read side (internal/query)

    Cursors, the [conds] builder with its positional placeholders and the meaning
    Postgres gives the conditions it writes, the three keyset-paginated listings,
    the single-row lookups, the payment statistics, and the handlers over them. *)

From S2P Require Import Prelude Strconv Base64 GoTime External Schema Numeric Sql Http.

(** ** Cursors *)

Record Cursor := MkCursor { cur_Time : Time; cur_ID : string }.
Definition zero_Cursor : Cursor := MkCursor 0 EmptyString.

Definition IsZero (c : Cursor) : bool :=
  time_IsZero (cur_Time c) && bool_decide (cur_ID c = EmptyString).

Definition bar : ascii := "|".

Definition Encode (c : Cursor) : string :=
  EncodeToString (format_RFC3339Nano (cur_Time c) +:+ String bar (cur_ID c)).

Definition DecodeCursor `{TimeParser} (s : string) : result Cursor :=
  if bool_decide (s = EmptyString) then Ok zero_Cursor
  else
    b ← wrap_err "query: invalid cursor encoding: " (DecodeString s);
    match strings_Cut b bar with
    | None => Err (EText "query: cursor missing separator")
    | Some (ts, id) =>
        t ← wrap_err "query: invalid cursor time: " (time_Parse RFC3339Nano ts);
        Ok (MkCursor t id)
    end.

(** ** The conditions builder *)

Inductive arg := AText (s : string) | ATime (t : Time).

(** One condition of the WHERE clause, with the numbers of its placeholders. *)
Inductive cond :=
| CEq (col : string) (n : Z)
| CGe (col : string) (n : Z)
| CLe (col : string) (n : Z)
| CRowLt (tsCol idCol : string) (n m : Z).

Record conds := MkConds { where_ : list cond; args : list arg }.
Definition no_conds : conds := MkConds [] [].

Definition len_args (l : list arg) : Z := Z.of_nat (length l).

(** [eq] *)
Definition c_eq (col val : string) (c : conds) : conds :=
  if bool_decide (val = EmptyString) then c
  else
    let a := args c ++ [AText val] in
    MkConds (where_ c ++ [CEq col (len_args a)]) a.

Definition tsRange (col : string) (from to : option Time) (c : conds) : conds :=
  let c1 := match from with
    | None => c
    | Some t => let a := args c ++ [ATime t] in MkConds (where_ c ++ [CGe col (len_args a)]) a
    end in
  match to with
  | None => c1
  | Some t => let a := args c1 ++ [ATime t] in MkConds (where_ c1 ++ [CLe col (len_args a)]) a
  end.

Definition keyset (tsCol idCol : string) (cur : Cursor) (c : conds) : conds :=
  if IsZero cur then c
  else
    let a := args c ++ [ATime (cur_Time cur); AText (cur_ID cur)] in
    MkConds (where_ c ++ [CRowLt tsCol idCol (len_args a - 1) (len_args a)]) a.

Definition cond_text (c : cond) : string :=
  match c with
  | CEq col n => col +:+ " = $" +:+ Itoa n
  | CGe col n => col +:+ " >= $" +:+ Itoa n
  | CLe col n => col +:+ " <= $" +:+ Itoa n
  | CRowLt t i n m => "(" +:+ t +:+ ", " +:+ i +:+ ") < ($" +:+ Itoa n +:+ ", $" +:+ Itoa m +:+ ")"
  end.

Definition clause (c : conds) : string :=
  match where_ c with
  | [] => EmptyString
  | ws => " WHERE " +:+ strings_Join (cond_text <$> ws) " AND "
  end.

(** ** What the conditions mean *)

Inductive SqlValue := VNull | VText (s : string) | VTime (t : Time).

Definition arg_at (l : list arg) (n : Z) : option arg := l !! Z.to_nat (n - 1).

Section query.
Context {FT : Fibertypes} {PG : Postgres} {TP : TimeParser}.

(** A condition on a NULL is not true; a timestamp argument has the column's
    resolution; a row comparison is lexicographic. *)
Definition holds (l : list arg) (val : string -> SqlValue) (c : cond) : bool :=
  match c with
  | CEq col n =>
      match val col, arg_at l n with
      | VText s, Some (AText a) => bool_decide (s = a)
      | _, _ => false
      end
  | CGe col n =>
      match val col, arg_at l n with
      | VTime t, Some (ATime a) => timestamptz a <=? t
      | _, _ => false
      end
  | CLe col n =>
      match val col, arg_at l n with
      | VTime t, Some (ATime a) => t <=? timestamptz a
      | _, _ => false
      end
  | CRowLt tsCol idCol n m =>
      match val tsCol, val idCol, arg_at l n, arg_at l m with
      | VTime t, VText i, Some (ATime a), Some (AText b) =>
          (t <? timestamptz a)
          || ((t =? timestamptz a) && (pg_text_le i b && negb (bool_decide (i = b))))
      | _, _, _, _ => false
      end
  end.

Definition holds_all (c : conds) (val : string -> SqlValue) : bool :=
  forallb (holds (args c) val) (where_ c).

Definition vtext (o : option string) : SqlValue :=
  match o with Some s => VText s | None => VNull end.
Definition vtime (o : option Time) : SqlValue :=
  match o with Some t => VTime t | None => VNull end.

Definition payment_col (x : string * PaymentRow) (col : string) : SqlValue :=
  if bool_decide (col = "payment_hash") then VText x.1
  else if bool_decide (col = "direction") then VText (p_direction x.2)
  else if bool_decide (col = "status") then VText (p_status x.2)
  else if bool_decide (col = "asset") then vtext (p_asset x.2)
  else if bool_decide (col = "peer") then vtext (p_peer x.2)
  else if bool_decide (col = "created_at") then vtime (p_created_at x.2)
  else VNull.

Definition channel_col (x : string * ChannelRow) (col : string) : SqlValue :=
  if bool_decide (col = "channel_id") then VText x.1
  else if bool_decide (col = "state") then vtext (ch_state x.2)
  else if bool_decide (col = "peer") then vtext (ch_peer x.2)
  else if bool_decide (col = "opened_at") then vtime (ch_opened_at x.2)
  else VNull.

Definition event_col (x : string * EventRow) (col : string) : SqlValue :=
  if bool_decide (col = "id") then VText x.1
  else if bool_decide (col = "type") then VText (ev_type x.2)
  else if bool_decide (col = "occurred_at") then VTime (ev_occurred_at x.2)
  else VNull.

(** SELECT ... FROM t WHERE c ORDER BY ts DESC, id DESC LIMIT n. *)
Definition select_page {R} (col : string * R -> string -> SqlValue) (ts : R -> option Time)
    (c : conds) (n : Z) (t : gmap string R) : list (string * R) :=
  take (Z.to_nat n)
    (merge_sort (desc_order ts) (filter (fun x => holds_all c (col x) = true) (scan_table t))).

(** ** Pages *)

Record Page (T : Type) := MkPage { Items : list T; NextCursor : string }.
Arguments MkPage {_} _ _.
Arguments Items {_} _.
Arguments NextCursor {_} _.

Definition clampLimit (n : Z) : Z :=
  if n <=? 0 then 50 else if 200 <? n then 200 else n.

Definition paginate {T} (items : list T) (limit : Z) (cursorOf : T -> Cursor) : result (Page T) :=
  if limit <? Z.of_nat (length items) then
    match items !! Z.to_nat (limit - 1) with
    | None => Panic "index out of range"
    | Some last => Ok (MkPage (take (Z.to_nat limit) items) (Encode (cursorOf last)))
    end
  else Ok (MkPage items EmptyString).

(** [hexOrEmpty] of a column: NULL is an invalid Numeric. *)
Definition hexOrEmpty (n : Numeric) : result string :=
  if negb (num_Valid n) then Ok EmptyString
  else match NumericToAmount n with
       | Ok a => Ok (Hex a)
       | Err _ => Ok EmptyString
       | Panic p => Panic p
       end.

Definition null_numeric : Numeric := MkNumeric None 0 false Finite false.
Definition read_numeric (o : option Z) : Numeric :=
  match o with Some v => pg_numeric_out v | None => null_numeric end.

Definition str (o : option string) : string := default EmptyString o.
Definition deref (t : option Time) : Time := default 0 t.

Record Payment := MkPayment {
  py_PaymentHash : string; py_Direction : string; py_Status : string; py_Asset : string;
  py_Amount : string; py_Fee : string; py_Peer : string;
  py_CreatedAt : option Time; py_UpdatedAt : option Time
}.

Record Channel := MkChannel {
  cn_ChannelID : string; cn_Peer : string; cn_State : string; cn_Capacity : string;
  cn_LocalBalance : string; cn_RemoteBalance : string;
  cn_OpenedAt : option Time; cn_ClosedAt : option Time
}.

(** The [Event] of this package, a row of the store. *)
Record EventView := MkEventView {
  v_ID : string; v_Type : string; v_FiberRef : string; v_Asset : string;
  v_Amount : string; v_Data : string; v_OccurredAt : Time
}.

Record StatRow := MkStatRow { st_Asset : string; st_Count : Z; st_Total : string }.

Record PaymentFilter := MkPaymentFilter {
  pf_Direction : string; pf_Status : string; pf_Asset : string; pf_Peer : string;
  pf_From : option Time; pf_To : option Time
}.
Record ChannelFilter := MkChannelFilter { cf_State : string; cf_Peer : string }.
Record EventFilter := MkEventFilter {
  ef_Type : string; ef_From : option Time; ef_To : option Time
}.

(** Scanning one row of each listing. *)
Definition scan_payment (x : string * PaymentRow) : result Payment :=
  amount ← hexOrEmpty (read_numeric (p_amount x.2));
  fee ← hexOrEmpty (read_numeric (p_fee x.2));
  Ok (MkPayment x.1 (p_direction x.2) (p_status x.2) (str (p_asset x.2)) amount fee
        (str (p_peer x.2)) (p_created_at x.2) (p_updated_at x.2)).

Definition scan_channel (x : string * ChannelRow) : result Channel :=
  capa ← hexOrEmpty (read_numeric (ch_capacity x.2));
  local ← hexOrEmpty (read_numeric (ch_local_balance x.2));
  remote ← hexOrEmpty (read_numeric (ch_remote_balance x.2));
  Ok (MkChannel x.1 (str (ch_peer x.2)) (str (ch_state x.2)) capa local remote
        (ch_opened_at x.2) (ch_closed_at x.2)).

Definition scan_event (x : string * EventRow) : result EventView :=
  amount ← hexOrEmpty (read_numeric (ev_amount x.2));
  Ok (MkEventView x.1 (ev_type x.2) (str (ev_fiber_ref x.2)) (str (ev_asset x.2)) amount
        (ev_data x.2) (ev_occurred_at x.2)).

(** [for rows.Next() { ... items = append(items, x) }] *)
Fixpoint scan_rows {A B} (scan : A -> result B) (rows : list A) : result (list B) :=
  match rows with
  | [] => Ok []
  | x :: xs => y ← scan x; ys ← scan_rows scan xs; Ok (y :: ys)
  end.

(** ** The repository *)

Definition payment_conds (f : PaymentFilter) (cur : Cursor) : conds :=
  keyset "created_at" "payment_hash" cur
    (tsRange "created_at" (pf_From f) (pf_To f)
      (c_eq "peer" (pf_Peer f) (c_eq "asset" (pf_Asset f)
        (c_eq "status" (pf_Status f) (c_eq "direction" (pf_Direction f) no_conds))))).

Definition payment_cursor (p : Payment) : Cursor :=
  MkCursor (deref (py_CreatedAt p)) (py_PaymentHash p).

Definition Payments (f : PaymentFilter) (cur : Cursor) (limit : Z) : M (Page Payment) :=
  let limit := clampLimit limit in
  rows ← wrapping "query: payments: " (select 1 (fun d =>
    Ok (select_page payment_col p_created_at (payment_conds f cur) (limit + 1) (payments d))));
  items ← lift (scan_rows scan_payment rows);
  lift (paginate items limit payment_cursor).

Definition channel_conds (f : ChannelFilter) (cur : Cursor) : conds :=
  keyset "opened_at" "channel_id" cur
    (c_eq "peer" (cf_Peer f) (c_eq "state" (cf_State f) no_conds)).

Definition channel_cursor (c : Channel) : Cursor :=
  MkCursor (deref (cn_OpenedAt c)) (cn_ChannelID c).

Definition Channels (f : ChannelFilter) (cur : Cursor) (limit : Z) : M (Page Channel) :=
  let limit := clampLimit limit in
  rows ← wrapping "query: channels: " (select 1 (fun d =>
    Ok (select_page channel_col ch_opened_at (channel_conds f cur) (limit + 1) (channels d))));
  items ← lift (scan_rows scan_channel rows);
  lift (paginate items limit channel_cursor).

Definition event_conds (f : EventFilter) (cur : Cursor) : conds :=
  keyset "occurred_at" "id" cur
    (tsRange "occurred_at" (ef_From f) (ef_To f) (c_eq "type" (ef_Type f) no_conds)).

Definition event_cursor (e : EventView) : Cursor := MkCursor (v_OccurredAt e) (v_ID e).
Definition event_ts (r : EventRow) : option Time := Some (ev_occurred_at r).

Definition Events (f : EventFilter) (cur : Cursor) (limit : Z) : M (Page EventView) :=
  let limit := clampLimit limit in
  rows ← wrapping "query: events: " (select 1 (fun d =>
    Ok (select_page event_col event_ts (event_conds f cur) (limit + 1) (events d))));
  items ← lift (scan_rows scan_event rows);
  lift (paginate items limit event_cursor).

(** [QueryRow(...).Scan(...)] by primary key, then the scan of the row. *)
Definition by_key {R A} (tbl : Database -> gmap string R) (scan : string * R -> result A)
    (what key : string) : M A :=
  r ← attempt (select 1 (fun d =>
    match tbl d !! key with Some r => Ok r | None => Err (ESent PgxErrNoRows) end));
  match r with
  | inl e => if errors_Is e PgxErrNoRows then throw (ESent QueryErrNotFound)
             else throw (EWrap what e EmptyString)
  | inr row => lift (scan (key, row))
  end.

Definition PaymentByHash (hash : string) : M Payment :=
  by_key payments scan_payment "query: payment by hash: " hash.
Definition ChannelByID (id : string) : M Channel :=
  by_key channels scan_channel "query: channel by id: " id.

(** SELECT COALESCE(asset, 'unknown'), count, COALESCE(sum(amount), 0) ... *)
Definition stat_asset (x : string * PaymentRow) : string := default "unknown" (p_asset x.2).
Definition stat_rows (c : conds) (d : Database) : list (string * list (string * PaymentRow)) :=
  group_by stat_asset
    (filter (fun x => holds_all c (payment_col x) = true) (scan_table (payments d))).

Definition scan_stat (g : string * list (string * PaymentRow)) : result StatRow :=
  total ← hexOrEmpty (pg_numeric_out (sql_sum ((fun x => p_amount x.2) <$> g.2)));
  Ok (MkStatRow g.1 (Z.of_nat (length g.2)) total).

Definition StatsPayments (from to : option Time) : M (list StatRow) :=
  let c := tsRange "created_at" from to no_conds in
  rows ← wrapping "query: stats: " (select 1 (fun d => Ok (stat_rows c d)));
  lift (scan_rows scan_stat rows).
End query.
Arguments MkPage {_} _ _.
Arguments Items {_} _.
Arguments NextCursor {_} _.
