(* ===== verification/QueryApi.v ===== *)
(** * The read-side handlers (internal/query/handlers.go)

    Each endpoint: decode the parameters, run the repository call, render. *)

From S2P Require Import Prelude Strconv GoTime External Schema Http Query.

Section rendering.
Context {PG : Postgres}.

Definition payment_json (p : Payment) : json :=
  JObj ([("payment_hash", JStr (py_PaymentHash p)); ("direction", JStr (py_Direction p));
         ("status", JStr (py_Status p))]
        ++ omitempty "asset" (py_Asset p) ++ omitempty "amount" (py_Amount p)
        ++ omitempty "fee" (py_Fee p) ++ omitempty "peer" (py_Peer p)
        ++ omitnil "created_at" JTime (py_CreatedAt p)
        ++ omitnil "updated_at" JTime (py_UpdatedAt p)).

Definition channel_json (c : Channel) : json :=
  JObj ([("channel_id", JStr (cn_ChannelID c))]
        ++ omitempty "peer" (cn_Peer c) ++ omitempty "state" (cn_State c)
        ++ omitempty "capacity" (cn_Capacity c) ++ omitempty "local_balance" (cn_LocalBalance c)
        ++ omitempty "remote_balance" (cn_RemoteBalance c)
        ++ omitnil "opened_at" JTime (cn_OpenedAt c)
        ++ omitnil "closed_at" JTime (cn_ClosedAt c)).

Definition event_json (e : EventView) : json :=
  JObj ([("id", JStr (v_ID e)); ("type", JStr (v_Type e))]
        ++ omitempty "fiber_ref" (v_FiberRef e) ++ omitempty "asset" (v_Asset e)
        ++ omitempty "amount" (v_Amount e)
        ++ [("data", JRaw (v_Data e)); ("occurred_at", JTime (v_OccurredAt e))]).

Definition stat_json (s : StatRow) : json :=
  JObj [("asset", JStr (st_Asset s)); ("count", JInt (st_Count s)); ("total", JStr (st_Total s))].

(** A slice that was never appended to is nil, which marshals as null. *)
Definition slice_json {A} (f : A -> json) (l : list A) : json :=
  match l with [] => JNull | _ => JArr (f <$> l) end.

Definition page_json {A} (f : A -> json) (p : Page A) : json :=
  JObj ([("items", slice_json f (Items p))] ++ omitempty "next_cursor" (NextCursor p)).

End rendering.

Section handlers.
Context {FT : Fibertypes} {PG : Postgres} {TP : TimeParser}.

(** [x, err := ...; if err != nil { httpx.Error(w, 400, pre+err.Error()); return }] *)
Definition or_bad {A} (pre : string) (r : result A) (k : A -> M response) : M response :=
  match r with
  | Ok a => k a
  | Err e => mret (Error StatusBadRequest (pre +:+ error_text e))
  | Panic p => lift (Panic p)
  end.

Definition listPayments {B} (r : request B) : M response :=
  or_bad EmptyString (DecodeCursor (Query_Get r "cursor")) (fun cur =>
  or_bad "invalid from: " (QueryTime r "from") (fun from =>
  or_bad "invalid to: " (QueryTime r "to") (fun to =>
    let f := MkPaymentFilter (Query_Get r "direction") (Query_Get r "status")
               (Query_Get r "asset") (Query_Get r "peer") from to in
    or_error StatusInternalServerError (Payments f cur (QueryInt r "limit" 50))
      (fun page => mret (JSON StatusOK (page_json payment_json page)))))).

(** The single-row handlers: 404 when nothing matches. *)
Definition get_one {A} (m : M A) (missing : string) (f : A -> json) : M response :=
  r ← attempt m;
  match r with
  | inl e =>
      if errors_Is e QueryErrNotFound then mret (Error StatusNotFound missing)
      else mret (Error StatusInternalServerError (error_text e))
  | inr a => mret (JSON StatusOK (f a))
  end.

Definition getPayment {B} (r : request B) : M response :=
  get_one (PaymentByHash (URLParam r "payment_hash")) "payment not found" payment_json.

Definition listChannels {B} (r : request B) : M response :=
  or_bad EmptyString (DecodeCursor (Query_Get r "cursor")) (fun cur =>
    let f := MkChannelFilter (Query_Get r "state") (Query_Get r "peer") in
    or_error StatusInternalServerError (Channels f cur (QueryInt r "limit" 50))
      (fun page => mret (JSON StatusOK (page_json channel_json page)))).

Definition getChannel {B} (r : request B) : M response :=
  get_one (ChannelByID (URLParam r "channel_id")) "channel not found" channel_json.

Definition listEvents {B} (r : request B) : M response :=
  or_bad EmptyString (DecodeCursor (Query_Get r "cursor")) (fun cur =>
  or_bad "invalid from: " (QueryTime r "from") (fun from =>
  or_bad "invalid to: " (QueryTime r "to") (fun to =>
    let f := MkEventFilter (Query_Get r "type") from to in
    or_error StatusInternalServerError (Events f cur (QueryInt r "limit" 50))
      (fun page => mret (JSON StatusOK (page_json event_json page)))))).

Definition statsPayments {B} (r : request B) : M response :=
  or_bad "invalid from: " (QueryTime r "from") (fun from =>
  or_bad "invalid to: " (QueryTime r "to") (fun to =>
    or_error StatusInternalServerError (StatsPayments from to)
      (fun stats => mret (JSON StatusOK
         (JObj [("buckets", slice_json stat_json stats); ("group_by", JStr "asset")]))))).
End handlers.
