(* ===== verification/QueryFacts.v ===== *)
(** * Lemmas on the read side

    The cursor codec; the [conds] builder means the conjunction it is meant to; a
    keyset page is the next stretch of the one sorted listing. *)

From S2P Require Import Prelude Strconv Base64 GoTime External Schema Numeric Sql Http Query.

(** ** Cursors *)

Section cursor.
Context {TP : TimeParser}.

Lemma DecodeCursor_Encode c :
  printable_time (cur_Time c) -> DecodeCursor (Encode c) = Ok c.
Proof.
  intros Ht. unfold DecodeCursor, Encode. rewrite bool_decide_false.
  - rewrite DecodeString_EncodeToString. cbn [wrap_err]. unfold mbind, result_bind.
    rewrite strings_Cut_app by (by apply format_no_bar).
    rewrite time_Parse_format by done. by destruct c.
  - apply EncodeToString_nonempty. intros E.
    apply (f_equal (str_mem bar)) in E. rewrite str_mem_app in E. cbn in E.
    by rewrite orb_true_r in E.
Qed.

Lemma Encode_nonempty c : Encode c ≠ EmptyString.
Proof.
  apply EncodeToString_nonempty. intros E.
  apply (f_equal (str_mem bar)) in E. rewrite str_mem_app in E. cbn in E.
  by rewrite orb_true_r in E.
Qed.
End cursor.

(** ** The builder *)

(** Every placeholder names an argument of the type its condition compares. *)
Definition cond_ok (l : list arg) (c : cond) : Prop :=
  match c with
  | CEq _ n => ∃ s, arg_at l n = Some (AText s)
  | CGe _ n | CLe _ n => ∃ t, arg_at l n = Some (ATime t)
  | CRowLt _ _ n m => ∃ t s, arg_at l n = Some (ATime t) ∧ arg_at l m = Some (AText s)
  end.

Definition conds_ok (c : conds) : Prop := Forall (cond_ok (args c)) (where_ c).

Lemma arg_at_app l l' n x : arg_at l n = Some x -> arg_at (l ++ l') n = Some x.
Proof. apply lookup_app_l_Some. Qed.

Lemma arg_at_last l x : arg_at (l ++ [x]) (len_args (l ++ [x])) = Some x.
Proof.
  unfold arg_at, len_args. rewrite length_app. cbn.
  replace (Z.to_nat (Z.of_nat (length l + 1) - 1)) with (length l) by lia.
  by rewrite lookup_app_r, Nat.sub_diag.
Qed.

Lemma cond_ok_app l l' c : cond_ok l c -> cond_ok (l ++ l') c.
Proof.
  destruct c; cbn.
  1-3: intros [x H]; exists x; by apply arg_at_app.
  intros (t & s & H1 & H2). exists t, s. split; by apply arg_at_app.
Qed.

Section means.
Context {FT : Fibertypes} {PG : Postgres}.

Lemma holds_app l l' val c : cond_ok l c -> holds (l ++ l') val c = holds l val c.
Proof.
  destruct c; cbn; intros H.
  1-3: destruct H as [x H]; by rewrite (arg_at_app _ _ _ _ H), H.
  destruct H as (t & s & H1 & H2).
  by rewrite (arg_at_app _ _ _ _ H1), (arg_at_app _ _ _ _ H2), H1, H2.
Qed.

(** Appending one condition over appended arguments. *)
Lemma conds_snoc c l x :
  conds_ok c -> cond_ok (args c ++ l) x ->
  conds_ok (MkConds (where_ c ++ [x]) (args c ++ l)) ∧
  forall val, holds_all (MkConds (where_ c ++ [x]) (args c ++ l)) val
    = holds_all c val && holds (args c ++ l) val x.
Proof.
  intros Hc Hx. split.
  - apply Forall_app. split; [|by repeat constructor].
    eapply list.Forall_impl; [exact Hc|]. intros y. apply cond_ok_app.
  - intros val. unfold holds_all. cbn. rewrite forallb_app. cbn. rewrite andb_true_r. f_equal.
    induction Hc as [|y ys Hy _ IH]; [done|]. cbn. by rewrite holds_app, IH.
Qed.

(** Whether a text column passes an [eq] filter. *)
Definition eq_filter (v : SqlValue) (val : string) : bool :=
  bool_decide (val = EmptyString)
  || match v with VText s => bool_decide (s = val) | _ => false end.

Definition range_filter (v : SqlValue) (from to : option Time) : bool :=
  match from with
  | None => true
  | Some a => match v with VTime t => timestamptz a <=? t | _ => false end
  end &&
  match to with
  | None => true
  | Some b => match v with VTime t => t <=? timestamptz b | _ => false end
  end.

(** Strictly after the cursor in the listing. *)
Definition keyset_filter (vt vi : SqlValue) (cur : Cursor) : bool :=
  IsZero cur ||
  match vt, vi with
  | VTime t, VText i =>
      (t <? timestamptz (cur_Time cur))
      || ((t =? timestamptz (cur_Time cur))
          && (pg_text_le i (cur_ID cur) && negb (bool_decide (i = cur_ID cur))))
  | _, _ => false
  end.

Lemma c_eq_means col s c :
  conds_ok c -> conds_ok (c_eq col s c) ∧
  forall val, holds_all (c_eq col s c) val = holds_all c val && eq_filter (val col) s.
Proof.
  intros Hc. unfold c_eq, eq_filter. case_bool_decide as E.
  - split; [done|]. intros val. by rewrite andb_true_r.
  - destruct (conds_snoc c [AText s] (CEq col (len_args (args c ++ [AText s]))) Hc) as [H1 H2].
    { exists s. apply arg_at_last. }
    split; [done|]. intros val. rewrite H2. cbn. rewrite arg_at_last. by destruct (val col).
Qed.

Lemma tsRange_means col from to c :
  conds_ok c -> conds_ok (tsRange col from to c) ∧
  forall val, holds_all (tsRange col from to c) val
    = holds_all c val && range_filter (val col) from to.
Proof.
  intros Hc. unfold tsRange, range_filter.
  assert (conds_ok (match from with None => c | Some t =>
      MkConds (where_ c ++ [CGe col (len_args (args c ++ [ATime t]))]) (args c ++ [ATime t]) end) ∧
    forall val, holds_all (match from with None => c | Some t =>
      MkConds (where_ c ++ [CGe col (len_args (args c ++ [ATime t]))]) (args c ++ [ATime t]) end) val
      = holds_all c val && match from with None => true | Some a =>
          match val col with VTime t => timestamptz a <=? t | _ => false end end) as [Hc1 H1].
  { destruct from as [a|]; [|split; [done|]; intros; by rewrite andb_true_r].
    destruct (conds_snoc c [ATime a] (CGe col (len_args (args c ++ [ATime a]))) Hc) as [H1 H2].
    { exists a. apply arg_at_last. }
    split; [done|]. intros val. rewrite H2. cbn. rewrite arg_at_last. by destruct (val col). }
  destruct to as [b|]; [|split; [done|]; intros; by rewrite H1, andb_true_r].
  match type of Hc1 with conds_ok ?x => set (c1 := x) in * end. clearbody c1.
  destruct (conds_snoc c1 [ATime b] (CLe col (len_args (args c1 ++ [ATime b]))) Hc1) as [H2 H3].
  { exists b. apply arg_at_last. }
  split; [exact H2|]. intros val. rewrite H3, H1, <- andb_assoc. f_equal. f_equal.
  cbn. rewrite arg_at_last. by destruct (val col).
Qed.

Lemma keyset_means tsCol idCol cur c :
  conds_ok c -> conds_ok (keyset tsCol idCol cur c) ∧
  forall val, holds_all (keyset tsCol idCol cur c) val
    = holds_all c val && keyset_filter (val tsCol) (val idCol) cur.
Proof.
  intros Hc. unfold keyset, keyset_filter. destruct (IsZero cur).
  { split; [done|]. intros. by rewrite andb_true_r. }
  set (a := args c ++ [ATime (cur_Time cur); AText (cur_ID cur)]).
  assert (arg_at a (len_args a - 1) = Some (ATime (cur_Time cur))) as Ha1.
  { unfold a, arg_at, len_args. rewrite length_app. cbn.
    replace (Z.to_nat (Z.of_nat (length (args c) + 2) - 1 - 1)) with (length (args c)) by lia.
    by rewrite lookup_app_r, Nat.sub_diag. }
  assert (arg_at a (len_args a) = Some (AText (cur_ID cur))) as Ha2.
  { unfold a. change [ATime (cur_Time cur); AText (cur_ID cur)]
      with ([ATime (cur_Time cur)] ++ [AText (cur_ID cur)]).
    rewrite app_assoc. apply arg_at_last. }
  destruct (conds_snoc c [ATime (cur_Time cur); AText (cur_ID cur)]
    (CRowLt tsCol idCol (len_args a - 1) (len_args a)) Hc) as [H1 H2].
  { exists (cur_Time cur), (cur_ID cur). by split. }
  split; [done|]. intros val. rewrite H2. cbn [holds]. fold a. rewrite Ha1, Ha2.
  by destruct (val tsCol), (val idCol).
Qed.

Lemma no_conds_ok : conds_ok no_conds.
Proof. constructor. Qed.
End means.

(** ** Keyset pages *)

Section listing.
Context {FT : Fibertypes} {PG : Postgres} {PGL : PostgresLaws}.
Context {R : Type} (col : string * R -> string -> SqlValue) (ts : R -> option Time).
Context (tsCol idCol : string).
Context (Hts : forall x, col x tsCol = vtime (ts x.2)) (Hid : forall x, col x idCol = VText x.1).

(** The whole answer, unpaginated. *)
Definition listing (c : conds) (t : gmap string R) : list (string * R) :=
  merge_sort (desc_order ts) (filter (fun x => holds_all c (col x) = true) (scan_table t)).

Definition row_cursor (x : string * R) : Cursor := MkCursor (deref (ts x.2)) x.1.

(** Rows as the database holds them: a timestamp, at its resolution, in the years
    RFC 3339 can print, and a cursor that is not the start position. *)
Definition row_ok (x : string * R) : Prop :=
  ∃ t, ts x.2 = Some t ∧ timestamptz t = t ∧ printable_time t ∧ IsZero (MkCursor t x.1) = false.

Lemma elem_of_listing c t k r :
  (k, r) ∈ listing c t <-> t !! k = Some r ∧ holds_all c (col (k, r)) = true.
Proof.
  unfold listing. rewrite merge_sort_Permutation, list_elem_of_filter, elem_of_scan_table. tauto.
Qed.

Lemma listing_NoDup c t : NoDup (listing c t).*1.
Proof.
  unfold listing. rewrite merge_sort_Permutation. apply NoDup_fst_filter, scan_table_NoDup.
Qed.

Lemma listing_sorted c t : StronglySorted (desc_order ts) (listing c t).
Proof. apply StronglySorted_merge_sort; apply _. Qed.

(** Strictly after [x]: what the row comparison says of good rows. *)
Lemma keyset_filter_after x y :
  row_ok x -> row_ok y ->
  keyset_filter (col y tsCol) (col y idCol) (row_cursor x) = true <-> ¬ desc_order ts y x.
Proof.
  intros (tx & Ex & Hx & _ & Hz) (ty & Ey & Hy & _). unfold keyset_filter, row_cursor, desc_order.
  rewrite Hts, Hid, Ex, Ey. cbn. rewrite Hz, Hx. cbn. rewrite orb_true_iff, !andb_true_iff.
  rewrite negb_true_iff, bool_decide_eq_false, Z.ltb_lt, Z.eqb_eq.
  case_bool_decide as E.
  - injection E as ->. destruct (pg_text_total y.1 x.1) as [H|H].
    + split; [intros [?|(_ & _ & Hne)] H'; [lia|by apply Hne, pg_text_antisym]|].
      intros H'. right. split_and!; [done|done|]. intros E. by rewrite E, pg_text_refl in H'.
    + split; [intros [?|(_ & H' & Hne)] _; [lia|by apply Hne, pg_text_antisym]|].
      intros H'. by destruct H'.
  - rewrite Z.leb_le. assert (tx ≠ ty) by congruence. split; [intros [?|[? _]]; lia|].
    intros. left. lia.
Qed.

(** The rows strictly after [x] in a sorted list of good rows that holds it. *)
Lemma filter_after l1 x l2 :
  NoDup (l1 ++ x :: l2).*1 -> StronglySorted (desc_order ts) (l1 ++ x :: l2) ->
  (forall y, y ∈ l1 ++ x :: l2 -> row_ok y) ->
  filter (fun y => keyset_filter (col y tsCol) (col y idCol) (row_cursor x) = true)
    (l1 ++ x :: l2) = l2.
Proof.
  intros Hnd Hs Hok. rewrite list.filter_app, list.filter_cons.
  assert (row_ok x) as Hx by (apply Hok, elem_of_app; right; left).
  assert (filter (fun y => keyset_filter (col y tsCol) (col y idCol) (row_cursor x) = true) l1
    = []) as ->.
  { apply filter_none. intros y Hy.
    rewrite keyset_filter_after by (done || apply Hok, elem_of_app; by left).
    intros H. apply H, (StronglySorted_app_1_elem_of _ _ _ y x Hs); [done|left]. }
  rewrite decide_False by (rewrite keyset_filter_after by done;
    intros H; apply H; unfold desc_order; rewrite bool_decide_true by done; apply pg_text_refl).
  cbn. apply filter_all. intros y Hy.
  apply keyset_filter_after; [done|apply Hok, elem_of_app; right; by right|].
  intros Hyx. apply StronglySorted_app_1_r, StronglySorted_inv in Hs as [_ Hx2].
  rewrite list.Forall_forall in Hx2. pose proof (desc_order_antisym ts x y (Hx2 y Hy) Hyx) as E.
  rewrite fmap_app, fmap_cons in Hnd. apply list.NoDup_app in Hnd as (_ & _ & Hnd).
  apply list.NoDup_cons in Hnd as [Hn _]. apply Hn. rewrite E. apply list_elem_of_fmap.
  by exists y.
Qed.

Context (base : conds) (Hbase : conds_ok base) (t : gmap string R).

Lemma select_page_start n :
  select_page col ts (keyset tsCol idCol zero_Cursor base) n t
  = take (Z.to_nat n) (listing base t).
Proof. done. Qed.

(** The next page: the rows that follow the cursor's row in the listing. *)
Lemma select_page_after l1 x l2 n :
  listing base t = l1 ++ x :: l2 -> (forall y, y ∈ listing base t -> row_ok y) ->
  select_page col ts (keyset tsCol idCol (row_cursor x) base) n t = take (Z.to_nat n) l2.
Proof.
  intros El Hok. unfold select_page. f_equal.
  pose proof (listing_NoDup base t) as Hnd. pose proof (listing_sorted base t) as Hs.
  rewrite El in Hnd, Hs, Hok. rewrite <- (filter_after l1 x l2 Hnd Hs Hok), <- El.
  unfold listing. rewrite <- merge_sort_filter by apply NoDup_fst_filter, scan_table_NoDup.
  f_equal. rewrite list_filter_filter. apply list_filter_iff. intros y.
  destruct (keyset_means tsCol idCol (row_cursor x) base Hbase) as [_ ->].
  rewrite andb_true_iff. tauto.
Qed.
End listing.

(** Good rows, checked. *)
Lemma row_ok_check {R} (ts : R -> option Time) l :
  forallb (fun x => match ts x.2 with
    | Some t => (timestamptz t =? t) && (0 <=? c_year (to_civil t))
        && (c_year (to_civil t) <=? 9999) && negb (IsZero (MkCursor t x.1))
    | None => false end) l = true ->
  forall x, x ∈ l -> row_ok ts x.
Proof.
  rewrite forallb_forall. intros H x Hx%list_elem_of_In. specialize (H x Hx).
  destruct (ts x.2) as [t|] eqn:E; [|done]. apply andb_prop in H as [[[H1 H2]%andb_prop H3]%andb_prop H4].
  exists t. split_and!; [done|by apply Z.eqb_eq|split; by apply Z.leb_le|].
  by apply negb_true_iff.
Qed.

(** ** Walking the pages *)

Section walk.
Context {TP : TimeParser}.

(** A client that follows [next_cursor] until it is empty. *)
Fixpoint walk {T} (fuel : nat) (fetch : Cursor -> result (Page T)) (cur : Cursor)
  : result (list T) :=
  match fuel with
  | O => Err (EText "out of fuel")
  | S fuel' =>
      p ← fetch cur;
      if bool_decide (NextCursor p = EmptyString) then Ok (Items p)
      else
        c ← DecodeCursor (NextCursor p);
        rest ← walk fuel' fetch c;
        Ok (Items p ++ rest)
  end.

Lemma paginate_spec {A T} (f : A -> T) (cu : T -> Cursor) (l : list A) (limit : Z) :
  1 <= limit ->
  paginate (f <$> take (Z.to_nat (limit + 1)) l) limit cu =
    if limit <? Z.of_nat (length l) then
      match l !! Z.to_nat (limit - 1) with
      | None => Panic "index out of range"
      | Some x => Ok (MkPage (f <$> take (Z.to_nat limit) l) (Encode (cu (f x))))
      end
    else Ok (MkPage (f <$> l) EmptyString).
Proof.
  intros Hl. unfold paginate. rewrite length_fmap, length_take.
  destruct (Z.ltb_spec limit (Z.of_nat (length l))).
  - rewrite (proj2 (Z.ltb_lt _ _)) by lia.
    rewrite list_lookup_fmap, lookup_take_lt by lia.
    destruct (l !! Z.to_nat (limit - 1)); [|done]. cbn.
    by rewrite <- fmap_take, take_take, Nat.min_l by lia.
  - rewrite (proj2 (Z.ltb_ge _ _)) by lia. rewrite take_ge by lia. done.
Qed.

(** Following the cursors of a listing visits every row of it once, in order. *)
Lemma walk_listing {A T} (f : A -> T) (cu : T -> Cursor) (L : list A) (limit : Z) fetch n :
  1 <= limit -> (length L < n)%nat -> (forall x, x ∈ L -> printable_time (cur_Time (cu (f x)))) ->
  fetch zero_Cursor = paginate (f <$> take (Z.to_nat (limit + 1)) L) limit cu ->
  (forall l1 x l2, L = l1 ++ x :: l2 ->
     fetch (cu (f x)) = paginate (f <$> take (Z.to_nat (limit + 1)) l2) limit cu) ->
  walk n fetch zero_Cursor = Ok (f <$> L).
Proof.
  intros Hl Hn Hpr Hzero Hnext.
  assert (forall fuel l1 l2 cur, L = l1 ++ l2 -> (length l2 < fuel)%nat ->
    fetch cur = paginate (f <$> take (Z.to_nat (limit + 1)) l2) limit cu ->
    walk fuel fetch cur = Ok (f <$> l2)) as H; [|by apply (H _ []); [|lia|]].
  induction fuel as [|fuel IH]; intros l1 l2 cur EL Hf Hfetch; [lia|].
  cbn [walk]. rewrite Hfetch, paginate_spec by done. unfold mbind, result_bind.
  destruct (Z.ltb_spec limit (Z.of_nat (length l2))) as [Hlen|Hlen];
    [|cbn; by rewrite bool_decide_true].
  destruct (l2 !! Z.to_nat (limit - 1)) as [x|] eqn:Ex;
    [|apply lookup_ge_None in Ex; lia].
  cbn [NextCursor Items].
  assert (x ∈ L) as Hx by (rewrite EL; apply elem_of_app; right; by eapply list_elem_of_lookup_2).
  rewrite bool_decide_false by apply Encode_nonempty.
  rewrite DecodeCursor_Encode by auto.
  pose proof (take_drop_middle l2 _ x Ex) as E2.
  replace (S (Z.to_nat (limit - 1))) with (Z.to_nat limit) in E2 by lia.
  assert (L = (l1 ++ take (Z.to_nat (limit - 1)) l2) ++ x :: drop (Z.to_nat limit) l2) as E3.
  { by rewrite <- app_assoc, E2. }
  rewrite (IH (l1 ++ take (Z.to_nat limit) l2) (drop (Z.to_nat limit) l2)).
  - by rewrite <- fmap_app, take_drop.
  - by rewrite <- app_assoc, take_drop.
  - rewrite length_drop. lia.
  - by apply (Hnext _ _ _ E3).
Qed.
End walk.
