(* ===== verification/QueryProps.v ===== *)
(** * What the read side guarantees

    The cursor codec, the meaning of the filters, complete and duplicate-free
    pagination of the three listings, page bounds, statistics, lookups. *)

From S2P Require Import Prelude Strconv Base64 GoTime External Schema Numeric Tables Sql IndexerTotal Http Query QueryApi QueryFacts.

(** ** Lemmas the theorems share *)

Section lemmas.
Context {FT : Fibertypes} {PG : Postgres} {PGL : PostgresLaws}.

(** The text [hexOrEmpty] answers. *)
Definition hex_of (n : Numeric) : string :=
  match hexOrEmpty n with Ok s => s | _ => EmptyString end.

Lemma hexOrEmpty_repr n v : numeric_repr n v -> hexOrEmpty n = Ok (hex_of n).
Proof.
  intros H. unfold hex_of, hexOrEmpty. rewrite (NumericToAmount_repr n v H).
  destruct H as (-> & _). cbn [negb]. destruct (v <? 0); [done|].
  by destruct (ParseAmount _) as [a [e|]].
Qed.

Lemma hexOrEmpty_col o : hexOrEmpty (read_numeric o) = Ok (hex_of (read_numeric o)).
Proof. destruct o as [v|]; [|done]. eapply hexOrEmpty_repr, pg_numeric_out_repr. Qed.

Definition view_payment (x : string * PaymentRow) : Payment :=
  MkPayment x.1 (p_direction x.2) (p_status x.2) (str (p_asset x.2))
    (hex_of (read_numeric (p_amount x.2))) (hex_of (read_numeric (p_fee x.2)))
    (str (p_peer x.2)) (p_created_at x.2) (p_updated_at x.2).

Definition view_channel (x : string * ChannelRow) : Channel :=
  MkChannel x.1 (str (ch_peer x.2)) (str (ch_state x.2))
    (hex_of (read_numeric (ch_capacity x.2))) (hex_of (read_numeric (ch_local_balance x.2)))
    (hex_of (read_numeric (ch_remote_balance x.2))) (ch_opened_at x.2) (ch_closed_at x.2).

Definition view_event (x : string * EventRow) : EventView :=
  MkEventView x.1 (ev_type x.2) (str (ev_fiber_ref x.2)) (str (ev_asset x.2))
    (hex_of (read_numeric (ev_amount x.2))) (ev_data x.2) (ev_occurred_at x.2).

Lemma scan_rows_map {A B} (scan : A -> result B) (f : A -> B) l :
  (forall x, scan x = Ok (f x)) -> scan_rows scan l = Ok (f <$> l).
Proof.
  intros Hs. induction l as [|x l IH]; [done|]. cbn [scan_rows]. by rewrite Hs, IH.
Qed.

Lemma scan_payment_ok x : scan_payment x = Ok (view_payment x).
Proof. unfold scan_payment. by rewrite !hexOrEmpty_col. Qed.
Lemma scan_channel_ok x : scan_channel x = Ok (view_channel x).
Proof. unfold scan_channel. by rewrite !hexOrEmpty_col. Qed.
Lemma scan_event_ok x : scan_event x = Ok (view_event x).
Proof. unfold scan_event. by rewrite hexOrEmpty_col. Qed.

(** In a healthy world a listing is its page of the table. *)
Lemma page_run {R T} (pre : string) (sel : Database -> list (string * R))
    (scan : string * R -> result T) (f : string * R -> T) (limit : Z) (cu : T -> Cursor) w :
  healthy w -> (forall x, scan x = Ok (f x)) ->
  (rows ← wrapping pre (select 1 (fun d => Ok (sel d)));
   items ← lift (scan_rows scan rows);
   lift (paginate items limit cu)) w = (paginate (f <$> sel (w_db w)) limit cu, w).
Proof.
  intros Hw Hs. erewrite bind_intro by (apply wrapping_run, select_healthy; [done|lia|done]).
  erewrite bind_intro; [reflexivity|]. unfold lift. by rewrite (scan_rows_map scan f).
Qed.

Lemma Payments_run f cur limit w :
  healthy w ->
  Payments f cur limit w =
    (paginate (view_payment <$> select_page payment_col p_created_at (payment_conds f cur)
       (clampLimit limit + 1) (payments (w_db w))) (clampLimit limit) payment_cursor, w).
Proof. intros Hw. by apply (page_run _ (fun d => _)); [|apply scan_payment_ok]. Qed.

Lemma Channels_run f cur limit w :
  healthy w ->
  Channels f cur limit w =
    (paginate (view_channel <$> select_page channel_col ch_opened_at (channel_conds f cur)
       (clampLimit limit + 1) (channels (w_db w))) (clampLimit limit) channel_cursor, w).
Proof. intros Hw. by apply (page_run _ (fun d => _)); [|apply scan_channel_ok]. Qed.

Lemma Events_run f cur limit w :
  healthy w ->
  Events f cur limit w =
    (paginate (view_event <$> select_page event_col event_ts (event_conds f cur)
       (clampLimit limit + 1) (events (w_db w))) (clampLimit limit) event_cursor, w).
Proof. intros Hw. by apply (page_run _ (fun d => _)); [|apply scan_event_ok]. Qed.

Lemma clampLimit_bounds n : 1 <= clampLimit n <= 200.
Proof.
  unfold clampLimit. destruct (Z.leb_spec n 0), (Z.ltb_spec 200 n); lia.
Qed.

(** The filters of each listing, before any cursor. *)
Definition payment_base (f : PaymentFilter) : conds := payment_conds f zero_Cursor.
Definition channel_base (f : ChannelFilter) : conds := channel_conds f zero_Cursor.
Definition event_base (f : EventFilter) : conds := event_conds f zero_Cursor.

Lemma payment_base_means f :
  conds_ok (payment_base f) ∧ forall val, holds_all (payment_base f) val =
    eq_filter (val "direction") (pf_Direction f) && eq_filter (val "status") (pf_Status f)
    && eq_filter (val "asset") (pf_Asset f) && eq_filter (val "peer") (pf_Peer f)
    && range_filter (val "created_at") (pf_From f) (pf_To f).
Proof.
  unfold payment_base, payment_conds. change (keyset ?a ?b zero_Cursor ?c) with c.
  destruct (c_eq_means "direction" (pf_Direction f) no_conds no_conds_ok) as [H1 E1].
  destruct (c_eq_means "status" (pf_Status f) _ H1) as [H2 E2].
  destruct (c_eq_means "asset" (pf_Asset f) _ H2) as [H3 E3].
  destruct (c_eq_means "peer" (pf_Peer f) _ H3) as [H4 E4].
  destruct (tsRange_means "created_at" (pf_From f) (pf_To f) _ H4) as [H5 E5].
  split; [done|]. intros val. by rewrite E5, E4, E3, E2, E1.
Qed.

Lemma channel_base_means f :
  conds_ok (channel_base f) ∧ forall val, holds_all (channel_base f) val =
    eq_filter (val "state") (cf_State f) && eq_filter (val "peer") (cf_Peer f).
Proof.
  unfold channel_base, channel_conds. change (keyset ?a ?b zero_Cursor ?c) with c.
  destruct (c_eq_means "state" (cf_State f) no_conds no_conds_ok) as [H1 E1].
  destruct (c_eq_means "peer" (cf_Peer f) _ H1) as [H2 E2].
  split; [done|]. intros val. by rewrite E2, E1.
Qed.

Lemma event_base_means f :
  conds_ok (event_base f) ∧ forall val, holds_all (event_base f) val =
    eq_filter (val "type") (ef_Type f)
    && range_filter (val "occurred_at") (ef_From f) (ef_To f).
Proof.
  unfold event_base, event_conds. change (keyset ?a ?b zero_Cursor ?c) with c.
  destruct (c_eq_means "type" (ef_Type f) no_conds no_conds_ok) as [H1 E1].
  destruct (tsRange_means "occurred_at" (ef_From f) (ef_To f) _ H1) as [H2 E2].
  split; [done|]. intros val. by rewrite E2, E1.
Qed.

Lemma paginate_length {T} (items : list T) limit cu p :
  1 <= limit -> paginate items limit cu = Ok p -> Z.of_nat (length (Items p)) <= limit.
Proof.
  intros Hl. unfold paginate. destruct (Z.ltb_spec limit (Z.of_nat (length items))).
  - destruct (items !! _); [|done]. intros [= <-]. cbn. rewrite length_take. lia.
  - intros [= <-]. done.
Qed.

(** A page run on any world answers a [paginate] at the clamped limit. *)
Lemma page_bounded {R T} (pre : string) (sel : Database -> list (string * R))
    (scan : string * R -> result T) (limit : Z) (cu : T -> Cursor) w p w' :
  1 <= limit ->
  (rows ← wrapping pre (select 1 (fun d => Ok (sel d)));
   items ← lift (scan_rows scan rows);
   lift (paginate items limit cu)) w = (Ok p, w') ->
  Z.of_nat (length (Items p)) <= limit.
Proof.
  intros Hl H. apply bind_Ok in H as (rows & w1 & _ & H).
  apply bind_Ok in H as (items & w2 & _ & H). unfold lift in H. injection H as H _.
  by eapply paginate_length.
Qed.

(** An aggregate that fits an amount is printed exactly. *)
Lemma hex_of_sum {FTL : FibertypesLaws} v :
  0 <= v < 2 ^ 128 -> hex_of (pg_numeric_out v) = "0x" +:+ big_Text16 v.
Proof.
  intros Hv. unfold hex_of, hexOrEmpty. pose proof (pg_numeric_out_repr v) as Hr.
  destruct (NumericToAmount_u128 _ v Hr Hv) as (a & -> & <-).
  destruct Hr as (-> & _). apply Hex_BigInt.
Qed.

(** A listing has no more rows than its table. *)
Lemma listing_length {R} (col : string * R -> string -> SqlValue) (ts : R -> option Time) c t :
  (length (listing col ts c t) <= size t)%nat.
Proof.
  unfold listing. rewrite merge_sort_Permutation.
  etrans; [apply length_filter|]. by rewrite scan_table_perm, length_map_to_list.
Qed.
End lemmas.

(** ** Theorems *)

Section props.
Context {FT : Fibertypes} {PG : Postgres} {PGL : PostgresLaws} {TP : TimeParser}.
Implicit Types (w : world).

(** C23.  Cursors round trip: decoding an encoded cursor answers it, to the
    nanosecond and for any id, separators and newlines included, whenever the time is
    in a year RFC 3339 can print; so two such cursors never share a token. *)
Theorem cursor_roundtrip c :
  printable_time (cur_Time c) ->
  DecodeCursor (Encode c) = Ok c ∧
  forall c', printable_time (cur_Time c') -> Encode c' = Encode c -> c' = c.
Proof.
  intros Hc. split; [by apply DecodeCursor_Encode|]. intros c' Hc' E.
  pose proof (DecodeCursor_Encode c' Hc') as H. rewrite E, DecodeCursor_Encode in H by done.
  by injection H.
Qed.

(** C13.  Complete pagination of payments: a client that follows [next_cursor] from
    the start until it is empty, at any page size, gets every payment that matches
    the filter exactly once, newest first, provided every matching row has a creation
    time; the walk ends within one page per row. *)
Theorem Payments_pagination f limit w :
  healthy w ->
  let L := listing payment_col p_created_at (payment_base f) (payments (w_db w)) in
  (forall x, x ∈ L -> row_ok p_created_at x) ->
  walk (S (size (payments (w_db w)))) (fun cur => fst (Payments f cur limit w)) zero_Cursor
    = Ok (view_payment <$> L)
  ∧ NoDup (py_PaymentHash <$> (view_payment <$> L))
  ∧ StronglySorted (desc_order p_created_at) L
  ∧ forall k r, (k, r) ∈ L <-> payments (w_db w) !! k = Some r ∧
      eq_filter (VText (p_direction r)) (pf_Direction f)
      && eq_filter (VText (p_status r)) (pf_Status f)
      && eq_filter (vtext (p_asset r)) (pf_Asset f)
      && eq_filter (vtext (p_peer r)) (pf_Peer f)
      && range_filter (vtime (p_created_at r)) (pf_From f) (pf_To f) = true.
Proof.
  intros Hw L Hok. destruct (payment_base_means f) as [Hc Hm]. split_and!.
  - pose proof (clampLimit_bounds limit).
    apply (walk_listing view_payment payment_cursor L (clampLimit limit)); [lia| |..].
    + unfold L. pose proof (listing_length payment_col p_created_at (payment_base f)
        (payments (w_db w))). lia.
    + intros x (t & Ht & _ & Hp & _)%Hok. cbn. by rewrite Ht.
    + by rewrite Payments_run.
    + intros l1 x l2 El. rewrite Payments_run by done. cbn [fst]. do 2 f_equal.
      by apply (select_page_after payment_col p_created_at "created_at" "payment_hash"
        (fun x => eq_refl) (fun x => eq_refl) (payment_base f) Hc (payments (w_db w)) l1 x l2).
  - rewrite <- list_fmap_compose. apply listing_NoDup.
  - apply listing_sorted.
  - intros k r. unfold L. by rewrite elem_of_listing, Hm.
Qed.

(** Complete pagination of channels, in the same terms. *)
Theorem Channels_pagination f limit w :
  healthy w ->
  let L := listing channel_col ch_opened_at (channel_base f) (channels (w_db w)) in
  (forall x, x ∈ L -> row_ok ch_opened_at x) ->
  walk (S (size (channels (w_db w)))) (fun cur => fst (Channels f cur limit w)) zero_Cursor
    = Ok (view_channel <$> L)
  ∧ NoDup (cn_ChannelID <$> (view_channel <$> L))
  ∧ StronglySorted (desc_order ch_opened_at) L
  ∧ forall k r, (k, r) ∈ L <-> channels (w_db w) !! k = Some r ∧
      eq_filter (vtext (ch_state r)) (cf_State f)
      && eq_filter (vtext (ch_peer r)) (cf_Peer f) = true.
Proof.
  intros Hw L Hok. destruct (channel_base_means f) as [Hc Hm]. split_and!.
  - pose proof (clampLimit_bounds limit).
    apply (walk_listing view_channel channel_cursor L (clampLimit limit)); [lia| |..].
    + unfold L. pose proof (listing_length channel_col ch_opened_at (channel_base f)
        (channels (w_db w))). lia.
    + intros x (t & Ht & _ & Hp & _)%Hok. cbn. by rewrite Ht.
    + by rewrite Channels_run.
    + intros l1 x l2 El. rewrite Channels_run by done. cbn [fst]. do 2 f_equal.
      by apply (select_page_after channel_col ch_opened_at "opened_at" "channel_id"
        (fun x => eq_refl) (fun x => eq_refl) (channel_base f) Hc (channels (w_db w)) l1 x l2).
  - rewrite <- list_fmap_compose. apply listing_NoDup.
  - apply listing_sorted.
  - intros k r. unfold L. by rewrite elem_of_listing, Hm.
Qed.

(** Complete pagination of events: their timestamp is never NULL, so only its
    resolution and range are assumed. *)
Theorem Events_pagination f limit w :
  healthy w ->
  let L := listing event_col event_ts (event_base f) (events (w_db w)) in
  (forall x, x ∈ L -> row_ok event_ts x) ->
  walk (S (size (events (w_db w)))) (fun cur => fst (Events f cur limit w)) zero_Cursor
    = Ok (view_event <$> L)
  ∧ NoDup (v_ID <$> (view_event <$> L))
  ∧ StronglySorted (desc_order event_ts) L
  ∧ forall k r, (k, r) ∈ L <-> events (w_db w) !! k = Some r ∧
      eq_filter (VText (ev_type r)) (ef_Type f)
      && range_filter (VTime (ev_occurred_at r)) (ef_From f) (ef_To f) = true.
Proof.
  intros Hw L Hok. destruct (event_base_means f) as [Hc Hm]. split_and!.
  - pose proof (clampLimit_bounds limit).
    apply (walk_listing view_event event_cursor L (clampLimit limit)); [lia| |..].
    + unfold L. pose proof (listing_length event_col event_ts (event_base f)
        (events (w_db w))). lia.
    + intros x (t & [= Ht] & _ & Hp & _)%Hok. cbn. by rewrite Ht.
    + by rewrite Events_run.
    + intros l1 x l2 El. rewrite Events_run by done. cbn [fst]. do 2 f_equal.
      by apply (select_page_after event_col event_ts "occurred_at" "id"
        (fun x => eq_refl) (fun x => eq_refl) (event_base f) Hc (events (w_db w)) l1 x l2).
  - rewrite <- list_fmap_compose. apply listing_NoDup.
  - apply listing_sorted.
  - intros k r. unfold L. by rewrite elem_of_listing, Hm.
Qed.

(** A payment without a creation time cuts the listing short: such rows come
    first, the cursor made from one carries the zero time, and the page after it is
    empty although dated payments remain. *)
Theorem null_timestamp_ends_listing f limit w x :
  healthy w -> p_created_at x.2 = None -> x.1 ≠ EmptyString ->
  (forall k r t, payments (w_db w) !! k = Some r -> p_created_at r = Some t -> 0 < t) ->
  fst (Payments f (payment_cursor (view_payment x)) limit w)
    = Ok (MkPage [] EmptyString).
Proof.
  intros Hw Hn Hid Hpos. rewrite Payments_run by done. cbn [fst].
  destruct (payment_base_means f) as [Hc _].
  destruct (keyset_means "created_at" "payment_hash" (payment_cursor (view_payment x))
    (payment_base f) Hc) as [_ Hm].
  unfold select_page. change (payment_conds f ?c)
    with (keyset "created_at" "payment_hash" c (payment_base f)).
  rewrite filter_none.
  { change (merge_sort (desc_order p_created_at) []) with ([] : list (string * PaymentRow)).
    rewrite take_nil. unfold paginate. cbn [fmap list_fmap length].
    pose proof (clampLimit_bounds limit). rewrite (proj2 (Z.ltb_ge _ _)) by lia. done. }
  intros [k r] Hkr. rewrite elem_of_scan_table in Hkr. rewrite Hm.
  change (payment_col (k, r) "created_at") with (vtime (p_created_at r)).
  change (payment_col (k, r) "payment_hash") with (VText k).
  replace (payment_cursor (view_payment x)) with (MkCursor 0 x.1)
    by (unfold payment_cursor; cbn; by rewrite Hn).
  unfold keyset_filter, IsZero. cbn [cur_Time cur_ID].
  rewrite (bool_decide_false (x.1 = _)), andb_false_r by done. cbn [orb].
  destruct (p_created_at r) as [t|] eqn:Et; cbn [vtime]; [|by rewrite andb_false_r].
  specialize (Hpos k r t Hkr Et). change (timestamptz 0) with 0.
  rewrite (proj2 (Z.ltb_ge t 0)), (proj2 (Z.eqb_neq t 0)) by lia. cbn [orb andb].
  by rewrite andb_false_r.
Qed.

(** C38.  The conditions a query sends mean its filter: for any filters and any cursor, every
    placeholder of the generated WHERE clause names an argument of the type it is
    compared with, and Postgres' reading of the clause on a row, with its NULLs, its row
    comparison and its timestamp resolution, is the filter of the API: equality on each
    given column, the inclusive time range, and, past a cursor, strictly after its row. *)
Theorem conditions_mean_filters f g h from to cur :
  (conds_ok (payment_conds f cur) ∧ conds_ok (channel_conds g cur) ∧ conds_ok (event_conds h cur)
   ∧ conds_ok (tsRange "created_at" from to no_conds)) ∧
  (∀ k r, holds_all (payment_conds f cur) (payment_col (k, r)) =
     eq_filter (VText (p_direction r)) (pf_Direction f)
     && eq_filter (VText (p_status r)) (pf_Status f)
     && eq_filter (vtext (p_asset r)) (pf_Asset f) && eq_filter (vtext (p_peer r)) (pf_Peer f)
     && range_filter (vtime (p_created_at r)) (pf_From f) (pf_To f)
     && keyset_filter (vtime (p_created_at r)) (VText k) cur) ∧
  (∀ k r, holds_all (channel_conds g cur) (channel_col (k, r)) =
     eq_filter (vtext (ch_state r)) (cf_State g) && eq_filter (vtext (ch_peer r)) (cf_Peer g)
     && keyset_filter (vtime (ch_opened_at r)) (VText k) cur) ∧
  (∀ k r, holds_all (event_conds h cur) (event_col (k, r)) =
     eq_filter (VText (ev_type r)) (ef_Type h)
     && range_filter (VTime (ev_occurred_at r)) (ef_From h) (ef_To h)
     && keyset_filter (VTime (ev_occurred_at r)) (VText k) cur) ∧
  (∀ x, holds_all (tsRange "created_at" from to no_conds) (payment_col x) =
     range_filter (vtime (p_created_at x.2)) from to).
Proof.
  destruct (payment_base_means f) as [P1 P2], (channel_base_means g) as [C1 C2],
    (event_base_means h) as [E1 E2].
  destruct (keyset_means "created_at" "payment_hash" cur _ P1) as [P3 P4],
    (keyset_means "opened_at" "channel_id" cur _ C1) as [C3 C4],
    (keyset_means "occurred_at" "id" cur _ E1) as [E3 E4],
    (tsRange_means "created_at" from to no_conds no_conds_ok) as [T1 T2].
  split; [by split_and!|]. split_and!; intros.
  - etrans; [apply P4|]. by rewrite P2.
  - etrans; [apply C4|]. by rewrite C2.
  - etrans; [apply E4|]. by rewrite E2.
  - by rewrite T2.
Qed.

(** Pages are bounded: whatever limit a client asks for, zero, negative or
    huge, and whatever the database holds, a page that is answered has at most 200
    rows, and at most the limit when that lies between 1 and 200. *)
Theorem page_size_bounded f g h cur limit w :
  (forall p w', Payments f cur limit w = (Ok p, w') ->
     Z.of_nat (length (Items p)) <= (if (1 <=? limit) && (limit <=? 200) then limit else 200)) ∧
  (forall p w', Channels g cur limit w = (Ok p, w') ->
     Z.of_nat (length (Items p)) <= (if (1 <=? limit) && (limit <=? 200) then limit else 200)) ∧
  (forall p w', Events h cur limit w = (Ok p, w') ->
     Z.of_nat (length (Items p)) <= (if (1 <=? limit) && (limit <=? 200) then limit else 200)).
Proof.
  pose proof (clampLimit_bounds limit) as Hb.
  assert (clampLimit limit <= (if (1 <=? limit) && (limit <=? 200) then limit else 200)) as Hc.
  { unfold clampLimit in *.
    destruct (Z.leb_spec limit 0), (Z.ltb_spec 200 limit), (Z.leb_spec 1 limit),
      (Z.leb_spec limit 200); cbn; lia. }
  split_and!; intros p w' H.
  - apply (page_bounded _ (fun d => _)) in H; lia.
  - apply (page_bounded _ (fun d => _)) in H; lia.
  - apply (page_bounded _ (fun d => _)) in H; lia.
Qed.

(** C34.  Statistics partition the payments: in a healthy world there is exactly one
    bucket per asset of a matching payment (NULL counted as 'unknown'), its count is
    the number of matching payments of the asset, its total is their exact sum in
    hexadecimal when the sum fits 128 bits, and the counts add up to the number of
    matching payments. *)
Theorem StatsPayments_partition {FTL : FibertypesLaws} from to w :
  healthy w ->
  let ps := filter (fun x => range_filter (vtime (p_created_at x.2)) from to = true)
              (scan_table (payments (w_db w))) in
  ∃ out, StatsPayments from to w = (Ok out, w)
    ∧ NoDup (st_Asset <$> out)
    ∧ (forall x, x ∈ ps -> stat_asset x ∈ st_Asset <$> out)
    ∧ (forall s, s ∈ out ->
         let mine := filter (fun x => stat_asset x = st_Asset s) ps in
         let total := sql_sum ((fun x => p_amount x.2) <$> mine) in
         mine ≠ [] ∧ st_Count s = Z.of_nat (length mine)
         ∧ (0 <= total < 2 ^ 128 -> st_Total s = "0x" +:+ big_Text16 total))
    ∧ sumZ (st_Count <$> out) = Z.of_nat (length ps).
Proof.
  intros Hw ps.
  set (mk := fun g : string * list (string * PaymentRow) => MkStatRow g.1 (Z.of_nat (length g.2))
    (hex_of (pg_numeric_out (sql_sum ((fun x => p_amount x.2) <$> g.2))))).
  destruct (tsRange_means "created_at" from to no_conds no_conds_ok) as [_ Hm].
  assert (stat_rows (tsRange "created_at" from to no_conds) (w_db w) = group_by stat_asset ps)
    as Eg.
  { unfold stat_rows. f_equal. apply list_filter_iff. intros x. by rewrite Hm. }
  exists (mk <$> group_by stat_asset ps). split_and!.
  - unfold StatsPayments.
    erewrite bind_intro by (apply wrapping_run, select_healthy; [done|lia|reflexivity]).
    unfold lift. f_equal. rewrite Eg. apply scan_rows_map. intros g. unfold scan_stat.
    by erewrite hexOrEmpty_repr by apply pg_numeric_out_repr.
  - rewrite <- list_fmap_compose. apply group_by_NoDup.
  - intros x Hx. rewrite <- list_fmap_compose. apply list_elem_of_fmap.
    exists (stat_asset x, filter (fun y => stat_asset y = stat_asset x) ps). split; [done|].
    apply elem_of_group_by. split; [|done]. apply list_elem_of_fmap. by exists x.
  - intros s ([g rows] & -> & [Hg ->]%elem_of_group_by)%list_elem_of_fmap. cbn. split_and!.
    + apply list_elem_of_fmap in Hg as (x & -> & Hx). intros E.
      assert (x ∈ filter (fun y => stat_asset y = stat_asset x) ps) as Hin
        by (by apply list_elem_of_filter).
      rewrite E in Hin. by apply not_elem_of_nil in Hin.
    + done.
    + apply hex_of_sum.
  - pose proof (group_by_total stat_asset (fun _ => 1) ps) as Ht.
    rewrite sumZ_ones in Ht. rewrite <- Ht, <- list_fmap_compose. f_equal. apply list_fmap_ext.
    intros i [g rows] _. cbn. by rewrite sumZ_ones.
Qed.

(** Single-row endpoints: in a healthy world, [getPayment] answers 200 with the
    row's rendering when the hash exists and 404 otherwise, never an error or a
    change of the database; likewise [getChannel]. *)
Theorem get_by_key_spec (r : request unit) w :
  healthy w ->
  getPayment r w =
    (Ok match payments (w_db w) !! URLParam r "payment_hash" with
        | Some row => JSON StatusOK (payment_json (view_payment (URLParam r "payment_hash", row)))
        | None => Error StatusNotFound "payment not found"
        end, w) ∧
  getChannel r w =
    (Ok match channels (w_db w) !! URLParam r "channel_id" with
        | Some row => JSON StatusOK (channel_json (view_channel (URLParam r "channel_id", row)))
        | None => Error StatusNotFound "channel not found"
        end, w).
Proof.
  intros Hw. pose proof Hw as [Hf Hv].
  assert (forall {R A} (tbl : Database -> gmap string R) (scan : string * R -> result A)
    (view : string * R -> A) what key missing (f : A -> json),
    (forall x, scan x = Ok (view x)) ->
    get_one (by_key tbl scan what key) missing f w =
    (Ok match tbl (w_db w) !! key with
        | Some row => JSON StatusOK (f (view (key, row)))
        | None => Error StatusNotFound missing
        end, w)) as H.
  { intros R A tbl scan view what key missing f Hs. unfold get_one.
    destruct (tbl (w_db w) !! key) as [row|] eqn:E.
    - assert (by_key tbl scan what key w = (Ok (view (key, row)), w)) as Hb.
      { unfold by_key. erewrite bind_intro.
        2: { apply attempt_Ok with (r := inr row). apply select_healthy; [done|lia|]. by rewrite E. }
        unfold lift. by rewrite Hs. }
      erewrite bind_intro; [|apply attempt_Ok with (r := inr (view (key, row))); exact Hb]. done.
    - assert (by_key tbl scan what key w = (Err (ESent QueryErrNotFound), w)) as Hb.
      { unfold by_key. erewrite bind_intro.
        2: { apply attempt_Ok with (r := inl (ESent PgxErrNoRows)).
             apply exec_run_err; [done|rewrite Hv; done|]. by rewrite E. }
        done. }
      erewrite bind_intro; [|apply attempt_Ok with (r := inl (ESent QueryErrNotFound)); exact Hb].
      done. }
  split; [apply H, scan_payment_ok|apply H, scan_channel_ok].
Qed.
End props.

(** ** Witnesses *)

Module QueryWitness.
Import Sample.

#[local] Instance no_fallback : TimeParser := fun _ _ => Err (EText "cannot parse").

Definition t0 : Time := 63919197045123456000.
Definition pay (asset : option string) (amount : Z) (t : Time) : PaymentRow :=
  MkPaymentRow "received" "succeeded" asset (Some amount) None None (Some t) (Some t).
Definition table : gmap string PaymentRow :=
  {[ "0xa" := pay (Some "CKB") 10 t0; "0xb" := pay (Some "CKB") 20 (t0 + 1000);
     "0xc" := pay None 5 t0 ]}.
Definition wq : world := World
  (upd_channels {[ "0xch" := MkChannelRow None (Some "open") (Some 7) None None (Some t0) None ]}
   (upd_events {[ "evt" := MkEventRow "invoice.paid" None None None "data" t0 t0 1 ]}
    (upd_payments table (upd_version 3 empty_db)))) [] 5 0 [].
Definition any_payment : PaymentFilter :=
  MkPaymentFilter EmptyString EmptyString EmptyString EmptyString None None.

Lemma wq_healthy : healthy wq.
Proof. split; reflexivity. Qed.

Lemma cursor_roundtrip_witness :
  DecodeCursor (Encode (MkCursor t0 "0xa|b")) = Ok (MkCursor t0 "0xa|b").
Proof. apply cursor_roundtrip. split; vm_compute; intros H; discriminate H. Defined.

Lemma Payments_pagination_witness :
  walk 4 (fun cur => fst (Payments any_payment cur 1 wq)) zero_Cursor
    = Ok (view_payment <$> [("0xb", pay (Some "CKB") 20 (t0 + 1000));
                            ("0xc", pay None 5 t0); ("0xa", pay (Some "CKB") 10 t0)]).
Proof.
  destruct (Payments_pagination any_payment 1 wq wq_healthy) as [H _].
  - apply row_ok_check. by_eval.
  - etransitivity; [exact H|]. by_eval.
Defined.

Lemma Channels_pagination_witness :
  walk 2 (fun cur => fst (Channels (MkChannelFilter "open" EmptyString) cur 0 wq)) zero_Cursor
    = Ok (view_channel <$>
        [("0xch", MkChannelRow None (Some "open") (Some 7) None None (Some t0) None)]).
Proof.
  destruct (Channels_pagination (MkChannelFilter "open" EmptyString) 0 wq wq_healthy) as [H _].
  - apply row_ok_check. by_eval.
  - etransitivity; [exact H|]. by_eval.
Defined.

Lemma Events_pagination_witness :
  walk 2 (fun cur => fst (Events (MkEventFilter EmptyString (Some t0) None) cur 9 wq)) zero_Cursor
    = Ok (view_event <$> [("evt", MkEventRow "invoice.paid" None None None "data" t0 t0 1)]).
Proof.
  destruct (Events_pagination (MkEventFilter EmptyString (Some t0) None) 9 wq wq_healthy) as [H _].
  - apply row_ok_check. by_eval.
  - etransitivity; [exact H|]. by_eval.
Defined.

Lemma null_timestamp_ends_listing_witness :
  fst (Payments any_payment (payment_cursor (view_payment
    ("0xz", MkPaymentRow "sent" "failed" None None None None None None))) 50 wq)
    = Ok (MkPage [] EmptyString).
Proof.
  apply null_timestamp_ends_listing; [exact wq_healthy|reflexivity|discriminate|].
  intros k r t Hk. change (table !! k = Some r) in Hk. unfold table in Hk.
  rewrite !lookup_insert_Some, lookup_singleton_Some in Hk.
  destruct Hk as [[_ <-]|[_ [[_ <-]|[_ [_ <-]]]]]; intros [= <-]; unfold t0; lia.
Defined.

Lemma StatsPayments_partition_witness :
  ∃ out, StatsPayments None None wq = (Ok out, wq) ∧ sumZ (st_Count <$> out) = 3.
Proof.
  destruct (StatsPayments_partition None None wq wq_healthy) as (out & H & _ & _ & _ & Hs).
  exists out. split; [exact H|]. etransitivity; [exact Hs|]. by_eval.
Defined.

Lemma get_by_key_spec_witness :
  fst (getPayment (MkRequest [] [("payment_hash", "0xq")] EmptyString (Ok tt)) wq)
    = Ok (Error StatusNotFound "payment not found").
Proof.
  destruct (get_by_key_spec (MkRequest [] [("payment_hash", "0xq")] EmptyString (Ok tt)) wq
    wq_healthy) as [H _].
  etransitivity; [exact (f_equal fst H)|]. by_eval.
Defined.
End QueryWitness.
