(* ===== verification/QueryLive.v ===== *)
(** * Listings while the table changes

    A client pages through a table the indexer is writing to: each page is read from
    the table as it then is.  Rows are never lost and keep the column the listing sorts
    by, so the positions of the cursor order do not move. *)

From S2P Require Import Prelude Strconv GoTime External Schema Tables Sql Http Query QueryFacts.

Section live.
Context {FT : Fibertypes} {PG : Postgres} {PGL : PostgresLaws} {TP : TimeParser}.
Context {R T : Type} (col : string * R -> string -> SqlValue) (ts : R -> option Time).
Context (tsCol idCol : string).
Context (Hts : forall x, col x tsCol = vtime (ts x.2)) (Hid : forall x, col x idCol = VText x.1).
Context (base : conds) (Hbase : conds_ok base).

(** [walk] with one fetch per page. *)
Fixpoint walk_live (fuel : nat) (fetch : nat -> Cursor -> result (Page T)) (i : nat) (cur : Cursor)
  : result (list T) :=
  match fuel with
  | O => Err (EText "out of fuel")
  | S fuel' =>
      p ← fetch i cur;
      if bool_decide (NextCursor p = EmptyString) then Ok (Items p)
      else
        c ← DecodeCursor (NextCursor p);
        rest ← walk_live fuel' fetch (S i) c;
        Ok (Items p ++ rest)
  end.

(** Strictly after the last row of the page before, if there was one. *)
Definition after (o : option (string * R)) (y : string * R) : Prop :=
  match o with None => True | Some x => ¬ desc_order ts y x end.
#[local] Instance after_dec o y : Decision (after o y).
Proof. destruct o; apply _. Defined.

Definition position (o : option (string * R)) : Cursor :=
  match o with None => zero_Cursor | Some x => row_cursor ts x end.

Lemma after_trans o x y : after o x -> ¬ desc_order ts y x -> after o y.
Proof.
  destruct o as [z|]; [|done]. cbn. intros Hx Hy Hyz. apply Hx.
  destruct (total (desc_order ts) x y) as [H|H]; [|done]. by etrans.
Qed.

(** A row keeps its position as long as it keeps its time. *)
Lemma desc_order_same k r r' x :
  ts r' = ts r -> desc_order ts (k, r') x <-> desc_order ts (k, r) x.
Proof. unfold desc_order. cbn. by intros ->. Qed.

Lemma after_same o k r r' : ts r' = ts r -> after o (k, r') <-> after o (k, r).
Proof. intros E. destruct o; [|done]. cbn. by rewrite (desc_order_same k r r'). Qed.

(** What a page is a prefix of. *)
Definition remaining (t : gmap string R) (o : option (string * R)) : list (string * R) :=
  filter (after o) (listing col ts base t).

Lemma elem_of_remaining t o k r :
  (k, r) ∈ remaining t o <->
  after o (k, r) ∧ t !! k = Some r ∧ holds_all base (col (k, r)) = true.
Proof. unfold remaining. by rewrite list_elem_of_filter, elem_of_listing. Qed.

Lemma page_remaining t o n :
  (forall y, y ∈ listing col ts base t -> row_ok ts y) ->
  (forall x, o = Some x -> row_ok ts x) ->
  select_page col ts (keyset tsCol idCol (position o) base) n t
    = take (Z.to_nat n) (remaining t o).
Proof.
  intros Hok Ho. unfold remaining. destruct o as [x|].
  2: { rewrite filter_all by done. done. }
  set (K := fun y => keyset_filter (col y tsCol) (col y idCol) (row_cursor ts x) = true).
  transitivity (take (Z.to_nat n) (filter K (listing col ts base t))).
  - unfold select_page, listing. f_equal.
    rewrite <- merge_sort_filter by apply NoDup_fst_filter, scan_table_NoDup. f_equal.
    rewrite list_filter_filter. apply list_filter_iff. intros y. cbn [position].
    destruct (keyset_means tsCol idCol (row_cursor ts x) base Hbase) as [_ ->].
    rewrite andb_true_iff. unfold K. tauto.
  - f_equal. apply filter_agree. intros y Hy.
    apply (keyset_filter_after col ts tsCol idCol Hts Hid); auto.
Qed.

(** ** The walk *)

Definition strictly (x y : string * R) : Prop := ¬ desc_order ts y x.

#[local] Instance strictly_trans : Transitive strictly.
Proof. intros x y z. apply (after_trans (Some x)). Qed.

Lemma remaining_strictly t o : StronglySorted strictly (remaining t o).
Proof.
  assert (StronglySorted strictly (listing col ts base t)) as H.
  { pose proof (listing_sorted col ts base t) as Hs. pose proof (listing_NoDup col ts base t) as Hn.
    induction Hs as [|x l _ IH Hx]; [constructor|]. cbn in Hn. apply list.NoDup_cons in Hn as [Hn Hl].
    constructor; [by apply IH|]. rewrite list.Forall_forall in *. intros y Hy Hyx.
    apply Hn. rewrite (desc_order_antisym ts x y (Hx y Hy) Hyx). apply list_elem_of_fmap. by exists y. }
  unfold remaining. revert H. induction 1 as [|x l _ IH Hx]; [constructor|].
  rewrite filter_cons. case_decide; [|done]. constructor; [done|].
  rewrite list.Forall_forall in *. intros y [_ Hy]%list_elem_of_filter. by apply Hx.
Qed.

Context (t : nat -> gmap string R) (f : string * R -> T) (cu : T -> Cursor) (limit : Z) (N : nat).
Context (fetch : nat -> Cursor -> result (Page T)).
Context (Hlimit : 1 <= limit) (Hcu : forall x, cu (f x) = row_cursor ts x).
Context (Hgrow : forall i, grows (same ts) (t i) (t (S i))).
Context (Hsize : forall i, (size (t i) <= N)%nat).
Context (Hok : forall i y, y ∈ listing col ts base (t i) -> row_ok ts y).
Context (Hfetch : forall i cur, fetch i cur =
  paginate (f <$> select_page col ts (keyset tsCol idCol cur base) (limit + 1) (t i)) limit cu).

(** The keys of the rows the pages so far end with: all still there, before the cursor. *)
Definition passed (i : nat) (o : option (string * R)) (seen : list string) : Prop :=
  NoDup seen ∧ length seen = i ∧ ∀ k, k ∈ seen -> ∃ r, t i !! k = Some r ∧ ¬ after o (k, r).

Lemma passed_bound i o seen : passed i o seen -> (i <= N)%nat.
Proof.
  intros (Hn & Hl & Hs). pose proof (Hsize i) as H. rewrite <- (size_dom (D := gset string)) in H.
  assert (i = size (list_to_set seen : gset string)) as Ei by by rewrite size_list_to_set.
  etrans; [|exact H]. rewrite Ei at 1. apply subseteq_size. intros k Hk%elem_of_list_to_set.
  destruct (Hs k Hk) as (r & Hr & _). apply elem_of_dom. by exists r.
Qed.

Lemma passed_next i o seen x :
  passed i o seen -> x ∈ remaining (t i) o -> passed (S i) (Some x) (x.1 :: seen).
Proof.
  destruct x as [k r]. intros (Hn & Hl & Hs) (Ha & Hk & _)%elem_of_remaining. cbn [fst].
  split_and!; [|cbn; by rewrite Hl|].
  - apply list.NoDup_cons. split; [|done]. intros (r' & Hr' & Hn')%Hs.
    assert (r' = r) as -> by congruence. done.
  - intros k' Hk'. assert (∃ r', t i !! k' = Some r' ∧ desc_order ts (k', r') (k, r)) as (r' & Hr' & Hd).
    { apply elem_of_cons in Hk' as [->|Hk'].
      - exists r. split; [done|]. by destruct (total (desc_order ts) (k, r) (k, r)).
      - destruct (Hs k' Hk') as (r' & Hr' & Hn'). exists r'. split; [done|].
        destruct o as [z|]; [|by destruct Hn']. cbn in *.
        destruct (decide (desc_order ts (k', r') z)) as [Hd|]; [|done].
        etrans; [exact Hd|]. by destruct (total (desc_order ts) z (k, r)). }
    destruct (Hgrow i k' r' Hr') as (r'' & Hr'' & E). exists r''. split; [done|].
    cbn. intros H. apply H. by apply (desc_order_same k' r' r'').
Qed.

(** What the pages from the [i]-th on list: rows in strict order after the cursor, each
    as some page read it, and among them every row that matches from then on. *)
Definition lists_rest (i : nat) (o : option (string * R)) (rows : list (string * R)) : Prop :=
  StronglySorted strictly rows ∧ Forall (after o) rows
  ∧ (∀ x, x ∈ rows -> ∃ j, x ∈ listing col ts base (t j))
  ∧ (∀ k, (∀ j, (i <= j)%nat -> ∃ r, (k, r) ∈ listing col ts base (t j)) ->
       (∀ r, t i !! k = Some r -> after o (k, r)) -> k ∈ rows.*1).

Lemma remaining_lists_rest i o : lists_rest i o (remaining (t i) o).
Proof.
  split_and!; [apply remaining_strictly|..].
  - apply list.Forall_forall. by intros x [? _]%list_elem_of_filter.
  - intros x [_ ?]%list_elem_of_filter. by exists i.
  - intros k Hk Ha. destruct (Hk i) as [r Hr]; [done|].
    pose proof Hr as (Hl & _)%elem_of_listing. apply list_elem_of_fmap. exists (k, r).
    split; [done|]. apply list_elem_of_filter. auto.
Qed.

Lemma page_lists_rest i o l1 x l2 rows :
  remaining (t i) o = l1 ++ x :: l2 -> lists_rest (S i) (Some x) rows ->
  lists_rest i o (l1 ++ x :: rows).
Proof.
  intros E (Hs & Ha & Hj & Hk). destruct (remaining_lists_rest i o) as (Hs' & Ha' & Hj' & _).
  pose proof (remaining_lists_rest i o) as (_ & _ & _ & Hk'). rewrite E in *.
  apply list.Forall_app in Ha' as [Ha1 Hax]. apply list.Forall_cons in Hax as [Hax _].
  pose proof (fun y => StronglySorted_app_1_elem_of _ _ _ y x Hs') as Hl1.
  split_and!.
  - apply StronglySorted_app_2; [|by eapply StronglySorted_app_1_l|by constructor].
    intros y z Hy Hz. assert (strictly y x) as Hyx by (apply Hl1; [done|left]).
    apply elem_of_cons in Hz as [->|Hz]; [done|]. etrans; [exact Hyx|].
    rewrite list.Forall_forall in Ha. by apply Ha.
  - apply list.Forall_app. split; [done|]. constructor; [done|].
    eapply list.Forall_impl; [exact Ha|]. intros y. by apply after_trans.
  - intros y [Hy|[->|Hy]%elem_of_cons]%elem_of_app; [| |by apply Hj];
      apply Hj', elem_of_app; [by left|right; left].
  - intros k Hall Hafter. rewrite fmap_app, fmap_cons.
    destruct (Hall i) as [r Hr]; [done|]. pose proof Hr as (Hkr & _)%elem_of_listing.
    specialize (Hk' k Hall Hafter). rewrite fmap_app, fmap_cons in Hk'.
    apply elem_of_app in Hk' as [?|[?|Hk2]%elem_of_cons];
      [apply elem_of_app; by left|apply elem_of_app; right; apply elem_of_cons; by left|].
    apply elem_of_app. right. apply elem_of_cons. right. apply Hk.
    + intros j Hij. apply Hall. lia.
    + intros r' Hr'. apply list_elem_of_fmap in Hk2 as ([k2 r2] & -> & Hk2).
      assert ((k2, r2) ∈ remaining (t i) o) as (_ & Hr2 & _)%elem_of_remaining
        by (rewrite E; apply elem_of_app; right; by right).
      destruct (Hgrow i k2 r2 Hr2) as (r3 & Hr3 & Ets).
      assert (r3 = r') as -> by (cbn in *; congruence).
      rewrite (after_same _ k2 r2 r') by done.
      apply StronglySorted_app_1_r in Hs'. apply StronglySorted_inv in Hs' as [_ Hx2].
      rewrite list.Forall_forall in Hx2. by apply Hx2.
Qed.

Lemma walk_live_from fuel i o seen :
  (i + fuel)%nat = S N -> passed i o seen -> (∀ x, o = Some x -> row_ok ts x) ->
  ∃ rows, walk_live fuel fetch i (position o) = Ok (f <$> rows) ∧ lists_rest i o rows.
Proof.
  revert i o seen. induction fuel as [|fuel IH]; intros i o seen Hi Hp Ho.
  { apply passed_bound in Hp. lia. }
  cbn [walk_live]. rewrite Hfetch, page_remaining by (try apply Hok; done).
  rewrite paginate_spec by done. unfold mbind, result_bind.
  destruct (Z.ltb_spec limit (Z.of_nat (length (remaining (t i) o)))) as [Hlen|Hlen].
  2: { cbn. rewrite bool_decide_true by done. eexists. split; [done|]. apply remaining_lists_rest. }
  destruct (remaining (t i) o !! Z.to_nat (limit - 1)) as [x|] eqn:Ex;
    [|apply lookup_ge_None in Ex; lia].
  cbn [NextCursor Items]. rewrite bool_decide_false by apply Encode_nonempty.
  assert (x ∈ remaining (t i) o) as Hx by by eapply list_elem_of_lookup_2.
  assert (row_ok ts x) as Hgood by (apply list_elem_of_filter in Hx as [_ Hx]; by eapply Hok).
  destruct Hgood as (tx & Etx & Hrest). pose proof Hrest as (_ & Hpr & _).
  rewrite Hcu, DecodeCursor_Encode by (unfold row_cursor; by rewrite Etx).
  pose proof (take_drop_middle _ _ x Ex) as E.
  destruct (IH (S i) (Some x) (x.1 :: seen)) as (rows & Hw & Hr); [lia|by eapply passed_next| |].
  { intros y [= <-]. by exists tx. }
  change (position (Some x)) with (row_cursor ts x) in Hw. rewrite Hw.
  exists (take (Z.to_nat (limit - 1)) (remaining (t i) o) ++ x :: rows). split.
  - replace (Z.to_nat limit) with (S (Z.to_nat (limit - 1))) by lia.
    rewrite (take_S_r _ _ x) by done. by rewrite <- fmap_app, <- app_assoc.
  - by eapply page_lists_rest.
Qed.

Lemma times_stay a b k r r' : t a !! k = Some r -> t b !! k = Some r' -> ts r' = ts r.
Proof.
  assert (forall a b, (a <= b)%nat -> grows (same ts) (t a) (t b)) as Hle.
  { intros x y H. induction H as [|y _ IH]; [done|]. etrans; [exact IH|apply Hgrow]. }
  assert (forall a b k r r', (a <= b)%nat -> t a !! k = Some r -> t b !! k = Some r' -> ts r' = ts r)
    as H.
  { intros x y j r1 r2 Hxy H1 H2. destruct (Hle x y Hxy j r1 H1) as (r3 & H3 & E).
    by assert (r3 = r2) as <- by congruence. }
  intros Ha Hb. destruct (Nat.le_ge_cases a b); [by eapply H|symmetry; by eapply H].
Qed.

(** No key is listed twice: a row keeps its position. *)
Lemma lists_once i o rows : lists_rest i o rows -> NoDup rows.*1.
Proof.
  intros (Hs & _ & Hj & _). induction Hs as [|x rows _ IH Hx]; [constructor|]. cbn.
  apply list.NoDup_cons. split; [|apply IH; intros y Hy; apply Hj; by right].
  intros (y & E & Hy)%list_elem_of_fmap. rewrite list.Forall_forall in Hx.
  destruct (Hj x) as (j1 & H1); [left|]. destruct (Hj y) as (j2 & H2); [by right|].
  apply (Hx y Hy). destruct x as [k r], y as [k' r']. cbn in E. subst k'.
  apply elem_of_listing in H1 as [H1 _], H2 as [H2 _].
  rewrite (desc_order_same k r r') by by eapply times_stay.
  by destruct (total (desc_order ts) (k, r) (k, r)).
Qed.

(** The walk over a changing table ends, lists no row twice, and lists every row that
    matches throughout; what it lists was there and matched. *)
Lemma walk_live_listing :
  ∃ rows, walk_live (S N) fetch 0 zero_Cursor = Ok (f <$> rows) ∧ NoDup rows.*1
    ∧ (∀ x, x ∈ rows -> ∃ j, x ∈ listing col ts base (t j))
    ∧ ∀ k, (∀ j, ∃ r, (k, r) ∈ listing col ts base (t j)) -> k ∈ rows.*1.
Proof.
  destruct (walk_live_from (S N) 0 None []) as (rows & Hw & Hr); [done| |done|].
  { split_and!; [constructor|done|]. by intros k ?%not_elem_of_nil. }
  exists rows. split_and!; [exact Hw|by eapply lists_once|apply Hr|].
  intros k Hk. apply Hr; [auto|done].
Qed.
End live.
