(* ===== verification/Csv.v ===== *)
(** * CSV (encoding/csv's Writer, as internal/merchant/export.go uses it)

    [csv_write] writes records with the default comma and a line feed; a field is
    quoted when it must be.  [csv_parse] is an RFC 4180 reader, the specification
    [csv_write] is proved against: what is written is read back. *)

From S2P Require Import Prelude Strconv.

Definition comma : ascii := ",".
Definition LF : ascii := ascii_of_nat 10.
Definition CR : ascii := ascii_of_nat 13.

(** [unicode.IsSpace] of the first rune of UTF-8 text. *)
Definition leading_space (s : string) : bool :=
  let n c := nat_of_ascii c in
  match s with
  | EmptyString => false
  | String a s1 =>
      bool_decide (n a ∈ [9; 10; 11; 12; 13; 32]%nat) ||
      match s1 with
      | EmptyString => false
      | String b s2 =>
          (bool_decide (n a = 194%nat) && bool_decide (n b ∈ [133; 160]%nat)) ||
          match s2 with
          | EmptyString => false
          | String c _ =>
              bool_decide ((n a, n b, n c) ∈ [(225, 154, 128); (226, 129, 159); (227, 128, 128);
                (226, 128, 168); (226, 128, 169); (226, 128, 175)]%nat) ||
              (bool_decide (n a = 226%nat) && bool_decide (n b = 128%nat)
               && bool_decide (128 <= n c <= 138)%nat)
          end
      end
  end.

(** [fieldNeedsQuotes] for the default comma. *)
Definition fieldNeedsQuotes (f : string) : bool :=
  if bool_decide (f = EmptyString) then false
  else bool_decide (f = String (ascii_of_nat 92) ".")
       || str_mem comma f || str_mem dquote f || str_mem CR f || str_mem LF f
       || leading_space f.

Definition double_quote (c : ascii) : string :=
  if bool_decide (c = dquote) then String dquote (String dquote EmptyString)
  else String c EmptyString.

Definition csv_field (f : string) : string :=
  if fieldNeedsQuotes f then
    String dquote (concat_map double_quote f +:+ String dquote EmptyString)
  else f.

(** [Writer.Write] *)
Fixpoint csv_fields (fs : list string) : string :=
  match fs with
  | [] => EmptyString
  | [f] => csv_field f
  | f :: fs' => csv_field f +:+ String comma (csv_fields fs')
  end.

Definition csv_record (fs : list string) : string := csv_fields fs +:+ String LF EmptyString.

Fixpoint csv_write (rs : list (list string)) : string :=
  match rs with
  | [] => EmptyString
  | r :: rs' => csv_record r +:+ csv_write rs'
  end.

(** ** The reader *)

(** Read the rest of a plain field, then the rest of a quoted one. *)
Inductive mode := Start | Plain | Quoted | AfterQuote.

(** The reader's state: what the current field and record hold so far. *)
Fixpoint csv_read (m : mode) (s : string) (field : string) (rec : list string)
    (done : list (list string)) : option (list (list string)) :=
  match s with
  | EmptyString =>
      match m with
      | Start => match rec with [] => Some done | _ => None end
      | _ => None
      end
  | String c s' =>
      let next_field := csv_read Start s' EmptyString (rec ++ [field]) done in
      let next_record := csv_read Start s' EmptyString [] (done ++ [rec ++ [field]]) in
      match m with
      | Start =>
          if bool_decide (c = dquote) then csv_read Quoted s' EmptyString rec done
          else if bool_decide (c = comma) then next_field
          else if bool_decide (c = LF) then next_record
          else csv_read Plain s' (String c EmptyString) rec done
      | Plain =>
          if bool_decide (c = comma) then next_field
          else if bool_decide (c = LF) then next_record
          else if bool_decide (c = dquote) then None
          else csv_read Plain s' (field +:+ String c EmptyString) rec done
      | Quoted =>
          if bool_decide (c = dquote) then csv_read AfterQuote s' field rec done
          else csv_read Quoted s' (field +:+ String c EmptyString) rec done
      | AfterQuote =>
          if bool_decide (c = dquote) then csv_read Quoted s' (field +:+ String dquote EmptyString) rec done
          else if bool_decide (c = comma) then next_field
          else if bool_decide (c = LF) then next_record
          else None
      end
  end.

Definition csv_parse (s : string) : option (list (list string)) :=
  csv_read Start s EmptyString [] [].

(** ** Facts *)

(** A separator: it ends a field in every mode but a quoted one. *)
Definition after_sep (c : ascii) (s field : string) rec done : option (list (list string)) :=
  if bool_decide (c = comma) then csv_read Start s EmptyString (rec ++ [field]) done
  else csv_read Start s EmptyString [] (done ++ [rec ++ [field]]).

Lemma read_plain f c s field rec done :
  str_mem comma f = false -> str_mem dquote f = false -> str_mem LF f = false ->
  c = comma ∨ c = LF ->
  csv_read Plain (f +:+ String c s) field rec done = after_sep c s (field +:+ f) rec done.
Proof.
  revert field. induction f as [|x f IH]; intros field Hc Hq Hl Hsep.
  - rewrite string_app_nil_r. change (EmptyString +:+ String c s) with (String c s).
    destruct Hsep as [->| ->]; done.
  - rewrite string_app_cons. cbn in Hc, Hq, Hl.
    apply orb_false_iff in Hc as [Hc1 Hc], Hq as [Hq1 Hq], Hl as [Hl1 Hl].
    cbn [csv_read]. rewrite Hc1, Hl1, Hq1, IH by done. by rewrite string_app_assoc.
Qed.

Lemma read_quoted f c s field rec done :
  c = comma ∨ c = LF ->
  csv_read Quoted (concat_map double_quote f +:+ String dquote (String c s)) field rec done
    = after_sep c s (field +:+ f) rec done.
Proof.
  intros Hsep. revert field. induction f as [|x f IH]; intros field.
  - rewrite string_app_nil_r. cbn [concat_map].
    change (EmptyString +:+ ?x) with x. cbn [csv_read].
    rewrite bool_decide_true by done. destruct Hsep as [->| ->]; done.
  - cbn [concat_map]. unfold double_quote at 1. case_bool_decide as E.
    + rewrite !string_app_cons. change (EmptyString +:+ ?x) with x.
      cbn [csv_read]. rewrite !bool_decide_true by done.
      rewrite IH, string_app_assoc. by rewrite E.
    + rewrite !string_app_cons. change (EmptyString +:+ ?x) with x.
      cbn [csv_read]. rewrite bool_decide_false by done.
      by rewrite IH, string_app_assoc.
Qed.

Lemma read_field f c s rec done :
  c = comma ∨ c = LF ->
  csv_read Start (csv_field f +:+ String c s) EmptyString rec done = after_sep c s f rec done.
Proof.
  intros Hsep. unfold csv_field. destruct (fieldNeedsQuotes f) eqn:E.
  - rewrite !string_app_cons, !string_app_assoc. change (EmptyString +:+ ?x) with x.
    cbn [csv_read]. rewrite bool_decide_true by done. by apply read_quoted.
  - unfold fieldNeedsQuotes in E. destruct f as [|x f].
    { change (EmptyString +:+ String c s) with (String c s). destruct Hsep as [->| ->]; done. }
    rewrite bool_decide_false in E by done.
    apply orb_false_iff in E as [[[[[_ Hc]%orb_false_iff Hq]%orb_false_iff _]%orb_false_iff
      Hl]%orb_false_iff _].
    cbn in Hc, Hq, Hl. apply orb_false_iff in Hc as [Hc1 Hc], Hq as [Hq1 Hq], Hl as [Hl1 Hl].
    rewrite string_app_cons. cbn [csv_read]. rewrite Hc1, Hq1, Hl1.
    rewrite read_plain by done. by rewrite string_app_cons.
Qed.

Lemma read_fields fs s rec done :
  fs ≠ [] ->
  csv_read Start (csv_fields fs +:+ String LF s) EmptyString rec done
    = csv_read Start s EmptyString [] (done ++ [rec ++ fs]).
Proof.
  revert rec. induction fs as [|f fs IH]; intros rec Hne; [done|].
  destruct fs as [|f' fs].
  - cbn [csv_fields]. rewrite read_field by auto. done.
  - change (csv_fields (f :: f' :: fs)) with (csv_field f +:+ String comma (csv_fields (f' :: fs))).
    rewrite string_app_assoc, string_app_cons, read_field by auto.
    unfold after_sep. rewrite bool_decide_true by done. rewrite IH by done.
    by rewrite <- app_assoc.
Qed.

Lemma csv_read_write rs done :
  Forall (fun r => r ≠ []) rs -> csv_read Start (csv_write rs) EmptyString [] done = Some (done ++ rs).
Proof.
  intros H. revert done. induction H as [|r rs Hr _ IH]; intros done.
  - cbn. by rewrite app_nil_r.
  - cbn [csv_write]. unfold csv_record. rewrite string_app_assoc, string_app_cons.
    change (EmptyString +:+ csv_write rs) with (csv_write rs).
    rewrite read_fields by done. rewrite IH. by rewrite <- app_assoc.
Qed.
