(* ===== verification/Merchant.v ===== *)
(** * The merchant backend (internal/merchant)

    Orders backed by Fiber invoices, keysend refunds, settlement, reconciliation and
    export, over the database and the node; the handlers behind API-key
    authentication.  The XLSX renderer is excelize's. *)

From S2P Require Import Prelude Strconv GoTime External Schema Numeric Ids Sql Http Query Csv.

(** ** Data *)

Record Order := MkOrder {
  or_ID : string; or_MerchantID : string; or_ExternalOrderID : string;
  or_InvoicePaymentHash : string; or_Amount : string; or_Asset : string;
  or_Status : string; or_CreatedAt : string; or_PaidAt : option string
}.

Record Refund := MkRefund {
  rf_ID : string; rf_OrderID : string; rf_Amount : string; rf_Asset : string;
  rf_Reason : string; rf_Status : string; rf_FiberPaymentHash : string
}.

Record SettlementRow := MkSettlementRow {
  se_Asset : string; se_Gross : string; se_Fees : string; se_Net : string; se_Period : string
}.

Record Reconciliation := MkReconciliation {
  rc_Period : string; rc_Matched : Z; rc_UnmatchedCount : Z;
  rc_DiscrepancyTotal : string; rc_UnmatchedOrders : list string
}.

Record ExportRow := MkExportRow {
  ex_OrderID : string; ex_ExternalID : string; ex_Asset : string; ex_Amount : string;
  ex_Status : string; ex_PaidAt : string; ex_RefundAmount : string
}.

Definition exportHeader : list string :=
  ["order_id"; "external_order_id"; "asset"; "amount"; "status"; "paid_at"; "refund_amount"].

Definition cells (r : ExportRow) : list string :=
  [ex_OrderID r; ex_ExternalID r; ex_Asset r; ex_Amount r; ex_Status r; ex_PaidAt r;
   ex_RefundAmount r].

Definition buildCSV (rows : list ExportRow) : string := csv_write (exportHeader :: (cells <$> rows)).

(** excelize: a workbook with one sheet of these cells, or an error. *)
Class Excelize := xlsx_render : string -> list (list string) -> result string.

Definition buildXLSX `{Excelize} (rows : list ExportRow) : result string :=
  xlsx_render "Orders" (exportHeader :: (cells <$> rows)).

(** [fmt.Errorf("%w: ...", ErrInvalidState)] *)
Definition invalid_state (msg : string) : error :=
  EWrap EmptyString (ESent MerchantErrInvalidState) msg.

(** An order settled in a period. *)
Definition paid_in `{Postgres} (mid period : string) (r : OrderRow) : bool :=
  bool_decide (o_merchant_id r = mid) &&
  match o_paid_at r with
  | Some t => bool_decide (pg_to_char_month t = period)
  | None => false
  end.

(** ORDER BY o.paid_at *)
Definition paid_order (x y : string * OrderRow) : Prop :=
  deref (o_paid_at x.2) <= deref (o_paid_at y.2).
#[global] Instance paid_order_dec x y : Decision (paid_order x y).
Proof. unfold paid_order. apply _. Defined.

Definition refunds_of (d : Database) (oid : string) : list (option Z) :=
  (fun x => r_amount x.2) <$> filter (fun x => r_order_id x.2 = oid) (map_to_list (refunds d)).

Section merchant.
Context {FT : Fibertypes} {PG : Postgres} {CR : Crypto} {FR : FiberRPC} {XL : Excelize}.

(** ** Orders *)

Definition scanOrder (x : string * OrderRow) : result Order :=
  amount ← hexOrEmpty (read_numeric (o_amount x.2));
  Ok (MkOrder x.1 (o_merchant_id x.2) (str (o_external_order_id x.2))
        (str (o_invoice_payment_hash x.2)) amount (str (o_asset x.2))
        (order_status_text (o_status x.2)) (format_RFC3339 (o_created_at x.2))
        (format_RFC3339 <$> o_paid_at x.2)).

(** [QueryRow(orderSelect + where).Scan]: the first row, or ErrNotFound. *)
Definition query_order (P : string * OrderRow -> bool) : M Order :=
  r ← attempt (select 3 (fun d =>
    match filter (fun x => P x = true) (scan_table (merchant_orders d)) with
    | [] => Err (ESent PgxErrNoRows)
    | x :: _ => Ok x
    end));
  match r with
  | inl e => if errors_Is e PgxErrNoRows then throw (ESent MerchantErrNotFound)
             else throw (EWrap "merchant: scan order: " e EmptyString)
  | inr x => lift (scanOrder x)
  end.

Definition GetOrder (mid oid : string) : M Order :=
  query_order (fun x => bool_decide (x.1 = oid) && bool_decide (o_merchant_id x.2 = mid)).

Definition has_external (mid ext : string) (x : string * OrderRow) : bool :=
  bool_decide (o_merchant_id x.2 = mid) && bool_decide (o_external_order_id x.2 = Some ext).

Definition orderByExternalID (mid ext : string) : M Order := query_order (has_external mid ext).

(** INSERT INTO merchant_orders ... NULLIF(ext, '') ... ON CONFLICT
    (merchant_id, external_order_id) DO NOTHING, with the primary and the foreign
    key. *)
Definition insert_order (oid mid ext hash asset : string) (amount : Numeric)
    (now : Time) (d : Database) : result (unit * Database) :=
  let ext_col := if bool_decide (ext = EmptyString) then None else Some ext in
  let conflict := match ext_col with
    | None => false
    | Some e => existsb (has_external mid e) (map_to_list (merchant_orders d))
    end in
  if conflict then Ok (tt, d)
  else
    match merchant_orders d !! oid, merchants d !! mid with
    | Some _, _ => Err err_unique
    | None, None => Err err_foreign_key
    | None, Some _ =>
        Ok (tt, upd_orders (<[oid := MkOrderRow mid ext_col (Some hash) (numeric_col amount)
              (Some asset) OPending now None]> (merchant_orders d)) d)
    end.

(** The order an earlier request with this external id made, if any. *)
Definition prior_order (mid ext : string) : M (option Order) :=
  if bool_decide (ext = EmptyString) then mret None
  else
    r ← attempt (orderByExternalID mid ext);
    match r with
    | inr existing => mret (Some existing)
    | inl e => if errors_Is e MerchantErrNotFound then mret None else throw e
    end.

(** The order under this external id after the insert; a failed lookup is ignored. *)
Definition race_winner (mid ext : string) : M (option Order) :=
  if bool_decide (ext = EmptyString) then mret None
  else
    r ← attempt (orderByExternalID mid ext);
    mret (match r with inr existing => Some existing | inl _ => None end).

Definition CreateOrder (mid ext amountHex asset0 : string) : M (Order * Invoice) :=
  match ParseAmount amountHex with
  | (_, Some e) => throw (invalid_state (": amount: " +:+ error_text e))
  | (amount, None) =>
      let asset := if bool_decide (asset0 = EmptyString) then "CKB" else asset0 in
      prior ← prior_order mid ext;
      match prior with
      | Some existing => mret (existing, MkInvoice (or_InvoicePaymentHash existing) EmptyString)
      | None =>
          inv ← wrapping "merchant: new invoice: "
                  (NewInvoice (MkNewInvoiceParams amount ("order " +:+ ext)));
          oid ← id_New;
          _ ← wrapping "merchant: insert order: "
                (exec 3 (insert_order oid mid ext (inv_PaymentHash inv) asset
                  (AmountToNumeric amount)));
          winner ← race_winner mid ext;
          match winner with
          | Some existing => mret (existing, inv)
          | None => order ← GetOrder mid oid; mret (order, inv)
          end
      end
  end.

(** ** Refunds *)

Definition payerPubkey (hash : string) : M string :=
  r ← attempt (select 1 (fun d =>
    match payments d !! hash with Some p => Ok (p_peer p) | None => Err (ESent PgxErrNoRows) end));
  match r with
  | inl e => if errors_Is e PgxErrNoRows then
               throw (invalid_state ": no payer pubkey captured for this order")
             else throw (EWrap "merchant: lookup payer: " e EmptyString)
  | inr peer =>
      if bool_decide (str peer = EmptyString) then
        throw (invalid_state ": no payer pubkey captured for this order")
      else mret (str peer)
  end.

Definition insert_refund (rid oid asset reason hash : string) (amount : Numeric)
    (now : Time) (d : Database) : result (unit * Database) :=
  match refunds d !! rid, merchant_orders d !! oid with
  | Some _, _ => Err err_unique
  | None, None => Err err_foreign_key
  | None, Some _ =>
      Ok (tt, upd_refunds (<[rid := MkRefundRow oid (numeric_col amount) (Some asset)
            (Some reason) (Some "sent") (Some hash) now]> (refunds d)) d)
  end.

Definition set_refunded (o : OrderRow) : OrderRow :=
  MkOrderRow (o_merchant_id o) (o_external_order_id o) (o_invoice_payment_hash o) (o_amount o)
    (o_asset o) ORefunded (o_created_at o) (o_paid_at o).

(** UPDATE merchant_orders SET status = 'refunded' WHERE id = $1. *)
Definition mark_refunded (oid : string) (now : Time) (d : Database) : result (unit * Database) :=
  Ok (tt, upd_orders (alter set_refunded oid (merchant_orders d)) d).

Definition RefundOrder (mid oid amountHex reason : string) : M Refund :=
  order ← GetOrder mid oid;
  if negb (bool_decide (or_Status order = "paid")) then
    throw (invalid_state (": order status is " +:+ go_quote (or_Status order) +:+ ", must be paid"))
  else
    match ParseAmount amountHex with
    | (_, Some e) => throw (invalid_state (": amount: " +:+ error_text e))
    | (amount, None) =>
        payer ← payerPubkey (or_InvoicePaymentHash order);
        pay ← wrapping "merchant: send refund: "
                (SendPayment (MkSendPaymentParams payer amount true));
        rid ← id_New;
        _ ← wrapping "merchant: insert refund: "
              (exec 3 (insert_refund rid oid (or_Asset order) reason (pay_PaymentHash pay)
                (AmountToNumeric amount)));
        _ ← wrapping "merchant: mark order refunded: " (exec 3 (mark_refunded oid));
        mret (MkRefund rid oid (Hex amount) (or_Asset order) reason "sent" (pay_PaymentHash pay))
    end.

(** ** Settlement *)

(** [mustAmount]: a failed conversion is zero. *)
Definition mustAmount (n : Numeric) : result Amount :=
  match NumericToAmount n with
  | Ok a => Ok a
  | Err _ => Ok (fst (ParseAmount "0x0"))
  | Panic p => Panic p
  end.

Definition order_asset (x : string * OrderRow) : string := default "CKB" (o_asset x.2).

(** SELECT asset, SUM(o.amount), SUM(r.amt) ... GROUP BY asset ORDER BY asset. *)
Definition settlement_query (mid period : string) (d : Database) : list (string * Z * Z) :=
  (fun g => (g.1, sql_sum ((fun x => o_amount x.2) <$> g.2),
             sql_sum (x ← g.2; refunds_of d x.1)))
    <$> group_by order_asset
          (filter (fun x => paid_in mid period x.2 = true) (scan_table (merchant_orders d))).

Definition settlement_row (period : string) (x : string * Z * Z) : result SettlementRow :=
  let '(asset, gross, fees) := x in
  grossA ← mustAmount (pg_numeric_out gross);
  feesA ← mustAmount (pg_numeric_out fees);
  let net := BigInt grossA - BigInt feesA in
  let net := if net <? 0 then 0 else net in
  let netA := fst (ParseAmount ("0x" +:+ big_Text16 net)) in
  Ok (MkSettlementRow asset (Hex grossA) (Hex feesA) (Hex netA) period).

Definition insert_settlement (sid mid period asset : string) (g f n : Numeric)
    (now : Time) (d : Database) : result (unit * Database) :=
  match settlements d !! sid with
  | Some _ => Err err_unique
  | None =>
      Ok (tt, upd_settlements (<[sid := MkSettlementDbRow mid period (numeric_col g)
            (numeric_col f) (numeric_col n) asset "generated" now]> (settlements d)) d)
  end.

Definition persist_settlement (mid period : string) (r : SettlementRow) : M unit :=
  let g := fst (ParseAmount (se_Gross r)) in
  let f := fst (ParseAmount (se_Fees r)) in
  let n := fst (ParseAmount (se_Net r)) in
  sid ← id_New;
  wrapping "merchant: persist settlement: "
    (exec 3 (insert_settlement sid mid period (se_Asset r)
      (AmountToNumeric g) (AmountToNumeric f) (AmountToNumeric n))).

Definition Settlement (mid period : string) : M (list SettlementRow) :=
  rows ← wrapping "merchant: settlement query: "
           (select 3 (fun d => Ok (settlement_query mid period d)));
  out ← lift (scan_rows (settlement_row period) rows);
  _ ← for_each (persist_settlement mid period) out;
  mret out.

(** ** Reconciliation *)

(** SELECT o.id, p.payment_hash IS NOT NULL, COALESCE(o.amount, 0) ... *)
Definition reconcile_query (mid period : string) (d : Database) : list (string * bool * Z) :=
  (fun x => (x.1,
     match o_invoice_payment_hash x.2 with
     | Some h => bool_decide (is_Some (payments d !! h))
     | None => false
     end, default 0 (o_amount x.2)))
    <$> filter (fun x => paid_in mid period x.2 = true) (scan_table (merchant_orders d)).

(** The loop over the rows: counts, unmatched ids and the discrepancy. *)
Fixpoint reconcile_loop (rows : list (string * bool * Z)) (matched unmatched : Z)
    (ids : list string) (disc : Z) : result (Z * Z * list string * Z) :=
  match rows with
  | [] => Ok (matched, unmatched, ids, disc)
  | (oid, true, _) :: rows' => reconcile_loop rows' (matched + 1) unmatched ids disc
  | (oid, false, amount) :: rows' =>
      a ← mustAmount (pg_numeric_out amount);
      reconcile_loop rows' matched (unmatched + 1) (ids ++ [oid]) (disc + BigInt a)
  end.

Definition reconciliation_json (r : Reconciliation) : json :=
  JObj [("period", JStr (rc_Period r)); ("matched", JInt (rc_Matched r));
        ("unmatched_count", JInt (rc_UnmatchedCount r));
        ("discrepancy_total", JStr (rc_DiscrepancyTotal r));
        ("unmatched_orders", JArr (JStr <$> rc_UnmatchedOrders r))].

Definition insert_recon (rid mid period : string) (matched unmatched : Z) (disc : Numeric)
    (report : string) (now : Time) (d : Database) : result (unit * Database) :=
  match pg_jsonb_in report with
  | None => Err err_json
  | Some j =>
      m ← int4 matched;
      u ← int4 unmatched;
      match reconciliation_runs d !! rid with
      | Some _ => Err err_unique
      | None =>
          Ok (tt, upd_recon_runs (<[rid := MkReconRunRow mid period m u (numeric_col disc) j now]>
                    (reconciliation_runs d)) d)
      end
  end.

Definition Reconcile (mid period : string) : M Reconciliation :=
  rows ← wrapping "merchant: reconcile query: "
           (select 3 (fun d => Ok (reconcile_query mid period d)));
  res ← lift (reconcile_loop rows 0 0 [] 0);
  let '(matched, unmatched, ids, disc) := res in
  let discA := fst (ParseAmount ("0x" +:+ big_Text16 disc)) in
  let rec := MkReconciliation period matched unmatched (Hex discA) ids in
  rid ← id_New;
  _ ← wrapping "merchant: persist reconciliation: "
        (exec 3 (insert_recon rid mid period matched unmatched (AmountToNumeric discA)
          (json_Marshal (reconciliation_json rec))));
  mret rec.

(** ** Export *)

Definition export_query (mid period : string) (d : Database)
  : list (string * OrderRow * Z) :=
  (fun x => (x, sql_sum (refunds_of d x.1)))
    <$> merge_sort paid_order
          (filter (fun x => paid_in mid period x.2 = true) (scan_table (merchant_orders d))).

Definition export_row (x : string * OrderRow * Z) : result ExportRow :=
  let '(oid, o, refunded) := x in
  amount ← mustAmount (read_numeric (o_amount o));
  refund ← mustAmount (pg_numeric_out refunded);
  Ok (MkExportRow oid (str (o_external_order_id o)) (str (o_asset o)) (Hex amount)
        (order_status_text (o_status o))
        (match o_paid_at o with Some t => format_RFC3339 t | None => EmptyString end)
        (Hex refund)).

Definition exportRows (mid period : string) : M (list ExportRow) :=
  rows ← wrapping "merchant: export query: "
           (select 3 (fun d => Ok (export_query mid period d)));
  lift (scan_rows export_row rows).

Definition Export (mid period format : string) : M (string * string * string) :=
  rows ← exportRows mid period;
  if bool_decide (format = EmptyString) || bool_decide (format = "csv") then
    mret ("settlement-" +:+ period +:+ ".csv", "text/csv", buildCSV rows)
  else if bool_decide (format = "xlsx") then
    b ← lift (buildXLSX rows);
    mret ("settlement-" +:+ period +:+ ".xlsx",
          "application/vnd.openxmlformats-officedocument.spreadsheetml.sheet", b)
  else throw (invalid_state (": format " +:+ go_quote format +:+ " (want csv|xlsx)")).

(** ** Provisioning *)

Definition insert_merchant (mid name hash asset : string) (now : Time) (d : Database)
  : result (unit * Database) :=
  match merchants d !! mid with
  | Some _ => Err err_unique
  | None => Ok (tt, upd_merchants (<[mid := MkMerchantRow name hash asset now]> (merchants d)) d)
  end.

Definition Provision (name asset0 : string) : M (string * string) :=
  mid ← id_New;
  key ← NewAPIKey;
  let '(apiKey, hash) := key in
  let asset := if bool_decide (asset0 = EmptyString) then "CKB" else asset0 in
  _ ← wrapping "merchant: provision: " (exec 3 (insert_merchant mid name hash asset));
  mret (mid, apiKey).
End merchant.
