(* ===== verification/MerchantApi.v ===== *)
(** * The merchant handlers (internal/merchant/handlers.go)

    API-key authentication in front of six endpoints; every one acts for the
    merchant the key belongs to. *)

From S2P Require Import Prelude Strconv GoTime External Schema Ids Http Query QueryApi Csv Merchant.

Fixpoint strip_prefix (prefix s : string) : option string :=
  match prefix, s with
  | EmptyString, _ => Some s
  | String c p, String c' s' => if bool_decide (c = c') then strip_prefix p s' else None
  | _, EmptyString => None
  end.

(** [len(hdr) <= len(prefix) || hdr[:len(prefix)] != prefix]: the token, when there
    is one. *)
Definition bearer_token (hdr : string) : option string :=
  match strip_prefix "Bearer " hdr with
  | Some EmptyString => None
  | r => r
  end.

Record createOrderReq := MkCreateOrderReq {
  cq_ExternalOrderID : string; cq_Amount : string; cq_Asset : string
}.
Record refundReq := MkRefundReq { rq_Amount : string; rq_Reason : string }.

Definition order_json (o : Order) : json :=
  JObj ([("id", JStr (or_ID o)); ("merchant_id", JStr (or_MerchantID o))]
        ++ omitempty "external_order_id" (or_ExternalOrderID o)
        ++ omitempty "invoice_payment_hash" (or_InvoicePaymentHash o)
        ++ omitempty "amount" (or_Amount o) ++ omitempty "asset" (or_Asset o)
        ++ [("status", JStr (or_Status o))]
        ++ omitempty "created_at" (or_CreatedAt o)
        ++ omitnil "paid_at" JStr (or_PaidAt o)).

Definition refund_json (r : Refund) : json :=
  JObj ([("id", JStr (rf_ID r)); ("order_id", JStr (rf_OrderID r))]
        ++ omitempty "amount" (rf_Amount r) ++ omitempty "asset" (rf_Asset r)
        ++ omitempty "reason" (rf_Reason r) ++ [("status", JStr (rf_Status r))]
        ++ omitempty "fiber_payment_hash" (rf_FiberPaymentHash r)).

Definition settlement_json (s : SettlementRow) : json :=
  JObj [("asset", JStr (se_Asset s)); ("gross", JStr (se_Gross s)); ("fees", JStr (se_Fees s));
        ("net", JStr (se_Net s)); ("period", JStr (se_Period s))].

(** [writeErr] *)
Definition writeErr (e : error) : response :=
  if errors_Is e MerchantErrNotFound then Error StatusNotFound (error_text e)
  else if errors_Is e MerchantErrInvalidState then Error StatusBadRequest (error_text e)
  else Error StatusInternalServerError (error_text e).

Section handlers.
Context {FT : Fibertypes} {PG : Postgres} {CR : Crypto} {FR : FiberRPC} {XL : Excelize}.

(** [authMerchant]: [next] runs with the id of the first merchant whose key hash is
    the presented key's. *)
Definition authMerchant {B} (next : string -> request B -> M response) (r : request B)
  : M response :=
  match bearer_token (authorization r) with
  | None => mret (Error StatusUnauthorized "missing bearer token")
  | Some token =>
      let hash := HashAPIKey token in
      found ← attempt (select 3 (fun d =>
        match filter (fun x => m_api_key_hash x.2 = hash) (scan_table (merchants d)) with
        | [] => Err (ESent PgxErrNoRows)
        | x :: _ => Ok x.1
        end));
      match found with
      | inl e =>
          if errors_Is e PgxErrNoRows then mret (Error StatusUnauthorized "invalid api key")
          else mret (Error StatusInternalServerError (error_text e))
      | inr mid => next mid r
      end
  end.

(** [if err != nil { writeErr(w, err); return }] *)
Definition or_writeErr {A} (m : M A) (k : A -> M response) : M response :=
  r ← attempt m;
  match r with inl e => mret (writeErr e) | inr a => k a end.

(** [DecodeJSON] or 400. *)
Definition with_body {B} (r : request B) (k : B -> M response) : M response :=
  or_bad "invalid body: " (decoded r) k.

Definition createOrder (mid : string) (r : request createOrderReq) : M response :=
  with_body r (fun req =>
    or_writeErr (CreateOrder mid (cq_ExternalOrderID req) (cq_Amount req) (cq_Asset req))
      (fun p => mret (JSON StatusCreated (JObj [
         ("fiber_invoice", JObj [("invoice_address", JStr (inv_Address p.2));
                                 ("payment_hash", JStr (inv_PaymentHash p.2))]);
         ("order", order_json p.1)])))).

Definition getOrder {B} (mid : string) (r : request B) : M response :=
  or_writeErr (GetOrder mid (URLParam r "id")) (fun o => mret (JSON StatusOK (order_json o))).

Definition refund (mid : string) (r : request refundReq) : M response :=
  with_body r (fun req =>
    or_writeErr (RefundOrder mid (URLParam r "id") (rq_Amount req) (rq_Reason req))
      (fun x => mret (JSON StatusOK (refund_json x)))).

(** The [period] parameter or 400. *)
Definition with_period {B} (r : request B) (k : string -> M response) : M response :=
  let period := Query_Get r "period" in
  if bool_decide (period = EmptyString) then
    mret (Error StatusBadRequest "period (YYYY-MM) is required")
  else k period.

Definition settlements_handler {B} (mid : string) (r : request B) : M response :=
  with_period r (fun period =>
    or_writeErr (Settlement mid period) (fun rows =>
      mret (JSON StatusOK (JObj [("period", JStr period);
                                 ("settlements", slice_json settlement_json rows)])))).

Definition reconciliation {B} (mid : string) (r : request B) : M response :=
  with_period r (fun period =>
    or_writeErr (Reconcile mid period) (fun rec =>
      mret (JSON StatusOK (reconciliation_json rec)))).

Definition export {B} (mid : string) (r : request B) : M response :=
  with_period r (fun period =>
    or_writeErr (Export mid period (Query_Get r "format")) (fun x =>
      mret (MkResponse StatusOK (BodyBytes x.1.2
        ("attachment; filename=" +:+ String dquote (x.1.1 +:+ String dquote EmptyString)) x.2)))).
End handlers.
