(* ===== verification/MerchantFacts.v ===== *)
(** * Lemmas on the merchant backend

    Order lookups, the uniqueness the idempotency key relies on, and what an order
    creation and a refund may do to the database, statement by statement. *)

From S2P Require Import Prelude Strconv GoTime External Schema Numeric Tables Ids Sql IndexerTotal Http Frame Query QueryFacts QueryProps Csv Merchant.

Section facts.
Context {FT : Fibertypes} {PG : Postgres} {PGL : PostgresLaws} {CR : Crypto}
  {FR : FiberRPC} {XL : Excelize}.
Implicit Types (w : world).

(** ** Order lookups *)

Definition view_order (x : string * OrderRow) : Order :=
  MkOrder x.1 (o_merchant_id x.2) (str (o_external_order_id x.2))
    (str (o_invoice_payment_hash x.2)) (hex_of (read_numeric (o_amount x.2)))
    (str (o_asset x.2)) (order_status_text (o_status x.2)) (format_RFC3339 (o_created_at x.2))
    (format_RFC3339 <$> o_paid_at x.2).

Lemma scanOrder_ok x : scanOrder x = Ok (view_order x).
Proof. unfold scanOrder. by rewrite hexOrEmpty_col. Qed.

Lemma query_order_Ok P w o w' :
  query_order P w = (Ok o, w') ->
  ∃ k r, merchant_orders (w_db w) !! k = Some r ∧ P (k, r) = true ∧ o = view_order (k, r)
    ∧ w_db w' = w_db w ∧ same_env w w'.
Proof.
  unfold query_order. intros H. m_inv H. destruct a as [e|[k r]].
  { destruct (errors_Is e PgxErrNoRows); discriminate H. }
  rewrite scanOrder_ok in H. injection H as <- <-.
  apply attempt_Ok, select_Ok in Hm as (_ & Hs & Edb & Henv).
  destruct (filter _ _) as [|y l] eqn:E; [done|]. injection Hs as ->.
  assert ((k, r) ∈ filter (fun x => P x = true) (scan_table (merchant_orders (w_db w)))) as Hin
    by (rewrite E; left).
  apply list_elem_of_filter in Hin as [HP Hin%elem_of_scan_table]. by exists k, r.
Qed.

(** A lookup with exactly one candidate. *)
Lemma query_order_clear P w w1 k r :
  clear w w1 -> merchant_orders (w_db w) !! k = Some r -> P (k, r) = true ->
  (forall k' r', merchant_orders (w_db w) !! k' = Some r' -> P (k', r') = true -> k' = k) ->
  query_order P w = (Ok (view_order (k, r)), w1).
Proof.
  intros Hw Hk HP Hu. unfold query_order. erewrite bind_intro.
  2: { apply attempt_Ok with (r := inr (k, r)). apply select_on_clear; [done|lia|].
    destruct (filter _ _) as [|[k' r'] l] eqn:E.
    - assert ((k, r) ∈ filter (fun x => P x = true) (scan_table (merchant_orders (w_db w)))) as Hin
        by (by apply list_elem_of_filter; rewrite elem_of_scan_table).
      rewrite E in Hin. by apply not_elem_of_nil in Hin.
    - assert ((k', r') ∈ filter (fun x => P x = true) (scan_table (merchant_orders (w_db w)))) as Hin
        by (rewrite E; left).
      apply list_elem_of_filter in Hin as [HP' Hin%elem_of_scan_table].
      assert (k' = k) as -> by eauto. by simplify_eq. }
  unfold lift. by rewrite scanOrder_ok.
Qed.

Lemma query_order_run P w k r :
  healthy w -> merchant_orders (w_db w) !! k = Some r -> P (k, r) = true ->
  (forall k' r', merchant_orders (w_db w) !! k' = Some r' -> P (k', r') = true -> k' = k) ->
  query_order P w = (Ok (view_order (k, r)), w).
Proof. intros Hw. by apply query_order_clear, healthy_clear. Qed.

Lemma query_order_none P w :
  healthy w -> (forall k r, merchant_orders (w_db w) !! k = Some r -> P (k, r) = false) ->
  query_order P w = (Err (ESent MerchantErrNotFound), w).
Proof.
  intros Hw Hno. pose proof Hw as [Hf Hv]. unfold query_order. erewrite bind_intro.
  2: { apply attempt_Ok with (r := inl (ESent PgxErrNoRows)).
    apply exec_run_err; [done|by rewrite Hv|]. rewrite filter_none; [done|].
    intros [k r] Hin%elem_of_scan_table. by rewrite Hno. }
  done.
Qed.

Lemma GetOrder_clear mid oid w w1 r :
  clear w w1 -> merchant_orders (w_db w) !! oid = Some r -> o_merchant_id r = mid ->
  GetOrder mid oid w = (Ok (view_order (oid, r)), w1).
Proof.
  intros Hw Hr Hm. apply query_order_clear; [done|done| |].
  - cbn. by rewrite !bool_decide_true.
  - intros k' r' _ [H _]%andb_prop. by apply bool_decide_eq_true in H.
Qed.

Lemma GetOrder_run mid oid w r :
  healthy w -> merchant_orders (w_db w) !! oid = Some r -> o_merchant_id r = mid ->
  GetOrder mid oid w = (Ok (view_order (oid, r)), w).
Proof. intros Hw. by apply GetOrder_clear, healthy_clear. Qed.

Lemma GetOrder_Ok mid oid w o w' :
  GetOrder mid oid w = (Ok o, w') ->
  ∃ r, merchant_orders (w_db w) !! oid = Some r ∧ o_merchant_id r = mid
    ∧ o = view_order (oid, r) ∧ w_db w' = w_db w ∧ same_env w w'.
Proof.
  intros (k & r & Hk & [H1 H2]%andb_prop & Ho & Hdb)%query_order_Ok.
  apply bool_decide_eq_true in H1, H2. cbn in *. subst k. by exists r.
Qed.

Lemma view_order_status r x : or_Status (view_order (x, r)) = "paid" <-> o_status r = OPaid.
Proof. cbn. by destruct (o_status r). Qed.

(** ** The idempotency key *)

(** UNIQUE (merchant_id, external_order_id) *)
Definition external_unique (d : Database) : Prop :=
  forall k1 k2 r1 r2 e, merchant_orders d !! k1 = Some r1 -> merchant_orders d !! k2 = Some r2 ->
    o_merchant_id r1 = o_merchant_id r2 -> o_external_order_id r1 = Some e ->
    o_external_order_id r2 = Some e -> k1 = k2.

Lemma has_external_spec mid ext k r :
  has_external mid ext (k, r) = true <-> o_merchant_id r = mid ∧ o_external_order_id r = Some ext.
Proof. unfold has_external. by rewrite andb_true_iff, !bool_decide_eq_true. Qed.

Lemma no_conflict mid ext d :
  existsb (has_external mid ext) (map_to_list (merchant_orders d)) = false ->
  forall k r, merchant_orders d !! k = Some r -> has_external mid ext (k, r) = false.
Proof.
  intros H k r Hk. apply not_true_iff_false. intros Ht.
  enough (existsb (has_external mid ext) (map_to_list (merchant_orders d)) = true) by congruence.
  apply existsb_exists. exists (k, r). split; [|done].
  by apply list_elem_of_In, elem_of_map_to_list.
Qed.

Lemma insert_order_spec oid mid ext hash asset amount now d d' :
  insert_order oid mid ext hash asset amount now d = Ok (tt, d') ->
  d' = d ∨
  (merchant_orders d !! oid = None ∧
   (ext ≠ EmptyString -> forall k r, merchant_orders d !! k = Some r ->
      has_external mid ext (k, r) = false) ∧
   is_Some (merchants d !! mid) ∧
   d' = upd_orders (<[oid := MkOrderRow mid (if bool_decide (ext = EmptyString) then None
          else Some ext) (Some hash) (numeric_col amount) (Some asset) OPending now None]>
          (merchant_orders d)) d).
Proof.
  unfold insert_order. case_bool_decide as E.
  - destruct (merchant_orders d !! oid) eqn:E1; [done|]. destruct (merchants d !! mid) eqn:E2; [|done].
    intros [= <-]. right. by split_and!.
  - destruct (existsb _ _) eqn:Ex; [intros [= <-]; by left|].
    destruct (merchant_orders d !! oid) eqn:E1; [done|]. destruct (merchants d !! mid) eqn:E2; [|done].
    intros [= <-]. right. split_and!; [done| |done|done]. intros _. by apply no_conflict.
Qed.

Lemma insert_order_unique oid mid ext hash asset amount now d d' :
  insert_order oid mid ext hash asset amount now d = Ok (tt, d') ->
  external_unique d -> external_unique d'.
Proof.
  intros [->|(Hn & Hc & _ & ->)]%insert_order_spec Hu; [done|].
  intros k1 k2 r1 r2 e. cbn. rewrite !lookup_insert_Some.
  intros [[<- <-]|[Hk1 H1]] [[<- <-]|[Hk2 H2]] Hm E1 E2; cbn in *; try done.
  - case_bool_decide as Ee; [done|]. injection E1 as ->.
    pose proof (Hc Ee k2 r2 H2) as Hf.
    rewrite (proj2 (has_external_spec mid e k2 r2)) in Hf; done.
  - case_bool_decide as Ee; [done|]. injection E2 as ->.
    pose proof (Hc Ee k1 r1 H1) as Hf.
    rewrite (proj2 (has_external_spec mid e k1 r1)) in Hf; done.
  - by eapply Hu.
Qed.

(** ** What runs may do to the database, and the node calls they make *)

(** What an order creation may do to the orders, whatever it answers. *)
Definition orders_grow (t : Time) (d d' : Database) : Prop :=
  merchant_orders d ⊆ merchant_orders d' ∧ (external_unique d -> external_unique d').

#[global] Instance orders_grow_preorder t : PreOrder (orders_grow t).
Proof.
  split; [done|]. intros d1 d2 d3 [H1 H2] [H3 H4]. split; [by etrans|auto].
Qed.

Lemma insert_order_grows oid mid ext hash asset amount t d u d' :
  insert_order oid mid ext hash asset amount t d = Ok (u, d') -> orders_grow t d d'.
Proof.
  destruct u. intros H. split; [|by eapply insert_order_unique].
  apply insert_order_spec in H as [->|(Hn & _ & _ & ->)]; [done|]. cbn. by apply insert_subseteq.
Qed.

Lemma frames_query_order (R : Time -> relation Database) {HR : forall t, PreOrder (R t)} P :
  frames R (query_order P).
Proof. unfold query_order. framing. Qed.

Lemma frames_payerPubkey (R : Time -> relation Database) {HR : forall t, PreOrder (R t)} h :
  frames R (payerPubkey h).
Proof. unfold payerPubkey. framing. Qed.

Lemma quiet_query_order P : quiet (query_order P).
Proof. unfold query_order. quieting. Qed.

Lemma quiet_payerPubkey h : quiet (payerPubkey h).
Proof. unfold payerPubkey. quieting. Qed.

Lemma CreateOrder_frames mid ext amt asset : frames orders_grow (CreateOrder mid ext amt asset).
Proof.
  unfold CreateOrder, prior_order, race_winner, orderByExternalID, GetOrder, id_New.
  framing; try (apply frames_query_order; apply _).
  intros t d u d'. apply insert_order_grows.
Qed.

Lemma payerPubkey_Ok h w payer w' :
  payerPubkey h w = (Ok payer, w') ->
  (∃ p, payments (w_db w) !! h = Some p ∧ p_peer p = Some payer) ∧ payer ≠ EmptyString
  ∧ w_db w' = w_db w.
Proof.
  unfold payerPubkey. intros H. m_inv H. destruct a as [e|peer].
  { destruct (errors_Is e PgxErrNoRows); discriminate H. }
  case_bool_decide as E; [done|]. m_inv H.
  apply attempt_Ok, select_Ok in Hm as (_ & Hs & Edb & _).
  destruct (payments (w_db w) !! h) as [p|] eqn:Ep; [|done]. injection Hs as Hs.
  destruct peer as [s|]; [|done]. cbn. split_and!; [by exists p|done|done].
Qed.

(** A refund writes a refund row and then, for a paid order of this merchant that has
    one, the order. *)
Lemma RefundOrder_frames (R : Time -> relation Database) {HR : forall t, PreOrder (R t)}
    mid oid amt reason :
  (forall t d d' o rid asset hash a, merchant_orders d !! oid = Some o ->
     o_merchant_id o = mid -> o_status o = OPaid ->
     insert_refund rid oid asset reason hash (AmountToNumeric a) t d = Ok (tt, d') -> R t d d') ->
  (forall t d o rid rr, merchant_orders d !! oid = Some o -> o_merchant_id o = mid ->
     o_status o = OPaid -> refunds d !! rid = Some rr -> r_order_id rr = oid ->
     R t d (upd_orders (alter set_refunded oid (merchant_orders d)) d)) ->
  frames R (RefundOrder mid oid amt reason).
Proof.
  intros Hins Hmark w. unfold RefundOrder. apply (moves_bind R).
  { apply frames_query_order, _. }
  intros order w1 (o & Ho & Hmid & -> & Hdb & _)%GetOrder_Ok.
  case_bool_decide as Hst; [|apply frames_throw, _]. apply view_order_status in Hst.
  destruct (ParseAmount amt) as [am [e|]]; [apply frames_throw, _|]. cbn [negb].
  apply (moves_bind R).
  { apply frames_payerPubkey, _. }
  intros payer w2 (_ & _ & Hdb2)%payerPubkey_Ok.
  apply (moves_bind R); [apply frames_wrapping, frames_SendPayment, _|].
  intros pay w3 Hpay%wrapping_Ok. injection Hpay as _ <-.
  apply (moves_bind R); [apply frames_id_New, _|]. intros rid w4 Hrid. injection Hrid as _ <-.
  apply (moves_bind R).
  { apply moves_wrapping, (moves_exec R). intros [] d'. eapply Hins; [|done..].
    cbn [w_db log_call]. by rewrite Hdb2, Hdb. }
  intros [] w5 (_ & Hi & _)%wrapping_Ok%exec_Ok. cbn [w_db log_call] in Hi.
  rewrite Hdb2, Hdb in Hi. unfold insert_refund in Hi.
  destruct (refunds (w_db w) !! rid); [done|]. rewrite Ho in Hi. injection Hi as Hi.
  apply (moves_bind R); [|intros ? ? _; apply frames_mret, _].
  apply moves_wrapping, (moves_exec R). intros a d' H. injection H as _ <-.
  eapply (Hmark _ _ o rid); rewrite <- ?Hi; cbn [merchant_orders refunds upd_refunds];
    [done..|apply lookup_insert_eq|done].
Qed.
End facts.
