(* ===== verification/MerchantSteps.v ===== *)
(** * The merchant's methods, cut at their node call

    [Service.Refund] and [Service.CreateOrder] read, call the node and write.  Each is
    cut into the part before and the part from the call on ([RefundOrder_cut],
    [CreateOrder_cut]), with what each part does in a healthy world, and what a refund
    leaves when its record fails. *)

From S2P Require Import Prelude Strconv GoTime External Schema Numeric Tables Ids Sql IndexerTotal Http Frame Query QueryFacts QueryProps Csv Merchant MerchantApi MerchantFacts.

Section steps.
Context {FT : Fibertypes} {PG : Postgres} {PGL : PostgresLaws} {CR : Crypto}
  {FR : FiberRPC} {XL : Excelize}.
Implicit Types (w : world).

(** [Service.Refund] up to the payment, and from the payment on. *)
Definition refund_lookup (mid oid amountHex : string) : M (Order * Amount * string) :=
  order ← GetOrder mid oid;
  if negb (bool_decide (or_Status order = "paid")) then
    throw (invalid_state (": order status is " +:+ go_quote (or_Status order) +:+ ", must be paid"))
  else
    match ParseAmount amountHex with
    | (_, Some e) => throw (invalid_state (": amount: " +:+ error_text e))
    | (amount, None) =>
        payer ← payerPubkey (or_InvoicePaymentHash order);
        mret (order, amount, payer)
    end.

Definition refund_pay (oid reason : string) (x : Order * Amount * string) : M Refund :=
  let '(order, amount, payer) := x in
  pay ← wrapping "merchant: send refund: " (SendPayment (MkSendPaymentParams payer amount true));
  rid ← id_New;
  _ ← wrapping "merchant: insert refund: "
        (exec 3 (insert_refund rid oid (or_Asset order) reason (pay_PaymentHash pay)
          (AmountToNumeric amount)));
  _ ← wrapping "merchant: mark order refunded: " (exec 3 (mark_refunded oid));
  mret (MkRefund rid oid (Hex amount) (or_Asset order) reason "sent" (pay_PaymentHash pay)).

Lemma RefundOrder_cut mid oid amt reason w :
  RefundOrder mid oid amt reason w = (x ← refund_lookup mid oid amt; refund_pay oid reason x) w.
Proof.
  unfold RefundOrder, refund_lookup, refund_pay, mbind, M_bind, mbind_M.
  destruct (GetOrder mid oid w) as [[order|?|?] w1]; [|done..].
  destruct (negb _); [done|]. destruct (ParseAmount amt) as [a [e|]]; [done|].
  by destruct (payerPubkey _ w1) as [[payer|?|?] w2].
Qed.

(** [Service.CreateOrder] after the probe for an earlier order. *)
Definition order_create (mid ext asset0 : string) (amount : Amount) : M (Order * Invoice) :=
  let asset := if bool_decide (asset0 = EmptyString) then "CKB" else asset0 in
  inv ← wrapping "merchant: new invoice: "
          (NewInvoice (MkNewInvoiceParams amount ("order " +:+ ext)));
  oid ← id_New;
  _ ← wrapping "merchant: insert order: "
        (exec 3 (insert_order oid mid ext (inv_PaymentHash inv) asset (AmountToNumeric amount)));
  winner ← race_winner mid ext;
  match winner with
  | Some existing => mret (existing, inv)
  | None => order ← GetOrder mid oid; mret (order, inv)
  end.

Lemma CreateOrder_cut mid ext amt asset a w w1 :
  ParseAmount amt = (a, None) -> prior_order mid ext w = (Ok None, w1) ->
  CreateOrder mid ext amt asset w = order_create mid ext asset a w1.
Proof. intros Ha Hp. unfold CreateOrder. rewrite Ha. by rewrite (bind_intro _ _ _ _ _ Hp). Qed.

(** A refund that passed its lookup pays, whatever has become of the order since. *)
Lemma refund_pay_run oid reason order a payer pay w o :
  healthy w -> merchant_orders (w_db w) !! oid = Some o ->
  refunds (w_db w) !! ulid_New (w_draws w) = None ->
  let p := MkSendPaymentParams payer a true in
  rpc_SendPayment (w_calls w) p = Ok pay ->
  ∃ w', refund_pay oid reason (order, a, payer) w =
      (Ok (MkRefund (ulid_New (w_draws w)) oid (Hex a) (or_Asset order) reason "sent"
             (pay_PaymentHash pay)), w')
    ∧ healthy w' ∧ w_draws w' = S (w_draws w) ∧ w_calls w' = w_calls w ++ [CallSendPayment p]
    ∧ merchant_orders (w_db w') = <[oid := set_refunded o]> (merchant_orders (w_db w))
    ∧ refunds (w_db w') = <[ulid_New (w_draws w) := MkRefundRow oid (Some (BigInt a))
        (Some (or_Asset order)) (Some reason) (Some "sent") (Some (pay_PaymentHash pay))
        (w_now w)]> (refunds (w_db w)).
Proof.
  intros Hw Ho Hr p Hpay. set (rid := ulid_New (w_draws w)) in *.
  set (w1 := log_call (CallSendPayment p) w).
  set (w2 := World (w_db w1) (w_faults w1) (w_now w1) (S (w_draws w1)) (w_calls w1)).
  set (d3 := upd_refunds (<[rid := MkRefundRow oid (Some (BigInt a)) (Some (or_Asset order))
    (Some reason) (Some "sent") (Some (pay_PaymentHash pay)) (w_now w)]> (refunds (w_db w))) (w_db w)).
  set (d4 := upd_orders (alter set_refunded oid (merchant_orders d3)) d3).
  exists (set_db d4 w2). destruct Hw as [Hf Hv]. split_and!; [|done..| |done].
  - unfold refund_pay. rewrite (bind_intro _ _ w pay w1).
    2: { apply wrapping_run. unfold SendPayment, w1. fold p. by rewrite Hpay. }
    rewrite (bind_intro _ _ w1 rid w2) by done. cbv beta.
    rewrite (bind_intro _ _ w2 tt (set_db d3 w2)).
    2: { apply wrapping_run, exec_healthy; [by split|lia|]. cbn [w2 w1 log_call w_db w_now].
      unfold insert_refund. by rewrite Hr, Ho, numeric_col_amount. }
    rewrite (bind_intro _ _ (set_db d3 w2) tt (set_db d4 (set_db d3 w2))); [done|].
    apply wrapping_run, exec_healthy; [by split|lia|done].
  - cbn. apply map_eq. intros k. destruct (decide (oid = k)) as [<-|Hne].
    + by rewrite lookup_alter_eq, lookup_insert_eq, Ho.
    + by rewrite lookup_alter_ne, lookup_insert_ne.
Qed.

Lemma payerPubkey_clear h w w1 p payer :
  clear w w1 -> payments (w_db w) !! h = Some p -> p_peer p = Some payer -> payer ≠ EmptyString ->
  payerPubkey h w = (Ok payer, w1).
Proof.
  intros Hw Hp Hpeer Hne. unfold payerPubkey.
  rewrite (bind_intro _ _ w (inr (p_peer p)) w1).
  2: { apply attempt_Ok with (r := inr (p_peer p)).
    apply select_on_clear; [done|lia|]. by rewrite Hp. }
  rewrite Hpeer. cbn. by rewrite bool_decide_false.
Qed.

(** The lookup's two statements. *)
Lemma refund_lookup_clear mid oid amt a w w1 w2 o h p payer :
  clear w w1 -> clear w1 w2 -> merchant_orders (w_db w) !! oid = Some o -> o_merchant_id o = mid ->
  o_status o = OPaid -> o_invoice_payment_hash o = Some h ->
  payments (w_db w) !! h = Some p -> p_peer p = Some payer -> payer ≠ EmptyString ->
  ParseAmount amt = (a, None) ->
  refund_lookup mid oid amt w = (Ok (view_order (oid, o), a, payer), w2).
Proof.
  intros Hw Hw1 Ho Hm Hs Hh Hp Hpeer Hne Ha. unfold refund_lookup.
  rewrite (bind_intro _ _ w (view_order (oid, o)) w1) by by apply GetOrder_clear.
  rewrite bool_decide_true by by apply view_order_status. cbn [negb]. rewrite Ha.
  rewrite (bind_intro _ _ w1 payer w2); [done|].
  apply (payerPubkey_clear _ _ _ p); [done| |done|done].
  destruct Hw as [Hf _]. apply next_fault_frame in Hf as [-> _]. cbn. by rewrite Hh.
Qed.

Lemma refund_lookup_run mid oid amt a w o h p payer :
  healthy w -> merchant_orders (w_db w) !! oid = Some o -> o_merchant_id o = mid ->
  o_status o = OPaid -> o_invoice_payment_hash o = Some h ->
  payments (w_db w) !! h = Some p -> p_peer p = Some payer -> payer ≠ EmptyString ->
  ParseAmount amt = (a, None) ->
  refund_lookup mid oid amt w = (Ok (view_order (oid, o), a, payer), w).
Proof. intros Hw%healthy_clear. by apply (refund_lookup_clear _ _ _ _ w w w). Qed.

(** The faults under which a refund ends without its order being marked: the insert of
    the refund row fails or is not acknowledged, or the update after it fails. *)
Inductive record_fault (err : error) : list fault -> Prop :=
  | insert_fails fs : record_fault err (Fail err :: fs)
  | insert_lost fs : record_fault err (AckLost err :: fs)
  | mark_fails fs : record_fault err (NoFault :: Fail err :: fs).

(** The payment is sent and not recorded, or recorded and the order left paid. *)
Lemma refund_pay_fails err oid reason order a payer pay w o :
  version (w_db w) = latest_version -> record_fault err (w_faults w) ->
  merchant_orders (w_db w) !! oid = Some o -> refunds (w_db w) !! ulid_New (w_draws w) = None ->
  let p := MkSendPaymentParams payer a true in
  rpc_SendPayment (w_calls w) p = Ok pay ->
  ∃ msg w', refund_pay oid reason (order, a, payer) w = (Err (EWrap msg err EmptyString), w')
    ∧ w_calls w' = w_calls w ++ [CallSendPayment p]
    ∧ (w_db w' = w_db w ∨ w_db w' = upd_refunds (<[ulid_New (w_draws w) :=
         MkRefundRow oid (Some (BigInt a)) (Some (or_Asset order)) (Some reason) (Some "sent")
           (Some (pay_PaymentHash pay)) (w_now w)]> (refunds (w_db w))) (w_db w)).
Proof.
  intros Hv Hfs Ho Hr p Hpay. set (rid := ulid_New (w_draws w)) in *.
  set (w1 := log_call (CallSendPayment p) w).
  set (w2 := World (w_db w1) (w_faults w1) (w_now w1) (S (w_draws w1)) (w_calls w1)).
  set (d3 := upd_refunds _ _).
  assert (insert_refund rid oid (or_Asset order) reason (pay_PaymentHash pay) (AmountToNumeric a)
    (w_now w2) (w_db w2) = Ok (tt, d3)) as Hins.
  { cbn [w2 w1 log_call w_db w_now]. unfold insert_refund. by rewrite Hr, Ho, numeric_col_amount. }
  assert (3 <= version (w_db w2)) as Hv2 by (cbn; by rewrite Hv).
  unfold refund_pay. rewrite (bind_intro _ _ w pay w1).
  2: { apply wrapping_run. unfold SendPayment, w1. fold p. by rewrite Hpay. }
  rewrite (bind_intro _ _ w1 rid w2) by done. cbv beta.
  change (record_fault err (w_faults w2)) in Hfs.
  unfold mbind at 1, M_bind at 1, mbind_M at 1. unfold wrapping at 1.
  inversion Hfs as [fs Ef|fs Ef|fs Ef].
  - rewrite (exec_fails _ _ w2 (set_faults fs w2) err) by by apply next_fault_cons.
    do 2 eexists. split_and!; [done|done|by left].
  - rewrite (exec_unacknowledged _ _ w2 (set_faults fs w2) err tt d3);
      [|by apply next_fault_cons|done|done].
    do 2 eexists. split_and!; [done|done|by right].
  - rewrite (exec_clear _ _ w2 (set_faults (Fail err :: fs) w2) tt d3);
      [|by apply next_fault_cons|done|done].
    cbv beta iota. unfold mbind, M_bind, mbind_M, wrapping.
    rewrite (exec_fails _ _ _ (set_db d3 (set_faults fs w2)) err) by done.
    do 2 eexists. split_and!; [done|done|by right].
Qed.

(** An order under a free external id, from its invoice on. *)
Lemma order_create_run mid ext asset a inv w :
  healthy w -> is_Some (merchants (w_db w) !! mid) ->
  (ext ≠ EmptyString -> forall k r, merchant_orders (w_db w) !! k = Some r ->
     has_external mid ext (k, r) = false) ->
  merchant_orders (w_db w) !! ulid_New (w_draws w) = None ->
  let p := MkNewInvoiceParams a ("order " +:+ ext) in
  rpc_NewInvoice (w_calls w) p = Ok inv ->
  let oid := ulid_New (w_draws w) in
  let row := MkOrderRow mid (if bool_decide (ext = EmptyString) then None else Some ext)
    (Some (inv_PaymentHash inv)) (Some (BigInt a))
    (Some (if bool_decide (asset = EmptyString) then "CKB" else asset)) OPending (w_now w) None in
  ∃ w', order_create mid ext asset a w = (Ok (view_order (oid, row), inv), w')
    ∧ healthy w' ∧ merchant_orders (w_db w') = <[oid := row]> (merchant_orders (w_db w))
    ∧ w_calls w' = w_calls w ++ [CallNewInvoice p].
Proof.
  intros Hw [m Hm] Hno Hfresh p Hinv oid row.
  change (merchant_orders (w_db w) !! oid = None) in Hfresh.
  set (w1 := log_call (CallNewInvoice p) w).
  set (w2 := World (w_db w1) (w_faults w1) (w_now w1) (S (w_draws w1)) (w_calls w1)).
  set (w3 := set_db (upd_orders (<[oid := row]> (merchant_orders (w_db w))) (w_db w)) w2).
  assert (healthy w3) as Hw3 by (destruct Hw; by split).
  assert (merchant_orders (w_db w3) !! oid = Some row) as Hrow by apply lookup_insert_eq.
  exists w3. split_and!; [|done|done|done]. unfold order_create. cbv zeta.
  rewrite (bind_intro _ _ w inv w1).
  2: { apply wrapping_run. unfold NewInvoice, w1. fold p. by rewrite Hinv. }
  rewrite (bind_intro _ _ w1 oid w2) by done. cbv beta.
  rewrite (bind_intro _ _ w2 tt w3).
  2: { apply wrapping_run, exec_healthy; [destruct Hw; by split|lia|].
    cbn [w2 w1 log_call w_db w_now]. unfold insert_order. rewrite numeric_col_amount.
    case_bool_decide as He.
    - by rewrite Hfresh, Hm.
    - destruct (existsb _ _) eqn:Ex; [|by rewrite Hfresh, Hm].
      apply existsb_exists in Ex as ([k r] & Hin & HP).
      apply list_elem_of_In, elem_of_map_to_list in Hin. by rewrite Hno in HP. }
  unfold race_winner, row. case_bool_decide as He; fold row.
  - rewrite (bind_intro _ _ w3 None w3) by done.
    rewrite (bind_intro _ _ w3 (view_order (oid, row)) w3); [done|]. by apply GetOrder_run.
  - rewrite (bind_intro _ _ w3 (Some (view_order (oid, row))) w3); [done|].
    rewrite (bind_intro _ _ w3 (inr (view_order (oid, row))) w3); [done|].
    apply attempt_Ok with (r := inr (view_order (oid, row))).
    apply query_order_run; [done|exact Hrow|by apply has_external_spec|].
    intros k' r' Hk' HP. cbn in Hk'. apply lookup_insert_Some in Hk' as [[<- _]|[_ Hk']]; [done|].
    by rewrite Hno in HP.
Qed.

Lemma prior_order_none mid ext w :
  healthy w ->
  (ext ≠ EmptyString -> forall k r, merchant_orders (w_db w) !! k = Some r ->
     has_external mid ext (k, r) = false) ->
  prior_order mid ext w = (Ok None, w).
Proof.
  intros Hw Hno. unfold prior_order. case_bool_decide as He; [done|].
  rewrite (bind_intro _ _ w (inl (ESent MerchantErrNotFound)) w); [done|].
  apply attempt_Ok with (r := inl (ESent MerchantErrNotFound)).
  by apply query_order_none; [|apply Hno].
Qed.

(** An order under an external id that was taken since the probe: the node is still
    asked for an invoice, and the answer pairs it with the order that was there. *)
Lemma order_create_taken mid ext asset a inv w k r :
  healthy w -> ext ≠ EmptyString -> external_unique (w_db w) ->
  merchant_orders (w_db w) !! k = Some r -> o_merchant_id r = mid ->
  o_external_order_id r = Some ext ->
  let p := MkNewInvoiceParams a ("order " +:+ ext) in
  rpc_NewInvoice (w_calls w) p = Ok inv ->
  ∃ w', order_create mid ext asset a w = (Ok (view_order (k, r), inv), w')
    ∧ w_db w' = w_db w ∧ w_calls w' = w_calls w ++ [CallNewInvoice p].
Proof.
  intros Hw Hne Hu Hk Hm He p Hinv.
  assert (has_external mid ext (k, r) = true) as Hx by by apply has_external_spec.
  set (w1 := log_call (CallNewInvoice p) w).
  set (w2 := World (w_db w1) (w_faults w1) (w_now w1) (S (w_draws w1)) (w_calls w1)).
  assert (healthy w2) as Hw2 by (destruct Hw; by split).
  exists w2. split_and!; [|done|done]. unfold order_create. cbv zeta.
  rewrite (bind_intro _ _ w inv w1).
  2: { apply wrapping_run. unfold NewInvoice, w1. fold p. by rewrite Hinv. }
  rewrite (bind_intro _ _ w1 (ulid_New (w_draws w)) w2) by done. cbv beta.
  rewrite (bind_intro _ _ w2 tt (set_db (w_db w) w2)).
  2: { apply wrapping_run, exec_healthy; [done|lia|]. unfold insert_order.
    rewrite bool_decide_false by done.
    assert (existsb (has_external mid ext) (map_to_list (merchant_orders (w_db w2))) = true) as ->.
    { apply existsb_exists. exists (k, r). split; [|done].
      by apply list_elem_of_In, elem_of_map_to_list. }
    done. }
  unfold race_winner. rewrite bool_decide_false by done.
  rewrite (bind_intro _ _ (set_db (w_db w) w2) (Some (view_order (k, r))) w2); [done|].
  rewrite (bind_intro _ _ (set_db (w_db w) w2) (inr (view_order (k, r))) w2); [done|].
  apply attempt_Ok with (r := inr (view_order (k, r))).
  apply query_order_run; [done|done|done|].
  intros k' r' Hk' [Hm' He']%has_external_spec. eapply Hu; [done|done|congruence|done|done].
Qed.
End steps.
