(* ===== verification/MerchantProps.v ===== *)
(** * What the merchant backend guarantees

    Idempotent orders, guarded and final refunds, settlement and reconciliation
    arithmetic, the CSV export, and API-key authentication. *)

From S2P Require Import Prelude Strconv GoTime External Schema Numeric Tables Ids Sql IndexerTotal WebhookProps Http Frame Query QueryApi QueryFacts QueryProps Csv Merchant MerchantApi MerchantFacts MerchantSteps.

(** ** Lemmas the theorems share *)

Section lemmas.
Context {FT : Fibertypes} {PG : Postgres} {PGL : PostgresLaws} {CR : Crypto}
  {FR : FiberRPC} {XL : Excelize}.
Implicit Types (w : world).

(** A lookup reads: it changes no table, and does not panic. *)
Lemma query_order_reads P w :
  w_db (snd (query_order P w)) = w_db w ∧ forall p, fst (query_order P w) ≠ Panic p.
Proof.
  unfold query_order, mbind, M_bind, mbind_M, attempt, select, exec, run_stmt, next_fault.
  destruct (w_faults w) as [|[|e|e] fs]; cbn [w_db set_faults];
    try (destruct (_ <? 3); [|destruct (filter _ _)]); cbn; try rewrite scanOrder_ok; try done;
    destruct (errors_Is e PgxErrNoRows); split; try done.
Qed.

(** An order that is not paid is not refunded, whatever else the tables hold and
    whatever fails. *)
Lemma refund_refused o w (mid oid amt reason : string) :
  merchant_orders (w_db w) !! oid = Some o -> o_status o ≠ OPaid ->
  ∃ e w', RefundOrder mid oid amt reason w = (Err e, w')
    ∧ w_db w' = w_db w ∧ w_calls w' = w_calls w
    ∧ (healthy w -> o_merchant_id o = mid ->
       w' = w ∧ errors_Is e MerchantErrInvalidState = true).
Proof.
  intros Ho Hst. unfold RefundOrder, mbind, M_bind, mbind_M.
  assert (w_db (snd (GetOrder mid oid w)) = w_db w ∧ forall p, fst (GetOrder mid oid w) ≠ Panic p)
    as [Hdb Hp] by apply query_order_reads.
  assert (w_calls (snd (GetOrder mid oid w)) = w_calls w) as Hc by apply quiet_query_order.
  assert (healthy w -> o_merchant_id o = mid -> GetOrder mid oid w = (Ok (view_order (oid, o)), w))
    as Hrun by (intros Hw Hm; by apply GetOrder_run).
  destruct (GetOrder mid oid w) as [[ord|e|p] w1] eqn:E; cbn [fst snd] in *.
  - apply GetOrder_Ok in E as (o' & Ho' & _ & -> & _). simplify_eq.
    rewrite bool_decide_false by (by rewrite view_order_status). do 2 eexists.
    split_and!; [done..|]. intros Hw Hm. split; [|done]. by injection (Hrun Hw Hm).
  - exists e, w1. split_and!; [done..|]. intros Hw Hm. by discriminate (Hrun Hw Hm).
  - by destruct (Hp p).
Qed.
End lemmas.

(** ** Orders and refunds *)

Section orders.
Context {FT : Fibertypes} {PG : Postgres} {PGL : PostgresLaws} {CR : Crypto}
  {FR : FiberRPC} {XL : Excelize}.
Implicit Types (w : world).

(** C16.  A repeated order request is idempotent: when the merchant already has an
    order under the external id, [CreateOrder] answers that very order with its own
    payment hash, whatever (parsable) amount and asset it is asked for, makes no call
    to the node and changes nothing. *)
Theorem CreateOrder_repeat mid ext amt asset w k r :
  healthy w -> is_ok (of_pair (ParseAmount amt)) = true -> ext ≠ EmptyString ->
  external_unique (w_db w) -> merchant_orders (w_db w) !! k = Some r ->
  o_merchant_id r = mid -> o_external_order_id r = Some ext ->
  CreateOrder mid ext amt asset w =
    (Ok (view_order (k, r), MkInvoice (str (o_invoice_payment_hash r)) EmptyString), w).
Proof.
  intros Hw Ha He Hu Hk Hm Hext. unfold CreateOrder, prior_order.
  destruct (ParseAmount amt) as [a [e|]]; [done|].
  rewrite (bool_decide_false (ext = EmptyString)) by done.
  assert (orderByExternalID mid ext w = (Ok (view_order (k, r)), w)) as Hq.
  { apply query_order_run; [done|done|by apply has_external_spec|].
    intros k' r' Hk' [Hm' He']%has_external_spec. eapply Hu; [done|done|congruence|done|done]. }
  rewrite (bind_intro _ _ w (Some (view_order (k, r))) w); [reflexivity|].
  rewrite (bind_intro _ _ w (inr (view_order (k, r))) w); [reflexivity|].
  by apply attempt_Ok with (r := inr (view_order (k, r))).
Qed.

(** C29.  A first order: in a healthy world, for an existing merchant, a parsable
    amount and an unused external id, [CreateOrder] makes exactly one NewInvoice call,
    for that amount, and answers the pending order it adds, which carries the
    invoice's payment hash and the exact amount. *)
Theorem CreateOrder_fresh mid ext amt asset w a inv :
  healthy w -> ParseAmount amt = (a, None) -> is_Some (merchants (w_db w) !! mid) ->
  (ext ≠ EmptyString -> forall k r, merchant_orders (w_db w) !! k = Some r ->
     has_external mid ext (k, r) = false) ->
  merchant_orders (w_db w) !! ulid_New (w_draws w) = None ->
  let p := MkNewInvoiceParams a ("order " +:+ ext) in
  rpc_NewInvoice (w_calls w) p = Ok inv ->
  let oid := ulid_New (w_draws w) in
  let row := MkOrderRow mid (if bool_decide (ext = EmptyString) then None else Some ext)
    (Some (inv_PaymentHash inv)) (Some (BigInt a))
    (Some (if bool_decide (asset = EmptyString) then "CKB" else asset)) OPending (w_now w) None in
  ∃ w', CreateOrder mid ext amt asset w = (Ok (view_order (oid, row), inv), w')
    ∧ merchant_orders (w_db w') = <[oid := row]> (merchant_orders (w_db w))
    ∧ w_calls w' = w_calls w ++ [CallNewInvoice p].
Proof.
  intros Hw Ha Hm Hno Hfresh p Hinv oid row.
  destruct (order_create_run mid ext asset a inv w Hw Hm Hno Hfresh Hinv)
    as (w' & E & _ & Ho & Hc).
  exists w'. split_and!; [|done|done].
  by rewrite (CreateOrder_cut mid ext amt asset a w w Ha (prior_order_none mid ext w Hw Hno)).
Qed.

(** Whatever [CreateOrder] answers, under any fault: it never touches or removes
    an existing order, keeps the idempotency key unique, and makes at most one call
    to the node, a NewInvoice. *)
Theorem CreateOrder_safe mid ext amt asset w :
  let w' := snd (CreateOrder mid ext amt asset w) in
  merchant_orders (w_db w) ⊆ merchant_orders (w_db w')
  ∧ (external_unique (w_db w) -> external_unique (w_db w'))
  ∧ (w_calls w' = w_calls w ∨ ∃ p, w_calls w' = w_calls w ++ [CallNewInvoice p]).
Proof.
  intros w'. destruct (CreateOrder_frames mid ext amt asset w) as [[H1 H2] _].
  split_and!; [exact H1|exact H2|]. subst w'. clear H1 H2.
  unfold CreateOrder. destruct (ParseAmount amt) as [a [e|]]; [by left|].
  assert (quiet (prior_order mid ext)) as Hp.
  { unfold prior_order, orderByExternalID. quieting. all: apply quiet_query_order. }
  destruct ((prior_order mid ext ≫= _) w) as [r w'] eqn:E. cbn [snd].
  apply bind_cases in E as [[_ ->]|(pr & w1 & E1 & E)]; [left; apply Hp|].
  pose proof (Hp w) as Hc. rewrite E1 in Hc. cbn in Hc.
  destruct pr as [existing|]; [left; injection E as _ <-; done|].
  apply bind_cases in E as [[_ ->]|(inv & w2 & E2 & E)].
  - right. eexists. unfold wrapping, NewInvoice. rewrite <- Hc.
    by destruct (rpc_NewInvoice (w_calls w1) _).
  - right. eexists.
    assert (w_calls w2 = w_calls w1 ++ [CallNewInvoice (MkNewInvoiceParams a ("order " +:+ ext))])
      as Hc2.
    { unfold wrapping, NewInvoice in E2. destruct (rpc_NewInvoice (w_calls w1) _);
        injection E2 as _ <-; done. }
    rewrite <- Hc, <- Hc2. change (w_calls w') with (w_calls (snd (r, w'))). rewrite <- E.
    match goal with |- w_calls (snd (?m w2)) = _ => assert (quiet m) as Hq; [|apply Hq] end.
    unfold id_New, race_winner, orderByExternalID, GetOrder. quieting. all: apply quiet_query_order.
Qed.

(** C12.  Refunds are guarded: whatever [RefundOrder] answers, under any fault, it
    sends no payment unless the order is this merchant's, is paid, the amount parses
    and the payer's key was captured on the payment of the order's invoice; and then
    it sends exactly one, of that amount, to that key. *)
Theorem RefundOrder_guarded mid oid amt reason w :
  let w' := snd (RefundOrder mid oid amt reason w) in
  w_calls w' = w_calls w ∨
  ∃ o a p payer, merchant_orders (w_db w) !! oid = Some o ∧ o_merchant_id o = mid
    ∧ o_status o = OPaid ∧ ParseAmount amt = (a, None)
    ∧ payments (w_db w) !! str (o_invoice_payment_hash o) = Some p
    ∧ p_peer p = Some payer ∧ payer ≠ EmptyString
    ∧ w_calls w' = w_calls w ++ [CallSendPayment (MkSendPaymentParams payer a true)].
Proof.
  intros w'. destruct (RefundOrder mid oid amt reason w) as [r w1] eqn:E. cbn in w'. subst w'.
  unfold RefundOrder in E.
  apply bind_cases in E as [[_ ->]|(o & w2 & E1 & E)]; [left; apply quiet_query_order|].
  apply GetOrder_Ok in E1 as (row & Hrow & Hm & -> & Hdb & [_ _ Hc]).
  case_bool_decide as Hst; [|left; injection E as _ <-; done].
  apply view_order_status in Hst. cbn [negb] in E.
  destruct (ParseAmount amt) as [a [e|]] eqn:Ea; [left; injection E as _ <-; done|].
  pose proof (quiet_payerPubkey (or_InvoicePaymentHash (view_order (oid, row))) w2) as Hq.
  apply bind_cases in E as [[_ ->]|(payer & w3 & E2 & E)]; [left; by rewrite Hq|].
  rewrite E2 in Hq. cbn [snd] in Hq.
  apply payerPubkey_Ok in E2 as ((p & Hp & Hpeer) & Hne & Hdb3). rewrite Hdb in Hp.
  right. exists row, a, p, payer. split_and!; try done.
  rewrite <- Hc, <- Hq.
  apply bind_cases in E as [[_ ->]|(pay & w4 & E3 & E)].
  - unfold wrapping, SendPayment. by destruct (rpc_SendPayment (w_calls w3) _).
  - assert (w_calls w4 = w_calls w3 ++ [CallSendPayment (MkSendPaymentParams payer a true)])
      as Hc4.
    { unfold wrapping, SendPayment in E3. destruct (rpc_SendPayment (w_calls w3) _);
        injection E3 as _ <-; done. }
    rewrite <- Hc4. change (w_calls w1) with (w_calls (snd (r, w1))). rewrite <- E.
    match goal with |- w_calls (snd (?m w4)) = _ => assert (quiet m) as Hk; [|apply Hk] end.
    unfold id_New. quieting.
Qed.

(** C20.  A refund is recorded and final: when [RefundOrder] succeeds, the order was
    paid and is now refunded, everything else of it unchanged, and the refund row
    holds the exact amount and the node's payment hash; from then on any request to
    refund an order so marked, by any merchant, on whatever tables it meets and under
    any faults, answers an error, changes no table and calls no node, and when nothing
    fails and the merchant is the order's the error is an invalid state. *)
Theorem RefundOrder_once mid oid amt reason w rf w' :
  RefundOrder mid oid amt reason w = (Ok rf, w') ->
  ∃ o a, merchant_orders (w_db w) !! oid = Some o ∧ o_status o = OPaid
    ∧ ParseAmount amt = (a, None)
    ∧ merchant_orders (w_db w') !! oid = Some (MkOrderRow (o_merchant_id o)
        (o_external_order_id o) (o_invoice_payment_hash o) (o_amount o) (o_asset o) ORefunded
        (o_created_at o) (o_paid_at o))
    ∧ (∃ t, refunds (w_db w') !! rf_ID rf = Some (MkRefundRow oid (Some (BigInt a))
          (Some (rf_Asset rf)) (Some reason) (Some "sent") (Some (rf_FiberPaymentHash rf)) t))
    ∧ forall mid' amt' reason' w2 o2,
        merchant_orders (w_db w2) !! oid = Some o2 -> o_status o2 = ORefunded ->
        ∃ e w3, RefundOrder mid' oid amt' reason' w2 = (Err e, w3)
          ∧ w_db w3 = w_db w2 ∧ w_calls w3 = w_calls w2
          ∧ (healthy w2 -> o_merchant_id o2 = mid' ->
             w3 = w2 ∧ errors_Is e MerchantErrInvalidState = true).
Proof.
  unfold RefundOrder at 1. intros H. m_inv H.
  apply GetOrder_Ok in Hm as (o & Ho & Hmid & -> & Hdb & _).
  case_bool_decide as Hst; [|done]. apply view_order_status in Hst. cbn [negb] in H.
  destruct (ParseAmount amt) as [am [e|]] eqn:Ea; [done|].
  m_inv H. apply payerPubkey_Ok in Hm as (_ & _ & Hdb1).
  apply wrapping_Ok in Hm0. injection Hm0 as _ <-.
  injection Hm1 as <- <-.
  apply wrapping_Ok, exec_Ok in Hm2 as (_ & Hins & _).
  apply wrapping_Ok, exec_Ok in Hm3 as (_ & Hmark & _).
  cbn [w_db log_call] in Hins. rewrite Hdb1, Hdb in Hins. unfold insert_refund in Hins.
  destruct (refunds (w_db w) !! _) eqn:Er; [done|]. rewrite Ho in Hins.
  injection Hins as Hins. unfold mark_refunded in Hmark. injection Hmark as Hmark.
  assert (merchant_orders (w_db w') !! oid = Some (set_refunded o)) as Hfinal.
  { rewrite <- Hmark, <- Hins. cbn. by rewrite lookup_alter_eq, Ho. }
  exists o, am. split_and!; [done|done|done|done| |].
  - eexists. rewrite <- Hmark, <- Hins. cbn [upd_orders upd_refunds refunds].
    rewrite numeric_col_amount. apply lookup_insert_eq.
  - intros mid' amt' reason' w2 o2 Ho2 Hs2. apply (refund_refused o2); [done|]. by rewrite Hs2.
Qed.
(** C31.  A refund is not atomic with its record: for any paid order, when the node has
    sent the payment and then the insert of the refund row or the update of the order
    fails, or the insert is not acknowledged, the caller gets an error and the order is
    still paid, so that the same request, retried when nothing fails, sends the same
    payment again, and only then marks the order. *)
Theorem refund_retry_pays_twice err fs mid oid amt reason a w o h p payer pay :
  version (w_db w) = latest_version ->
  w_faults w = NoFault :: NoFault :: fs -> record_fault err fs ->
  merchant_orders (w_db w) !! oid = Some o -> o_merchant_id o = mid ->
  o_status o = OPaid -> o_invoice_payment_hash o = Some h ->
  payments (w_db w) !! h = Some p -> p_peer p = Some payer -> payer ≠ EmptyString ->
  ParseAmount amt = (a, None) -> refunds (w_db w) !! ulid_New (w_draws w) = None ->
  let c := MkSendPaymentParams payer a true in
  rpc_SendPayment (w_calls w) c = Ok pay ->
  ∃ msg w1, RefundOrder mid oid amt reason w = (Err (EWrap msg err EmptyString), w1)
    ∧ w_calls w1 = w_calls w ++ [CallSendPayment c]
    ∧ merchant_orders (w_db w1) = merchant_orders (w_db w)
    ∧ forall w2 pay', healthy w2 -> w_db w2 = w_db w1 -> w_calls w2 = w_calls w1 ->
        refunds (w_db w2) !! ulid_New (w_draws w2) = None ->
        rpc_SendPayment (w_calls w2) c = Ok pay' ->
        ∃ rf w3, RefundOrder mid oid amt reason w2 = (Ok rf, w3)
          ∧ w_calls w3 = w_calls w ++ [CallSendPayment c; CallSendPayment c]
          ∧ o_status <$> merchant_orders (w_db w3) !! oid = Some ORefunded.
Proof.
  intros Hv Hfs Hfault Ho Hm Hs Hh Hp Hpeer Hne Ha Hr c Hpay.
  assert (refund_lookup mid oid amt w = (Ok (view_order (oid, o), a, payer), set_faults fs w)) as L.
  { eapply (refund_lookup_clear _ _ _ _ w (set_faults (NoFault :: fs) w)); try done.
    split; [by apply next_fault_cons|done]. }
  destruct (refund_pay_fails err oid reason (view_order (oid, o)) a payer pay (set_faults fs w) o)
    as (msg & w1 & P & Hc & Hdb); [done..|].
  assert (merchant_orders (w_db w1) = merchant_orders (w_db w)
    ∧ payments (w_db w1) = payments (w_db w)) as [Eo Ep] by by destruct Hdb as [-> | ->].
  exists msg, w1. split_and!; [|done|done|].
  - rewrite RefundOrder_cut, (bind_intro _ _ _ _ _ L). done.
  - intros w2 pay' Hw2 E2 Ec2 Hr2 Hpay'.
    assert (merchant_orders (w_db w2) !! oid = Some o) as Ho2 by by rewrite E2, Eo.
    assert (payments (w_db w2) !! h = Some p) as Hp2 by by rewrite E2, Ep.
    destruct (refund_pay_run oid reason (view_order (oid, o)) a payer pay' w2 o Hw2 Ho2 Hr2 Hpay')
      as (w3 & P3 & _ & _ & Hc3 & Ho3 & _).
    do 2 eexists. split_and!.
    + rewrite RefundOrder_cut, (bind_intro _ _ w2 (view_order (oid, o), a, payer) w2); [done|].
      by apply (refund_lookup_run _ _ _ _ _ _ h p).
    + rewrite Hc3, Ec2, Hc. by rewrite <- app_assoc.
    + by rewrite Ho3, lookup_insert_eq.
Qed.
End orders.

(** ** Reports *)

(** An amount as the API prints it. *)
Definition hex (v : Z) : string := "0x" +:+ big_Text16 v.
Definition u128 (v : Z) : Prop := 0 <= v < 2 ^ 128.

Section reports.
Context {FT : Fibertypes} {FTL : FibertypesLaws} {PG : Postgres} {PGL : PostgresLaws}
  {CR : Crypto} {CRL : CryptoLaws} {FR : FiberRPC} {XL : Excelize}.
Implicit Types (w : world).

Lemma mustAmount_u128 v :
  u128 v -> ∃ a, mustAmount (pg_numeric_out v) = Ok a ∧ BigInt a = v ∧ Hex a = hex v.
Proof.
  intros Hv. destruct (NumericToAmount_u128 _ v (pg_numeric_out_repr v) Hv) as (a & Ha & E).
  exists a. unfold mustAmount. rewrite Ha. split_and!; [done|done|by apply Hex_of_value].
Qed.

Lemma ParseAmount_hex v : u128 v -> BigInt (fst (ParseAmount (hex v))) = v.
Proof. intros Hv. destruct (ParseAmount_u128 v Hv) as (a & Ha & E). unfold hex. by rewrite Ha. Qed.

Lemma Hex_parse v : u128 v -> Hex (fst (ParseAmount ("0x" +:+ big_Text16 v))) = hex v.
Proof. intros Hv. apply Hex_of_value. by apply ParseAmount_hex. Qed.







(** The paid orders of a period. *)
Definition period_orders (mid period : string) (d : Database) : list (string * OrderRow) :=
  filter (fun x => paid_in mid period x.2 = true) (scan_table (merchant_orders d)).

Lemma elem_of_period_orders mid period d k r :
  (k, r) ∈ period_orders mid period d <->
  merchant_orders d !! k = Some r ∧ o_merchant_id r = mid ∧
  ∃ t, o_paid_at r = Some t ∧ pg_to_char_month t = period.
Proof.
  unfold period_orders, paid_in. rewrite list_elem_of_filter, elem_of_scan_table. cbn.
  rewrite andb_true_iff, bool_decide_eq_true. destruct (o_paid_at r) as [t|].
  - rewrite bool_decide_eq_true. split.
    + intros [[? ?] ?]. split_and!; [done|done|]. by exists t.
    + by intros (? & ? & t' & [= <-] & ?).
  - split; [by intros [[_ ?] _]|]. by intros (_ & _ & t' & ? & _).
Qed.





Lemma reconcile_loop_spec rows m u ids disc :
  Forall (fun x => x.1.2 = false -> u128 x.2) rows ->
  reconcile_loop rows m u ids disc =
    Ok (m + Z.of_nat (length (filter (fun x => x.1.2 = true) rows)),
        u + Z.of_nat (length (filter (fun x => x.1.2 = false) rows)),
        ids ++ (filter (fun x => x.1.2 = false) rows).*1.*1,
        disc + sumZ (filter (fun x => x.1.2 = false) rows).*2).
Proof.
  intros H. revert m u ids disc. induction H as [|[[oid []] amount] rows Hx _ IH];
    intros m u ids disc.
  - cbn. rewrite app_nil_r. do 2 f_equal; [|lia]. f_equal. f_equal; lia.
  - cbn [reconcile_loop]. rewrite IH, !list.filter_cons. cbn [fst snd].
    rewrite decide_True, decide_False by done. cbn [length]. do 4 f_equal. lia.
  - cbn [reconcile_loop]. cbn in Hx.
    destruct (mustAmount_u128 amount (Hx eq_refl)) as (a & -> & Ea & _).
    unfold mbind, result_bind. rewrite IH, !list.filter_cons. cbn [fst snd].
    rewrite decide_False, decide_True by done. cbn [length fmap list_fmap fst snd].
    rewrite <- app_assoc, Ea. unfold sumZ. cbn [foldr].
    match goal with |- Ok (?a, ?b, ?c, ?d) = Ok (_, ?b', _, ?d') =>
      replace b' with b by lia; replace d' with d by lia end.
    done.
Qed.

(** The order's invoice has a row in the payments projection. *)
Definition has_payment (d : Database) (x : string * OrderRow) : bool :=
  match o_invoice_payment_hash x.2 with
  | Some h => bool_decide (is_Some (payments d !! h))
  | None => false
  end.

(** C24.  Reconciliation partitions the period: in a healthy world, every order of the
    merchant paid in the period is counted once, as matched exactly when a payment row
    carries its invoice hash; the unmatched ones are listed, the discrepancy is the
    exact sum of their amounts, and the run is recorded with those numbers. *)
Theorem Reconcile_spec mid period w j :
  healthy w ->
  let orders := period_orders mid period (w_db w) in
  let unmatched := filter (fun x => has_payment (w_db w) x = false) orders in
  let disc := sumZ ((fun x => default 0 (o_amount x.2)) <$> unmatched) in
  Forall (fun x => u128 (default 0 (o_amount x.2))) unmatched -> u128 disc ->
  Z.of_nat (length orders) <= int32_max ->
  reconciliation_runs (w_db w) !! ulid_New (w_draws w) = None ->
  let m := Z.of_nat (length (filter (fun x => has_payment (w_db w) x = true) orders)) in
  let u := Z.of_nat (length unmatched) in
  let rec := MkReconciliation period m u (hex disc) unmatched.*1 in
  pg_jsonb_in (json_Marshal (reconciliation_json rec)) = Some j ->
  m + u = Z.of_nat (length orders) ∧
  ∃ w', Reconcile mid period w = (Ok rec, w')
    ∧ reconciliation_runs (w_db w') = <[ulid_New (w_draws w) :=
        MkReconRunRow mid period m u (Some disc) j (w_now w)]> (reconciliation_runs (w_db w)).
Proof.
  intros Hw orders unmatched disc Hu Hd Hlen Hfresh m u rec Hj.
  assert (m + u = Z.of_nat (length orders)) as Hmu.
  { subst m u unmatched. rewrite <- Nat2Z.inj_add. f_equal. apply length_filter_bool. }
  split; [done|].
  assert (reconcile_query mid period (w_db w) =
    (fun x => (x.1, has_payment (w_db w) x, default 0 (o_amount x.2))) <$> orders) as Eq by done.
  assert (reconcile_loop (reconcile_query mid period (w_db w)) 0 0 [] 0
    = Ok (m, u, unmatched.*1, disc)) as Hloop.
  { rewrite Eq, reconcile_loop_spec.
    - rewrite !filter_fmap_pull. cbn [fst snd]. rewrite !length_fmap, <- !list_fmap_compose.
      done.
    - apply list.Forall_forall. intros y (x & -> & Hx)%list_elem_of_fmap. cbn. intros Hn.
      rewrite list.Forall_forall in Hu. apply Hu. by apply list_elem_of_filter. }
  set (w1 := World (w_db w) (w_faults w) (w_now w) (S (w_draws w)) (w_calls w)).
  eexists. split.
  - unfold Reconcile.
    erewrite bind_intro by (apply wrapping_run, select_healthy; [done|lia|reflexivity]).
    rewrite (bind_intro _ _ w (m, u, unmatched.*1, disc) w) by (unfold lift; by rewrite Hloop).
    cbn beta iota zeta. rewrite Hex_parse by done. fold rec.
    rewrite (bind_intro id_New _ w (ulid_New (w_draws w)) w1) by done.
    erewrite bind_intro; [reflexivity|].
    apply wrapping_run, exec_healthy; [destruct Hw; by split|lia|].
    unfold insert_recon. rewrite Hj. cbn [w1 w_db w_now].
    unfold mbind, result_bind. rewrite !int4_small by (unfold int32_min, int32_max in *; lia).
    rewrite Hfresh, numeric_col_amount. change ("0x" +:+ big_Text16 disc) with (hex disc).
    by rewrite ParseAmount_hex.
  - done.
Qed.

(** C25.  The CSV export is lossless: in a healthy world the file [Export] answers is
    read back by an RFC 4180 reader as the header and one record per order of the
    merchant paid in the period, in order of payment, whatever commas, quotes and line
    breaks the external ids contain. *)
Theorem Export_csv_roundtrip mid period w :
  healthy w ->
  ∃ rows data, exportRows mid period w = (Ok rows, w)
    ∧ Export mid period EmptyString w
        = (Ok ("settlement-" +:+ period +:+ ".csv", "text/csv", data), w)
    ∧ csv_parse data = Some (exportHeader :: (cells <$> rows))
    ∧ ∃ os, os ≡ₚ period_orders mid period (w_db w) ∧ StronglySorted paid_order os
        ∧ ex_OrderID <$> rows = os.*1.
Proof.
  intros Hw.
  assert (forall x, ∃ y, export_row x = Ok y ∧ ex_OrderID y = x.1.1) as Hrow.
  { intros [[oid o] f]. unfold export_row.
    assert (forall n, (num_Valid n = false ∨ ∃ v, numeric_repr n v) -> ∃ a, mustAmount n = Ok a)
      as Hma.
    { intros n [Hn|[v Hr]]; unfold mustAmount.
      - unfold NumericToAmount. rewrite Hn. cbn. by eexists.
      - rewrite (NumericToAmount_repr n v Hr). destruct (v <? 0); [by eexists|].
        destruct (ParseAmount _) as [a [e|]]; by eexists. }
    destruct (Hma (read_numeric (o_amount o))) as [a ->].
    { destruct (o_amount o) as [v|]; [right; exists v; apply pg_numeric_out_repr|by left]. }
    destruct (Hma (pg_numeric_out f)) as [b ->]; [right; exists f; apply pg_numeric_out_repr|].
    by eexists. }
  assert (forall l, ∃ rows, scan_rows export_row l = Ok rows ∧ ex_OrderID <$> rows = l.*1.*1)
    as Hscan.
  { induction l as [|x l (rows & IH & E)]; [by exists []|]. cbn [scan_rows].
    destruct (Hrow x) as (y & -> & Ey). unfold mbind, result_bind. rewrite IH.
    eexists. split; [done|]. cbn. by rewrite Ey, E. }
  destruct (Hscan (export_query mid period (w_db w))) as (rows & Hr & Eids).
  assert (exportRows mid period w = (Ok rows, w)) as Hex.
  { unfold exportRows.
    erewrite bind_intro by (apply wrapping_run, select_healthy; [done|lia|reflexivity]).
    unfold lift. by rewrite Hr. }
  exists rows, (buildCSV rows). split_and!; [done| | |].
  - unfold Export. by rewrite (bind_intro _ _ w rows w).
  - unfold csv_parse, buildCSV. rewrite csv_read_write; [done|]. constructor; [done|].
    apply list.Forall_forall. intros r (x & -> & _)%list_elem_of_fmap. done.
  - exists (merge_sort paid_order (period_orders mid period (w_db w))). split_and!.
    + apply merge_sort_Permutation.
    + apply StronglySorted_merge_sort; [intros x y z|intros x y]; unfold paid_order; lia.
    + rewrite Eids. unfold export_query. rewrite <- !list_fmap_compose.
      by rewrite (list_fmap_ext _ fst).
Qed.
End reports.

(** ** Authentication *)

Section auth.
Context {FT : Fibertypes} {PG : Postgres} {PGL : PostgresLaws} {CR : Crypto} {CRL : CryptoLaws}.
Implicit Types (w : world).

Lemma strip_prefix_app p s : strip_prefix p (p +:+ s) = Some s.
Proof.
  induction p as [|c p IH]; [done|]. rewrite string_app_cons. cbn [strip_prefix].
  by rewrite bool_decide_true.
Qed.

(** Authentication: in a healthy world a request is answered 401 without reaching
    the handler, or the handler runs, on the unchanged world, for a merchant whose
    stored hash the presented key verifies against; it runs whenever there is one. *)
Theorem authMerchant_spec {B} (next : string -> request B -> M response) (r : request B) w :
  healthy w ->
  (∃ msg, authMerchant next r w = (Ok (Error StatusUnauthorized msg), w)
     ∧ forall token mid m, bearer_token (authorization r) = Some token ->
         merchants (w_db w) !! mid = Some m -> VerifyAPIKey token (m_api_key_hash m) = false) ∨
  (∃ token mid m, bearer_token (authorization r) = Some token
     ∧ merchants (w_db w) !! mid = Some m ∧ VerifyAPIKey token (m_api_key_hash m) = true
     ∧ authMerchant next r w = next mid r w).
Proof.
  intros Hw. pose proof Hw as [Hf Hv]. unfold authMerchant.
  destruct (bearer_token (authorization r)) as [token|] eqn:Et; [|left; by eexists].
  destruct (filter (fun x => m_api_key_hash x.2 = HashAPIKey token)
    (scan_table (merchants (w_db w)))) as [|[mid m] l] eqn:El.
  - left. eexists. split.
    + rewrite (bind_intro _ _ w (inl (ESent PgxErrNoRows)) w); [reflexivity|].
      apply attempt_Ok with (r := inl (ESent PgxErrNoRows)).
      apply exec_run_err; [done|by rewrite Hv|]. by rewrite El.
    + intros token' mid m [= <-] Hm. apply not_true_iff_false. rewrite VerifyAPIKey_iff. intros E.
      assert ((mid, m) ∈ filter (fun x => m_api_key_hash x.2 = HashAPIKey token)
        (scan_table (merchants (w_db w)))) as Hin
        by (apply list_elem_of_filter; by rewrite elem_of_scan_table).
      rewrite El in Hin. by apply not_elem_of_nil in Hin.
  - right. assert ((mid, m) ∈ filter (fun x => m_api_key_hash x.2 = HashAPIKey token)
      (scan_table (merchants (w_db w)))) as Hin by (rewrite El; left).
    apply list_elem_of_filter in Hin as [Hh Hin%elem_of_scan_table].
    exists token, mid, m. split_and!; [done|done|by apply VerifyAPIKey_iff|].
    rewrite (bind_intro _ _ w (inr mid) w); [done|].
    apply attempt_Ok with (r := inr mid). apply select_healthy; [done|lia|]. by rewrite El.
Qed.

(** C30.  Provisioning round trip: the key [Provision] returns is the hexadecimal text
    of a fresh random draw of 32 bytes, the database gains exactly one row, a merchant
    under a fresh id whose columns are the name, the asset, the SHA-256 of the key in
    hexadecimal and the time, and a request that presents the key is served as the new
    merchant, whatever the handler, as long as no merchant had that hash before. *)
Theorem Provision_authenticates {B} (next : string -> request B -> M response)
    name asset w mid key w' w2 (r : request B) :
  Provision name asset w = (Ok (mid, key), w') ->
  (forall k m, merchants (w_db w) !! k = Some m -> m_api_key_hash m ≠ HashAPIKey key) ->
  healthy w2 -> w_db w2 = w_db w' -> authorization r = "Bearer " +:+ key ->
  key = hex_EncodeToString (rand_Read (S (w_draws w)) 32) ∧ String.length key = 64%nat
  ∧ merchants (w_db w) !! mid = None
  ∧ w_db w' = upd_merchants (<[mid := MkMerchantRow name (hex_EncodeToString (sha256 key))
      (if bool_decide (asset = EmptyString) then "CKB" else asset) (w_now w)]>
        (merchants (w_db w))) (w_db w)
  ∧ authMerchant next r w2 = next mid r w2.
Proof.
  intros H Hno Hw2 E2 Hr. change (hex_EncodeToString (sha256 key)) with (HashAPIKey key).
  unfold Provision in H. m_inv H. destruct a0 as [key' hash].
  cbv [id_New draw mbind M_bind mbind_M mret M_ret mret_M] in Hm. injection Hm as Hmid <-.
  unfold NewAPIKey, randHex in Hm0.
  cbv [draw mbind M_bind mbind_M mret M_ret mret_M] in Hm0.
  injection Hm0 as Hkey Hhash <-. m_inv H.
  apply wrapping_Ok, exec_Ok in Hm as (_ & Hs & _).
  assert (String.length (hex_EncodeToString (rand_Read (S (w_draws w)) 32)) = 64%nat) as Hlen
    by by rewrite hex_EncodeToString_length, rand_Read_length.
  set (key := hex_EncodeToString _) in *. set (mid := ulid_New _) in *.
  cbn [w_db w_now] in Hs. unfold insert_merchant in Hs.
  destruct (merchants (w_db w) !! mid) eqn:Em; [done|]. injection Hs as Hs.
  set (row := MkMerchantRow _ _ _ _) in Hs |- *.
  assert (merchants (w_db w') = <[mid := row]> (merchants (w_db w))) as Em' by (by rewrite <- Hs).
  split_and!; [done|done|done|by rewrite <- Hs|].
  unfold authMerchant, bearer_token. rewrite Hr, strip_prefix_app. clearbody key.
  destruct key as [|c key]; [done|].
  rewrite (bind_intro _ _ w2 (inr mid) w2); [done|].
  apply attempt_Ok with (r := inr mid). apply select_healthy; [done|lia|].
  destruct (filter _ _) as [|[k m] l] eqn:El.
  + assert ((mid, row) ∈ filter (fun x => m_api_key_hash x.2 = HashAPIKey (String c key))
      (scan_table (merchants (w_db w2)))) as Hin.
    { apply list_elem_of_filter. split; [done|].
      by rewrite elem_of_scan_table, E2, Em', lookup_insert_eq. }
    rewrite El in Hin. by apply not_elem_of_nil in Hin.
  + assert ((k, m) ∈ filter (fun x => m_api_key_hash x.2 = HashAPIKey (String c key))
      (scan_table (merchants (w_db w2)))) as Hin by (rewrite El; left).
    apply list_elem_of_filter in Hin as [Hh Hin].
    rewrite elem_of_scan_table, E2, Em' in Hin.
    apply lookup_insert_Some in Hin as [[<- _]|[_ Hin]]; [done|].
    by destruct (Hno k m Hin).
Qed.
End auth.

(** ** A sample merchant *)

Module MerchantSample.
Import Sample.

#[export] Instance excelize : Excelize := fun sheet rows => Ok (sheet +:+ csv_write rows).

Definition paid : OrderRow :=
  MkOrderRow "mer_1" (Some "ext,1") (Some "0xh") (Some 100) (Some "CKB") OPaid 20
    (Some 63919197045123456000).
Definition unmatched : OrderRow :=
  MkOrderRow "mer_1" (Some "ext-2") (Some "0xorphan") (Some 200) None OPaid 20
    (Some 63919197046000000000).
Definition payment : PaymentRow :=
  MkPaymentRow "received" "succeeded" (Some "CKB") (Some 100) None (Some "02ab") (Some 5) (Some 5).
Definition key : string := "k3y".

Definition db : Database :=
  upd_version 3 (upd_orders {[ "ord_1" := paid; "ord_2" := unmatched ]}
    (upd_payments {[ "0xh" := payment ]}
      (upd_refunds {[ "ref_0" := MkRefundRow "ord_1" (Some 30) (Some "CKB") None None None 25 ]}
        (upd_merchants {[ "mer_1" := MkMerchantRow "Acme" (HashAPIKey key) "CKB" 1 ]} empty_db)))).

Definition world0 : world := World db [] 1000 0 [].

Lemma world0_healthy : healthy world0.
Proof. split; reflexivity. Qed.

(** The insert of the refund row, the third statement, fails. *)
Definition world_fault : world :=
  World db [NoFault; NoFault; Fail (EText "timeout")] 1000 0 [].

Definition refund1 : M Refund := RefundOrder "mer_1" "ord_1" "0x64" "damaged".
Definition the_payment : rpc_call :=
  CallSendPayment (MkSendPaymentParams "02ab" (100%N : @Amount fibertypes) true).
End MerchantSample.

Import Sample MerchantSample.

(** ** Witnesses *)

Module MerchantWitness.

Lemma unique_orders : external_unique db.
Proof.
  intros k1 k2 r1 r2 e H1 H2 _ E1 E2.
  change (merchant_orders db) with
    ({[ "ord_1" := paid; "ord_2" := unmatched ]} : gmap string OrderRow) in *.
  apply lookup_insert_Some in H1 as [[<- <-]|[_ [<- <-]%lookup_singleton_Some]];
    apply lookup_insert_Some in H2 as [[<- <-]|[_ [<- <-]%lookup_singleton_Some]];
    cbn in E1, E2; congruence.
Qed.

Lemma CreateOrder_repeat_witness :
  CreateOrder "mer_1" "ext,1" "0x5" "UDT" world0 =
    (Ok (view_order ("ord_1", paid), MkInvoice "0xh" EmptyString), world0).
Proof.
  apply (CreateOrder_repeat "mer_1" "ext,1" "0x5" "UDT" world0 "ord_1" paid);
    [exact world0_healthy|by_eval|discriminate|exact unique_orders|by_eval|reflexivity|reflexivity].
Defined.

Lemma CreateOrder_fresh_witness :
  ∃ w', w_calls w' = [CallNewInvoice (MkNewInvoiceParams (5%N : @Amount fibertypes) "order ext-9")]
    ∧ fst (CreateOrder "mer_1" "ext-9" "0x5" EmptyString world0)
        = fst (Ok (view_order ("0x0", MkOrderRow "mer_1" (Some "ext-9") (Some "0xinv0") (Some 5)
            (Some "CKB") OPending 1000 None), MkInvoice "0xinv0" "addr"), w').
Proof.
  destruct (CreateOrder_fresh "mer_1" "ext-9" "0x5" EmptyString world0 (5%N : @Amount fibertypes)
    (MkInvoice "0xinv0" "addr")) as (w' & H & _ & Hc).
  - exact world0_healthy.
  - by_eval.
  - exists (MkMerchantRow "Acme" (HashAPIKey key) "CKB" 1). by_eval.
  - intros _ k r Hk.
    change (merchant_orders (w_db world0)) with
      ({[ "ord_1" := paid; "ord_2" := unmatched ]} : gmap string OrderRow) in Hk.
    apply lookup_insert_Some in Hk as [[<- <-]|[_ [<- <-]%lookup_singleton_Some]]; reflexivity.
  - by_eval.
  - by_eval.
  - exists w'. split; [exact Hc|]. exact (f_equal fst H).
Defined.

Lemma RefundOrder_guarded_witness :
  ∃ o, merchant_orders db !! "ord_1" = Some o ∧ o_status o = OPaid
    ∧ w_calls (snd (refund1 world0)) = [the_payment].
Proof.
  assert (w_calls (snd (refund1 world0)) = [the_payment]) as Hc by by_eval.
  destruct (RefundOrder_guarded "mer_1" "ord_1" "0x64" "damaged" world0)
    as [H|(o & a & p & payer & Ho & _ & Hs & _)].
  - exfalso. pose proof (eq_trans (eq_sym Hc) H) as E. discriminate E.
  - exists o. exact (conj Ho (conj Hs Hc)).
Defined.

Lemma RefundOrder_once_witness :
  ∃ o, o_status <$> merchant_orders (w_db (snd (refund1 world0))) !! "ord_1" = Some ORefunded
    ∧ o_status o = OPaid.
Proof.
  destruct (RefundOrder_once "mer_1" "ord_1" "0x64" "damaged" world0
    (MkRefund "0x0" "ord_1" "0x64" "CKB" "damaged" "sent" "0xpay0") (snd (refund1 world0)))
    as (o & a & _ & Hst & _ & H & _); [by_eval|].
  exists o. split; [rewrite H; reflexivity|exact Hst].
Defined.

Lemma refund_retry_pays_twice_witness :
  ∃ rf w2 w3, RefundOrder "mer_1" "ord_1" "0x64" "damaged" w2 = (Ok rf, w3)
    ∧ w_calls w3 = [the_payment; the_payment].
Proof.
  destruct (refund_retry_pays_twice (EText "timeout") [Fail (EText "timeout")] "mer_1" "ord_1"
    "0x64" "damaged" (100%N : @Amount fibertypes) world_fault paid "0xh" payment "02ab"
    (MkRpcPayment "0xpay0")) as (msg & w1 & H1 & Hc & Ho & H);
    [by_eval|reflexivity|constructor|by_eval|reflexivity|reflexivity|reflexivity|by_eval|reflexivity
    |discriminate|by_eval|by_eval|by_eval|].
  assert (w1 = snd (refund1 world_fault)) as E by exact (eq_sym (f_equal snd H1)).
  destruct (H (set_faults [] w1) (MkRpcPayment "0xpay1")) as (rf & w3 & H2 & Hc2 & _).
  - split; [reflexivity|]. rewrite E. by_eval.
  - reflexivity.
  - reflexivity.
  - rewrite E. by_eval.
  - rewrite E. by_eval.
  - exists rf, (set_faults [] w1), w3. exact (conj H2 Hc2).
Defined.


Lemma Reconcile_spec_witness :
  fst (Reconcile "mer_1" "2026-07" world0) =
    Ok (MkReconciliation "2026-07" 1 1 "0xc8" ["ord_2"]).
Proof.
  destruct (Reconcile_spec "mer_1" "2026-07" world0
    (json_Marshal (reconciliation_json (MkReconciliation "2026-07" 1 1 "0xc8" ["ord_2"]))))
    as (_ & w' & H & _).
  - exact world0_healthy.
  - assert (filter (fun x => has_payment (w_db world0) x = false)
      (period_orders "mer_1" "2026-07" (w_db world0)) = [("ord_2", unmatched)]) as -> by by_eval.
    repeat constructor; vm_compute; intros E; discriminate E.
  - assert (filter (fun x => has_payment (w_db world0) x = false)
      (period_orders "mer_1" "2026-07" (w_db world0)) = [("ord_2", unmatched)]) as -> by by_eval.
    split; vm_compute; [intros E; discriminate E|reflexivity].
  - assert (period_orders "mer_1" "2026-07" (w_db world0)
      = [("ord_1", paid); ("ord_2", unmatched)]) as -> by by_eval.
    vm_compute. intros E. discriminate E.
  - reflexivity.
  - by_eval.
  - etransitivity; [exact (f_equal fst H)|]. by_eval.
Defined.

Lemma Export_csv_roundtrip_witness :
  ∃ rows data, fst (Export "mer_1" "2026-07" EmptyString world0)
      = Ok ("settlement-2026-07.csv", "text/csv", data)
    ∧ csv_parse data = Some (exportHeader :: (cells <$> rows)).
Proof.
  destruct (Export_csv_roundtrip "mer_1" "2026-07" world0 world0_healthy)
    as (rows & data & _ & H & Hc & _).
  exists rows, data. split; [exact (f_equal fst H)|exact Hc].
Defined.

Definition hello (mid : string) (r : request unit) : M response := mret (JSON StatusOK (JStr mid)).
Definition bearer (k : string) : request unit := MkRequest [] [] ("Bearer " +:+ k) (Ok tt).

Lemma authMerchant_spec_witness :
  ∃ mid, authMerchant hello (bearer key) world0 = hello mid (bearer key) world0.
Proof.
  destruct (authMerchant_spec hello (bearer key) world0 world0_healthy)
    as [(msg & _ & H)|(token & mid & m & _ & _ & _ & H)]; [|exists mid; exact H].
  exfalso. assert (VerifyAPIKey key (HashAPIKey key) = false) as Hv.
  { apply (H key "mer_1" (MkMerchantRow "Acme" (HashAPIKey key) "CKB" 1)); by_eval. }
  vm_compute in Hv. discriminate Hv.
Defined.

Definition new_key : string := hex_EncodeToString (rand_Read 1 32).
Definition provisioned : world := snd (Provision "Acme 2" EmptyString world0).

Lemma Provision_authenticates_witness :
  authMerchant hello (bearer new_key) provisioned = hello "0x0" (bearer new_key) provisioned.
Proof.
  apply (Provision_authenticates hello "Acme 2" EmptyString world0 "0x0" new_key provisioned
    provisioned (bearer new_key)).
  - by_eval.
  - intros k m Hk.
    change (merchants (w_db world0)) with
      ({[ "mer_1" := MkMerchantRow "Acme" (HashAPIKey key) "CKB" 1 ]} : gmap string MerchantRow)
      in Hk.
    apply lookup_singleton_Some in Hk as [_ <-]. vm_compute. intros E. discriminate E.
  - split; by_eval.
  - reflexivity.
  - reflexivity.
Defined.
End MerchantWitness.
