(* ===== verification/Races.v ===== *)
(** * Two requests at once (internal/merchant orders.go and refunds.go)

    Neither service method runs in a transaction, so two requests for the same order
    interleave statement by statement.  The theorems run the halves MerchantSteps cuts
    the methods into alternately: both reads, then both sequences of writes. *)

From S2P Require Import Prelude Strconv GoTime External Schema Numeric Tables Ids Sql IndexerTotal Http Frame Query QueryFacts QueryProps Csv Merchant MerchantApi MerchantFacts MerchantSteps MerchantProps.

Section races.
Context {FT : Fibertypes} {PG : Postgres} {PGL : PostgresLaws} {CR : Crypto} {CRL : CryptoLaws}
  {FR : FiberRPC} {XL : Excelize}.
Implicit Types (w : world).

(** C32.  Two refund requests for one paid order, whose lookups both run before either payment:
    both succeed, the node is asked to pay the payer twice, and the order carries two
    refunds.  (Each alone is [RefundOrder], by [RefundOrder_cut]; run one after the
    other, the second is refused.) *)
Theorem concurrent_refunds_pay_twice mid oid amt amt' reason reason' a a' w o h p payer pay pay' :
  healthy w -> merchant_orders (w_db w) !! oid = Some o -> o_merchant_id o = mid ->
  o_status o = OPaid -> o_invoice_payment_hash o = Some h ->
  payments (w_db w) !! h = Some p -> p_peer p = Some payer -> payer ≠ EmptyString ->
  ParseAmount amt = (a, None) -> ParseAmount amt' = (a', None) ->
  refunds (w_db w) !! ulid_New (w_draws w) = None ->
  refunds (w_db w) !! ulid_New (S (w_draws w)) = None ->
  let c := MkSendPaymentParams payer a true in
  let c' := MkSendPaymentParams payer a' true in
  rpc_SendPayment (w_calls w) c = Ok pay ->
  rpc_SendPayment (w_calls w ++ [CallSendPayment c]) c' = Ok pay' ->
  ∃ x x' rf rf' w1 w2,
    refund_lookup mid oid amt w = (Ok x, w) ∧ refund_lookup mid oid amt' w = (Ok x', w)
    ∧ refund_pay oid reason x w = (Ok rf, w1) ∧ refund_pay oid reason' x' w1 = (Ok rf', w2)
    ∧ w_calls w2 = w_calls w ++ [CallSendPayment c; CallSendPayment c']
    ∧ rf_ID rf ≠ rf_ID rf'
    ∧ r_amount <$> refunds (w_db w2) !! rf_ID rf = Some (Some (BigInt a))
    ∧ r_amount <$> refunds (w_db w2) !! rf_ID rf' = Some (Some (BigInt a')).
Proof.
  intros Hw Ho Hm Hs Hh Hp Hpeer Hne Ha Ha' Hr1 Hr2 c c' Hpay Hpay'.
  pose proof (refund_lookup_run mid oid amt a w o h p payer Hw Ho Hm Hs Hh Hp Hpeer Hne Ha) as L1.
  pose proof (refund_lookup_run mid oid amt' a' w o h p payer Hw Ho Hm Hs Hh Hp Hpeer Hne Ha') as L2.
  assert (ulid_New (w_draws w) ≠ ulid_New (S (w_draws w))) as Hid
    by (intros E%ulid_New_fresh; lia).
  destruct (refund_pay_run oid reason (view_order (oid, o)) a payer pay w o Hw Ho Hr1 Hpay)
    as (w1 & P1 & Hw1 & Ed & Ec & Eo & Er).
  destruct (refund_pay_run oid reason' (view_order (oid, o)) a' payer pay' w1 (set_refunded o))
    as (w2 & P2 & _ & _ & Ec2 & _ & Er2).
  - done.
  - rewrite Eo. apply lookup_insert_eq.
  - by rewrite Er, Ed, lookup_insert_ne.
  - by rewrite Ec.
  - do 6 eexists. split_and!; [exact L1|exact L2|exact P1|exact P2|..].
    + rewrite Ec2, Ec. by rewrite <- app_assoc.
    + cbn. by rewrite Ed.
    + cbn [rf_ID]. by rewrite Er2, Ed, lookup_insert_ne, Er, lookup_insert_eq.
    + cbn [rf_ID]. by rewrite Er2, lookup_insert_eq.
Qed.

(** C33.  Two requests under one new external id, whose probes both run before either insert:
    one order is made, with the first invoice; both requests answer that order, but the
    second pairs it with the invoice it minted itself, which no order carries, so that a
    payment of it settles nothing. *)
Theorem concurrent_orders_orphan_invoice mid ext amt amt' asset asset' a a' w inv inv' :
  healthy w -> ext ≠ EmptyString -> external_unique (w_db w) ->
  is_Some (merchants (w_db w) !! mid) ->
  (∀ k r, merchant_orders (w_db w) !! k = Some r -> has_external mid ext (k, r) = false) ->
  merchant_orders (w_db w) !! ulid_New (w_draws w) = None ->
  ParseAmount amt = (a, None) -> ParseAmount amt' = (a', None) ->
  let p := MkNewInvoiceParams a ("order " +:+ ext) in
  let p' := MkNewInvoiceParams a' ("order " +:+ ext) in
  rpc_NewInvoice (w_calls w) p = Ok inv ->
  rpc_NewInvoice (w_calls w ++ [CallNewInvoice p]) p' = Ok inv' ->
  (∀ k r, merchant_orders (w_db w) !! k = Some r ->
     o_invoice_payment_hash r ≠ Some (inv_PaymentHash inv')) ->
  inv_PaymentHash inv' ≠ inv_PaymentHash inv ->
  ∃ o w1 w2,
    prior_order mid ext w = (Ok None, w)
    ∧ order_create mid ext asset a w = (Ok (o, inv), w1)
    ∧ order_create mid ext asset' a' w1 = (Ok (o, inv'), w2)
    ∧ or_InvoicePaymentHash o = inv_PaymentHash inv
    ∧ size (merchant_orders (w_db w2)) = S (size (merchant_orders (w_db w)))
    ∧ (∀ k r, merchant_orders (w_db w2) !! k = Some r ->
         o_invoice_payment_hash r ≠ Some (inv_PaymentHash inv'))
    ∧ CreateOrder mid ext amt asset w = (Ok (o, inv), w1).
Proof.
  intros Hw Hne Hu Hm Hno Hfresh Ha Ha' p p' Hinv Hinv' Hold Hdiff.
  pose proof (prior_order_none mid ext w Hw (fun _ => Hno)) as Hprior.
  destruct (order_create_run mid ext asset a inv w Hw Hm (fun _ => Hno) Hfresh Hinv)
    as (w1 & E1 & Hw1 & Ho1 & Hc1).
  set (oid := ulid_New (w_draws w)) in *. set (row := MkOrderRow _ _ _ _ _ _ _ _) in *.
  assert (o_external_order_id row = Some ext) as He
    by (unfold row; cbn; by rewrite bool_decide_false).
  assert (external_unique (w_db w1)) as Hu1.
  { intros k1 k2 r1 r2 e. rewrite Ho1, !lookup_insert_Some.
    intros [[<- <-]|[Hk1 H1]] [[<- <-]|[Hk2 H2]] Hmm X1 X2; [done| | |by eapply Hu].
    - rewrite He in X1. injection X1 as <-. pose proof (Hno k2 r2 H2) as Hf.
      by rewrite (proj2 (has_external_spec mid ext k2 r2)) in Hf.
    - rewrite He in X2. injection X2 as <-. pose proof (Hno k1 r1 H1) as Hf.
      by rewrite (proj2 (has_external_spec mid ext k1 r1)) in Hf. }
  destruct (order_create_taken mid ext asset' a' inv' w1 oid row) as (w2 & E2 & Hdb2 & _);
    [done|done|done|by rewrite Ho1, lookup_insert_eq|done|done|by rewrite Hc1|].
  exists (view_order (oid, row)), w1, w2. split_and!; [done|done|done|done|..].
  - by rewrite Hdb2, Ho1, map_size_insert_None.
  - intros k r. rewrite Hdb2, Ho1. intros [[<- <-]|[_ Hk]]%lookup_insert_Some; [|by eapply Hold].
    unfold row. cbn. congruence.
  - by rewrite (CreateOrder_cut mid ext amt asset a w w Ha Hprior).
Qed.
End races.

Module RaceWitness.
Import Sample MerchantSample.

Lemma the_orders k r :
  merchant_orders (w_db world0) !! k = Some r -> (k, r) = ("ord_1", paid) ∨ (k, r) = ("ord_2", unmatched).
Proof.
  change (merchant_orders (w_db world0)) with
    ({[ "ord_1" := paid; "ord_2" := unmatched ]} : gmap string OrderRow).
  intros [[<- <-]|[_ [<- <-]%lookup_singleton_Some]]%lookup_insert_Some; [by left|by right].
Qed.

Lemma concurrent_refunds_pay_twice_witness :
  ∃ x w1 rf' w2, refund_lookup "mer_1" "ord_1" "0x64" world0 = (Ok x, world0)
    ∧ refund_pay "ord_1" "again" x w1 = (Ok rf', w2)
    ∧ w_calls w2 = [the_payment; the_payment].
Proof.
  destruct (concurrent_refunds_pay_twice "mer_1" "ord_1" "0x64" "0x64" "damaged" "again"
    (100%N : @Amount fibertypes) (100%N : @Amount fibertypes) world0 paid "0xh" payment "02ab"
    (MkRpcPayment "0xpay0") (MkRpcPayment "0xpay1"))
    as (x & x' & rf & rf' & w1 & w2 & H1 & H2 & H3 & H4 & H5 & _).
  - exact world0_healthy.
  - by_eval.
  - reflexivity.
  - reflexivity.
  - reflexivity.
  - by_eval.
  - reflexivity.
  - discriminate.
  - by_eval.
  - by_eval.
  - by_eval.
  - by_eval.
  - by_eval.
  - by_eval.
  - exists x', w1, rf', w2. exact (conj H2 (conj H4 H5)).
Defined.

Lemma concurrent_orders_orphan_invoice_witness :
  ∃ o w1 w2, order_create "mer_1" "ext-9" EmptyString (5%N : @Amount fibertypes) w1
      = (Ok (o, MkInvoice "0xinv1" "addr"), w2)
    ∧ or_InvoicePaymentHash o = "0xinv0".
Proof.
  destruct (concurrent_orders_orphan_invoice "mer_1" "ext-9" "0x5" "0x5" EmptyString EmptyString
    (5%N : @Amount fibertypes) (5%N : @Amount fibertypes) world0
    (MkInvoice "0xinv0" "addr") (MkInvoice "0xinv1" "addr"))
    as (o & w1 & w2 & _ & _ & H & Ho & _).
  - exact world0_healthy.
  - discriminate.
  - exact MerchantWitness.unique_orders.
  - exists (MkMerchantRow "Acme" (HashAPIKey key) "CKB" 1). by_eval.
  - intros k r Hk. destruct (the_orders k r Hk) as [E|E]; injection E as -> ->; reflexivity.
  - by_eval.
  - by_eval.
  - by_eval.
  - by_eval.
  - by_eval.
  - intros k r Hk. destruct (the_orders k r Hk) as [E|E]; injection E as -> ->; discriminate.
  - discriminate.
  - exists o, w1, w2. exact (conj H Ho).
Defined.
End RaceWitness.
