(* ===== verification/Api.v ===== *)
(** * The HTTP surface (internal/apiserver/server.go and the Routes methods)

    The route table the packages register on a chi router, each handler with the
    request it gets, the authentication in front of the merchant routes, and the
    router with its recovery middleware.  Matching a path against the patterns, the
    answer to an unmatched one and the recovery are chi's; decoding a body is
    encoding/json's: both are classes, with the laws some theorem relies on. *)

From S2P Require Import Prelude Strconv GoTime External Schema Ids Http Webhook Query QueryApi Merchant MerchantApi.

Record http_request := MkHttp {
  rq_Method : string;
  rq_Path : string;
  rq_Query : list (string * string);
  rq_Authorization : string;
  rq_Body : string
}.

(** [DecodeJSON] into each of the request bodies. *)
Class JsonDecoder := {
  decode_createReq : string -> result createReq;
  decode_createOrderReq : string -> result createOrderReq;
  decode_refundReq : string -> result refundReq
}.

(** What chi makes of a method and path: the index of the registered route that serves
    it, with the path parameters, or the innermost mounted router that has none, if the
    path is below one. *)
Inductive match_outcome :=
| Matched (i : nat) (params : list (string * string))
| Unmatched (mount : option nat).

(** [chi_match] is given the mounted prefixes and the registered routes. *)
Class Chi `{Fibertypes} := {
  chi_match : list string -> list (string * string) -> string -> string -> match_outcome;
  chi_unmatched : string -> string -> response;
  chi_Recoverer : M response -> M response
}.

Class ChiLaws `{Chi} : Prop := {
  chi_match_sound mounts table m p i ps :
    chi_match mounts table m p = Matched i ps -> ∃ pat, table !! i = Some (m, pat);
  chi_Recoverer_passes m w r w' :
    m w = (Ok r, w') -> chi_Recoverer m w = (Ok r, w');
  chi_Recoverer_recovers m w p w' :
    m w = (Panic p, w') ->
    ∃ r, chi_Recoverer m w = (Ok r, w') ∧ status r = StatusInternalServerError
}.

Definition handler `{Fibertypes} : Type := http_request -> list (string * string) -> M response.

Record route `{Fibertypes} := MkRoute {
  rt_Method : string; rt_Pattern : string; rt_Handler : handler
}.
Arguments MkRoute {_} _ _ _.
Arguments rt_Method {_} _.
Arguments rt_Pattern {_} _.
Arguments rt_Handler {_} _ _ _.

Section api.
Context {FT : Fibertypes} {PG : Postgres} {CR : Crypto} {FR : FiberRPC} {XL : Excelize}
  {TP : TimeParser} {JD : JsonDecoder} {CH : Chi}.

(** The request a handler sees, with the outcome of decoding its body. *)
Definition with_decoded {B} (dec : string -> result B) (r : http_request)
    (params : list (string * string)) : request B :=
  MkRequest (rq_Query r) params (rq_Authorization r) (dec (rq_Body r)).

(** A handler that does not read the body. *)
Definition no_body (_ : string) : result unit := Ok tt.
Definition plain (h : request unit -> M response) : handler :=
  fun r ps => h (with_decoded no_body r ps).

Definition Get (pat : string) (h : handler) : route := MkRoute "GET" pat h.
Definition Post (pat : string) (h : handler) : route := MkRoute "POST" pat h.
Definition Delete (pat : string) (h : handler) : route := MkRoute "DELETE" pat h.

(** [r.Route(prefix, fn)] *)
Definition Route (prefix : string) (rs : list route) : list route :=
  (fun r => MkRoute (rt_Method r) (prefix +:+ rt_Pattern r) (rt_Handler r)) <$> rs.

(** [query.Handler.Routes] *)
Definition query_Routes : list route :=
  [ Get "/payments" (plain listPayments);
    Get "/payments/{payment_hash}" (plain getPayment);
    Get "/channels" (plain listChannels);
    Get "/channels/{channel_id}" (plain getChannel);
    Get "/events" (plain listEvents);
    Get "/stats/payments" (plain statsPayments) ].

(** [webhook.EndpointHandler.Routes] *)
Definition webhook_Routes : list route :=
  [ Post "/webhooks" (fun r ps => create (with_decoded decode_createReq r ps));
    Get "/webhooks" (fun _ _ => list_handler);
    Delete "/webhooks/{id}" (plain remove);
    Post "/webhooks/{id}/test" (plain test);
    Post "/webhooks/{id}/replay/{delivery_id}" (plain replay) ].

(** [merchant.Handler.Routes]: [r.Use(h.authMerchant)] wraps every route. *)
Definition authenticated {B} (dec : string -> result B)
    (h : string -> request B -> M response) : handler :=
  fun r ps => authMerchant h (with_decoded dec r ps).

Definition merchant_Routes : list route :=
  Route "/merchant"
    [ Post "/orders" (authenticated decode_createOrderReq createOrder);
      Get "/orders/{id}" (authenticated no_body getOrder);
      Post "/orders/{id}/refund" (authenticated decode_refundReq refund);
      Get "/settlements" (authenticated no_body settlements_handler);
      Get "/reconciliation" (authenticated no_body reconciliation);
      Get "/export" (authenticated no_body export) ].

Definition healthz : handler :=
  fun _ _ => mret (JSON StatusOK (JObj [("status", JStr "ok")])).

(** [Router]: the table, the mounted routers, and what they answer. *)
Definition routes : list route :=
  Get "/healthz" healthz ::
  Route "/api" (query_Routes ++ webhook_Routes ++ merchant_Routes).

Definition mounts : list string := ["/api"; "/api/merchant"].

Definition find_route (r : http_request) : match_outcome :=
  chi_match mounts ((fun x => (rt_Method x, rt_Pattern x)) <$> routes) (rq_Method r) (rq_Path r).

(** The middleware of a mounted router also runs when none of its routes matches. *)
Definition unmatched (mount : option nat) (r : http_request) : M response :=
  let answer := mret (chi_unmatched (rq_Method r) (rq_Path r)) in
  if bool_decide (mount = Some 1%nat) then
    authMerchant (fun _ _ => answer) (with_decoded no_body r [])
  else answer.

Definition serve (r : http_request) : M response :=
  match find_route r with
  | Matched i ps =>
      match routes !! i with
      | Some x => rt_Handler x r ps
      | None => unmatched None r
      end
  | Unmatched mount => unmatched mount r
  end.

Definition Router (r : http_request) : M response := chi_Recoverer (serve r).
End api.
