(* ===== verification/ApiFacts.v ===== *)
(** * Lemmas on the HTTP surface

    What holds of every handler of the route table, of the authentication in front of
    the merchant's and of the answer to an unmatched path holds of the router. *)

From S2P Require Import Prelude Strconv GoTime External Schema Ids Sql IndexerTotal Http Frame Webhook Query QueryApi QueryFacts Csv Merchant MerchantApi MerchantFacts Api.

Section facts.
Context {FT : Fibertypes} {PG : Postgres} {CR : Crypto} {FR : FiberRPC} {XL : Excelize}
  {TP : TimeParser} {JD : JsonDecoder} {CH : Chi}.
Implicit Types (w : world).

(** ** From the handlers to the router *)

Definition handler_sat (r : http_request) (P : M response -> Prop) (x : route) : Prop :=
  forall ps, P (rt_Handler x r ps).

Lemma serve_sat (P : M response -> Prop) r :
  Forall (handler_sat r P) routes -> (forall mount, P (unmatched mount r)) -> P (serve r).
Proof.
  intros Hr Hu. unfold serve. destruct (find_route r) as [i ps|mount]; [|done].
  destruct (routes !! i) as [x|] eqn:E; [|done].
  rewrite list.Forall_lookup in Hr. by apply (Hr i x).
Qed.

(** The same for the requests of one method. *)
Lemma serve_method_sat {CHL : ChiLaws} (P : M response -> Prop) r :
  Forall (fun x => rt_Method x = rq_Method r -> handler_sat r P x) routes ->
  (forall mount, P (unmatched mount r)) -> P (serve r).
Proof.
  intros Hr Hu. unfold serve. destruct (find_route r) as [i ps|mount] eqn:Ef; [|done].
  destruct (routes !! i) as [x|] eqn:E; [|done].
  apply chi_match_sound in Ef as [pat Hp].
  rewrite list_lookup_fmap, E in Hp. injection Hp as Hm _.
  rewrite list.Forall_lookup in Hr. by apply (Hr i x).
Qed.

(** The router is [serve] up to the answer: the recovery only turns a panic into 500. *)
Lemma Router_runs {CHL : ChiLaws} r w :
  answers (serve r) ->
  ∃ a, Router r w = (Ok a, snd (serve r w))
    ∧ (forall b w', serve r w = (Ok b, w') -> a = b).
Proof.
  intros Hs. unfold Router. destruct (serve r w) as [[b|e|p] w'] eqn:E.
  - exists b. split; [by apply chi_Recoverer_passes|]. by intros ? ? [= ->].
  - by destruct (Hs w e w').
  - destruct (chi_Recoverer_recovers (serve r) w p w' E) as (a & Ha & _).
    exists a. split; [done|]. by intros ? ? [=].
Qed.

End facts.

(** One goal per route. *)
Ltac each_route :=
  unfold routes; apply List.Forall_cons;
    [|cbn -[handler_sat]; repeat apply List.Forall_cons; try apply List.Forall_nil].

(** From a route down to the operation its handler runs. *)
Ltac open_handler :=
  unfold handler_sat, Get, Post, Delete; cbn [rt_Handler rt_Method];
  unfold plain, authenticated, healthz, listPayments, getPayment, listChannels, getChannel,
    listEvents, statsPayments, get_one, create, list_handler, remove, test, replay,
    createOrder, getOrder, refund, settlements_handler, reconciliation, export, with_period,
    with_body, or_writeErr, or_error, or_bad, NewWebhookSecret, randHex.

Section router.
Context {FT : Fibertypes} {PG : Postgres} {CR : Crypto} {FR : FiberRPC} {XL : Excelize}
  {TP : TimeParser} {JD : JsonDecoder} {CH : Chi} {PGL : PostgresLaws}.
Implicit Types (w : world).

(** ** Every handler answers *)

Lemma answers_authMerchant {B} (next : string -> request B -> M response) req :
  (forall mid, answers (next mid req)) -> answers (authMerchant next req).
Proof. intros Hn. unfold authMerchant. answering. apply Hn. Qed.

Lemma serve_answers r : answers (serve r).
Proof.
  apply serve_sat.
  - each_route; open_handler; intros ps;
      try (apply answers_authMerchant; intros mid); answering.
  - intros mount. unfold unmatched. case_bool_decide; [|apply answers_mret].
    apply answers_authMerchant. intros mid. apply answers_mret.
Qed.

(** ** Requests that only read *)

(** Everything but the record of the reports is as it was, and reports are only added. *)
Definition reports_only (_ : Time) (d d' : Database) : Prop :=
  d' = upd_settlements (settlements d') (upd_recon_runs (reconciliation_runs d') d)
  ∧ settlements d ⊆ settlements d' ∧ reconciliation_runs d ⊆ reconciliation_runs d'.

#[global] Instance reports_only_preorder t : PreOrder (reports_only t).
Proof.
  split; [by intros []|].
  intros d1 d2 d3 (E1 & S1 & R1) (E2 & S2 & R2).
  split_and!; [|by etrans..]. rewrite E2. rewrite E1 at 1. done.
Qed.

Lemma frames_authMerchant {B} (R : Time -> relation Database) {HR : forall t, PreOrder (R t)}
    (next : string -> request B -> M response) req :
  (forall mid, frames R (next mid req)) -> frames R (authMerchant next req).
Proof. intros Hn. unfold authMerchant. framing. apply Hn. Qed.

Lemma quiet_authMerchant {B} (next : string -> request B -> M response) req :
  (forall mid, quiet (next mid req)) -> quiet (authMerchant next req).
Proof. intros Hn. unfold authMerchant. quieting. apply Hn. Qed.

Lemma Settlement_reports mid period : frames reports_only (Settlement mid period).
Proof.
  unfold Settlement, persist_settlement. framing.
  intros t d [] d'. unfold insert_settlement. case_match eqn:E; [done|]. intros [= <-].
  split_and!; [done| |done]. by apply insert_subseteq.
Qed.

Lemma Reconcile_reports mid period : frames reports_only (Reconcile mid period).
Proof.
  unfold Reconcile. framing.
  intros t d [] d'. unfold insert_recon, mbind, result_bind. intros H. ok_inv H.
  split_and!; [done|done|]. by apply insert_subseteq.
Qed.

Lemma get_serve_reports {CHL : ChiLaws} r :
  rq_Method r = "GET" -> frames reports_only (serve r).
Proof.
  intros Hm. apply serve_method_sat.
  - rewrite Hm. each_route; open_handler; intros Hg ps; try discriminate Hg;
      try (apply frames_authMerchant; [apply _|intros mid]);
      repeat first [apply Settlement_reports | apply Reconcile_reports | frame_step].
  - intros mount. unfold unmatched. case_bool_decide; [|apply frames_mret, _].
    apply frames_authMerchant; [apply _|]. intros mid. apply frames_mret, _.
Qed.

Lemma get_serve_quiet {CHL : ChiLaws} r : rq_Method r = "GET" -> quiet (serve r).
Proof.
  intros Hm. apply serve_method_sat.
  - rewrite Hm. each_route; open_handler; intros Hg ps; try discriminate Hg;
      try (apply quiet_authMerchant; intros mid);
      quieting.
  - intros mount. unfold unmatched. case_bool_decide; [|apply quiet_mret].
    apply quiet_authMerchant. intros mid. apply quiet_mret.
Qed.

(** ** Requests without a key that verifies *)

(** A merchant the presented key authenticates as. *)
Definition key_holder (r : http_request) (d : Database) (mid : string) : Prop :=
  ∃ token m, bearer_token (rq_Authorization r) = Some token
    ∧ merchants d !! mid = Some m ∧ VerifyAPIKey token (m_api_key_hash m) = true.

(** The pattern of a route of the merchant router, and the paths below its mount. *)
Definition merchant_request (r : http_request) : bool :=
  match find_route r with
  | Matched i _ =>
      match routes !! i with
      | Some x => bool_decide (is_Some (strip_prefix "/api/merchant/" (rt_Pattern x)))
      | None => false
      end
  | Unmatched mount => bool_decide (mount = Some 1%nat)
  end.

(** ** Whose orders a request may touch *)

(** Only orders of [mid] are added or changed, and no order is lost or changes hands. *)
Definition orders_of (mid : string) (_ : Time) (d d' : Database) : Prop :=
  merchants d' = merchants d
  ∧ (forall k o', merchant_orders d' !! k = Some o' -> o_merchant_id o' ≠ mid ->
       merchant_orders d !! k = Some o')
  ∧ (forall k o, merchant_orders d !! k = Some o ->
       ∃ o', merchant_orders d' !! k = Some o' ∧ o_merchant_id o' = o_merchant_id o).

#[global] Instance orders_of_preorder mid t : PreOrder (orders_of mid t).
Proof.
  split; [intros d; split_and!; eauto|].
  intros d1 d2 d3 (E1 & A1 & B1) (E2 & A2 & B2). split_and!; [congruence|eauto|].
  intros k o Ho. destruct (B1 k o Ho) as (o1 & Ho1 & Hm1).
  destruct (B2 k o1 Ho1) as (o2 & Ho2 & Hm2). exists o2. split; [done|congruence].
Qed.

Lemma orders_of_same mid t d d' :
  merchants d' = merchants d -> merchant_orders d' = merchant_orders d -> orders_of mid t d d'.
Proof. intros E1 E2. split_and!; [done|..]; rewrite E2; eauto. Qed.

Lemma orders_of_insert mid t oid ext hash asset amount d d' :
  insert_order oid mid ext hash asset amount t d = Ok (tt, d') -> orders_of mid t d d'.
Proof.
  intros [->|(Hn & _ & _ & ->)]%insert_order_spec; [done|]. split_and!; [done|..]; cbn.
  - intros k o' [[<- <-]|[_ H]]%lookup_insert_Some Hne; done.
  - intros k o Ho. exists o. rewrite lookup_insert_ne; [done|congruence].
Qed.

Lemma orders_of_refunded t oid o d :
  merchant_orders d !! oid = Some o ->
  orders_of (o_merchant_id o) t d (upd_orders (alter set_refunded oid (merchant_orders d)) d).
Proof.
  intros Ho. split_and!; [done|..]; cbn; intros k o'.
  - destruct (decide (oid = k)) as [<-|Hne]; [|by rewrite lookup_alter_ne].
    rewrite lookup_alter_eq, Ho. by intros [= <-].
  - destruct (decide (oid = k)) as [<-|Hne]; [|rewrite lookup_alter_ne by done; eauto].
    intros Ho'. rewrite lookup_alter_eq, Ho'. by eexists.
Qed.

(** Authentication in any world: refused with nothing done, or passed on. *)
Lemma authMerchant_cases {B} (next : string -> request B -> M response) (req : request B)
    (r : http_request) w :
  authorization req = rq_Authorization r ->
  (∃ a w', authMerchant next req w = (Ok a, w') ∧ w_db w' = w_db w ∧ same_env w w'
     ∧ (status a = StatusUnauthorized ∨ status a = StatusInternalServerError ∧ ~ healthy w)) ∨
  (∃ mid w', key_holder r (w_db w) mid ∧ authMerchant next req w = next mid req w'
     ∧ w_db w' = w_db w ∧ same_env w w').
Proof.
  intros Ea. unfold authMerchant, key_holder. rewrite <- Ea.
  destruct (bearer_token (authorization req)) as [token|] eqn:Et.
  2: { left. eexists _, w. split_and!; [done..|by left]. }
  set (find := fun d : Database => match filter _ _ with [] => _ | _ => _ end).
  unfold mbind, M_bind, mbind_M, attempt.
  destruct (select 3 find w) as [res w1] eqn:Es.
  pose proof (select_effect _ _ _ _ _ Es) as (Hdb & Henv & Hp).
  destruct res as [mid|e|p].
  - right. exists mid, w1. split_and!; [|done..].
    apply select_Ok in Es as (_ & Hf & _). unfold find in Hf.
    destruct (filter _ _) as [|x l] eqn:El; [done|]. injection Hf as <-.
    assert (x ∈ filter (fun x => m_api_key_hash x.2 = HashAPIKey token)
      (scan_table (merchants (w_db w)))) as Hin by (rewrite El; left).
    destruct x as [mid m]. apply list_elem_of_filter in Hin as [Hh Hin%elem_of_scan_table].
    exists token, m. split_and!; [done|done|]. by apply VerifyAPIKey_iff.
  - left. destruct (errors_Is e PgxErrNoRows) eqn:Ee.
    + eexists _, w1. split_and!; [done..|by left].
    + eexists _, w1. split_and!; [done..|]. right. split; [done|]. intros [Hf Hv].
      destruct (find (w_db w)) as [x|e'|p] eqn:Ef; unfold find in Ef.
      * rewrite (select_run 3 find w x) in Es; [done|done|by rewrite Hv|done].
      * unfold select in Es. rewrite (exec_run_err _ _ w e') in Es; [|done|by rewrite Hv|].
        { injection Es as -> _. destruct (filter _ _); [|done]. injection Ef as <-. done. }
        unfold find. by rewrite Ef.
      * destruct (filter _ _); done.
  - unfold find in Hp. destruct (filter _ _); done.
Qed.

(** What reaches the merchant router is authenticated first. *)
Lemma serve_merchant r :
  merchant_request r = true ->
  ∃ B next (req : request B), serve r = authMerchant next req
    ∧ authorization req = rq_Authorization r.
Proof.
  unfold merchant_request, serve. destruct (find_route r) as [i ps|mount].
  - destruct (routes !! i) as [x|] eqn:E; [|done]. intros Hp. revert x i E Hp.
    enough (Forall (fun x => bool_decide (is_Some (strip_prefix "/api/merchant/" (rt_Pattern x))) = true ->
      ∃ B next (req : request B), rt_Handler x r ps = authMerchant next req
        ∧ authorization req = rq_Authorization r) routes) as H.
    { intros x i E Hp. rewrite list.Forall_lookup in H. by eapply H. }
    each_route; intros H; try discriminate H; do 3 eexists; split; reflexivity.
  - intros Hm. unfold unmatched. rewrite Hm. do 3 eexists. split; reflexivity.
Qed.

(** The handlers behind the authentication act on the orders of one merchant. *)
Lemma CreateOrder_orders_of mid ext amt asset :
  frames (orders_of mid) (CreateOrder mid ext amt asset).
Proof.
  unfold CreateOrder, prior_order, race_winner, orderByExternalID, GetOrder.
  framing; try (apply frames_query_order; apply _).
  intros t d [] d'. apply orders_of_insert.
Qed.

Lemma RefundOrder_orders_of mid oid amt reason :
  frames (orders_of mid) (RefundOrder mid oid amt reason).
Proof.
  apply RefundOrder_frames; [apply _|..].
  - intros t d d' o rid asset hash a _ _ _. unfold insert_refund. case_match; [done|].
    case_match; [|done]. intros [= <-]. by apply orders_of_same.
  - intros t d o rid rr Ho <- _ _ _. by apply orders_of_refunded.
Qed.

Lemma reports_orders_of {A} mid (m : M A) : frames reports_only m -> frames (orders_of mid) m.
Proof.
  intros H w. destruct (H w) as [(E & _) Hn]. split; [|done].
  by apply orders_of_same; rewrite E.
Qed.

(** The orders table under one request. *)
Definition orders_guarded (r : http_request) (m : M response) : Prop :=
  forall w, let d := w_db w in let d' := w_db (snd (m w)) in
    (merchants d' = merchants d ∧ merchant_orders d' = merchant_orders d) ∨
    ∃ mid, key_holder r d mid ∧ orders_of mid (w_now w) d d'.

Definition orders_kept (_ : Time) (d d' : Database) : Prop :=
  merchants d' = merchants d ∧ merchant_orders d' = merchant_orders d.

#[global] Instance orders_kept_preorder t : PreOrder (orders_kept t).
Proof. split; [done|]. intros d1 d2 d3 [] []. split; congruence. Qed.

Lemma guarded_kept r m : frames orders_kept m -> orders_guarded r m.
Proof. intros H w. left. apply H. Qed.

Lemma guarded_authMerchant {B} (next : string -> request B -> M response) (req : request B) r :
  authorization req = rq_Authorization r ->
  (forall mid, frames (orders_of mid) (next mid req)) -> orders_guarded r (authMerchant next req).
Proof.
  intros Ea Hn w. cbv zeta.
  destruct (authMerchant_cases next req r w Ea)
    as [(a & w' & -> & Hdb & _)|(mid & w' & Hk & -> & Hdb & [En _ _])].
  - left. cbn. by rewrite Hdb.
  - right. exists mid. split; [done|]. destruct (Hn mid w') as [H _]. by rewrite Hdb, En in H.
Qed.

Lemma serve_guarded r : orders_guarded r (serve r).
Proof.
  apply serve_sat.
  - each_route; unfold handler_sat, Get, Post, Delete; cbn [rt_Handler]; intros ps;
      unfold authenticated; first [apply guarded_authMerchant; [done|intros mid]|apply guarded_kept].
    all: try (open_handler; unfold endpoint_upsert, insert_test_event, insert_test_delivery,
      replay_stmt; framing; intros t d x d' H; ok_inv H; done).
    all: open_handler; repeat first [apply CreateOrder_orders_of | apply RefundOrder_orders_of
      | apply reports_orders_of, Settlement_reports | apply reports_orders_of, Reconcile_reports
      | frame_step].
  - intros mount. unfold unmatched. case_bool_decide.
    + apply guarded_authMerchant; [done|]. intros mid. apply frames_mret, _.
    + apply guarded_kept, frames_mret, _.
Qed.
End router.
