(* ===== verification/Refusals.v ===== *)
(** * Refused requests

    A client error (400, 401, 404) has to mean that nothing was done.  [reads]
    computations only look; [firm] ones never answer one of the merchant's refusals;
    [refuses] ones answer a refusal only with nothing done.  Statements may fail in any
    way: [decent] worlds only exclude faults that carry the merchant's own sentinels,
    which Postgres cannot know. *)

From S2P Require Import Prelude Strconv GoTime External Schema Numeric Tables Ids Sql IndexerTotal Http Frame Webhook Query QueryApi Csv Merchant MerchantApi MerchantFacts MerchantSteps Api ApiFacts.

Definition refusal (e : error) : bool :=
  errors_Is e MerchantErrNotFound || errors_Is e MerchantErrInvalidState.

(** An error of the database itself. *)
Definition db_error (e : error) : Prop := refusal e = false ∧ errors_Is e PgxErrNoRows = false.

Definition foreign (f : fault) : Prop :=
  match f with NoFault => True | Fail e | AckLost e => db_error e end.

Section refusals.
Context {FT : Fibertypes}.
Implicit Types (w : world).

Definition decent w : Prop := Forall foreign (w_faults w).

(** Nothing was done. *)
Definition unchanged w w' : Prop := w_db w' = w_db w ∧ w_calls w' = w_calls w.

#[global] Instance unchanged_preorder : PreOrder unchanged.
Proof. split; [done|]. intros w1 w2 w3 [? ?] [? ?]. split; congruence. Qed.

Definition reads {A} (m : M A) : Prop := forall w r w',
  decent w -> m w = (r, w') -> decent w' ∧ unchanged w w'.
Definition firm {A} (m : M A) : Prop := forall w r w',
  decent w -> m w = (r, w') -> decent w' ∧ match r with Err e => refusal e = false | _ => True end.
Definition refuses {A} (m : M A) : Prop := forall w e w',
  decent w -> m w = (Err e, w') -> refusal e = true -> unchanged w w'.

Lemma next_fault_decent w f w1 : decent w -> next_fault w = (f, w1) -> decent w1 ∧ foreign f.
Proof.
  unfold next_fault, decent. destruct (w_faults w) as [|g fs] eqn:E; intros Hw [= <- <-].
  - by rewrite E.
  - by inversion Hw.
Qed.

Lemma run_stmt_faults {A} need (f : Time -> Database -> result (A * Database)) w :
  w_faults (snd (run_stmt need f w)) = w_faults w.
Proof.
  unfold run_stmt. destruct (_ <? _); [done|]. by destruct (f (w_now w) (w_db w)) as [[? ?]|?|?].
Qed.

Lemma exec_decent {A} need (f : Time -> Database -> result (A * Database)) w r w' :
  decent w -> exec need f w = (r, w') -> decent w'.
Proof.
  unfold exec. intros Hw. destruct (next_fault w) as [g w1] eqn:E.
  destruct (next_fault_decent w g w1 Hw E) as [H1 _].
  assert (decent (snd (run_stmt need f w1))) as H2 by (unfold decent; by rewrite run_stmt_faults).
  destruct g; [|by intros [= _ <-]..]. intros H. by rewrite H in H2.
Qed.

(** A statement fails with an error of its own or of the database. *)
Lemma exec_error {A} need (f : Time -> Database -> result (A * Database)) w e w' :
  decent w -> exec need f w = (Err e, w') -> f (w_now w) (w_db w) = Err e ∨ db_error e.
Proof.
  intros Hw. unfold exec. destruct (next_fault w) as [g w1] eqn:E.
  destruct (next_fault_decent w g w1 Hw E) as [_ Hg].
  apply next_fault_frame in E as [Edb [En _ _]].
  destruct g as [|e'|e']; [|by intros [= <- _]; right..]. unfold run_stmt. rewrite Edb, En.
  destruct (_ <? _); [by intros [= <- _]; right|].
  destruct (f (w_now w) (w_db w)) as [[a d]|e'|p]; intros [= <- _]; by left.
Qed.

Lemma exec_firm {A} need (f : Time -> Database -> result (A * Database)) :
  (forall t d e, f t d = Err e -> refusal e = false) -> firm (exec need f).
Proof.
  intros Hf w r w' Hw H. split; [by eapply exec_decent|]. destruct r as [a|e|p]; [done| |done].
  destruct (exec_error _ _ _ _ _ Hw H) as [He|[He _]]; [by eapply Hf|done].
Qed.

Lemma select_reads {A} need (f : Database -> result A) : reads (select need f).
Proof.
  intros w r w' Hw H. split; [by eapply exec_decent|].
  by destruct (select_effect _ _ _ _ _ H) as (? & [_ _ ?] & _).
Qed.

Lemma bind_err_cases {A B} (m : M A) (k : A -> M B) w e w' :
  (m ≫= k) w = (Err e, w') ->
  m w = (Err e, w') ∨ ∃ a w1, m w = (Ok a, w1) ∧ k a w1 = (Err e, w').
Proof.
  unfold mbind, M_bind, mbind_M. destruct (m w) as [[a|e1|p] w1]; [eauto|by left; congruence|done].
Qed.

(** ** Rules *)

Lemma reads_mret {A} (a : A) : reads (mret a).
Proof. by intros w r w' Hw [= _ <-]. Qed.
Lemma reads_throw {A} e : reads (throw e : M A).
Proof. by intros w r w' Hw [= _ <-]. Qed.
Lemma reads_lift {A} (x : result A) : reads (lift x).
Proof. by intros w r w' Hw [= _ <-]. Qed.

Lemma reads_bind {A B} (m : M A) (k : A -> M B) :
  reads m -> (forall a, reads (k a)) -> reads (m ≫= k).
Proof.
  intros Hm Hk w r w' Hw H. apply bind_cases in H as [[_ ->]|(a & w1 & H1 & H2)].
  - destruct (m w) as [r1 w1] eqn:E. by apply (Hm w r1 w1).
  - destruct (Hm _ _ _ Hw H1) as [Hw1 ?]. destruct (Hk a _ _ _ Hw1 H2) as [? ?].
    split; [done|by etrans].
Qed.

Lemma reads_wrapping {A} pre (m : M A) : reads m -> reads (wrapping pre m).
Proof.
  intros Hm w r w' Hw. unfold wrapping. destruct (m w) as [r1 w1] eqn:E.
  specialize (Hm _ _ _ Hw E). by destruct r1; intros [= _ <-].
Qed.

Lemma reads_attempt {A} (m : M A) : reads m -> reads (attempt m).
Proof.
  intros Hm w r w' Hw. unfold attempt. destruct (m w) as [r1 w1] eqn:E.
  specialize (Hm _ _ _ Hw E). by destruct r1; intros [= _ <-].
Qed.

Lemma firm_mret {A} (a : A) : firm (mret a).
Proof. by intros w r w' Hw [= <- <-]. Qed.
Lemma firm_lift {A} (x : result A) : (forall e, x = Err e -> refusal e = false) -> firm (lift x).
Proof. intros Hx w r w' Hw [= <- <-]. split; [done|]. destruct x; auto. Qed.
Lemma firm_id_New {CR : Crypto} : firm id_New.
Proof. by intros w r w' Hw [= <- <-]. Qed.

Lemma firm_bind {A B} (m : M A) (k : A -> M B) :
  firm m -> (forall a, firm (k a)) -> firm (m ≫= k).
Proof.
  intros Hm Hk w r w' Hw. unfold mbind, M_bind, mbind_M. destruct (m w) as [r1 w1] eqn:E.
  destruct (Hm _ _ _ Hw E) as [Hw1 H1]. destruct r1; [by apply Hk|by intros [= <- <-]..].
Qed.

Lemma firm_wrapping {A} pre (m : M A) : firm m -> firm (wrapping pre m).
Proof.
  intros Hm w r w' Hw. unfold wrapping. destruct (m w) as [r1 w1] eqn:E.
  specialize (Hm _ _ _ Hw E). by destruct r1; intros [= <- <-].
Qed.

Lemma firm_for_each {A} (f : A -> M unit) xs : (forall x, firm (f x)) -> firm (for_each f xs).
Proof.
  intros Hf. induction xs as [|x xs IH]; [apply firm_mret|]. by apply firm_bind.
Qed.

Lemma firm_error {A} (m : M A) w e w' :
  firm m -> decent w -> m w = (Err e, w') -> refusal e = false.
Proof. intros Hm Hw H. by destruct (Hm w (Err e) w' Hw H). Qed.

Lemma refuses_reads {A} (m : M A) : reads m -> refuses m.
Proof. intros Hm w e w' Hw H _. by apply (Hm w (Err e) w'). Qed.

Lemma refuses_firm {A} (m : M A) : firm m -> refuses m.
Proof. intros Hm w e w' Hw H Hr. destruct (Hm w (Err e) w' Hw H) as [_ H']. congruence. Qed.

Lemma refuses_bind {A B} (m : M A) (k : A -> M B) :
  reads m -> (forall a, refuses (k a)) -> refuses (m ≫= k).
Proof.
  intros Hm Hk w e w' Hw H Hr. apply bind_cases in H as [[_ ->]|(a & w1 & H1 & H2)].
  - destruct (m w) as [r1 w1] eqn:E. by apply (Hm w r1 w1).
  - destruct (Hm _ _ _ Hw H1) as [Hw1 ?]. etrans; [done|]. by eapply Hk.
Qed.
End refusals.

Ltac reading :=
  repeat first
    [ apply select_reads | apply reads_mret | apply reads_throw | apply reads_lift
    | apply reads_bind; [|intros ?] | apply reads_wrapping | apply reads_attempt
    | match goal with |- reads (match ?x with _ => _ end) => destruct x end ].

(** ** The merchant's methods *)

Section merchant.
Context {FT : Fibertypes} {PG : Postgres} {PGL : PostgresLaws} {CR : Crypto}
  {FR : FiberRPC} {XL : Excelize}.
Implicit Types (w : world).

(** The node knows nothing of the merchant's sentinels. *)
Definition foreign_node : Prop :=
  (forall calls p e, rpc_NewInvoice calls p = Err e -> refusal e = false)
  ∧ (forall calls p e, rpc_SendPayment calls p = Err e -> refusal e = false).

Lemma reads_query_order P : reads (query_order P).
Proof. unfold query_order. reading. Qed.
Lemma reads_payerPubkey h : reads (payerPubkey h).
Proof. unfold payerPubkey. reading. Qed.
Lemma reads_prior_order mid ext : reads (prior_order mid ext).
Proof. unfold prior_order, orderByExternalID. reading. Qed.
Lemma reads_race_winner mid ext : reads (race_winner mid ext).
Proof. unfold race_winner, orderByExternalID. reading. Qed.
Lemma reads_Export mid period format : reads (Export mid period format).
Proof. unfold Export, exportRows. reading. Qed.

(** A lookup refuses only when there is no such order. *)
Lemma query_order_error P w e w' :
  decent w -> query_order P w = (Err e, w') ->
  (forall k r, merchant_orders (w_db w) !! k = Some r -> P (k, r) = false) ∨ refusal e = false.
Proof.
  intros Hw. unfold query_order, attempt, mbind, M_bind, mbind_M.
  match goal with |- context [select 3 ?f w] => destruct (select 3 f w) as [[x|e1|p] w1] eqn:E end;
    [rewrite scanOrder_ok; intros [=]| |intros [=]].
  destruct (exec_error _ _ _ _ _ Hw E) as [He|[He Hn]].
  - unfold mbind, result_bind in He. destruct (filter _ _) as [|x l] eqn:El; [|done].
    intros _. left. intros k r Hk. apply not_true_iff_false. intros HP.
    assert ((k, r) ∈ filter (fun x => P x = true) (scan_table (merchant_orders (w_db w)))) as Hin
      by (by apply list_elem_of_filter; rewrite elem_of_scan_table).
    rewrite El in Hin. by apply not_elem_of_nil in Hin.
  - rewrite Hn. intros [= <- _]. by right.
Qed.

Lemma prior_order_free mid ext w w' :
  decent w -> prior_order mid ext w = (Ok None, w') -> ext ≠ EmptyString ->
  forall k r, merchant_orders (w_db w) !! k = Some r -> has_external mid ext (k, r) = false.
Proof.
  intros Hw H Hne. unfold prior_order in H. rewrite bool_decide_false in H by done.
  unfold attempt, mbind, M_bind, mbind_M in H.
  destruct (orderByExternalID mid ext w) as [[o|e|p] w1] eqn:E; [done| |done].
  destruct (errors_Is e MerchantErrNotFound) eqn:Ee; [|done].
  destruct (query_order_error _ _ _ _ Hw E) as [?|Hr]; [done|].
  unfold refusal in Hr. by rewrite Ee in Hr.
Qed.

(** From the invoice on, an order that was not there before is there at the end. *)
Lemma GetOrder_there mid oid w r e w' :
  decent w -> merchant_orders (w_db w) !! oid = Some r -> o_merchant_id r = mid ->
  GetOrder mid oid w = (Err e, w') -> refusal e = false.
Proof.
  intros Hw Ho Hm H. destruct (query_order_error _ _ _ _ Hw H) as [Hn|?]; [|done].
  specialize (Hn oid r Ho). cbn in Hn. by rewrite !bool_decide_true in Hn.
Qed.

Lemma firm_NewInvoice p : foreign_node -> firm (NewInvoice p).
Proof. intros [Hn _] w r w' Hw [= <- <-]. split; [done|]. destruct (rpc_NewInvoice _ _) eqn:E; eauto. Qed.
Lemma firm_SendPayment p : foreign_node -> firm (SendPayment p).
Proof. intros [_ Hn] w r w' Hw [= <- <-]. split; [done|]. destruct (rpc_SendPayment _ _) eqn:E; eauto. Qed.

(** The order answered after the insert: this one, or one that took its external id. *)
Lemma inserted_order_firm mid ext oid (inv : Invoice) w r e w' :
  decent w -> merchant_orders (w_db w) !! oid = Some r -> o_merchant_id r = mid ->
  (winner ← race_winner mid ext;
   match winner with
   | Some existing => mret (existing, inv)
   | None => order ← GetOrder mid oid; mret (order, inv)
   end) w = (Err e, w') -> refusal e = false.
Proof.
  intros Hw Ho Hm H. unfold mbind at 1, M_bind at 1, mbind_M in H.
  destruct (race_winner mid ext w) as [x w1] eqn:E.
  destruct (reads_race_winner mid ext w x w1 Hw E) as [Hw1 [Edb _]].
  rewrite <- Edb in Ho. destruct x as [[x|]|e1|p]; [done| |exfalso|done].
  - unfold mbind, M_bind, mbind_M in H. destruct (GetOrder mid oid w1) as [[o|e1|p] w2] eqn:E2; [done| |done].
    injection H as <- _. by eapply GetOrder_there.
  - unfold race_winner, attempt, mbind, M_bind, mbind_M in E. case_bool_decide; [done|].
    by destruct (orderByExternalID mid ext w) as [[o|e2|p] w2].
Qed.

Lemma insert_order_error oid mid ext hash asset amount now d e :
  insert_order oid mid ext hash asset amount now d = Err e -> refusal e = false.
Proof.
  unfold insert_order. intros H. repeat case_match; simplify_eq; done.
Qed.

Lemma insert_order_free oid mid ext hash asset amount now d d' :
  (ext ≠ EmptyString -> forall k r, merchant_orders d !! k = Some r ->
     has_external mid ext (k, r) = false) ->
  insert_order oid mid ext hash asset amount now d = Ok (tt, d') ->
  ∃ r, merchant_orders d' !! oid = Some r ∧ o_merchant_id r = mid.
Proof.
  unfold insert_order. intros Hfree H. ok_inv H; try (eexists; split; [apply lookup_insert_eq|done]).
  case_bool_decide; [done|]. apply existsb_exists in E as ([k r] & Hin & HP).
  apply list_elem_of_In, elem_of_map_to_list in Hin. by rewrite Hfree in HP.
Qed.

(** From the invoice on an order creation never refuses, when the external id is free. *)
Lemma order_create_firm mid ext asset a w e w' :
  foreign_node -> decent w ->
  (ext ≠ EmptyString -> forall k r, merchant_orders (w_db w) !! k = Some r ->
     has_external mid ext (k, r) = false) ->
  order_create mid ext asset a w = (Err e, w') -> refusal e = false.
Proof.
  intros Hnode Hw Hfree. unfold order_create. cbv zeta.
  intros [H|(inv & w1 & Hi%wrapping_Ok & H)]%bind_err_cases.
  { eapply firm_error; [by apply firm_wrapping, firm_NewInvoice|exact Hw|exact H]. }
  injection Hi as _ <-. cbn [log_call] in H.
  apply bind_err_cases in H as [H|(oid & w2 & Hid & H)]; [done|]. injection Hid as _ <-.
  apply bind_err_cases in H as [H|([] & w3 & Hx%wrapping_Ok & H)].
  { eapply firm_error; [apply firm_wrapping, exec_firm| |exact H]; [|exact Hw].
    intros t d e0 He. by apply insert_order_error in He. }
  assert (decent w3) as Hw3 by (eapply exec_decent; [|exact Hx]; exact Hw). apply exec_Ok in Hx as (_ & Hins & _).
  apply insert_order_free in Hins as (r & Hr & Hm); [|exact Hfree].
  by eapply inserted_order_firm.
Qed.

Lemma CreateOrder_refuses mid ext amt asset : foreign_node -> refuses (CreateOrder mid ext amt asset).
Proof.
  intros Hnode w e w' Hw H Hr. unfold CreateOrder in H.
  destruct (ParseAmount amt) as [a [e1|]] eqn:Ea; [by injection H as _ <-|].
  pose proof (reads_prior_order mid ext) as Hreads.
  apply bind_err_cases in H as [H|(prior & w1 & Hp & H)]; [by apply (Hreads w _ w' Hw H)|].
  destruct prior as [x|]; [done|]. destruct (Hreads w _ w1 Hw Hp) as [Hw1 [Edb _]].
  change (order_create mid ext asset a w1 = (Err e, w')) in H.
  rewrite (order_create_firm mid ext asset a w1 e w') in Hr; [done|done|done| |done].
  rewrite Edb. by apply (prior_order_free mid ext w w1).
Qed.

Lemma RefundOrder_refuses mid oid amt reason : foreign_node -> refuses (RefundOrder mid oid amt reason).
Proof.
  intros Hnode. unfold RefundOrder.
  apply refuses_bind; [apply reads_query_order|intros order].
  destruct (negb _); [apply refuses_reads, reads_throw|].
  destruct (ParseAmount amt) as [a [e|]]; [apply refuses_reads, reads_throw|].
  apply refuses_bind; [apply reads_payerPubkey|intros payer]. apply refuses_firm.
  repeat first [apply firm_mret | apply firm_id_New | apply firm_bind; [|intros ?]];
    apply firm_wrapping; [by apply firm_SendPayment|..]; apply exec_firm; [|done].
  intros t d e H. unfold insert_refund in H. repeat case_match; simplify_eq; done.
Qed.

Lemma mustAmount_total n e : mustAmount n ≠ Err e.
Proof. unfold mustAmount. by destruct (NumericToAmount n). Qed.

Lemma scan_rows_total {A B} (f : A -> result B) l e : (forall x e, f x ≠ Err e) -> scan_rows f l ≠ Err e.
Proof.
  intros Hf. induction l as [|x l IH]; [done|]. cbn. unfold mbind, result_bind.
  destruct (f x) eqn:E; [|by destruct (Hf x e0)|done]. by destruct (scan_rows f l).
Qed.

Lemma settlement_row_total period x e : settlement_row period x ≠ Err e.
Proof.
  destruct x as [[asset g] f]. unfold settlement_row, mbind, result_bind.
  destruct (mustAmount (pg_numeric_out g)) eqn:E1; [|by destruct (mustAmount_total _ _ E1)|done].
  destruct (mustAmount (pg_numeric_out f)) eqn:E2; [done|by destruct (mustAmount_total _ _ E2)|done].
Qed.

Lemma reconcile_loop_total rows m u ids disc e : reconcile_loop rows m u ids disc ≠ Err e.
Proof.
  revert m u ids disc. induction rows as [|[[oid []] a] rows IH]; intros m u ids disc; [done|apply IH|].
  cbn. unfold mbind, result_bind.
  destruct (mustAmount (pg_numeric_out a)) eqn:E; [apply IH|by destruct (mustAmount_total _ _ E)|done].
Qed.

Lemma Settlement_firm mid period : firm (Settlement mid period).
Proof.
  unfold Settlement. repeat (apply firm_bind; [|intros ?]).
  - apply firm_wrapping, exec_firm. done.
  - apply firm_lift. intros e H. by destruct (scan_rows_total _ _ e (settlement_row_total period) H).
  - apply firm_for_each. intros x. unfold persist_settlement. cbv zeta.
    apply firm_bind; [apply firm_id_New|intros sid]. apply firm_wrapping, exec_firm.
    intros t d e H. unfold insert_settlement in H. case_match; simplify_eq; done.
  - apply firm_mret.
Qed.

Lemma Reconcile_firm mid period : firm (Reconcile mid period).
Proof.
  unfold Reconcile. apply firm_bind; [apply firm_wrapping, exec_firm; done|intros rows].
  apply firm_bind; [apply firm_lift; intros e H; by destruct (reconcile_loop_total _ _ _ _ _ e H)|].
  intros [[[m u] ids] disc]. cbv zeta. apply firm_bind; [apply firm_id_New|intros rid].
  apply firm_bind; [|intros []; apply firm_mret]. apply firm_wrapping, exec_firm.
  intros t d e H. unfold insert_recon, int4, mbind, result_bind in H.
  repeat case_match; simplify_eq; done.
Qed.
End merchant.

(** ** Handlers *)

Definition refused (a : response) : bool :=
  bool_decide (status a ∈ [StatusBadRequest; StatusUnauthorized; StatusNotFound]).

Section handlers.
Context {FT : Fibertypes}.
Implicit Types (w : world).

(** A refusal comes with nothing done; a [tame] handler does not refuse at all. *)
Definition harmless (m : M response) : Prop := forall w a w',
  decent w -> m w = (Ok a, w') -> refused a = true -> unchanged w w'.
Definition tame (m : M response) : Prop := forall w a w', m w = (Ok a, w') -> refused a = false.

Lemma harmless_reads m : reads m -> harmless m.
Proof. intros Hm w a w' Hw H _. by apply (Hm w (Ok a) w'). Qed.

Lemma harmless_tame m : tame m -> harmless m.
Proof. intros Hm w a w' _ H Hr. rewrite (Hm w a w' H) in Hr. done. Qed.

Lemma harmless_bind {A} (m : M A) (k : A -> M response) :
  reads m -> (forall a, harmless (k a)) -> harmless (m ≫= k).
Proof.
  intros Hm Hk w a w' Hw (x & w1 & H1 & H2)%bind_Ok Hr.
  destruct (Hm _ _ _ Hw H1) as [Hw1 ?]. etrans; [done|]. by eapply Hk.
Qed.

Lemma tame_mret a : refused a = false -> tame (mret a).
Proof. by intros Ha w b w' [= <- _]. Qed.

Lemma tame_bind {A} (m : M A) (k : A -> M response) : (forall a, tame (k a)) -> tame (m ≫= k).
Proof. intros Hk w a w' (x & w1 & _ & H)%bind_Ok. by eapply Hk. Qed.

(** An error is 500, which is not a refusal. *)
Lemma tame_or_error {A} (m : M A) k :
  (forall a, tame (k a)) -> tame (or_error StatusInternalServerError m k).
Proof. intros Hk. unfold or_error. apply tame_bind. intros [e|a]; [by apply tame_mret|apply Hk]. Qed.

Lemma attempt_cases {A} (m : M A) w x w' :
  attempt m w = (Ok x, w') ->
  (∃ e, x = inl e ∧ m w = (Err e, w')) ∨ (∃ a, x = inr a ∧ m w = (Ok a, w')).
Proof. unfold attempt. destruct (m w) as [[a|e|p] w1]; intros [= <- <-]; eauto. Qed.

Lemma harmless_or_writeErr {A} (m : M A) k :
  refuses m -> (forall a, tame (k a)) -> harmless (or_writeErr m k).
Proof.
  intros Hm Hk w a w' Hw (x & w1 & H1 & H2)%bind_Ok Hr.
  apply attempt_cases in H1 as [(e & -> & H1)|(y & -> & H1)].
  - injection H2 as <- <-. destruct (refusal e) eqn:E; [by apply (Hm w e w1)|].
    apply orb_false_iff in E as [E1 E2]. unfold writeErr in Hr. rewrite E1, E2 in Hr. done.
  - rewrite (Hk y w1 a w' H2) in Hr. done.
Qed.

(** Zero rows affected is 404. *)
Lemma harmless_affected need (f : Time -> Database -> result (Z * Database)) k :
  (forall t d d', f t d = Ok (0, d') -> d' = d) ->
  reads (k 0) -> (forall n, n ≠ 0 -> tame (k n)) ->
  harmless (or_error StatusInternalServerError (exec need f) k).
Proof.
  intros Hf H0 Hk w a w' Hw (x & w1 & H1 & H2)%bind_Ok Hr.
  apply attempt_cases in H1 as [(e & -> & H1)|(n & -> & H1)]; [by injection H2 as <- _|].
  destruct (decide (n = 0)) as [->|Hn]; [|by rewrite (Hk n Hn w1 a w' H2) in Hr].
  pose proof (exec_decent _ _ _ _ _ Hw H1) as Hw1.
  apply exec_Ok in H1 as (_ & H1 & [_ _ Hc]). destruct (H0 _ _ _ Hw1 H2) as [_ [Ed Ec]].
  apply Hf in H1. split; congruence.
Qed.
End handlers.

(** ** Every route *)

Section routes.
Context {FT : Fibertypes} {PG : Postgres} {PGL : PostgresLaws} {CR : Crypto} {FR : FiberRPC}
  {XL : Excelize} {TP : TimeParser} {JD : JsonDecoder} {CH : Chi}.

Lemma harmless_authMerchant {B} (next : string -> request B -> M response) req :
  (forall mid, harmless (next mid req)) -> harmless (authMerchant next req).
Proof.
  intros Hn. unfold authMerchant. destruct (bearer_token _); [|apply harmless_reads, reads_mret].
  apply harmless_bind; [reading|]. intros [e|mid]; [|apply Hn].
  apply harmless_reads. reading.
Qed.

Lemma harmless_with_body {B} (r : request B) k :
  (forall b, harmless (k b)) -> harmless (with_body r k).
Proof.
  intros Hk. unfold with_body, or_bad. destruct (decoded r); [apply Hk|..]; apply harmless_reads; reading.
Qed.

Lemma harmless_with_period {B} (r : request B) k :
  (forall p, harmless (k p)) -> harmless (with_period r k).
Proof. intros Hk. unfold with_period. case_bool_decide; [apply harmless_reads; reading|apply Hk]. Qed.

Lemma harmless_create r : harmless (create r).
Proof.
  unfold create. destruct (decoded r) as [req|e|p]; [|apply harmless_reads; reading..].
  destruct (_ || _); [apply harmless_reads; reading|]. cbv zeta. apply harmless_tame, tame_bind.
  intros secret. apply tame_or_error. intros []. by apply tame_mret.
Qed.

(** [list] answers 200 or 500. *)
Lemma harmless_list : harmless list_handler.
Proof.
  apply harmless_tame, tame_or_error. intros out. apply tame_bind. intros k. by apply tame_mret.
Qed.

Lemma harmless_remove {B} (r : request B) : harmless (remove r).
Proof.
  unfold remove. cbv zeta. apply harmless_affected; [|reading|].
  - intros t d d'. by destruct (webhook_endpoints d !! _); intros [= <-].
  - intros n Hn%Z.eqb_neq. rewrite Hn. by apply tame_mret.
Qed.

Lemma harmless_replay {B} (r : request B) : harmless (replay r).
Proof.
  unfold replay. cbv zeta. apply harmless_affected; [|reading|].
  - intros t d d'. unfold replay_stmt. destruct (webhook_deliveries d !! _); [|by intros [= <-]].
    by case_bool_decide; intros [= <-].
  - intros n Hn%Z.eqb_neq. rewrite Hn. by apply tame_mret.
Qed.

Lemma harmless_test {B} (r : request B) : harmless (test r).
Proof.
  unfold test. cbv zeta. apply harmless_bind; [reading|].
  intros [e|[url secret]]; [apply harmless_reads; reading|]. apply harmless_tame.
  apply tame_bind. intros evt. apply tame_or_error. intros [].
  apply tame_bind. intros dlv. apply tame_or_error. intros []. by apply tame_mret.
Qed.

(** No handler of the table refuses after it has done something. *)
Lemma harmless_serve r : foreign_node -> harmless (serve r).
Proof.
  intros Hnode. apply serve_sat.
  - each_route; unfold handler_sat, Get, Post, Delete; cbn [rt_Handler]; intros ps;
      unfold plain, authenticated; try (apply harmless_authMerchant; intros mid);
    first
      [ apply harmless_create | apply harmless_list | apply harmless_remove | apply harmless_test | apply harmless_replay
      | apply harmless_with_body; intros req; apply harmless_or_writeErr;
        [by first [apply CreateOrder_refuses | apply RefundOrder_refuses]|intros x; by apply tame_mret]
      | apply harmless_with_period; intros period; apply harmless_or_writeErr;
        [apply refuses_firm; first [apply Settlement_firm | apply Reconcile_firm]
        |intros x; by apply tame_mret]
      | apply harmless_reads; unfold healthz, listPayments, getPayment, listChannels, getChannel,
          listEvents, statsPayments, get_one, getOrder, export, with_period, or_bad,
          or_error, or_writeErr; reading; fail ].
  - intros mount. unfold unmatched. case_bool_decide; [|apply harmless_reads; reading].
    apply harmless_authMerchant. intros mid. apply harmless_reads. reading.
Qed.
End routes.
