(* ===== verification/ApiProps.v ===== *)
(** * What the HTTP surface guarantees

    Every request is answered; the merchant's routes need a key; orders move only for
    the holder of their merchant's key; GET requests only add reports; a refused
    request does nothing. *)

From S2P Require Import Prelude Strconv GoTime External Schema Ids IndexerTotal Http Frame Webhook Query QueryApi Csv Merchant MerchantApi MerchantFacts MerchantProps Api ApiFacts Refusals.

Section theorems.
Context {FT : Fibertypes} {PG : Postgres} {PGL : PostgresLaws} {CR : Crypto} {FR : FiberRPC}
  {XL : Excelize} {TP : TimeParser} {JD : JsonDecoder} {CH : Chi} {CHL : ChiLaws}.
Implicit Types (w : world).

(** Every request is answered, in every world: no handler of the table lets an error
    or a panic through, whatever statement of it fails.  The answer is the handler's,
    or 500 when the handler panicked, and the router does nothing of its own. *)
Theorem Router_answers r w :
  ∃ a, Router r w = (Ok a, snd (serve r w))
    ∧ (∀ b w', serve r w = (Ok b, w') -> a = b)
    ∧ (∀ p w', serve r w = (Panic p, w') -> status a = StatusInternalServerError).
Proof.
  unfold Router. destruct (serve r w) as [[b|e|p] w'] eqn:E.
  - exists b. split_and!; [by apply chi_Recoverer_passes|by intros ? ? [= ->]|done].
  - by destruct (serve_answers r w e w').
  - destruct (chi_Recoverer_recovers (serve r) w p w' E) as (a & Ha & Hs).
    exists a. by split_and!.
Qed.

(** C35.  Nothing below /api/merchant is served without a key: when no merchant's stored
    hash verifies against the presented token, whatever the path, the body and the
    method, the answer is 401, or 500 if the lookup itself failed; no row is written
    and the node is not called. *)
Theorem merchant_requests_need_key r w :
  merchant_request r = true ->
  (∀ mid, ~ key_holder r (w_db w) mid) ->
  ∃ a w', Router r w = (Ok a, w') ∧ w_db w' = w_db w ∧ w_calls w' = w_calls w
    ∧ (status a = StatusUnauthorized ∨ status a = StatusInternalServerError ∧ ~ healthy w).
Proof.
  intros Hm Hk. destruct (serve_merchant r Hm) as (B & next & req & Hs & Ha).
  destruct (authMerchant_cases next req r w Ha)
    as [(a & w' & E & Hdb & [_ _ Hc] & Hst)|(mid & w' & H & _)]; [|by destruct (Hk mid)].
  exists a, w'. split_and!; [|done..]. apply chi_Recoverer_passes. by rewrite Hs.
Qed.

(** C8.  Whose orders a request moves: an order that one request adds, settles, refunds or
    changes in any way belongs to a merchant whose key the request presents; no order
    disappears or changes hands, and no request touches the merchants. *)
Theorem orders_move_for_key_holder r w k :
  let d := w_db w in let d' := w_db (snd (Router r w)) in
  merchants d' = merchants d
  ∧ (∀ o', merchant_orders d' !! k = Some o' ->
       merchant_orders d !! k = Some o' ∨ key_holder r d (o_merchant_id o'))
  ∧ (∀ o, merchant_orders d !! k = Some o ->
       ∃ o', merchant_orders d' !! k = Some o' ∧ o_merchant_id o' = o_merchant_id o).
Proof.
  cbv zeta. destruct (Router_runs r w (serve_answers r)) as (a & -> & _). cbn [snd].
  destruct (serve_guarded r w) as [[Em Eo]|(mid & Hk & Em & Hc & Hl)].
  - rewrite Eo. split_and!; [done|by left|eauto].
  - split_and!; [done| |by apply Hl]. intros o' Ho'.
    destruct (decide (o_merchant_id o' = mid)) as [->|Hne]; [by right|left; by apply Hc].
Qed.

(** C37.  A GET request only reads: it makes no node call and changes no table, except that
    the two report endpoints add their settlement and reconciliation records and keep
    the earlier ones. *)
Theorem get_requests_only_report r w :
  rq_Method r = "GET" ->
  let d := w_db w in let d' := w_db (snd (Router r w)) in
  w_calls (snd (Router r w)) = w_calls w
  ∧ d' = upd_settlements (settlements d') (upd_recon_runs (reconciliation_runs d') d)
  ∧ settlements d ⊆ settlements d' ∧ reconciliation_runs d ⊆ reconciliation_runs d'.
Proof.
  intros Hm. cbv zeta. destruct (Router_runs r w (serve_answers r)) as (a & -> & _). cbn [snd].
  split; [by apply get_serve_quiet|]. apply (get_serve_reports r Hm).
Qed.

(** C36.  A refusal means that nothing was done: whenever a request, of any route, with any
    body and key, and whichever of its statements fail, is answered 400, 401 or 404, no
    row of any table has changed and the node has not been called. *)
Theorem refusals_do_nothing r w a w' :
  foreign_node -> decent w -> Router r w = (Ok a, w') -> refused a = true ->
  w_db w' = w_db w ∧ w_calls w' = w_calls w.
Proof.
  intros Hnode Hw H Hr. unfold Router in H. destruct (serve r w) as [[b|e|p] w1] eqn:E.
  - rewrite (chi_Recoverer_passes _ _ _ _ E) in H. injection H as <- <-.
    by apply (harmless_serve r Hnode w b w1).
  - by destruct (serve_answers r w e w1).
  - destruct (chi_Recoverer_recovers _ _ _ _ E) as (b & Hb & Hs). rewrite Hb in H.
    injection H as <- <-. unfold refused in Hr. by rewrite Hs in Hr.
Qed.
End theorems.

(** ** A concrete router *)

Module ApiSample.
Import Sample MerchantSample.

(** The segments of a path. *)
Fixpoint segments (s : string) (cur : string) : list string :=
  match s with
  | EmptyString => [cur]
  | String c s' =>
      if bool_decide (c = "/"%char) then cur :: segments s' EmptyString
      else segments s' (cur +:+ String c EmptyString)
  end.

(** A segment in braces is a parameter. *)
Definition param (s : string) : option string :=
  match s with
  | String "{" s' => fst <$> strings_Cut s' "}"
  | _ => None
  end.

Fixpoint match_segments (pat path : list string) : option (list (string * string)) :=
  match pat, path with
  | [], [] => Some []
  | p :: ps, x :: xs =>
      match param p with
      | Some k => (fun l => (k, x) :: l) <$> match_segments ps xs
      | None => if bool_decide (p = x) then match_segments ps xs else None
      end
  | _, _ => None
  end.

Fixpoint find_from (i : nat) (table : list (string * string)) (m p : string)
  : option (nat * list (string * string)) :=
  match table with
  | [] => None
  | (m', pat) :: table' =>
      match match_segments (segments pat EmptyString) (segments p EmptyString) with
      | Some ps => if bool_decide (m' = m) then Some (i, ps) else find_from (S i) table' m p
      | None => find_from (S i) table' m p
      end
  end.

Definition below (p mount : string) : bool :=
  bool_decide (is_Some (strip_prefix (mount +:+ "/") p)).

Definition sample_match (mounts : list string) (table : list (string * string)) (m p : string)
  : match_outcome :=
  match find_from 0 table m p with
  | Some (i, ps) => Matched i ps
  | None =>
      Unmatched (foldl (fun acc x => if below p x.2 then Some x.1 else acc) None
        (imap (fun i x => (i, x)) mounts))
  end.

#[export] Instance chi : Chi := {|
  chi_match := sample_match;
  chi_unmatched _ _ := MkResponse StatusNotFound NoBody;
  chi_Recoverer m w :=
    match m w with
    | (Panic _, w') => (Ok (MkResponse StatusInternalServerError NoBody), w')
    | x => x
    end
|}.

Lemma find_from_sound i table m p j ps :
  find_from i table m p = Some (j, ps) ->
  ∃ k pat, j = (i + k)%nat ∧ table !! k = Some (m, pat).
Proof.
  revert i. induction table as [|[m' pat] table IH]; intros i; [done|]. cbn [find_from].
  assert (find_from (S i) table m p = Some (j, ps) ->
    ∃ k pat', j = (i + k)%nat ∧ ((m', pat) :: table) !! k = Some (m, pat')) as Hrec.
  { intros (k & pat' & -> & Hk)%IH. exists (S k), pat'. split; [lia|done]. }
  destruct (match_segments _ _); [|done]. case_bool_decide as E; [|done].
  intros [= <- _]. exists O, pat. split; [lia|]. by rewrite E.
Qed.

#[export] Instance chi_laws : ChiLaws.
Proof.
  split.
  - intros mounts table m p i ps. cbn. unfold sample_match.
    destruct (find_from 0 table m p) as [[j qs]|] eqn:E; [|done]. intros [= -> ->].
    apply find_from_sound in E as (k & pat & -> & Hk). by exists pat.
  - intros m w r w' E. cbn. by rewrite E.
  - intros m w p w' E. cbn. rewrite E. by eexists.
Qed.

#[export] Instance no_fallback : TimeParser := fun _ _ => Err (EText "cannot parse").

(** Bodies are fields separated by bars. *)
#[export] Instance json_decoder : JsonDecoder := {|
  decode_createReq s := '(u, t) ← field s; Ok (MkCreateReq u [t]);
  decode_createOrderReq s :=
    '(e, s) ← field s; '(a, x) ← field s; Ok (MkCreateOrderReq e a x);
  decode_refundReq s := '(a, x) ← field s; Ok (MkRefundReq a x)
|}.

Definition refund_request (auth : string) : http_request :=
  MkHttp "POST" "/api/merchant/orders/ord_1/refund" [] auth "0x64|damaged".
Definition export_request : http_request :=
  MkHttp "GET" "/api/merchant/reconciliation" [("period", "2026-07")] ("Bearer " +:+ key)
    EmptyString.
End ApiSample.

Module ApiWitness.
Import Sample MerchantSample ApiSample.

Definition health_request : http_request := MkHttp "GET" "/healthz" [] EmptyString EmptyString.

Lemma Router_answers_witness :
  fst (Router health_request world0) = Ok (JSON StatusOK (JObj [("status", JStr "ok")])).
Proof.
  destruct (Router_answers health_request world0) as (a & H & Ha & _).
  rewrite H. cbn [fst]. f_equal. apply (Ha _ (snd (serve health_request world0))). by_eval.
Defined.

Definition stranger : http_request := refund_request "Bearer nope".

Lemma merchant_requests_need_key_witness :
  ∃ a w', Router stranger world0 = (Ok a, w') ∧ w_db w' = db ∧ status a = StatusUnauthorized.
Proof.
  destruct (merchant_requests_need_key stranger world0) as (a & w' & H & Hd & _ & Hs).
  - by_eval.
  - intros mid (token & m & Ht & Hm & Hv).
    change (merchants (w_db world0)) with
      ({[ "mer_1" := MkMerchantRow "Acme" (HashAPIKey key) "CKB" 1 ]} : gmap string MerchantRow)
      in Hm.
    apply lookup_singleton_Some in Hm as [_ <-]. injection Ht as <-.
    vm_compute in Hv. discriminate Hv.
  - exists a, w'. split_and!; [exact H|exact Hd|].
    destruct Hs as [Hs|[_ Hs]]; [exact Hs|destruct (Hs world0_healthy)].
Defined.

Definition missing_order : http_request :=
  MkHttp "POST" "/api/merchant/orders/ord_9/refund" [] ("Bearer " +:+ key) "0x64|damaged".

Lemma sample_node : foreign_node.
Proof. split; intros calls p e H; discriminate H. Qed.

Lemma refusals_do_nothing_witness :
  ∃ a w', Router missing_order world0 = (Ok a, w') ∧ status a = StatusNotFound
    ∧ w_db w' = w_db world0.
Proof.
  destruct (Router missing_order world0) as [[a|e|p] w'] eqn:E;
    [|apply (f_equal (fun x => is_ok x.1)) in E; vm_compute in E; discriminate E..].
  assert (status <$> fst (Router missing_order world0) = Ok StatusNotFound) as Hs by by_eval.
  rewrite E in Hs. injection Hs as Hs.
  exists a, w'. split_and!; [reflexivity|exact Hs|].
  apply (refusals_do_nothing missing_order world0 a w' sample_node); [constructor|exact E|].
  unfold refused. rewrite Hs. reflexivity.
Defined.

Definition refunded : http_request := refund_request ("Bearer " +:+ key).

Lemma orders_move_for_key_holder_witness : key_holder refunded db "mer_1".
Proof.
  destruct (orders_move_for_key_holder refunded world0 "ord_1") as (_ & H & _).
  assert (merchant_orders (w_db (snd (Router refunded world0))) !! "ord_1"
    = Some (set_refunded paid)) as E by by_eval.
  destruct (H (set_refunded paid) E) as [H1|H1]; [|exact H1].
  exfalso. assert (merchant_orders (w_db world0) !! "ord_1" = Some paid) as E0 by by_eval.
  pose proof (eq_trans (eq_sym H1) E0) as E1. discriminate E1.
Defined.

Lemma get_requests_only_report_witness :
  w_calls (snd (Router export_request world0)) = []
  ∧ size (reconciliation_runs (w_db (snd (Router export_request world0)))) = 1%nat.
Proof.
  destruct (get_requests_only_report export_request world0 eq_refl) as (H & _).
  split; [exact H|]. by_eval.
Defined.
End ApiWitness.
