(* ===== verification/App.v ===== *)
(** * The command line (cmd/app/main.go, internal/platform/db/pool.go and migrate.go)

    [main] picks a subcommand, loads the configuration, opens the pool and runs one of
    the processes.  pgxpool, goose, the HTTP server, the RPC client and the library's
    runner and dispatcher are operations of [Platform].  A Go function that returns an
    error answers it as an option next to the lines it printed. *)

From S2P Require Import Prelude Strconv GoTime External Schema Config Indexer Ingest Http Webhook Dispatch Query Csv Merchant Api.

Inductive rpc_option := WithAuthToken (token : string).

(** How [runAPI] stops: a signal and what [Shutdown] answers, or the listener's error. *)
Inductive api_end := Signalled (shutdown : option error) | Stopped (err : error).

Class Platform `{Fibertypes} := {
  pgxpool_New : string -> M unit;
  pool_Ping : M unit;
  sql_Open : string -> M unit;
  goose_SetDialect : string -> M unit;
  goose_Up : M unit;
  rpc_NewClient : string -> list rpc_option -> FiberRPC;
  ingest_Runner : FakeSource -> (RawChange -> result (list Event)) -> Projector -> M unit;
  kwebhook_Run : Dispatcher -> M unit;
  (** [ListenAndServe] on an address with a header timeout and a handler, until the end *)
  http_serve : string -> Z -> (http_request -> M response) -> M api_end
}.

(** goose moves the schema forward and nothing else, to the last migration when it
    succeeds; opening a handle changes nothing; the server stops with a reason. *)
Class PlatformLaws `{Platform} : Prop := {
  pgxpool_New_db dsn w : w_db (snd (pgxpool_New dsn w)) = w_db w;
  pool_Ping_db w : w_db (snd (pool_Ping w)) = w_db w;
  sql_Open_db dsn w : w_db (snd (sql_Open dsn w)) = w_db w;
  goose_SetDialect_db s w : w_db (snd (goose_SetDialect s w)) = w_db w;
  goose_Up_db w r w' :
    goose_Up w = (r, w') ->
    ∃ v, version (w_db w) <= v <= Z.max (version (w_db w)) latest_version
      ∧ w_db w' = upd_version v (w_db w) ∧ (is_ok r = true -> latest_version <= v);
  http_serve_answers addr timeout h w e w' : http_serve addr timeout h w ≠ (Err e, w')
}.

Section app.
Context {FT : Fibertypes} {KE : KanakaEvents} {PG : Postgres} {CR : Crypto} {XL : Excelize}
  {TP : TimeParser} {JD : JsonDecoder} {CH : Chi} {SF : SeedFiles} {PL : Platform}.

(** [db.Open] *)
Definition Open (dsn : string) : M unit :=
  _ ← wrapping "db: open pool: " (pgxpool_New dsn);
  wrapping "db: ping: " pool_Ping.

(** [db.Migrate] *)
Definition Migrate (dsn : string) : M unit :=
  _ ← wrapping "db: migrate open: " (sql_Open dsn);
  _ ← wrapping "db: migrate dialect: " (goose_SetDialect "postgres");
  wrapping "db: migrate up: " goose_Up.

(** What a function printed and its error. *)
Definition outcome : Type := list string * option error.

(** [if err != nil { return err }], before anything is printed *)
Definition or_return {A} (m : M A) (k : A -> M outcome) : M outcome :=
  r ← attempt m;
  match r with inl e => mret ([], Some e) | inr a => k a end.

(** [err != nil && !errors.Is(err, context.Canceled)] *)
Definition unless_canceled (err : option error) : option error :=
  match err with
  | Some e => if errors_Is e ContextCanceled then None else Some e
  | None => None
  end.

(** Lines printed before and, without an error, after. *)
Definition finish (before : list string) (err : option error) (done : string) : outcome :=
  match err with
  | Some e => (before, Some e)
  | None => (before ++ [done], None)
  end.

Definition runProvisionMerchant (args : list string) (cfg : Config) : M outcome :=
  or_return (Open (DatabaseURL cfg)) (fun _ =>
    let name := default "merchant" (args !! 2%nat) in
    or_return (Provision name "CKB") (fun p =>
      mret (["merchant_id=" +:+ p.1; "api_key=" +:+ p.2], None))).

Definition runIndexer (getenv : env) (cfg : Config) : M outcome :=
  or_return (Open (DatabaseURL cfg)) (fun _ =>
    r ← attempt (Ingest.Run ingest_Runner getenv cfg);
    mret (finish ["indexer: starting (source: " +:+ IngestSource cfg +:+ ")"]
      (unless_canceled (match r with inl e => Some e | inr _ => None end)) "indexer: done")).

Definition runDispatcher (cfg : Config) : M outcome :=
  or_return (Open (DatabaseURL cfg)) (fun _ =>
    r ← Dispatch.Run kwebhook_Run cfg;
    mret (finish (fst r) (unless_canceled (snd r)) "dispatcher: stopped")).

Definition fiberOpts (cfg : Config) : list rpc_option :=
  if bool_decide (FiberBiscuitToken cfg = EmptyString) then []
  else [WithAuthToken (FiberBiscuitToken cfg)].

Definition runAPI (cfg : Config) : M outcome :=
  or_return (Open (DatabaseURL cfg)) (fun _ =>
    let fiber := rpc_NewClient (FiberRPCEndpoint cfg) (fiberOpts cfg) in
    stop ← http_serve (HTTPAddr cfg) (10 * Second) (Router (FR := fiber));
    mret (["api: listening on " +:+ HTTPAddr cfg],
          match stop with
          | Signalled err => err
          | Stopped e => if errors_Is e HttpErrServerClosed then None else Some e
          end)).

Definition usage : string := "usage: app <migrate|indexer|api|dispatcher>".

(** [run]: what it printed on stdout and on stderr, and its error. *)
Definition run (args : list string) (getenv : env) (mode : string)
  : M (list string * list string * option error) :=
  let on_stdout (m : M outcome) := o ← m; mret (fst o, [], snd o) in
  match Config.Load getenv with
  | Err e => mret ([], [], Some e)
  | Panic p => lift (Panic p)
  | Ok cfg =>
      if bool_decide (mode = "migrate") then
        on_stdout (or_return (Migrate (DatabaseURL cfg))
          (fun _ => mret (["migrations applied"], None)))
      else if bool_decide (mode = "indexer") then on_stdout (runIndexer getenv cfg)
      else if bool_decide (mode = "api") then on_stdout (runAPI cfg)
      else if bool_decide (mode = "dispatcher") then on_stdout (runDispatcher cfg)
      else if bool_decide (mode = "merchant-key") then on_stdout (runProvisionMerchant args cfg)
      else mret ([], [usage], Some (EText ("unknown subcommand " +:+ go_quote mode)))
  end.

Record exit_state := MkExit { stdout : list string; stderr : list string; exit_code : Z }.

(** [main]; [args] is [os.Args]. *)
Definition main (args : list string) (getenv : env) : M exit_state :=
  match args !! 1%nat with
  | None => mret (MkExit [] [usage] 2)
  | Some mode =>
      r ← run args getenv mode;
      let '(out, err, failed) := r in
      mret (match failed with
        | Some e => MkExit out (err ++ ["app: " +:+ error_text e]) 1
        | None => MkExit out err 0
        end)
  end.
End app.
