(* ===== verification/AppProps.v ===== *)
(** * What the command line and the sweeper guarantee

    Exit codes and messages on every path into a process, what a migration does, when a
    cancelled process counts as a success, and that the sweep survives its failures. *)

From S2P Require Import Prelude Strconv GoTime External Schema Config Indexer IndexerTotal Ingest Http Frame Webhook Dispatch Query Csv Merchant MerchantProps Api ApiProps App.

(** ** The sweep *)

Section sweep.
Context {FT : Fibertypes}.
Implicit Types (w : world).

Lemma sweep_answers obs : answers (sweep obs).
Proof.
  induction obs as [|[|t] obs IH]; cbn [sweep]; [apply answers_mret..|].
  apply answers_bind; [by intros w e w' [=]|intros _].
  apply answers_bind; [apply answers_attempt|intros r].
  apply answers_bind; [done|intros rest; apply answers_mret].
Qed.

Lemma attempt_Requeue w :
  ∃ r w', attempt Requeue w = (Ok r, w').
Proof.
  unfold attempt, Requeue, wrapping, exec, run_stmt. destruct (next_fault w) as [[] w1];
    [|by eauto..]. destruct (_ <? _); eauto.
Qed.

Lemma sweep_tick t obs w r w1 :
  attempt Requeue (snd (wait_until t w)) = (Ok r, w1) ->
  sweep (Tick t :: obs) w = (rest ← sweep obs; mret (sweep_line r ++ rest)) w1.
Proof.
  intros E. cbn [sweep].
  rewrite (bind_intro _ _ w tt (snd (wait_until t w))) by done.
  by rewrite (bind_intro _ _ _ r w1).
Qed.

(** Ticks taken one after another are one longer sweep. *)
Lemma sweep_app ts t w :
  ∃ lines w1, sweep (Tick <$> ts) w = (Ok lines, w1)
    ∧ ∃ r w2, attempt Requeue (snd (wait_until t w1)) = (Ok r, w2)
      ∧ sweep (Tick <$> (ts ++ [t])) w = (Ok (lines ++ sweep_line r), w2).
Proof.
  revert w. induction ts as [|t0 ts IH]; intros w.
  - exists [], w. split; [done|].
    destruct (attempt_Requeue (snd (wait_until t w))) as (r & w2 & E). exists r, w2.
    split; [done|]. change (Tick <$> [] ++ [t]) with [Tick t]. rewrite (sweep_tick t [] w r w2 E).
    change (sweep []) with (mret (M := M) ([] : list string)).
    unfold mbind, M_bind, mbind_M, mret, M_ret, mret_M. by rewrite app_nil_r.
  - destruct (attempt_Requeue (snd (wait_until t0 w))) as (r0 & w0 & E0).
    destruct (IH w0) as (lines & w1 & H1 & r & w2 & Hr & H2).
    exists (sweep_line r0 ++ lines), w1. split.
    { change (Tick <$> t0 :: ts) with (Tick t0 :: (Tick <$> ts)).
      rewrite (sweep_tick _ _ _ _ _ E0). by rewrite (bind_intro _ _ _ _ _ H1). }
    exists r, w2. split; [done|].
    change (Tick <$> (t0 :: ts) ++ [t]) with (Tick t0 :: (Tick <$> (ts ++ [t]))).
    rewrite (sweep_tick _ _ _ _ _ E0). rewrite (bind_intro _ _ _ _ _ H2).
    unfold mret, M_ret, mret_M. by rewrite app_assoc.
Qed.

(** C40.  The sweep survives its failures: whatever happened at the earlier ticks, failed
    requeues and lost acknowledgements included, the loop goes on, and once a tick meets
    no fault every delivery whose lease had run out by then is pending again, due at
    once, and all the others are as they were. *)
Theorem sweep_survives ts t w :
  ∃ lines w1, sweep (Tick <$> ts) w = (Ok lines, w1) ∧
  (w_faults w1 = [] -> 2 <= version (w_db w1) ->
   ∃ lines' w2, sweep (Tick <$> (ts ++ [t])) w = (Ok lines', w2)
     ∧ w_db w2 = upd_deliveries (requeue_row t <$> webhook_deliveries (w_db w1)) (w_db w1)
     ∧ ∀ k r, webhook_deliveries (w_db w1) !! k = Some r ->
         ∃ r', webhook_deliveries (w_db w2) !! k = Some r' ∧ stuck t r' = false
           ∧ (stuck t r = false -> r' = r)
           ∧ (stuck t r = true -> due t r' = true ∧ d_attempts r' = d_attempts r)).
Proof.
  destruct (sweep_app ts t w) as (lines & w1 & H1 & r & w2 & Hr & H2).
  exists lines, w1. split; [done|]. intros Hf Hv. exists (lines ++ sweep_line r), w2.
  split; [done|].
  assert (w_db w2 = upd_deliveries (requeue_row t <$> webhook_deliveries (w_db w1)) (w_db w1)) as Hdb.
  { revert Hr. unfold Requeue. erewrite (proj2 (attempt_Ok _ _ (inr _) _)).
    2: { apply wrapping_Ok, exec_run; [done|exact Hv|reflexivity]. }
    by intros [= _ <-]. }
  split; [done|]. intros k x Hx. exists (requeue_row t x). rewrite Hdb. cbn.
  rewrite lookup_fmap, Hx. split; [done|]. unfold requeue_row.
  destruct (stuck t x) eqn:Es; [|by split_and!]. split_and!; [done|done|].
  intros _. split; [|done]. unfold due. cbn. apply Z.leb_refl.
Qed.
End sweep.

(** ** The command line *)

Section main.
Context {FT : Fibertypes} {KE : KanakaEvents} {PG : Postgres} {CR : Crypto} {XL : Excelize}
  {TP : TimeParser} {JD : JsonDecoder} {CH : Chi} {SF : SeedFiles} {PL : Platform}
  {PLL : PlatformLaws}.
Implicit Types (w : world).

Lemma answers_or_return {A} (m : M A) (k : A -> M outcome) :
  (∀ a, answers (k a)) -> answers (or_return m k).
Proof. intros Hk. unfold or_return. answering. apply Hk. Qed.

Lemma run_answers args getenv mode : answers (run args getenv mode).
Proof.
  assert (∀ A B (m : M A) (f : A -> B), answers m -> answers (o ← m; mret (f o))) as Hb.
  { intros A B m f Hm. apply answers_bind; [done|intros a; apply answers_mret]. }
  unfold run. destruct (Config.Load getenv) as [cfg|e|p];
    [|apply answers_mret|apply answers_panic].
  repeat case_bool_decide; [..|apply answers_mret]; apply Hb, answers_or_return; intros [].
  - apply answers_mret.
  - answering.
  - apply Hb. intros w e w'. apply http_serve_answers.
  - apply Hb. unfold Dispatch.Run. answering.
  - apply answers_or_return. intros p. apply answers_mret.
Qed.

(** What a subcommand is given before it runs, and how its end becomes an exit code: no
    subcommand prints the usage and exits 2; an invalid configuration or an unknown
    subcommand exits 1 with its message, nothing opened, nothing written; otherwise the
    exit code is 0 when the subcommand's error is nil and 1, with the error on stderr,
    when it is not.  The process ends in one of these ways unless a library panics. *)
Theorem main_exits args getenv w :
  (args !! 1%nat = None -> main args getenv w = (Ok (MkExit [] [usage] 2), w)) ∧
  (∀ mode e, args !! 1%nat = Some mode -> Config.Load getenv = Err e ->
     main args getenv w = (Ok (MkExit [] ["app: " +:+ error_text e] 1), w)) ∧
  (∀ mode cfg, args !! 1%nat = Some mode -> Config.Load getenv = Ok cfg ->
     mode ∉ ["migrate"; "indexer"; "api"; "dispatcher"; "merchant-key"] ->
     main args getenv w =
       (Ok (MkExit [] [usage; "app: unknown subcommand " +:+ go_quote mode] 1), w)) ∧
  (∀ mode, args !! 1%nat = Some mode ->
     (∃ out err failed w', run args getenv mode w = (Ok (out, err, failed), w')
        ∧ main args getenv w = (Ok (match failed with
            | Some e => MkExit out (err ++ ["app: " +:+ error_text e]) 1
            | None => MkExit out err 0 end), w'))
     ∨ ∃ p w', main args getenv w = (Panic p, w')).
Proof.
  unfold main. split_and!.
  - by intros ->.
  - intros mode e -> He. unfold run. rewrite He. by rewrite (bind_intro _ _ w ([], [], Some e) w).
  - intros mode cfg -> Hc Hm. unfold run. rewrite Hc.
    rewrite !bool_decide_false by (intros ->; apply Hm; set_solver).
    by rewrite (bind_intro _ _ w
      ([], [usage], Some (EText ("unknown subcommand " +:+ go_quote mode))) w).
  - intros mode ->. destruct (run args getenv mode w) as [[[[out err] failed]|e|p] w'] eqn:E.
    + left. exists out, err, failed, w'. split; [done|]. by rewrite (bind_intro _ _ _ _ _ E).
    + by destruct (run_answers args getenv mode w e w').
    + right. exists p, w'. unfold mbind, M_bind, mbind_M. by rewrite E.
Qed.

(** Whether a library's loop ended with an error. *)
Definition err_of (r : result unit) : option error :=
  match r with Err e => Some e | _ => None end.

Lemma attempt_unit (m : M unit) w r w' :
  m w = (r, w') -> (∀ p, r ≠ Panic p) ->
  attempt m w = (Ok (match r with Err e => inl e | _ => inr tt end), w').
Proof. intros E Hp. unfold attempt. rewrite E. destruct r as [[]|e|p]; [done..|by destruct (Hp p)]. Qed.

Lemma or_return_run {A} (m : M A) (k : A -> M outcome) w a w1 :
  m w = (Ok a, w1) -> or_return m k w = k a w1.
Proof.
  intros E. unfold or_return. rewrite (bind_intro _ _ w (inr a) w1); [done|].
  by apply attempt_Ok with (r := inr a).
Qed.

Lemma or_return_err {A} (m : M A) (k : A -> M outcome) w e w1 :
  m w = (Err e, w1) -> or_return m k w = (Ok ([], Some e), w1).
Proof.
  intros E. unfold or_return. rewrite (bind_intro _ _ w (inl e) w1); [done|].
  by apply attempt_Ok with (r := inl e).
Qed.

Lemma runIndexer_ends getenv cfg w w1 r w2 :
  Open (DatabaseURL cfg) w = (Ok tt, w1) -> Ingest.Run ingest_Runner getenv cfg w1 = (r, w2) ->
  (∀ p, r ≠ Panic p) ->
  runIndexer getenv cfg w =
    (Ok (finish ["indexer: starting (source: " +:+ IngestSource cfg +:+ ")"]
       (unless_canceled (err_of r)) "indexer: done"), w2).
Proof.
  intros Ho Hr Hp. unfold runIndexer. rewrite (or_return_run _ _ _ _ _ Ho).
  rewrite (bind_intro _ _ _ _ _ (attempt_unit _ _ _ _ Hr Hp)). by destruct r.
Qed.

Lemma runDispatcher_ends cfg w w1 r w2 :
  Open (DatabaseURL cfg) w = (Ok tt, w1) -> kwebhook_Run (dispatcher_of cfg) w1 = (r, w2) ->
  (∀ p, r ≠ Panic p) ->
  runDispatcher cfg w =
    (Ok (finish ["dispatcher: workers=" +:+ Itoa (WebhookWorkers cfg) +:+ " max_attempts="
           +:+ Itoa (WebhookMaxAttempts cfg)] (unless_canceled (err_of r)) "dispatcher: stopped"), w2).
Proof.
  intros Ho Hr Hp. unfold runDispatcher, Dispatch.Run. rewrite (or_return_run _ _ _ _ _ Ho).
  erewrite bind_intro by (rewrite (bind_intro _ _ _ _ _ (attempt_unit _ _ _ _ Hr Hp)); reflexivity).
  by destruct r.
Qed.

(** The subcommands' entries of the switch. *)
Lemma run_modes args getenv cfg :
  Config.Load getenv = Ok cfg ->
  run args getenv "indexer" = (o ← runIndexer getenv cfg; mret (fst o, [], snd o))
  ∧ run args getenv "dispatcher" = (o ← runDispatcher cfg; mret (fst o, [], snd o))
  ∧ run args getenv "migrate" =
      (o ← or_return (Migrate (DatabaseURL cfg)) (fun _ => mret (["migrations applied"], None));
       mret (fst o, [], snd o)).
Proof. intros H. unfold run. by rewrite H. Qed.

(** A cancelled process is a success: with a valid configuration and a pool that opens,
    the indexer and the dispatcher exit 0 exactly when the library's loop ends without an
    error or with one that wraps context.Canceled, and otherwise 1 with that error. *)
Theorem cancellation_is_clean args getenv mode cfg w w1 (r : result unit) w2 :
  args !! 1%nat = Some mode -> Config.Load getenv = Ok cfg ->
  Open (DatabaseURL cfg) w = (Ok tt, w1) ->
  (mode = "indexer" ∧ Ingest.Run ingest_Runner getenv cfg w1 = (r, w2) ∨
   mode = "dispatcher" ∧ kwebhook_Run (dispatcher_of cfg) w1 = (r, w2)) ->
  (∀ p, r ≠ Panic p) ->
  ∃ x, main args getenv w = (Ok x, w2)
    ∧ (exit_code x = 0 <-> r = Ok tt ∨ ∃ e, r = Err e ∧ errors_Is e ContextCanceled = true)
    ∧ (∀ e, r = Err e -> errors_Is e ContextCanceled = false ->
         exit_code x = 1 ∧ stderr x = ["app: " +:+ error_text e]).
Proof.
  intros Ha Hc Ho Hm Hp.
  assert (∃ out dn, run args getenv mode w = (Ok ((finish out (unless_canceled (err_of r)) dn).1,
    [], (finish out (unless_canceled (err_of r)) dn).2), w2)) as (out & dn & Hrun).
  { destruct (run_modes args getenv cfg Hc) as (Ei & Ed & _).
    destruct Hm as [[-> Hr]|[-> Hr]]; rewrite ?Ei, ?Ed.
    - eexists _, _. rewrite (bind_intro _ _ _ _ _ (runIndexer_ends _ _ _ _ _ _ Ho Hr Hp)).
      reflexivity.
    - eexists _, _. rewrite (bind_intro _ _ _ _ _ (runDispatcher_ends _ _ _ _ _ Ho Hr Hp)).
      reflexivity. }
  eexists. unfold main. rewrite Ha, (bind_intro _ _ _ _ _ Hrun). split; [reflexivity|].
  destruct r as [[]|e|p]; [| |by destruct (Hp p)]; cbn [err_of unless_canceled].
  - cbn. split; [split; [by left|done]|done].
  - destruct (errors_Is e ContextCanceled) eqn:Ee; cbn.
    + split; [split; [right; eauto|done]|]. intros e' [= <-]. congruence.
    + split; [|by intros e' [= <-]]. split; [done|]. intros [?|(e' & [= <-] & ?)]; congruence.
Qed.

(** Opening handles is silent, and goose moves the version forward. *)
Lemma Migrate_moves dsn w r w' :
  version (w_db w) <= latest_version -> Migrate dsn w = (r, w') ->
  version (w_db w) <= version (w_db w') <= latest_version
  ∧ w_db w' = upd_version (version (w_db w')) (w_db w)
  ∧ (is_ok r = true -> version (w_db w') = latest_version).
Proof.
  intros Hv. assert (∀ d, d = upd_version (version d) d) as Hid by by intros [].
  assert (∀ d' (x : result unit), d' = w_db w -> is_ok x = false ->
    version (w_db w) <= version d' <= latest_version ∧ d' = upd_version (version d') (w_db w)
    ∧ (is_ok x = true -> version d' = latest_version)) as Hstay.
  { intros d' x -> Hx. rewrite Hx. split_and!; [lia|done|apply Hid|done]. }
  unfold Migrate. intros [[Hr ->]|([] & w1 & H1%wrapping_Ok & H)]%bind_cases.
  { apply Hstay; [|done]. pose proof (sql_Open_db dsn w) as Hd. unfold wrapping.
    by destruct (sql_Open dsn w) as [[] ?]. }
  pose proof (sql_Open_db dsn w) as Hd1. rewrite H1 in Hd1. cbn in Hd1.
  apply bind_cases in H as [[Hr ->]|([] & w2 & H2%wrapping_Ok & H)].
  { apply Hstay; [|done]. pose proof (goose_SetDialect_db "postgres" w1) as Hd. unfold wrapping.
    by destruct (goose_SetDialect "postgres" w1) as [[] ?]; cbn in *; rewrite Hd. }
  pose proof (goose_SetDialect_db "postgres" w1) as Hd2. rewrite H2 in Hd2. cbn in Hd2.
  destruct (goose_Up w2) as [x w3] eqn:E. destruct (goose_Up_db w2 x w3 E) as (v & Hb & Hdb & Hok).
  rewrite Hd2, Hd1 in Hb, Hdb.
  assert (w' = w3 ∧ is_ok r = is_ok x) as [-> ->].
  { revert H. unfold wrapping. rewrite E. by destruct x; intros [= <- <-]. }
  rewrite Hdb. cbn [version upd_version]. split_and!; [lia|lia|done|]. intros Hx. specialize (Hok Hx). lia.
Qed.

(** The migrate subcommand: it exits 0 only with every migration applied, and whether it
    exits 0 or 1 the schema never goes back and no table is touched. *)
Theorem migrate_applies_all args getenv cfg w x w' :
  args !! 1%nat = Some "migrate" -> Config.Load getenv = Ok cfg ->
  version (w_db w) <= latest_version ->
  main args getenv w = (Ok x, w') ->
  version (w_db w) <= version (w_db w') <= latest_version
  ∧ w_db w' = upd_version (version (w_db w')) (w_db w)
  ∧ (exit_code x = 0 -> version (w_db w') = latest_version).
Proof.
  intros Ha Hc Hv H. destruct (run_modes args getenv cfg Hc) as (_ & _ & Em).
  destruct (Migrate (DatabaseURL cfg) w) as [r w1] eqn:E.
  destruct (Migrate_moves _ _ _ _ Hv E) as (H1 & H2 & H3).
  unfold main in H. rewrite Ha, Em in H.
  destruct r as [[]|e|p].
  - rewrite (bind_intro _ _ w (["migrations applied"], [], None) w1) in H.
    { injection H as <- <-. split_and!; [apply H1|apply H1|done|by intros _; apply H3]. }
    by rewrite (bind_intro _ _ _ _ _ (or_return_run _ _ _ _ _ E)).
  - rewrite (bind_intro _ _ w ([], [], Some e) w1) in H.
    { injection H as <- <-. split_and!; [apply H1|apply H1|done|done]. }
    by rewrite (bind_intro _ _ _ _ _ (or_return_err _ _ _ _ _ E)).
  - exfalso. revert H. unfold or_return, attempt, mbind, M_bind, mbind_M. by rewrite E.
Qed.
End main.

(** ** A concrete platform *)

Module AppSample.
Import Sample MerchantSample ApiSample.

#[export] Instance no_seed : SeedFiles := {|
  os_ReadFile _ := Err (EText "no such file");
  unmarshal_seed _ := Ok []
|}.

Definition canceled : error := EWrap "ingest: " (ESent ContextCanceled) EmptyString.

(** Handles open, goose applies everything, and every process is interrupted. *)
#[export] Instance platform : Platform := {|
  pgxpool_New _ := mret tt;
  pool_Ping := mret tt;
  sql_Open _ := mret tt;
  goose_SetDialect _ := mret tt;
  goose_Up w := (Ok tt, set_db (upd_version (Z.max (version (w_db w)) latest_version) (w_db w)) w);
  rpc_NewClient _ _ := fiber_rpc;
  ingest_Runner _ _ _ := throw canceled;
  kwebhook_Run _ := throw canceled;
  http_serve _ _ _ := mret (Signalled None)
|}.

#[export] Instance platform_laws : PlatformLaws.
Proof.
  split; cbn; try done. intros w r w' [= <- <-].
  exists (Z.max (version (w_db w)) latest_version). cbn. split_and!; [lia|lia|done|lia].
Qed.

Definition environment (k : string) : string :=
  if bool_decide (k = "DATABASE_URL") then "postgres://db" else EmptyString.
Definition configuration : Config :=
  MkConfig EmptyString EmptyString "fake" "postgres://db" 8 4 ":8080".
Definition fresh : world := World empty_db [] 1000 0 [].
End AppSample.

Module AppWitness.
Import Sample MerchantSample ApiSample AppSample.

(** The first tick's requeue fails. *)
Definition held : DeliveryRow :=
  MkDeliveryRow "ep" "ev" "http://m" "s" "p" DDelivering 2 100 None 50.
Definition world_held : world :=
  World (upd_version 3 (upd_deliveries {[ "dlv_1" := held ]} empty_db)) [Fail (EText "timeout")]
    120 0 [].

Lemma sweep_survives_witness :
  ∃ lines w2, sweep [Tick 150; Tick 200] world_held = (Ok lines, w2)
    ∧ ∃ r', webhook_deliveries (w_db w2) !! "dlv_1" = Some r' ∧ due 200 r' = true.
Proof.
  destruct (sweep_survives [150] 200 world_held) as (lines & w1 & H1 & H).
  assert (w1 = snd (sweep (Tick <$> [150]) world_held)) as -> by (rewrite H1; reflexivity).
  destruct H as (lines' & w2 & H2 & _ & Hrow); [by_eval|vm_compute; discriminate|].
  destruct (Hrow "dlv_1" held) as (r' & Hr & _ & _ & Hdue); [by_eval|].
  destruct Hdue as [Hd _]; [by_eval|].
  exists lines', w2. split; [exact H2|]. exists r'. exact (conj Hr Hd).
Defined.

Lemma main_exits_witness :
  main ["app"] environment fresh = (Ok (MkExit [] [usage] 2), fresh).
Proof. destruct (main_exits ["app"] environment fresh) as (H & _). by apply H. Defined.

Lemma cancellation_is_clean_witness :
  ∃ x, main ["app"; "dispatcher"] environment fresh = (Ok x, fresh) ∧ exit_code x = 0.
Proof.
  destruct (cancellation_is_clean ["app"; "dispatcher"] environment "dispatcher" configuration
    fresh fresh (Err canceled) fresh) as (x & H & Hx & _).
  - reflexivity.
  - by_eval.
  - by_eval.
  - right. split; [reflexivity|]. by_eval.
  - intros p E. discriminate E.
  - exists x. split; [exact H|]. apply Hx. right. exists canceled. split; [reflexivity|by_eval].
Defined.

Lemma migrate_applies_all_witness :
  ∃ w', main ["app"; "migrate"] environment fresh
      = (Ok (MkExit ["migrations applied"] [] 0), w')
    ∧ version (w_db w') = 3.
Proof.
  exists (snd (main ["app"; "migrate"] environment fresh)).
  assert (main ["app"; "migrate"] environment fresh = (Ok (MkExit ["migrations applied"] [] 0),
    snd (main ["app"; "migrate"] environment fresh))) as H by by_eval.
  split; [exact H|].
  apply (migrate_applies_all ["app"; "migrate"] environment configuration fresh
    (MkExit ["migrations applied"] [] 0)); [reflexivity|by_eval|vm_compute; discriminate|exact H|reflexivity].
Defined.
End AppWitness.
