(* ===== verification/System.v ===== *)
(** * The running system

    padma's processes share one database: the indexer flushes into it, the dispatcher
    and its sweeper work the outbox, the API serves requests, and the command line
    migrates and provisions.  [action] is one operation of one of them, and [sys_step]
    runs one alone in some world, whatever faults it meets; Threads interleaves them.
    [wf] is the shape of every database the system gets into, [order_step] the life of an
    order, and [keeps] what no statement undoes. *)

From S2P Require Import Prelude Strconv GoTime External Schema Tables Indexer Http Webhook WebhookFacts Query Csv Merchant MerchantFacts Api.

Section system.
Context {FT : Fibertypes} {KE : KanakaEvents} {PG : Postgres} {CR : Crypto} {FR : FiberRPC}
  {XL : Excelize} {TP : TimeParser} {JD : JsonDecoder} {CH : Chi}.

Inductive action :=
| ActMigrate (v : Z)
| ActOutbox (o : op)
| ActRequest (r : http_request)
| ActProvision (name asset : string).

Definition run_action (a : action) : M unit :=
  match a with
  | ActMigrate v => fun w => (Ok tt, set_db (migrate_to v (w_db w)) w)
  | ActOutbox o => run_op o
  | ActRequest r => _ ← Router r; mret tt
  | ActProvision name asset => _ ← Provision name asset; mret tt
  end.

(** One action, at any time, with any faults, after any number of random draws and any
    conversation with the node. *)
Inductive sys_step (d : Database) : Database -> Prop :=
| sys_step_run a w : w_db w = d -> sys_step d (w_db (snd (run_action a w))).
End system.

(** ** The shape of a database *)

Definition holds_amount (o : option Z) : Prop := ∃ v, o = Some v ∧ 0 <= v.

(** A delivery is of an event to an endpoint that exist, and its attempts fit the
    column; the log numbers attempts of deliveries that exist. *)
Definition outbox_wf (eps : gmap string EndpointRow) (evs : gmap string EventRow)
    (ds : gmap string DeliveryRow) (log : list LogRow) : Prop :=
  (∀ k r, ds !! k = Some r -> is_Some (eps !! d_endpoint_id r) ∧ is_Some (evs !! d_event_id r)
     ∧ 0 <= d_attempts r <= int32_max)
  ∧ (∀ l, l ∈ log -> is_Some (ds !! lg_delivery_id l) ∧ 1 <= lg_attempt_no l <= int32_max).

(** An order belongs to a merchant, carries an invoice, an asset and an amount, and has
    a time of payment exactly when it is no longer pending; a refunded one has a refund.
    The program never expires an order. *)
Definition order_wf (ms : gmap string MerchantRow) (rs : gmap string RefundRow) (k : string)
    (o : OrderRow) : Prop :=
  is_Some (ms !! o_merchant_id o) ∧ holds_amount (o_amount o)
  ∧ is_Some (o_invoice_payment_hash o) ∧ is_Some (o_asset o)
  ∧ o_status o ≠ OExpired ∧ (o_paid_at o = None <-> o_status o = OPending)
  ∧ (o_status o = ORefunded -> ∃ rid r, rs !! rid = Some r ∧ r_order_id r = k).

(** A refund is of an order that has been paid, by a payment of the node. *)
Definition refund_wf (os : gmap string OrderRow) (r : RefundRow) : Prop :=
  (∃ o, os !! r_order_id r = Some o ∧ o_status o ≠ OPending) ∧ holds_amount (r_amount r) ∧ is_Some (r_fiber_payment_hash r).

Definition ledger_wf (ms : gmap string MerchantRow) (os : gmap string OrderRow)
    (rs : gmap string RefundRow) : Prop :=
  (∀ k o, os !! k = Some o -> order_wf ms rs k o) ∧ (∀ k r, rs !! k = Some r -> refund_wf os r).

(** The rows the listings read: amounts and the columns they sort by are there. *)
Definition index_wf (ps : gmap string PaymentRow) (cs : gmap string ChannelRow)
    (ivs : gmap string InvoiceRow) : Prop :=
  (∀ k p, ps !! k = Some p -> is_Some (p_created_at p) ∧ is_Some (p_updated_at p)
     ∧ p_direction p = "received" ∧ p_status p = "succeeded" ∧ holds_amount (p_amount p))
  ∧ (∀ k c, cs !! k = Some c -> is_Some (ch_opened_at c) ∧ ch_state c = Some "open"
     ∧ holds_amount (ch_capacity c))
  ∧ (∀ k i, ivs !! k = Some i -> is_Some (in_settled_at i) ∧ in_status i = Some "paid"
     ∧ holds_amount (in_amount i)).

(** A settlement is of a merchant and its net is what the fees leave of the gross, if
    anything ([2 ^ 128] bounds the amounts a node's assets have). *)
Definition settlement_wf (ms : gmap string MerchantRow) (s : SettlementDbRow) : Prop :=
  is_Some (ms !! s_merchant_id s)
  ∧ ∃ g f n, s_gross s = Some g ∧ s_fees s = Some f ∧ s_net s = Some n
    ∧ 0 <= g ∧ 0 <= f ∧ 0 <= n ∧ (g < 2 ^ 128 -> n = Z.max 0 (g - f)).

Definition recon_wf (ms : gmap string MerchantRow) (r : ReconRunRow) : Prop :=
  is_Some (ms !! rr_merchant_id r) ∧ 0 <= rr_matched r ∧ 0 <= rr_unmatched_count r
  ∧ holds_amount (rr_discrepancy_total r).

Definition reports_wf (ms : gmap string MerchantRow) (ss : gmap string SettlementDbRow)
    (rr : gmap string ReconRunRow) : Prop :=
  (∀ k s, ss !! k = Some s -> settlement_wf ms s) ∧ (∀ k r, rr !! k = Some r -> recon_wf ms r).

Record wf (d : Database) : Prop := {
  wf_version : 0 <= version d <= latest_version;
  wf_outbox : outbox_wf (webhook_endpoints d) (events d) (webhook_deliveries d)
                (webhook_delivery_log d);
  wf_ledger : ledger_wf (merchants d) (merchant_orders d) (refunds d);
  wf_index : index_wf (payments d) (channels d) (invoices d);
  wf_external : external_unique d;
  wf_reports : reports_wf (merchants d) (settlements d) (reconciliation_runs d)
}.

(** ** The life of an order *)

(** What no action changes of an order. *)
Definition order_terms (o : OrderRow)
  : string * option string * option string * option Z * option string * Time :=
  (o_merchant_id o, o_external_order_id o, o_invoice_payment_hash o, o_amount o, o_asset o,
   o_created_at o).

Inductive order_step : relation OrderRow :=
| order_paid o o' t :
    order_terms o' = order_terms o -> o_status o = OPending -> o_status o' = OPaid ->
    o_paid_at o' = Some t -> order_step o o'
| order_refunded o o' :
    order_terms o' = order_terms o -> o_status o = OPaid -> o_status o' = ORefunded ->
    o_paid_at o' = o_paid_at o -> order_step o o'.

(** ** What no statement undoes *)

(** A move of the delivery state machine, at some time. *)
Definition delivery_move (r r' : DeliveryRow) : Prop := ∃ t, delivery_step t r r'.

(** Tables only grow: events, merchants, refunds and reports are never rewritten, orders
    and deliveries move along their state machines, subscriptions and payments keep what
    identifies them, the log of attempts is appended to. *)
Record keeps (d d' : Database) : Prop := {
  keeps_version : version d <= version d';
  keeps_events : grows eq (events d) (events d');
  keeps_payments : grows (same p_created_at) (payments d) (payments d');
  keeps_channels : grows (same ch_closed_at) (channels d) (channels d');
  keeps_invoices : grows (same in_created_at) (invoices d) (invoices d');
  keeps_endpoints : grows (same (fun e => (ep_secret e, ep_created_at e)))
                      (webhook_endpoints d) (webhook_endpoints d');
  keeps_deliveries : grows (rtc delivery_move) (webhook_deliveries d) (webhook_deliveries d');
  keeps_log : webhook_delivery_log d `prefix_of` webhook_delivery_log d';
  keeps_merchants : grows eq (merchants d) (merchants d');
  keeps_orders : grows (rtc order_step) (merchant_orders d) (merchant_orders d');
  keeps_refunds : grows eq (refunds d) (refunds d');
  keeps_settlements : grows eq (settlements d) (settlements d');
  keeps_recon_runs : grows eq (reconciliation_runs d) (reconciliation_runs d')
}.

(** The tables of the index, and how far the changes have been indexed.  Only flushes
    write them: every other statement keeps the database [quietly]. *)
Definition index (d : Database) : gmap string PaymentRow * gmap string ChannelRow
    * gmap string InvoiceRow * option (Z * Time) :=
  (payments d, channels d, invoices d, ingest_checkpoint d).

Record quietly (d d' : Database) : Prop := {
  quietly_keeps : keeps d d';
  quietly_index : index d' = index d
}.

(** What a flush writes: events, the index, deliveries, the checkpoint, and the orders its
    invoices pay.  It adds no order and touches nothing else. *)
Record flushes (d d' : Database) : Prop := {
  flushes_keeps : keeps d d';
  flushes_version : version d' = version d;
  flushes_endpoints : webhook_endpoints d' = webhook_endpoints d;
  flushes_log : webhook_delivery_log d' = webhook_delivery_log d;
  flushes_merchants : merchants d' = merchants d;
  flushes_refunds : refunds d' = refunds d;
  flushes_orders : forall k, is_Some (merchant_orders d' !! k) -> is_Some (merchant_orders d !! k)
}.
