(* ===== verification/SystemFacts.v ===== *)
(** * Lemmas on the running system

    Every statement of the program keeps [wf] and is one of the moves [keeps] allows,
    whatever other statements ran before it; [move] says both of the statements outside
    transactions, which leave the index alone, and [flush_move] of those of a flush. *)

From stdpp Require Import relations.
From S2P Require Import Prelude Strconv GoTime External Schema Numeric Tables Ids Sql Indexer IndexerFacts Http Frame Interleave Rely Webhook WebhookFacts Query Csv Merchant MerchantApi MerchantFacts Api ApiFacts System.

(** ** The outbox *)

Lemma outbox_wf_more eps eps' evs evs' ds log :
  (∀ k, is_Some (eps !! k) -> is_Some (eps' !! k)) ->
  (∀ k, is_Some (evs !! k) -> is_Some (evs' !! k)) ->
  outbox_wf eps evs ds log -> outbox_wf eps' evs' ds log.
Proof.
  intros He Hv [Hd Hl]. split; [|done]. intros k r Hr. destruct (Hd k r Hr) as (? & ? & ?). auto.
Qed.

(** Rows that keep what they deliver, and attempts in range. *)
Lemma outbox_wf_rows eps evs ds ds' log :
  (∀ k r', ds' !! k = Some r' -> ∃ r, ds !! k = Some r ∧ d_endpoint_id r' = d_endpoint_id r
     ∧ d_event_id r' = d_event_id r
     ∧ (0 <= d_attempts r <= int32_max -> 0 <= d_attempts r' <= int32_max)) ->
  (∀ k, is_Some (ds !! k) -> is_Some (ds' !! k)) ->
  outbox_wf eps evs ds log -> outbox_wf eps evs ds' log.
Proof.
  intros Hback Hfwd [Hd Hl]. split.
  - intros k r' (r & Hr & -> & -> & Ha)%Hback. destruct (Hd k r Hr) as (? & ? & ?). auto.
  - intros l Hin. destruct (Hl l Hin) as (? & ?). auto.
Qed.

Lemma is_Some_insert {A} (m : gmap string A) k x k' :
  is_Some (m !! k') -> is_Some (<[k := x]> m !! k').
Proof. intros H. destruct (decide (k = k')) as [->|Hne]; [by rewrite lookup_insert_eq|by rewrite lookup_insert_ne]. Qed.

Lemma outbox_wf_row eps evs ds log k r r' :
  ds !! k = Some r -> d_endpoint_id r' = d_endpoint_id r -> d_event_id r' = d_event_id r ->
  (0 <= d_attempts r <= int32_max -> 0 <= d_attempts r' <= int32_max) ->
  outbox_wf eps evs ds log -> outbox_wf eps evs (<[k := r']> ds) log.
Proof.
  intros Hr He Hv Ha. apply outbox_wf_rows; [|intros k'; apply is_Some_insert].
  intros k' x [[<- <-]|[_ Hx]]%lookup_insert_Some; [by exists r|by exists x].
Qed.

Lemma outbox_wf_insert eps evs ds log k r :
  ds !! k = None -> is_Some (eps !! d_endpoint_id r) -> is_Some (evs !! d_event_id r) ->
  d_attempts r = 0 -> outbox_wf eps evs ds log -> outbox_wf eps evs (<[k := r]> ds) log.
Proof.
  intros Hn He Hv Ha [Hd Hl]. split.
  - intros k' x [[<- <-]|[_ Hx]]%lookup_insert_Some; [|by apply (Hd k')].
    rewrite Ha. unfold int32_max. split_and!; [done|done|lia..].
  - intros l Hin. destruct (Hl l Hin). split; [by apply is_Some_insert|done].
Qed.

Lemma outbox_wf_log eps evs ds log l :
  is_Some (ds !! lg_delivery_id l) -> 1 <= lg_attempt_no l <= int32_max ->
  outbox_wf eps evs ds log -> outbox_wf eps evs ds (log ++ [l]).
Proof.
  intros Hd Hn [H1 H2]. split; [done|]. intros x [Hx| ->%list_elem_of_singleton]%elem_of_app; auto.
Qed.

Section outbox.
Context {FT : Fibertypes} {KE : KanakaEvents} {PG : Postgres} {PGL : PostgresLaws} {CR : Crypto}.

(** A statement that only changes the outbox. *)
Lemma wf_outbox_change t d eps evs ds log :
  (outbox_wf (webhook_endpoints d) (events d) (webhook_deliveries d) (webhook_delivery_log d) ->
   outbox_wf eps evs ds log) ->
  preserves wf t d (upd_endpoints eps (upd_events evs (upd_deliveries ds (upd_log log d)))).
Proof. intros H [? Ho ? ? ? ?]. split; auto. Qed.

Lemma wf_deliveries_change t d ds :
  (outbox_wf (webhook_endpoints d) (events d) (webhook_deliveries d) (webhook_delivery_log d) ->
   outbox_wf (webhook_endpoints d) (events d) ds (webhook_delivery_log d)) ->
  preserves wf t d (upd_deliveries ds d).
Proof. intros H Hd. by apply (wf_outbox_change t d (webhook_endpoints d) (events d) ds (webhook_delivery_log d)). Qed.

Lemma wf_events_insert t d k x : preserves wf t d (upd_events (<[k := x]> (events d)) d).
Proof.
  apply (wf_outbox_change t d (webhook_endpoints d) _ (webhook_deliveries d) (webhook_delivery_log d)).
  apply outbox_wf_more; [done|]. intros k'. apply is_Some_insert.
Qed.

Lemma wf_endpoints_insert t d k x : preserves wf t d (upd_endpoints (<[k := x]> (webhook_endpoints d)) d).
Proof.
  apply (wf_outbox_change t d _ (events d) (webhook_deliveries d) (webhook_delivery_log d)).
  apply outbox_wf_more; [|done]. intros k'. apply is_Some_insert.
Qed.

Lemma wf_claim s locked limit t d out d' :
  claim_stmt s locked limit t d = Ok (out, d') -> preserves wf t d d'.
Proof.
  unfold claim_stmt. destruct (limit <? 0); [done|]. intros [= _ <-].
  apply wf_deliveries_change, outbox_wf_rows.
  - intros k r'. rewrite lookup_claim_all by apply claim_set_NoDup.
    destruct (list_find _ _) as [[i [k' r]]|] eqn:E; [|intros H; by exists r'].
    apply list_find_Some in E as (Hi & Hk & _). cbn in Hk. subst k'.
    intros [= <-]. exists r. split_and!; [|done..].
    assert ((k, r) ∈ claim_set locked limit t d) as (Hr & _)%elem_of_claim_set
      by by eapply list_elem_of_lookup_2.
    exact Hr.
  - intros k [r Hr]. rewrite lookup_claim_all by apply claim_set_NoDup.
    destruct (list_find _ _) as [[]|]; [by eexists|by rewrite Hr].
Qed.

(** The mark of an attempt: the row's new attempt count is in range and logged. *)
Lemma wf_mark did f err t d d' :
  mark_stmt did f err t d = Ok (tt, d') ->
  (∀ r r' n, f r = Ok (r', n) -> n = d_attempts r + 1 ∧ n <= int32_max
     ∧ d_endpoint_id r' = d_endpoint_id r ∧ d_event_id r' = d_event_id r
     ∧ (d_attempts r' = d_attempts r ∨ d_attempts r' = n)) ->
  preserves wf t d d'.
Proof.
  unfold mark_stmt. intros H Hf. destruct (webhook_deliveries d !! did) as [r|] eqn:E;
    [|by injection H as <-].
  destruct (f r) as [[r' n]|?|?] eqn:Ef; [|done..]. injection H as <-.
  destruct (Hf _ _ _ Ef) as (-> & Hn & He & Hv & Ha).
  intros Hwf. pose proof (proj1 (wf_outbox d Hwf) did r E) as (_ & _ & Hr).
  apply (wf_outbox_change t d (webhook_endpoints d) (events d)
    (<[did := r']> (webhook_deliveries d)) (webhook_delivery_log d ++ [log_row did (d_attempts r + 1) err t])); [|done].
  intros Ho. apply outbox_wf_log; [cbn; by rewrite lookup_insert_eq|cbn; lia|].
  apply (outbox_wf_row _ _ _ _ did r); [done..|lia|done].
Qed.

Lemma int4_Ok z n : int4 z = Ok n -> n = z ∧ int32_min <= z <= int32_max.
Proof.
  unfold int4. destruct (_ && _) eqn:E; [|done]. intros [= ->].
  apply andb_prop in E as [?%Z.leb_le ?%Z.leb_le]. done.
Qed.

Lemma wf_requeue t d : preserves wf t d (upd_deliveries (requeue_row t <$> webhook_deliveries d) d).
Proof.
  apply wf_deliveries_change, outbox_wf_rows.
  - intros k r'. rewrite lookup_fmap. destruct (webhook_deliveries d !! k) as [r|]; [|done].
    intros [= <-]. exists r. unfold requeue_row. by case_match.
  - intros k [r Hr]. rewrite lookup_fmap, Hr. by eexists.
Qed.

Lemma wf_insert_delivery e ep payload t d d' :
  insert_delivery e ep payload t d = Ok (tt, d') -> preserves wf t d d'.
Proof.
  unfold insert_delivery. destruct (pg_jsonb_in payload); [|done].
  destruct (webhook_deliveries d !! _) eqn:E; [by intros [= <-]|].
  destruct (webhook_endpoints d !! _) eqn:E1; [|done]. destruct (events d !! _) eqn:E2; [|done].
  intros [= <-]. apply wf_deliveries_change, outbox_wf_insert; cbn; eauto.
Qed.

Lemma wf_test_delivery dlv eid evt url secret data t d d' :
  insert_test_delivery dlv eid evt url secret data t d = Ok (tt, d') -> preserves wf t d d'.
Proof.
  unfold insert_test_delivery. destruct (pg_jsonb_in data); [|done].
  destruct (webhook_deliveries d !! _) eqn:E; [done|].
  destruct (webhook_endpoints d !! _) eqn:E1; [|done]. destruct (events d !! _) eqn:E2; [|done].
  intros [= <-]. apply wf_deliveries_change, outbox_wf_insert; cbn; eauto.
Qed.

Lemma wf_test_event evt eid data t d d' :
  insert_test_event evt eid data t d = Ok (tt, d') -> preserves wf t d d'.
Proof.
  unfold insert_test_event. destruct (pg_jsonb_in data); [|done].
  destruct (events d !! evt); [done|]. intros [= <-]. apply wf_events_insert.
Qed.

Lemma wf_replay dlv eid t d n d' : replay_stmt dlv eid t d = Ok (n, d') -> preserves wf t d d'.
Proof.
  unfold replay_stmt. destruct (webhook_deliveries d !! dlv) as [r|] eqn:E;
    [|by intros [= _ <-]]. case_bool_decide; intros [= _ <-]; [|done].
  apply wf_deliveries_change, (outbox_wf_row _ _ _ _ dlv r); [done..|cbn; lia].
Qed.

Lemma wf_checkpoint c t d : preserves wf t d (upd_checkpoint c d).
Proof. by intros [? ? ? ? ? ?]. Qed.

Lemma wf_insert_event e seq t d d' : insert_event e seq t d = Ok (tt, d') -> preserves wf t d d'.
Proof.
  unfold insert_event. destruct (pg_jsonb_in (e_Data e)); [|done].
  destruct (events d !! e_ID e); intros [= <-]; [done|apply wf_events_insert].
Qed.
End outbox.

(** ** The projections *)

Section index.
Context {FT : Fibertypes} {FTL : FibertypesLaws} {KE : KanakaEvents} {PG : Postgres} {CR : Crypto}.

Lemma holds_amount_of a : holds_amount (numeric_col (AmountToNumeric a)).
Proof. rewrite numeric_col_amount. eexists. split; [done|apply BigInt_nonneg]. Qed.

Lemma holds_amount_coalesce o a :
  (∀ v, o = Some v -> 0 <= v) -> holds_amount a -> holds_amount (coalesce o a).
Proof. destruct o as [v|]; [|done]. intros H _. exists v. auto. Qed.

(** A column-wise property of a table survives an upsert that establishes it. *)
Lemma upsert_forall {E V} (key : E -> string) (g : E -> option V -> V) (P : V -> Prop)
    (m : gmap string V) e :
  (∀ o, (∀ v, o = Some v -> P v) -> P (g e o)) ->
  (∀ k v, m !! k = Some v -> P v) ->
  ∀ k v, upsert key g m e !! k = Some v -> P v.
Proof.
  intros Hg Hm k v. unfold upsert. intros [[<- <-]|[_ H]]%lookup_insert_Some; [|by eapply Hm].
  apply Hg. intros v. apply Hm.
Qed.

Lemma wf_upsert_payment x t d :
  preserves wf t d (upd_payments (upsert payment_key payment_upsert (payments d) x) d).
Proof.
  intros [? ? ? (Hp & Hc & Hi) ? ?]. split; [done..| |done|done]. split_and!; [|done..].
  apply upsert_forall; [|done]. destruct x as [e y]. intros [p|] Ho; cbn.
  - destruct (Ho p eq_refl) as (? & _). split_and!; [done|by eexists|done..|apply holds_amount_of].
  - split_and!; [by eexists..|done|done|apply holds_amount_of].
Qed.

Lemma wf_upsert_channel x t d :
  preserves wf t d (upd_channels (upsert channel_key channel_upsert (channels d) x) d).
Proof.
  intros [? ? ? (Hp & Hc & Hi) ? ?]. split; [done..| |done|done]. split_and!; [done| |done].
  apply upsert_forall; [|done]. destruct x as [e y]. intros [c|] _; cbn;
    (split_and!; [by eexists|done|apply holds_amount_of]).
Qed.

Lemma wf_upsert_invoice x t d :
  preserves wf t d (upd_invoices (upsert ip_PaymentHash invoice_upsert (invoices d) x) d).
Proof.
  intros [? ? ? (Hp & Hc & Hi) ? ?]. split; [done..| |done|done]. split_and!; [done|done|].
  apply upsert_forall; [|done]. intros [i|] Ho; cbn;
    (split_and!; [by eexists|done|]); [|apply holds_amount_of].
  apply holds_amount_coalesce; [|apply holds_amount_of].
  destruct (Ho i eq_refl) as (_ & _ & v & -> & Hv). by intros ? [= <-].
Qed.
End index.

(** ** The ledger *)

Section ledger.
Context {FT : Fibertypes} {FTL : FibertypesLaws} {KE : KanakaEvents} {PG : Postgres}
  {PGL : PostgresLaws} {CR : Crypto} {FR : FiberRPC} {XL : Excelize}.

Lemma order_wf_more ms ms' rs rs' k o :
  (∀ j, is_Some (ms !! j) -> is_Some (ms' !! j)) -> (∀ j r, rs !! j = Some r -> rs' !! j = Some r) ->
  order_wf ms rs k o -> order_wf ms' rs' k o.
Proof.
  intros Hm Hr (H1 & H2 & H3 & H4 & H5 & H6 & H7). split_and!; [by apply Hm|done..|].
  intros (rid & r & Hrid & Hk)%H7. eauto.
Qed.

Lemma reports_wf_more ms ms' ss rr :
  (∀ j, is_Some (ms !! j) -> is_Some (ms' !! j)) -> reports_wf ms ss rr -> reports_wf ms' ss rr.
Proof.
  intros Hm [Hs Hr]. split.
  - intros k s (? & ?)%Hs. split; [by apply Hm|done].
  - intros k r (? & ?)%Hr. split; [by apply Hm|done].
Qed.

(** Orders change in place: nothing pending comes back, and refunds stay justified. *)
Lemma ledger_wf_orders ms os os' rs :
  (∀ k o', os' !! k = Some o' -> order_wf ms rs k o') ->
  (∀ k o, os !! k = Some o -> o_status o ≠ OPending -> ∃ o', os' !! k = Some o' ∧ o_status o' ≠ OPending) ->
  ledger_wf ms os rs -> ledger_wf ms os' rs.
Proof.
  intros Ho Hs [_ Hr]. split; [done|]. intros k r Hk.
  destruct (Hr k r Hk) as ((o & Hor & Hst) & H). split; [by eapply Hs|done].
Qed.

Lemma wf_ledger_change t d d' ms os rs :
  d' = upd_merchants ms (upd_orders os (upd_refunds rs d)) ->
  (∀ j, is_Some (merchants d !! j) -> is_Some (ms !! j)) ->
  (wf d -> ledger_wf ms os rs) -> (wf d -> external_unique (upd_orders os d)) ->
  preserves wf t d d'.
Proof.
  intros -> Hm Hl Hx Hd. pose proof Hd as [? ? ? ? ? ?].
  split; [done..|by apply Hl|done|by apply Hx|by eapply reports_wf_more].
Qed.

Lemma wf_orders_change t d os :
  (wf d -> ledger_wf (merchants d) os (refunds d)) -> (wf d -> external_unique (upd_orders os d)) ->
  preserves wf t d (upd_orders os d).
Proof. by apply wf_ledger_change. Qed.

Lemma wf_refunds_change t d rs :
  (wf d -> ledger_wf (merchants d) (merchant_orders d) rs) -> preserves wf t d (upd_refunds rs d).
Proof.
  intros H. apply (wf_ledger_change t d _ (merchants d) (merchant_orders d) rs); [done|done|done|].
  by intros [_ _ _ _ Hx _].
Qed.

Lemma wf_merchants_change t d ms :
  (∀ j, is_Some (merchants d !! j) -> is_Some (ms !! j)) ->
  (wf d -> ledger_wf ms (merchant_orders d) (refunds d)) -> preserves wf t d (upd_merchants ms d).
Proof.
  intros Hm H. apply (wf_ledger_change t d _ ms (merchant_orders d) (refunds d)); [done|done|done|].
  by intros [_ _ _ _ Hx _].
Qed.

(** Rewriting rows without touching whose they are keeps the idempotency key unique. *)
Lemma external_unique_fmap d os :
  (∀ k o', os !! k = Some o' -> ∃ o, merchant_orders d !! k = Some o
     ∧ o_merchant_id o' = o_merchant_id o ∧ o_external_order_id o' = o_external_order_id o) ->
  external_unique d -> external_unique (upd_orders os d).
Proof.
  intros Ho Hu k1 k2 r1 r2 e (o1 & H1 & M1 & X1)%Ho (o2 & H2 & M2 & X2)%Ho Hm E1 E2.
  rewrite M1, M2 in Hm. rewrite X1 in E1. rewrite X2 in E2. by eapply Hu.
Qed.

Lemma settle_row_cases x o :
  settle_row x o = o ∨
  (o_status o = OPending ∧ o_status (settle_row x o) = OPaid
   ∧ o_paid_at (settle_row x o) = Some (timestamptz (ip_SettledAt x))
   ∧ order_terms (settle_row x o) = order_terms o).
Proof.
  unfold settle_row. destruct (_ && _) eqn:E; [|by left]. right.
  apply andb_prop in E as [_ ?%bool_decide_eq_true]. done.
Qed.

Lemma wf_settle x t d :
  preserves wf t d (upd_orders (settle_row x <$> merchant_orders d) d).
Proof.
  apply wf_orders_change; intros Hwf; pose proof (wf_ledger d Hwf) as Hl.
  - revert Hl. apply ledger_wf_orders.
    + intros k o'. rewrite lookup_fmap. destruct (merchant_orders d !! k) as [o|] eqn:E; [|done].
      intros [= <-]. pose proof (proj1 (wf_ledger d Hwf) k o E) as (H1 & H2 & H3 & H4 & H5 & H6 & H7).
      unfold order_wf.
      destruct (settle_row_cases x o) as [->|(Hs & Hs' & Hp & [= -> _ -> -> -> _])]; [done|].
      rewrite Hs', Hp. by split_and!.
    + intros k o Hk Hs. exists (settle_row x o). rewrite lookup_fmap, Hk. split; [done|].
      destruct (settle_row_cases x o) as [->|(Hs' & _)]; done.
  - apply external_unique_fmap; [|by destruct Hwf]. intros k o'. rewrite lookup_fmap.
    destruct (merchant_orders d !! k) as [o|]; [|done]. intros [= <-]. exists o.
    split; [done|]. by destruct (settle_row_cases x o) as [->|(_ & _ & _ & [= -> -> _])].
Qed.

Lemma wf_insert_order oid mid ext hash asset a t d d' :
  insert_order oid mid ext hash asset (AmountToNumeric a) t d = Ok (tt, d') -> preserves wf t d d'.
Proof.
  intros H. pose proof (insert_order_unique _ _ _ _ _ _ _ _ _ H) as Hx.
  apply insert_order_spec in H as [->|(Hn & _ & Hm & ->)]; [done|].
  apply wf_orders_change; [|intros Hwf; by apply Hx, wf_external].
  intros Hwf. pose proof (wf_ledger d Hwf) as Hl. revert Hl. apply ledger_wf_orders.
  - intros k o' [[<- <-]|[_ Ho]]%lookup_insert_Some; [|by apply (proj1 (wf_ledger d Hwf))].
    split_and!; cbn; [done|apply holds_amount_of|by eexists|by eexists|done..].
  - intros k o Hk Hs. exists o. rewrite lookup_insert_ne; [done|congruence].
Qed.

Lemma wf_insert_refund rid oid asset reason hash a t d d' o :
  merchant_orders d !! oid = Some o -> o_status o ≠ OPending ->
  insert_refund rid oid asset reason hash (AmountToNumeric a) t d = Ok (tt, d') ->
  preserves wf t d d'.
Proof.
  unfold insert_refund. intros Ho Hs. rewrite Ho. destruct (refunds d !! rid) eqn:E; [done|].
  intros [= <-]. apply wf_refunds_change. intros Hwf. destruct (wf_ledger d Hwf) as [H1 H2]. split.
  - intros k o' Hk. refine (order_wf_more _ _ _ _ k o' _ _ (H1 k o' Hk)); [done|]. intros j r Hj.
    rewrite lookup_insert_ne; [done|congruence].
  - intros k r [[<- <-]|[_ Hk]]%lookup_insert_Some; [|by eapply H2].
    split_and!; cbn; [exists o; split; [done|congruence]|apply holds_amount_of|by eexists].
Qed.

Lemma wf_mark_refunded oid o rid rr t d :
  merchant_orders d !! oid = Some o -> o_status o ≠ OPending -> refunds d !! rid = Some rr ->
  r_order_id rr = oid ->
  preserves wf t d (upd_orders (alter set_refunded oid (merchant_orders d)) d).
Proof.
  intros Ho Hs Hr Hid. apply wf_orders_change; intros Hwf.
  - pose proof (wf_ledger d Hwf) as Hl. revert Hl. apply ledger_wf_orders.
    + intros k o'. rewrite lookup_alter_Some. intros [(<- & x & Hx & ->)|[_ Hk]];
        [|by apply (proj1 (wf_ledger d Hwf))].
      rewrite Ho in Hx. injection Hx as <-.
      destruct (proj1 (wf_ledger d Hwf) oid o Ho) as (H1 & H2 & H3 & H4 & H5 & H6 & H7).
      split_and!; [done..| |]; cbn; [|by eauto].
      rewrite H6. by split.
    + intros k x Hk Hx. destruct (decide (oid = k)) as [<-|Hne].
      * exists (set_refunded x). by rewrite lookup_alter_eq, Hk.
      * exists x. by rewrite lookup_alter_ne.
  - apply external_unique_fmap; [|by destruct Hwf]. intros k o'. rewrite lookup_alter_Some.
    intros [(<- & x & Hx & ->)|[_ Hk]]; eauto.
Qed.

Lemma wf_insert_merchant mid name hash asset t d d' :
  insert_merchant mid name hash asset t d = Ok (tt, d') -> preserves wf t d d'.
Proof.
  unfold insert_merchant. destruct (merchants d !! mid); [done|]. intros [= <-].
  apply wf_merchants_change; [intros j; apply is_Some_insert|].
  intros Hwf. destruct (wf_ledger d Hwf) as [H1 H2]. split; [|done].
  intros k o Hk. refine (order_wf_more _ _ _ _ k o _ _ (H1 k o Hk)); [|done]. intros j. apply is_Some_insert.
Qed.

Definition has_merchant (mid : string) (d : Database) : Prop := is_Some (merchants d !! mid).

Lemma wf_reports_change t d d' ss rr :
  d' = upd_settlements ss (upd_recon_runs rr d) -> (wf d -> reports_wf (merchants d) ss rr) ->
  preserves wf t d d'.
Proof. intros -> H Hd. pose proof Hd as [? ? ? ? ? ?]. split; [done..|by apply H]. Qed.

Lemma wf_insert_settlement sid mid period asset g f n t d d' :
  has_merchant mid d -> (BigInt g < 2 ^ 128 -> BigInt n = Z.max 0 (BigInt g - BigInt f)) ->
  insert_settlement sid mid period asset (AmountToNumeric g) (AmountToNumeric f)
    (AmountToNumeric n) t d = Ok (tt, d') -> preserves wf t d d'.
Proof.
  intros Hm Hn H. unfold insert_settlement in H. ok_inv H.
  eapply (wf_reports_change t d _ _ (reconciliation_runs d)); [done|]. intros Hwf.
  destruct (wf_reports d Hwf) as [Hs Hr]. split; [|exact Hr].
  intros k s [[<- <-]|[_ Hk]]%lookup_insert_Some; [|by eapply Hs]. split; [exact Hm|].
  exists (BigInt g), (BigInt f), (BigInt n). rewrite !numeric_col_amount.
  split_and!; try done; apply BigInt_nonneg.
Qed.

Lemma insert_recon_spec rid mid period m u disc report t d d' :
  insert_recon rid mid period m u disc report t d = Ok (tt, d') ->
  reconciliation_runs d !! rid = None
  ∧ ∃ j, d' = upd_recon_runs (<[rid := MkReconRunRow mid period m u (numeric_col disc) j t]>
                (reconciliation_runs d)) d.
Proof.
  unfold insert_recon. destruct (pg_jsonb_in report) as [j|]; [|done]. unfold mbind, result_bind.
  destruct (int4 m) as [m'|?|?] eqn:Em; [apply int4_Ok in Em as [-> _]|done..].
  destruct (int4 u) as [u'|?|?] eqn:Eu; [apply int4_Ok in Eu as [-> _]|done..].
  destruct (reconciliation_runs d !! rid) eqn:E; [done|]. intros H. split; [done|].
  exists j. congruence.
Qed.

Lemma wf_insert_recon rid mid period m u disc report t d d' :
  has_merchant mid d -> 0 <= m -> 0 <= u ->
  insert_recon rid mid period m u (AmountToNumeric disc) report t d = Ok (tt, d') ->
  preserves wf t d d'.
Proof.
  intros Hmid Hm Hu (_ & j & ->)%insert_recon_spec.
  eapply (wf_reports_change t d _ (settlements d) (<[rid := _]> (reconciliation_runs d))); [done|]. intros Hwf.
  destruct (wf_reports d Hwf) as [Hs Hr]. split; [exact Hs|].
  intros k r [[<- <-]|[_ Hk]]%lookup_insert_Some; [|by eapply Hr].
  split_and!; cbn; [exact Hmid|lia..|apply holds_amount_of].
Qed.
End ledger.

(** ** The statements *)

Section statements.
Context {FT : Fibertypes} {FTL : FibertypesLaws} {KE : KanakaEvents} {PG : Postgres}
  {PGL : PostgresLaws} {CR : Crypto} {FR : FiberRPC} {XL : Excelize} {TP : TimeParser}
  {JD : JsonDecoder} {CH : Chi} {CHL : ChiLaws}.

(** The statements that act on the outbox and the index. *)
Lemma wf_ep_upsert eid url secret types t d d' :
  endpoint_upsert eid url secret types t d = Ok (tt, d') -> preserves wf t d d'.
Proof. unfold endpoint_upsert. intros [= <-]. apply wf_endpoints_insert. Qed.

Lemma wf_mark_succeeded did t d d' :
  mark_stmt did (fun r => n ← int4 (d_attempts r + 1); Ok (set_status DSucceeded r, n)) None t d
    = Ok (tt, d') -> preserves wf t d d'.
Proof.
  intros H. eapply wf_mark; [exact H|].
  intros r r' n (m & [-> ?]%int4_Ok & [= -> ->])%int4_bind_Ok. split_and!; [done|lia|done..|by left].
Qed.

Lemma wf_mark_failed did next msg t d d' :
  mark_stmt did (fun r => n ← int4 (d_attempts r + 1);
       Ok (set_error (Some msg) (set_schedule (timestamptz next)
             (set_status DFailed (set_attempts n r))), n)) (Some msg) t d
    = Ok (tt, d') -> preserves wf t d d'.
Proof.
  intros H. eapply wf_mark; [exact H|].
  intros r r' n (m & [-> ?]%int4_Ok & [= -> ->])%int4_bind_Ok. split_and!; [done|lia|done..|by right].
Qed.

Lemma wf_mark_dead did t d d' :
  mark_stmt did (fun r => n ← int4 (d_attempts r + 1); Ok (set_status DDead (set_attempts n r), n))
    (Some "max attempts exceeded") t d = Ok (tt, d') -> preserves wf t d d'.
Proof.
  intros H. eapply wf_mark; [exact H|].
  intros r r' n (m & [-> ?]%int4_Ok & [= -> ->])%int4_bind_Ok. split_and!; [done|lia|done..|by right].
Qed.

Lemma migrate_wf v t d : preserves wf t d (migrate_to v d).
Proof.
  unfold migrate_to. destruct (_ && _) eqn:E; [|by intros ?].
  apply andb_prop in E as [Hv%Z.leb_le Hl%Z.leb_le]. intros [Hd ? ? ? ? ?].
  split; [cbn; lia|done..].
Qed.

Lemma wf_empty : wf empty_db.
Proof.
  assert (∀ A k (x : A), (∅ : gmap string A) !! k ≠ Some x) as He
    by (intros A k x H; by rewrite lookup_empty in H).
  split; [unfold latest_version; cbn; lia|..].
  - split; [intros k r H; by apply He in H|intros l H; by apply not_elem_of_nil in H].
  - split; intros k r H; by apply He in H.
  - split_and!; intros k r H; by apply He in H.
  - intros k1 k2 o1 o2 e H. by apply He in H.
  - split; intros k r H; by apply He in H.
Qed.

(** ** Moves of the whole database *)

#[export] Instance keeps_preorder : PreOrder keeps.
Proof.
  split; [intros d; split; done|]. intros d1 d2 d3 [] []. split; by etrans.
Qed.

#[export] Instance quietly_preorder : PreOrder quietly.
Proof. split; [intros d; by split|]. intros d1 d2 d3 [] []. split; by etrans. Qed.

#[export] Instance quietly_subrel : subrelation quietly keeps.
Proof. by intros d d' []. Qed.

#[export] Instance flushes_preorder : PreOrder flushes.
Proof.
  split; [intros d; by split|]. intros d1 d2 d3 [] []. split; [by etrans|congruence..|auto].
Qed.

#[export] Instance flushes_subrel : subrelation flushes keeps.
Proof. by intros d d' []. Qed.

(** A transaction that writes nothing. *)
#[export] Instance eq_flushes : subrelation eq flushes.
Proof. by intros d ? <-. Qed.

#[export] Instance eq_keeps : subrelation eq keeps.
Proof. by intros d ? <-. Qed.

(** The move of a statement outside transactions, and of one of a flush. *)
Definition move : Time -> relation Database := step_ok wf quietly.
Definition flush_move : Time -> relation Database := writes_ok wf flushes.

#[export] Instance move_preorder t : PreOrder (move t) := step_ok_preorder wf quietly t.

Lemma move_intro t d d' : preserves wf t d d' -> (wf d -> quietly d d') -> move t d d'.
Proof. intros Hp Hk Hd. split; auto. Qed.

Lemma flush_intro t d d' : preserves wf t d d' -> (wf d -> flushes d d') -> flush_move t d d'.
Proof. intros Hp Hk Hd. split; auto. Qed.

Lemma order_steps_terms o o' : rtc order_step o o' -> order_terms o' = order_terms o.
Proof. induction 1 as [|o1 o2 o3 H _ IH]; [done|]. rewrite IH. by destruct H. Qed.

Lemma order_steps_paid o o' :
  rtc order_step o o' -> o_status o ≠ OPending ->
  o_status o' ≠ OPending ∧ o_paid_at o' = o_paid_at o.
Proof.
  induction 1 as [|o1 o2 o3 H _ IH]; intros Hs; [done|].
  destruct H as [o1 o2 t _ ? _ _|o1 o2 _ _ Hr Hp]; [done|].
  destruct IH as [? ->]; [congruence|done].
Qed.

Lemma settle_step x o : rtc order_step o (settle_row x o).
Proof.
  destruct (settle_row_cases x o) as [->|(Hs & Hs' & Hp & Ht)]; [done|].
  apply rtc_once. by eapply order_paid.
Qed.

(** Refunding an order that is no longer pending: a refunded one stays as it is. *)
Lemma refunded_step o :
  o_status o ≠ OPending -> o_status o ≠ OExpired -> rtc order_step o (set_refunded o).
Proof.
  intros Hp Hx. destruct (o_status o) eqn:E; [done| |done|].
  - apply rtc_once. by apply order_refunded.
  - destruct o. cbn in E. by subst.
Qed.
End statements.

(** One table changes: the others are kept by reflexivity. *)
Ltac keep :=
  lazymatch goal with
  | |- quietly _ _ => split; [keep|reflexivity]
  | |- flushes _ _ => split; [keep|try reflexivity..|try (intros ?; done)]
  | |- _ => split; cbn; try reflexivity
  end.
