(* ===== verification/Moves.v ===== *)
(** * The moves of the system

    One lemma per kind of statement: whatever ran before it, it keeps [wf] and is a move
    that leaves the index alone and [keeps] allows; those of a flush are what [flushes]
    allows.  The statements of a
    refund and of a report are moves under what was established before them and no other
    move takes back ([settled], [refund_of], [has_merchant]). *)

From stdpp Require Import relations.
From S2P Require Import Prelude Strconv GoTime External Schema Numeric Tables Ids Sql Indexer IndexerFacts Http Frame Interleave Rely Webhook WebhookFacts Query Csv Merchant MerchantApi MerchantFacts Api ApiFacts System SystemFacts.

Section moves.
Context {FT : Fibertypes} {FTL : FibertypesLaws} {KE : KanakaEvents} {PG : Postgres}
  {PGL : PostgresLaws} {CR : Crypto} {FR : FiberRPC} {XL : Excelize}.

(** ** The outbox *)

Abbreviation rows_step := (rows_move (fun _ _ => rtc delivery_move)).

Lemma delivery_moves t r r' : delivery_step t r r' -> rtc delivery_move r r'.
Proof. intros H. apply rtc_once. by exists t. Qed.

Lemma delivery_moves_snapshot r r' : rtc delivery_move r r' -> snapshot r' = snapshot r.
Proof. induction 1 as [|r1 r2 r3 [t H] _ IH]; [done|]. rewrite IH. by eapply delivery_step_snapshot. Qed.

Lemma move_deliveries t d d' :
  preserves wf t d d' -> d' = upd_deliveries (webhook_deliveries d') d ->
  rows_step t d d' -> move t d d'.
Proof. intros Hp E H. apply move_intro; [done|intros _]. rewrite E. keep. exact H. Qed.

Lemma move_claim s locked limit t d out d' :
  claim_stmt s locked limit t d = Ok (out, d') -> move t d d'.
Proof.
  intros H. apply move_deliveries; [by eapply wf_claim| |].
  - unfold claim_stmt in H. destruct (limit <? 0); [done|]. by injection H as _ <-.
  - eapply rows_move_claim; [apply _|exact H|]. intros k r Hd. by eapply delivery_moves, step_claim.
Qed.

Lemma move_mark did f err t d d' :
  mark_stmt did f err t d = Ok (tt, d') -> preserves wf t d d' ->
  (∀ r r' n, f r = Ok (r', n) -> delivery_step t r r') -> move t d d'.
Proof.
  intros H Hwf Hf. apply move_intro; [done|intros _].
  assert (rows_step t d d') as Hr.
  { eapply rows_move_mark; [apply _|exact H|]. intros r r' n Hn. eapply delivery_moves, Hf, Hn. }
  unfold mark_stmt in H. destruct (webhook_deliveries d !! did) as [r|]; [|by injection H as <-].
  destruct (f r) as [[r' n]|?|?]; [|done..]. injection H as <-.
  keep; [exact Hr|by eexists].
Qed.

Lemma move_mark_succeeded did t d d' :
  mark_stmt did (fun r => n ← int4 (d_attempts r + 1); Ok (set_status DSucceeded r, n)) None t d
    = Ok (tt, d') -> move t d d'.
Proof.
  intros H. eapply move_mark; [exact H|by eapply wf_mark_succeeded|].
  intros r r' n (m & E & [= -> _])%int4_bind_Ok. constructor.
Qed.

Lemma move_mark_failed did next msg t d d' :
  mark_stmt did (fun r => n ← int4 (d_attempts r + 1);
       Ok (set_error (Some msg) (set_schedule (timestamptz next)
             (set_status DFailed (set_attempts n r))), n)) (Some msg) t d
    = Ok (tt, d') -> move t d d'.
Proof.
  intros H. eapply move_mark; [exact H|by eapply wf_mark_failed|].
  intros r r' n (m & E & [= -> _])%int4_bind_Ok. by constructor.
Qed.

Lemma move_mark_dead did t d d' :
  mark_stmt did (fun r => n ← int4 (d_attempts r + 1); Ok (set_status DDead (set_attempts n r), n))
    (Some "max attempts exceeded") t d = Ok (tt, d') -> move t d d'.
Proof.
  intros H. eapply move_mark; [exact H|by eapply wf_mark_dead|].
  intros r r' n (m & E & [= -> _])%int4_bind_Ok. by constructor.
Qed.

Lemma move_requeue t d : move t d (upd_deliveries (requeue_row t <$> webhook_deliveries d) d).
Proof.
  apply move_deliveries; [apply wf_requeue|done|]. apply rows_move_requeue; [apply _|].
  intros k r Hs. unfold requeue_row. rewrite Hs. by eapply delivery_moves, step_requeue.
Qed.

Lemma move_replay dlv eid t d n d' : replay_stmt dlv eid t d = Ok (n, d') -> move t d d'.
Proof.
  intros H. apply move_intro; [by eapply wf_replay|intros _]. unfold replay_stmt in H.
  destruct (webhook_deliveries d !! dlv) as [r|] eqn:E; [|by injection H as _ <-].
  case_bool_decide; injection H as _ <-; [|done]. keep.
  apply grows_insert; [apply _|]. intros x Hx. assert (x = r) as -> by congruence.
  apply (delivery_moves t), step_replay.
Qed.

Lemma move_test_delivery dlv eid evt url secret data t d d' :
  insert_test_delivery dlv eid evt url secret data t d = Ok (tt, d') -> move t d d'.
Proof.
  intros H. apply move_intro; [by eapply wf_test_delivery|intros _].
  unfold insert_test_delivery in H. ok_inv H. keep. by apply grows_new; [apply _|].
Qed.

Lemma move_test_event evt eid data t d d' :
  insert_test_event evt eid data t d = Ok (tt, d') -> move t d d'.
Proof.
  intros H. apply move_intro; [by eapply wf_test_event|intros _].
  unfold insert_test_event in H. ok_inv H. keep. by apply grows_new; [apply _|].
Qed.

Lemma move_ep_upsert eid url secret types t d d' :
  endpoint_upsert eid url secret types t d = Ok (tt, d') -> move t d d'.
Proof.
  intros H. apply move_intro; [by eapply wf_ep_upsert|intros _]. unfold endpoint_upsert in H.
  injection H as <-. keep. apply grows_insert; [apply _|]. intros x E. rewrite E. done.
Qed.

Lemma move_remove eid t d n d' :
  match webhook_endpoints d !! eid with
  | None => Ok (0, d)
  | Some row => Ok (1, upd_endpoints (<[eid := deactivate row]> (webhook_endpoints d)) d)
  end = Ok (n, d') -> move t d d'.
Proof.
  destruct (webhook_endpoints d !! eid) as [row|] eqn:E; intros [= _ <-]; [|done].
  apply move_intro; [apply wf_endpoints_insert|intros _]. keep.
  apply grows_insert; [apply _|]. intros x Hx. by assert (x = row) as -> by congruence.
Qed.

(** ** The ledger *)

Lemma move_insert_order oid mid ext hash asset a t d d' :
  insert_order oid mid ext hash asset (AmountToNumeric a) t d = Ok (tt, d') -> move t d d'.
Proof.
  intros H. apply move_intro; [by eapply wf_insert_order|intros _].
  apply insert_order_spec in H as [->|(Hn & _ & _ & ->)]; [done|]. keep. by apply grows_new; [apply _|].
Qed.

Lemma move_insert_merchant mid name hash asset t d d' :
  insert_merchant mid name hash asset t d = Ok (tt, d') -> move t d d'.
Proof.
  intros H. apply move_intro; [by eapply wf_insert_merchant|intros _].
  unfold insert_merchant in H. ok_inv H. keep. by apply grows_new; [apply _|].
Qed.

Lemma move_insert_settlement sid mid period asset g f n t d d' :
  has_merchant mid d -> (BigInt g < 2 ^ 128 -> BigInt n = Z.max 0 (BigInt g - BigInt f)) ->
  insert_settlement sid mid period asset (AmountToNumeric g) (AmountToNumeric f)
    (AmountToNumeric n) t d = Ok (tt, d') -> move t d d'.
Proof.
  intros Hm Hn H. apply move_intro; [by eapply wf_insert_settlement|intros _].
  unfold insert_settlement in H. ok_inv H. keep. by apply grows_new; [apply _|].
Qed.

Lemma move_insert_recon rid mid period m u disc report t d d' :
  has_merchant mid d -> 0 <= m -> 0 <= u ->
  insert_recon rid mid period m u (AmountToNumeric disc) report t d = Ok (tt, d') -> move t d d'.
Proof.
  intros Hmid Hm Hu H. apply move_intro; [by apply (wf_insert_recon rid mid period m u disc report)|intros _].
  apply insert_recon_spec in H as (Hn & j & ->). keep. by apply grows_new; [apply _|].
Qed.

Lemma move_migrate v t d : move t d (migrate_to v d).
Proof.
  apply move_intro; [apply migrate_wf|intros _]. unfold migrate_to.
  destruct (_ && _) eqn:E; [|done]. apply andb_prop in E as [?%Z.leb_le _]. by keep.
Qed.

(** ** The moves of a flush *)

Lemma flush_checkpoint c t d : flush_move t d (upd_checkpoint c d).
Proof. apply flush_intro; [apply wf_checkpoint|intros _]. by keep. Qed.

Lemma flush_insert_event e seq t d d' : insert_event e seq t d = Ok (tt, d') -> flush_move t d d'.
Proof.
  intros H. apply flush_intro; [by eapply wf_insert_event|intros _]. unfold insert_event in H.
  ok_inv H; [done|]. keep. by apply grows_new; [apply _|].
Qed.

Lemma flush_insert_delivery e ep payload t d d' :
  insert_delivery e ep payload t d = Ok (tt, d') -> flush_move t d d'.
Proof.
  intros H. apply flush_intro; [by eapply wf_insert_delivery|intros _]. unfold insert_delivery in H.
  ok_inv H; [done|]. keep. by apply grows_new; [apply _|].
Qed.

Lemma flush_upsert_invoice x t d :
  flush_move t d (upd_invoices (upsert ip_PaymentHash invoice_upsert (invoices d) x) d).
Proof.
  apply flush_intro; [apply wf_upsert_invoice|intros _]. keep.
  apply grows_insert; [apply _|]. intros i E. rewrite E. done.
Qed.

Lemma flush_upsert_payment x t d :
  flush_move t d (upd_payments (upsert payment_key payment_upsert (payments d) x) d).
Proof.
  apply flush_intro; [apply wf_upsert_payment|intros _]. keep.
  apply grows_insert; [apply _|]. intros p E. rewrite E. by destruct x.
Qed.

Lemma flush_upsert_channel x t d :
  flush_move t d (upd_channels (upsert channel_key channel_upsert (channels d) x) d).
Proof.
  apply flush_intro; [apply wf_upsert_channel|intros _]. keep.
  apply grows_insert; [apply _|]. intros c E. rewrite E. by destruct x.
Qed.

Lemma flush_settle x t d : flush_move t d (upd_orders (settle_row x <$> merchant_orders d) d).
Proof.
  apply flush_intro; [apply wf_settle|intros _]. keep; [apply grows_fmap, settle_step|].
  intros k. cbn. rewrite lookup_fmap. by intros ?%fmap_is_Some.
Qed.

(** ** What a report relies on *)

Lemma has_merchant_stable mid : stable wf keeps (has_merchant mid).
Proof.
  intros d d' _ Hk [m Hm]. eapply grows_lookup; [apply keeps_merchants, Hk|exact Hm].
Qed.

(** ** What a refund relies on *)

(** The order has been paid, and maybe refunded. *)
Definition settled (oid : string) (d : Database) : Prop :=
  ∃ o, merchant_orders d !! oid = Some o ∧ o_status o ≠ OPending.

Definition refund_of (oid rid : string) (d : Database) : Prop :=
  ∃ r, refunds d !! rid = Some r ∧ r_order_id r = oid.

Lemma settled_stable oid : stable wf keeps (settled oid).
Proof.
  intros d d' _ Hk (o & Ho & Hs). destruct (keeps_orders _ _ Hk oid o Ho) as (o' & Ho' & Hsteps).
  exists o'. split; [done|]. by destruct (order_steps_paid o o' Hsteps Hs).
Qed.

Lemma refund_of_stable oid rid : stable wf keeps (refund_of oid rid).
Proof.
  intros d d' _ Hk (r & Hr & Hid). exists r. split; [|done].
  by apply (grows_eq (refunds d)); [apply keeps_refunds|].
Qed.

Lemma move_insert_refund rid oid asset reason hash a t d d' :
  settled oid d -> insert_refund rid oid asset reason hash (AmountToNumeric a) t d = Ok (tt, d') ->
  move t d d' ∧ settled oid d' ∧ refund_of oid rid d'.
Proof.
  intros (o & Ho & Hs) H. split.
  - apply move_intro; [by eapply wf_insert_refund|intros _]. unfold insert_refund in H.
    ok_inv H. keep. by apply grows_new; [apply _|].
  - unfold insert_refund in H. rewrite Ho in H. ok_inv H. split; [by exists o|].
    eexists. cbn. split; [apply lookup_insert_eq|done].
Qed.

Lemma move_mark_refunded oid rid t d :
  settled oid d -> refund_of oid rid d ->
  move t d (upd_orders (alter set_refunded oid (merchant_orders d)) d).
Proof.
  intros (o & Ho & Hs) (r & Hr & Hid). apply move_intro; [by eapply wf_mark_refunded|].
  intros Hwf. keep. apply grows_alter; [apply _|]. intros x Hx. assert (x = o) as -> by congruence.
  apply refunded_step; [done|]. apply (proj1 (wf_ledger d Hwf) oid o Ho).
Qed.
End moves.
