(* ===== verification/Commits.v ===== *)
(** * What an open flush sees

    Between the statements of a flush other processes commit.  What the flush then sees,
    and finally commits, is its own rows on top of theirs ([seen]): still a well-formed
    database, and one that a flush may make of theirs. *)

From stdpp Require Import relations.
From S2P Require Import Prelude Strconv GoTime External Schema Tables Transactions Interleave Rely Indexer Http Webhook WebhookFacts Query Csv Merchant MerchantFacts Api System SystemFacts.

Lemma overlay_val_same {A} `{!EqDecision A} (b x : A) : overlay_val b b x = x.
Proof. unfold overlay_val. by rewrite decide_True. Qed.

(** A table a transaction has not written is seen as committed. *)
Lemma overlay_same {V} `{!EqDecision V} (b v m : gmap string V) : v = b -> overlay b v m = m.
Proof. intros ->. apply overlay_none. Qed.

(** A row it sees is committed or its own. *)
Ltac seen_row H Ha := eapply overlay_row in H as [H|H]; [..|unfold avoids in Ha; tauto].

Section commits.
Context {FT : Fibertypes}.
Context (t : Tx) (d : Database).
Context (Ht : tx_ok wf keeps flushes t d).

Lemma seen_version : version (seen t d) = version d.
Proof. destruct Ht as (_ & Hw & _). cbn. rewrite (flushes_version _ _ Hw). apply overlay_val_same. Qed.

Lemma seen_endpoints : webhook_endpoints (seen t d) = webhook_endpoints d.
Proof. destruct Ht as (_ & Hw & _). by apply overlay_same, flushes_endpoints. Qed.

Lemma seen_log : webhook_delivery_log (seen t d) = webhook_delivery_log d.
Proof.
  destruct Ht as (_ & Hw & _). cbn. rewrite (flushes_log _ _ Hw). apply overlay_log_none.
Qed.

Lemma seen_merchants : merchants (seen t d) = merchants d.
Proof. destruct Ht as (_ & Hw & _). by apply overlay_same, flushes_merchants. Qed.

Lemma seen_refunds : refunds (seen t d) = refunds d.
Proof. destruct Ht as (_ & Hw & _). by apply overlay_same, flushes_refunds. Qed.

Lemma seen_keeps : keeps d (seen t d).
Proof.
  pose proof Ht as (_ & [Hk _ _ _ _ _ _] & _ & Ha). unfold avoids in Ha.
  split; try (apply grows_overlay; [apply _|by destruct Hk|tauto]).
  - by rewrite seen_version.
  - by rewrite seen_log.
Qed.

(** An order it sees is committed, with the terms and a status from which it moved on. *)
Lemma seen_order k o : merchant_orders (seen t d) !! k = Some o ->
  ∃ o0, merchant_orders d !! k = Some o0 ∧ rtc order_step o0 o.
Proof.
  intros Ho. pose proof seen_keeps as Hk.
  assert (is_Some (merchant_orders d !! k)) as [o0 H0].
  { pose proof Ht as (_ & Hw & Hg & Ha). seen_row Ho Ha; [by eexists|].
    destruct (flushes_orders _ _ Hw k) as [o1 H1]; [by eexists|].
    eapply grows_lookup; [apply keeps_orders, Hg|exact H1]. }
  destruct (keeps_orders _ _ Hk k o0 H0) as (o' & Ho' & Hs).
  exists o0. split; [done|]. congruence.
Qed.

Lemma seen_flushes : flushes d (seen t d).
Proof.
  split; [apply seen_keeps|apply seen_version|apply seen_endpoints|apply seen_log
    |apply seen_merchants|apply seen_refunds|].
  intros k [o Ho]. destruct (seen_order k o Ho) as (o0 & H0 & _). by eexists.
Qed.

(** Between its statements what it sees moves on as the others move; what only flushes
    write stays, if none of them did. *)
Lemma seen_ahead : keeps (tx_view t) (seen t d).
Proof.
  pose proof Ht as (_ & Hw & [] & _). split; try (apply grows_seen; [apply _|done]).
  - rewrite seen_version. by rewrite (flushes_version _ _ Hw).
  - rewrite seen_log. by rewrite (flushes_log _ _ Hw).
Qed.

Lemma seen_quietly : index d = index (tx_base t) -> quietly (tx_view t) (seen t d).
Proof.
  intros E. split; [apply seen_ahead|]. unfold index in *. injection E as Ep Ec Ei Ek. cbn.
  rewrite Ep, Ec, Ei, Ek, !overlay_base. unfold overlay_val. by case_decide as E; rewrite ?E.
Qed.

Context (Hv : wf (tx_view t)) (Hd : wf d).

Lemma seen_outbox : outbox_wf (webhook_endpoints (seen t d)) (events (seen t d))
  (webhook_deliveries (seen t d)) (webhook_delivery_log (seen t d)).
Proof.
  pose proof Ht as (_ & Hw & Hg & Ha). pose proof seen_keeps as Hk.
  rewrite seen_endpoints, seen_log. destruct (wf_outbox _ Hd) as [Hdd Hdl]. split.
  - intros k r Hr. seen_row Hr Ha.
    + destruct (Hdd k r Hr) as (? & [e He] & ?). split_and!; [done| |lia..].
      eapply grows_lookup; [apply keeps_events, Hk|exact He].
    + destruct (proj1 (wf_outbox _ Hv) k r Hr) as ([ep Hep] & He & ?). split_and!; [| |lia..].
      * rewrite (flushes_endpoints _ _ Hw) in Hep.
        eapply grows_lookup; [apply keeps_endpoints, Hg|exact Hep].
      * unfold avoids in Ha. eapply overlay_more; [apply keeps_events, Hg|tauto|exact He].
  - intros l Hl. destruct (Hdl l Hl) as [[r Hr] ?]. split; [|done].
    eapply grows_lookup; [apply keeps_deliveries, Hk|exact Hr].
Qed.

Lemma seen_ledger : ledger_wf (merchants (seen t d)) (merchant_orders (seen t d)) (refunds (seen t d)).
Proof.
  pose proof Ht as (_ & Hw & Hg & Ha). rewrite seen_merchants, seen_refunds.
  destruct (wf_ledger _ Hd) as [Hdo Hdr]. split.
  - intros k o Ho. seen_row Ho Ha; [by apply Hdo|].
    apply (order_wf_more (merchants (tx_view t)) _ (refunds (tx_view t))); [| |by apply (wf_ledger _ Hv)].
    + intros m [x Hx]. rewrite (flushes_merchants _ _ Hw) in Hx.
      eapply grows_lookup; [apply keeps_merchants, Hg|exact Hx].
    + intros rid r Hr. rewrite (flushes_refunds _ _ Hw) in Hr.
      eapply grows_eq; [apply keeps_refunds, Hg|exact Hr].
  - intros k r Hr. destruct (Hdr k r Hr) as ((o & Ho & Hs) & Ha' & Hp). split_and!; [|done..].
    destruct (keeps_orders _ _ seen_keeps _ o Ho) as (o' & Ho' & Hsteps).
    exists o'. split; [done|]. by destruct (order_steps_paid o o' Hsteps Hs).
Qed.

Lemma seen_index : index_wf (payments (seen t d)) (channels (seen t d)) (invoices (seen t d)).
Proof.
  pose proof Ht as (_ & _ & _ & Ha).
  destruct (wf_index _ Hd) as (Hp & Hc & Hi), (wf_index _ Hv) as (Hp' & Hc' & Hi').
  split_and!; intros k r Hr; (seen_row Hr Ha; eauto).
Qed.

Lemma seen_external : external_unique (seen t d).
Proof.
  intros k1 k2 o1 o2 e H1 H2 E1 E2 Em.
  destruct (seen_order k1 o1 H1) as (p1 & Hp1 & S1%order_steps_terms).
  destruct (seen_order k2 o2 H2) as (p2 & Hp2 & S2%order_steps_terms).
  injection S1 as ? ? _ _ _ _. injection S2 as ? ? _ _ _ _.
  apply (wf_external _ Hd k1 k2 p1 p2 e); congruence.
Qed.

Lemma seen_reports :
  reports_wf (merchants (seen t d)) (settlements (seen t d)) (reconciliation_runs (seen t d)).
Proof.
  pose proof Ht as (_ & Hw & Hg & Ha). rewrite seen_merchants.
  destruct (wf_reports _ Hd) as [Hs Hr].
  assert (reports_wf (merchants d) (settlements (tx_view t)) (reconciliation_runs (tx_view t)))
    as [Hs' Hr'].
  { apply (reports_wf_more (merchants (tx_view t))); [|apply wf_reports, Hv].
    intros j [x Hx]. rewrite (flushes_merchants _ _ Hw) in Hx.
    eapply grows_lookup; [apply keeps_merchants, Hg|exact Hx]. }
  split; intros k r Hk; (seen_row Hk Ha; eauto).
Qed.

Lemma seen_wf : wf (seen t d).
Proof.
  split; [rewrite seen_version; apply Hd|apply seen_outbox|apply seen_ledger|apply seen_index
    |apply seen_external|apply seen_reports].
Qed.
End commits.

Lemma flushes_seen t d :
  tx_ok wf keeps flushes t d -> wf (tx_view t) -> wf d -> wf (seen t d) ∧ flushes d (seen t d).
Proof. intros Ht Hv Hd. split; [by apply seen_wf|by apply seen_flushes]. Qed.
