(* ===== verification/Flush.v ===== *)
(** * A flush, statement by statement

    [tx_Save] cuts the flush of the indexer at its statements and says what it makes of
    the index ([flushed]), whatever other processes commit between them, as long as that
    leaves the index alone ([quietly]): every event is logged, every payment, channel
    and invoice of the change is upserted once, in order, on top of the table the flush
    found, and every order it found whose invoice the change pays is paid. *)

From stdpp Require Import relations.
From S2P Require Import Prelude Strconv GoTime External Schema Numeric Tables Ids Frame Transactions Interleave Rely Indexer IndexerFacts Http Webhook WebhookFacts Query Csv Merchant MerchantApi MerchantFacts Api System SystemFacts Moves.

Section flush.
Context {FT : Fibertypes} {FTL : FibertypesLaws} {KE : KanakaEvents} {PG : Postgres}
  {PGL : PostgresLaws} {CR : Crypto} {FR : FiberRPC}.

(** ** What it makes of the index *)

(** The events of [lg] are logged, those of [evs] are in the tables, and the orders [v] has
    with an invoice of [paid] are paid. *)
Record indexed (lg evs : list Event) (paid : list InvoicePaidData) (v v' : Database) : Prop := {
  indexed_keeps : keeps v v';
  indexed_logged e : e ∈ lg -> is_Some (events v' !! e_ID e);
  indexed_payments :
    payments v' = upserts payment_key payment_upsert (payments v) (omap received_of evs);
  indexed_channels :
    channels v' = upserts channel_key channel_upsert (channels v) (omap opened_of evs);
  indexed_invoices :
    invoices v' = upserts ip_PaymentHash invoice_upsert (invoices v) (omap paid_of evs);
  indexed_settled x k o : x ∈ paid -> 3 <= version v -> merchant_orders v !! k = Some o ->
    o_invoice_payment_hash o = Some (ip_PaymentHash x) ->
    ∃ o', merchant_orders v' !! k = Some o' ∧ o_status o' ≠ OPending
}.

Lemma quietly_indexed v v' : quietly v v' -> indexed [] [] [] v v'.
Proof.
  intros [Hk E]. unfold index in E. injection E as Ep Ec Ei _.
  split; [done|by intros e ?%not_elem_of_nil|done..|by intros x k o ?%not_elem_of_nil].
Qed.

(** An order keeps its terms, and stays paid. *)
Lemma keeps_order v v' k o :
  keeps v v' -> merchant_orders v !! k = Some o ->
  ∃ o', merchant_orders v' !! k = Some o' ∧ order_terms o' = order_terms o
    ∧ (o_status o ≠ OPending -> o_status o' ≠ OPending).
Proof.
  intros Hk Ho. destruct (keeps_orders _ _ Hk k o Ho) as (o' & Ho' & Hs). exists o'.
  split_and!; [done|by apply order_steps_terms|]. intros Hp. by destruct (order_steps_paid o o' Hs Hp).
Qed.

Lemma order_terms_hash o o' :
  order_terms o' = order_terms o -> o_invoice_payment_hash o' = o_invoice_payment_hash o.
Proof. unfold order_terms. congruence. Qed.

Lemma indexed_trans lg1 evs1 paid1 lg2 evs2 paid2 v v1 v2 :
  indexed lg1 evs1 paid1 v v1 -> indexed lg2 evs2 paid2 v1 v2 ->
  indexed (lg1 ++ lg2) (evs1 ++ evs2) (paid1 ++ paid2) v v2.
Proof.
  intros [Hk1 Hl1 Hp1 Hc1 Hi1 Hs1] [Hk2 Hl2 Hp2 Hc2 Hi2 Hs2]. split; [by etrans| |..].
  - intros e [He|He]%elem_of_app; [|by apply Hl2]. destruct (Hl1 e He) as [r Hr].
    eapply grows_lookup; [apply keeps_events, Hk2|exact Hr].
  - by rewrite Hp2, Hp1, omap_app, upserts_app.
  - by rewrite Hc2, Hc1, omap_app, upserts_app.
  - by rewrite Hi2, Hi1, omap_app, upserts_app.
  - intros x k o [Hx|Hx]%elem_of_app Hv Ho Hh.
    + destruct (Hs1 x k o Hx Hv Ho Hh) as (o1 & Ho1 & Hp).
      destruct (keeps_order _ _ _ _ Hk2 Ho1) as (o2 & Ho2 & _ & H2). exists o2. auto.
    + destruct (keeps_order _ _ _ _ Hk1 Ho) as (o1 & Ho1 & Ht & _).
      apply (Hs2 x k o1 Hx); [|done|by rewrite (order_terms_hash _ _ Ht)].
      pose proof (keeps_version _ _ Hk1). lia.
Qed.

Lemma indexed_after_quiet lg evs paid v v1 v2 :
  quietly v v1 -> indexed lg evs paid v1 v2 -> indexed lg evs paid v v2.
Proof. intros H1%quietly_indexed H2. apply (indexed_trans [] [] [] lg evs paid _ _ _ H1 H2). Qed.

Lemma indexed_then_quiet lg evs paid v v1 v2 :
  indexed lg evs paid v v1 -> quietly v1 v2 -> indexed lg evs paid v v2.
Proof.
  intros H1 H2%quietly_indexed. pose proof (indexed_trans _ _ _ _ _ _ _ _ _ H1 H2) as H.
  by rewrite !app_nil_r in H.
Qed.

(** All of one event. *)
Definition indexed_event (e : Event) : relation Database := indexed [e] [e] (omap paid_of [e]).

Lemma each_indexed evs v v' :
  each quietly indexed_event evs v v' -> indexed evs evs (omap paid_of evs) v v'.
Proof.
  revert v. induction evs as [|e evs IH]; intros v; cbn [each]; [apply quietly_indexed|].
  intros (v1 & H1 & H2%IH). pose proof (indexed_trans _ _ _ _ _ _ _ _ _ H1 H2) as H.
  by rewrite <- omap_app in H.
Qed.

(** The index after the flush of [evs], numbered [seq]. *)
Definition flushed (seq : Z) (evs : list Event) (v v' : Database) : Prop :=
  indexed evs evs (omap paid_of evs) v v' ∧ fst <$> ingest_checkpoint v' = Some seq.

Lemma flushed_then_quiet seq evs v v1 v2 :
  flushed seq evs v v1 -> quietly v1 v2 -> flushed seq evs v v2.
Proof.
  intros [H Hc] Hq. split; [by eapply indexed_then_quiet|].
  destruct Hq as [_ E]. unfold index in E. by injection E as _ _ _ ->.
Qed.

(** ** Its statements *)

Abbreviation in_flush := (tx_cut wf flushes quietly).

Definition still_bind {A B} {m : M A} {k : A -> M B} (c : in_flush quietly m)
    (ck : forall a, in_flush quietly (k a)) : in_flush quietly (m ≫= k) :=
  tx_bind wf flushes quietly quietly quietly quietly m k (fun v v1 v2 H1 H2 => transitivity H1 H2) c ck.

Definition tx_insert_event seq e : in_flush (indexed [e] [] []) (exec 1 (insert_event e seq)).
Proof.
  apply tx_exec; [intros t d [] d'; apply flush_insert_event|].
  intros v t d [] d' Hq Hd H. apply (indexed_after_quiet _ _ _ _ _ _ Hq).
  destruct (flush_insert_event e seq t d d' H Hd) as [_ Hf].
  unfold insert_event in H. destruct (pg_jsonb_in (e_Data e)); [|done].
  destruct (events d !! e_ID e) eqn:E; injection H as <-;
    (split; [apply Hf| |done..|by intros ? ? ? ?%not_elem_of_nil]); intros x ->%list_elem_of_singleton; [by rewrite E|].
  cbn. by rewrite lookup_insert_eq.
Defined.

Definition tx_settle x : in_flush (indexed [] [] [x])
  (exec 3 (fun _ db => Ok (tt, upd_orders (settle_row x <$> merchant_orders db) db))).
Proof.
  apply tx_exec; [intros t d [] d' [= <-]; apply flush_settle|].
  intros v t d [] d' Hq Hd [= <-]. apply (indexed_after_quiet _ _ _ _ _ _ Hq).
  destruct (flush_settle x t d Hd) as [_ Hf].
  split; [apply Hf|by intros ? ?%not_elem_of_nil|done..|].
  intros y k o ->%list_elem_of_singleton _ Ho Hh. exists (settle_row x o). cbn.
  rewrite lookup_fmap, Ho. split; [done|]. unfold settle_row.
  rewrite bool_decide_true by done. by case_bool_decide.
Defined.

(** The probe: orders are there when their migration is. *)
Definition tx_matchMerchantOrder x : in_flush (indexed [] [] [x]) (matchMerchantOrder x).
Proof.
  apply (tx_read _ _ _ (fun there : bool => if there then indexed [] [] [x] else quietly)).
  - intros v v1 v2 [] Hq [= Hv] H; [by eapply indexed_after_quiet|].
    apply Z.leb_gt in Hv. pose proof (keeps_version _ _ (quietly_keeps _ _ Hq)).
    assert (quietly v v2) as Hq' by by etrans. apply quietly_indexed in Hq' as [].
    split; [done..|]. intros y k o _ Hv'. lia.
  - intros []; [apply tx_wrapping, tx_settle|apply tx_mret; apply _].
Defined.

(** An upsert of the change's own payload. *)
Definition tx_upsert pre e (f : Database -> Database) :
  (forall t d, flush_move t d (f d)) ->
  (forall d, wf d -> keeps d (f d) -> indexed [] [e] [] d (f d)) ->
  in_flush (indexed [] [e] []) (wrapping pre (exec 1 (fun _ db => Ok (tt, f db)))).
Proof.
  intros Hf Hi. apply tx_wrapping, tx_exec.
  - intros t d [] d' [= <-]. apply Hf.
  - intros v t d [] d' Hq Hd [= <-]. apply (indexed_after_quiet _ _ _ _ _ _ Hq).
    apply Hi; [done|]. by apply (Hf t d Hd).
Defined.

(** The tables, where the type of the event is known and its payload is decoded. *)
Ltac one_table :=
  (split; [done|by intros ? ?%not_elem_of_nil|..|by intros ? ? ? ?%not_elem_of_nil]);
  unfold received_of, opened_of, paid_of; cbn;
  repeat case_match; simplify_eq/=; first [done | congruence].

Lemma paid_of_other e : bool_decide (e_Type e = InvoicePaid) = false -> omap paid_of [e] = [].
Proof. intros H. cbn. unfold paid_of. by rewrite H. Qed.

Definition tx_project_type e : in_flush (indexed [] [e] (omap paid_of [e])) (project_type e).
Proof.
  unfold project_type, projectInvoicePaid, projectPaymentReceived, projectChannelOpened.
  destruct (bool_decide (e_Type e = InvoicePaid)) eqn:E1.
  - apply tx_decode. intros x Hx. apply (tx_bind _ _ _ (indexed [] [e] []) (indexed [] [] [x]));
      [|apply tx_upsert; [intros t d; apply flush_upsert_invoice|]; intros d _ Hk; one_table
       |intros []; apply tx_matchMerchantOrder].
    intros v v1 v2 H1 H2. cbn. unfold paid_of at 1. rewrite E1, Hx.
    apply (indexed_trans _ _ _ _ _ _ _ _ _ H1 H2).
  - apply (tx_weaken _ _ _ (indexed [] [e] [])); [intros v v'; by rewrite (paid_of_other e E1)|].
    destruct (bool_decide (e_Type e = PaymentReceived)) eqn:E2;
      [|destruct (bool_decide (e_Type e = ChannelOpened)) eqn:E3].
    + apply tx_decode. intros x Hx.
      apply tx_upsert; [intros t d; apply flush_upsert_payment|]. intros d _ Hk. one_table.
    + apply tx_decode. intros x Hx.
      apply tx_upsert; [intros t d; apply flush_upsert_channel|]. intros d _ Hk. one_table.
    + apply (tx_weaken _ _ _ quietly); [|apply tx_mret; apply _]. intros v v' [Hk E].
      unfold index in E. injection E as Ep Ec Ei _. one_table.
Defined.

Definition tx_matchingEndpoints ty : in_flush quietly (matchingEndpoints ty).
Proof.
  unfold matchingEndpoints. apply still_bind; [apply tx_wrapping, tx_select; apply _|].
  intros []; [apply tx_wrapping, tx_select; apply _|apply tx_mret; apply _].
Defined.

Lemma each_quietly {A} (xs : list A) v v' : each quietly (fun _ => quietly) xs v v' -> quietly v v'.
Proof.
  revert v. induction xs as [|x xs IH]; intros v; cbn; [done|]. intros (v1 & H1 & H2%IH). by etrans.
Qed.

Definition tx_enqueueDeliveries e : in_flush quietly (enqueueDeliveries e).
Proof.
  unfold enqueueDeliveries. apply still_bind; [apply tx_matchingEndpoints|].
  intros [|ep eps]; [apply tx_mret; apply _|]. apply tx_decode. intros payload _.
  apply (tx_weaken _ _ _ _ _ _ (each_quietly (ep :: eps))).
    apply tx_for_each; [apply _|]. intros x.
  apply tx_wrapping, tx_exec; [intros t d [] d'; apply flush_insert_delivery|].
  intros v t d [] d' Hq Hd H. etrans; [exact Hq|].
  split; [apply (flush_insert_delivery e x payload t d d' H Hd)|].
  unfold insert_delivery in H. by ok_inv H.
Defined.

Definition tx_applyEvent seq e : in_flush (indexed_event e) (applyEvent seq e).
Proof.
  apply (tx_bind _ _ _ (indexed [e] [] []) (indexed [] [e] (omap paid_of [e])));
    [intros v v1 v2; apply (indexed_trans [e] [] [] [] [e])|apply tx_wrapping, tx_insert_event|].
  intros []. apply (tx_bind _ _ _ (indexed [] [e] (omap paid_of [e])) quietly);
    [intros v v1 v2; apply indexed_then_quiet|apply tx_project_type|].
  intros []. apply tx_enqueueDeliveries.
Defined.

Definition tx_Save (p : Projector) seq :
  in_flush (flushed seq (buf p)) (_ ← for_each (applyEvent seq) (buf p); save_checkpoint seq).
Proof.
  apply (tx_bind _ _ _ (indexed (buf p) (buf p) (omap paid_of (buf p))) (flushed seq []));
    [intros v v1 v2 H1 [H2 Hc]; split; [|exact Hc]| |].
  - pose proof (indexed_trans _ _ _ _ _ _ _ _ _ H1 H2) as H. by rewrite !app_nil_r in H.
  - eapply tx_weaken; [apply each_indexed|]. apply tx_for_each; [apply _|].
    intros e. apply tx_applyEvent.
  - intros []. apply tx_wrapping, tx_exec.
    + intros t d [] d' [= <-]. apply flush_checkpoint.
    + intros v t d [] d' Hq Hd [= <-]. split; [|done].
      apply (indexed_after_quiet _ _ _ _ _ _ Hq).
      split; [|by intros ? ?%not_elem_of_nil|done..|by intros ? ? ? ?%not_elem_of_nil].
      by apply (flush_checkpoint (Some (seq, t)) t d Hd).
Defined.
End flush.
