(* ===== verification/Threads.v ===== *)
(** * The operations of the system, cut at their statements

    Every action of every process is cut into a program ([cut_action]) whose statements
    are moves wherever they run; [thread] is that program.  All but a flush leave the
    index alone ([cut_quiet]); a flush is a transaction of many statements
    ([cut_flush]).  [live] are the configurations an empty database can get
    into: any number of actions in flight at once, their statements interleaved in any
    order, also with those of open flushes. *)

From stdpp Require Import relations.
From S2P Require Import Prelude Strconv GoTime External Schema Numeric Tables Ids Sql Indexer IndexerFacts Http Frame Transactions Interleave Rely Webhook WebhookFacts Query Csv Merchant MerchantApi MerchantFacts Api ApiFacts System SystemFacts Moves Commits Flush.

Section threads.
Context {FT : Fibertypes} {FTL : FibertypesLaws} {KE : KanakaEvents} {PG : Postgres}
  {PGL : PostgresLaws} {CR : Crypto} {FR : FiberRPC} {XL : Excelize} {TP : TimeParser}
  {JD : JsonDecoder} {CH : Chi} {CHL : ChiLaws}.
Implicit Types (w : world).

(** ** The outbox and the indexer *)

(** Cut at statements that leave the index alone and open no transaction that writes. *)
Abbreviation along := (cut wf keeps quietly eq).
Abbreviation quiet := (calm wf keeps quietly eq).

(** The change a flush indexes. *)
Definition flush_of (a : action) : option (Projector * Z) :=
  match a with ActOutbox (OpSave p seq) => Some (p, seq) | _ => None end.

Definition cut_op (o : op) : flush_of (ActOutbox o) = None -> quiet (run_op o).
Proof.
  intros Ho.
  destruct o as [s locked limit|did|did next msg|did| |req|req|req|req|p seq]; cbn [run_op].
  - unfold ClaimDue, scan_delivery. cutting. intros t d out d'. apply move_claim.
  - unfold MarkSucceeded. cutting. intros t d [] d'. apply move_mark_succeeded.
  - unfold MarkFailed. cutting. intros t d [] d'. apply move_mark_failed.
  - unfold MarkDead. cutting. intros t d [] d'. apply move_mark_dead.
  - unfold Requeue. cutting. intros t d n d' H. injection H as _ <-. apply move_requeue.
  - unfold create, or_error, NewWebhookSecret, randHex. cutting.
    intros t d [] d'. apply move_ep_upsert.
  - unfold remove, or_error. cutting. intros t d n d'. apply move_remove.
  - unfold test, or_error. cutting.
    + intros t d [] d'. apply move_test_event.
    + intros t d [] d'. apply move_test_delivery.
  - unfold replay, or_error. cutting. intros t d n d'. apply move_replay.
  - done.
Defined.

(** ** The merchant's methods *)

Definition cut_query_order P Φ
    (HP : forall d k r, merchant_orders d !! k = Some r -> P (k, r) = true -> Φ (view_order (k, r)) d)
    (HΦ : forall o, stable wf keeps (Φ o)) : along (fun _ => True) (query_order P) (on_answer Φ).
Proof.
  unfold query_order. eapply cut_then.
  - apply cut_attempt, (cut_select (fun x => Φ (view_order x))); [|auto].
    intros d x _ Hx. destruct (filter _ _) as [|y l] eqn:E; [done|]. injection Hx as <-.
    assert (y ∈ filter (fun x => P x = true) (scan_table (merchant_orders d))) as Hin
      by (rewrite E; left).
    destruct y as [k r]. apply list_elem_of_filter in Hin as [Hy Hin%elem_of_scan_table]. by apply HP.
  - intros [e|x]; cbn.
    + destruct (errors_Is e PgxErrNoRows); by apply cut_done.
    + apply cut_done. intros d _ H. by rewrite scanOrder_ok.
Defined.

(** An order that is answered as paid stays settled. *)
Definition cut_GetOrder_paid mid oid : along (fun _ => True) (GetOrder mid oid)
  (on_answer (fun o d => or_Status o = "paid" -> settled oid d)).
Proof.
  apply cut_query_order.
  - intros d k r Hk [E _]%andb_prop Hs%view_order_status. apply bool_decide_eq_true in E. cbn in E.
    subst k. exists r. split; [done|congruence].
  - intros o d d' Hd Hk H Hs. by apply (settled_stable oid d d' Hd Hk), H.
Defined.

Definition calm_query_order P : quiet (query_order P).
Proof. unfold query_order. cutting. Defined.

Definition calm_payerPubkey h : quiet (payerPubkey h).
Proof. unfold payerPubkey. cutting. Defined.

(** A refund relies on the order having been paid, which nobody undoes, and records the
    refund before it marks the order. *)
Definition cut_RefundOrder mid oid amt reason : quiet (RefundOrder mid oid amt reason).
Proof.
  apply (cut_post (on_answer (fun _ _ => True)) (fun _ _ _ _ => I)).
  unfold RefundOrder. apply (cut_then _ (cut_GetOrder_paid mid oid)). intros order.
  destruct (bool_decide (or_Status order = "paid")) eqn:E; [|by apply cut_done].
  apply bool_decide_eq_true in E. destruct (ParseAmount amt) as [a [e|]]; [by apply cut_done|].
  apply (cut_pre (settled oid)); [by auto|]. pose proof (settled_stable oid) as Hs.
  eapply cut_then; [apply (cut_keep Hs), calm_payerPubkey|]. intros payer.
  eapply cut_then; [apply (cut_keep Hs); cutting|]. intros pay.
  eapply cut_then; [apply (cut_keep Hs); cutting|]. intros rid.
  apply (cut_then (fun _ d => settled oid d ∧ refund_of oid rid d)).
  - apply cut_wrapping, cut_exec; [apply _|..].
    + intros t d [] d' Hd H. by eapply move_insert_refund.
    + intros _. apply stable_and; [exact Hs|apply refund_of_stable].
  - intros []. apply (cut_then (fun _ _ => True)); [|intros []; by apply cut_done].
    apply cut_wrapping, cut_exec; [apply _| |done]. intros t d a' d' [Hd Hr] H. injection H as _ <-.
    split; [by apply (move_mark_refunded oid rid)|done].
Defined.

Definition cut_CreateOrder mid ext amt asset : quiet (CreateOrder mid ext amt asset).
Proof.
  unfold CreateOrder, prior_order, race_winner, orderByExternalID, GetOrder.
  cutting; try apply calm_query_order. intros t d [] d'. apply move_insert_order.
Defined.

(** The merchant whose key was presented stays, and the net of a settlement row is what its
    gross and fees make it. *)
Lemma settlement_row_net period x r :
  settlement_row period x = Ok r ->
  let amount := fun s => BigInt (fst (ParseAmount s)) in
  amount (se_Gross r) < 2 ^ 128 ->
  amount (se_Net r) = Z.max 0 (amount (se_Gross r) - amount (se_Fees r)).
Proof.
  destruct x as [[asset gross] fees]. unfold settlement_row, mbind, result_bind.
  destruct (mustAmount (pg_numeric_out gross)) as [g|?|?]; [|done..].
  destruct (mustAmount (pg_numeric_out fees)) as [f|?|?]; [|done..]. intros [= <-].
  cbn [se_Gross se_Net se_Fees]. rewrite !Hex_BigInt, !ParseAmount_BigInt. cbn [fst].
  intros Hg. pose proof (BigInt_nonneg f).
  set (net := if _ <? 0 then 0 else _).
  assert (net = Z.max 0 (BigInt g - BigInt f)) as En.
  { unfold net. destruct (Z.ltb_spec (BigInt g - BigInt f) 0); lia. }
  destruct (ParseAmount_u128 net) as (n & E1 & E2); [lia|]. rewrite E1. cbn [fst]. by rewrite E2.
Qed.

Lemma scan_rows_answers {A B} (scan : A -> result B) l out :
  scan_rows scan l = Ok out -> Forall (fun r => ∃ x, scan x = Ok r) out.
Proof.
  revert out. induction l as [|x l IH]; intros out; cbn; [by intros [= <-]|].
  unfold mbind, result_bind. destruct (scan x) as [y|?|?] eqn:E; [|done..].
  destruct (scan_rows scan l) as [ys|?|?]; [|done..]. intros [= <-].
  constructor; [by exists x|by apply IH].
Qed.

Definition cut_persist mid period r :
  (∃ x, settlement_row period x = Ok r) ->
  along (has_merchant mid) (persist_settlement mid period r)
    (on_answer (fun _ => has_merchant mid)).
Proof.
  intros Hr. pose proof (has_merchant_stable mid) as Hs. unfold persist_settlement.
  eapply cut_then; [apply (cut_keep Hs); cutting|]. intros sid.
  apply cut_wrapping, cut_exec; [apply _| |intros _; exact Hs].
  intros t d [] d' Hm H. assert (move t d d') as Hmove.
  { eapply move_insert_settlement; [exact Hm| |exact H].
    destruct Hr as [x Hx]. by apply (settlement_row_net period x). }
  split; [exact Hmove|]. unfold insert_settlement in H. by ok_inv H.
Defined.

Definition cut_Settlement mid period :
  along (has_merchant mid) (Settlement mid period) (fun _ _ => True).
Proof.
  apply (cut_post (on_answer (fun _ _ => True)) (fun _ _ _ _ => I)).
  unfold Settlement. eapply cut_then;
    [apply (cut_keep (has_merchant_stable mid)); cutting|]. intros rows.
  apply cut_lift. intros out Hout%scan_rows_answers.
  eapply cut_then; [|intros ?; by apply (cut_done (Q := on_answer (fun _ _ => True)))].
  eapply cut_for_each; [apply cut_persist|exact Hout].
Defined.

Lemma reconcile_loop_counts rows m u ids disc m' u' ids' disc' :
  reconcile_loop rows m u ids disc = Ok (m', u', ids', disc') -> 0 <= m -> 0 <= u ->
  0 <= m' ∧ 0 <= u'.
Proof.
  revert m u ids disc. induction rows as [|[[oid []] a] rows IH]; intros m u ids disc; cbn.
  - by intros [= <- <- _ _].
  - intros H ? ?. eapply IH; [exact H|lia..].
  - unfold mbind, result_bind. destruct (mustAmount _); [|done..].
    intros H ? ?. eapply IH; [exact H|lia..].
Qed.

Definition cut_Reconcile mid period :
  along (has_merchant mid) (Reconcile mid period) (fun _ _ => True).
Proof.
  apply (cut_post (on_answer (fun _ _ => True)) (fun _ _ _ _ => I)).
  pose proof (has_merchant_stable mid) as Hs.
  unfold Reconcile. eapply cut_then; [apply (cut_keep Hs); cutting|]. intros rows.
  apply cut_lift. intros [[[m u] ids] disc] Hres.
  eapply cut_then; [apply (cut_keep Hs); cutting|]. intros rid.
  eapply cut_then; [|intros ?; by apply (cut_done (Q := on_answer (fun _ _ => True)))].
  apply cut_wrapping, (cut_exec (fun _ _ => True)); [|done].
  intros t d [] d' Hm H. split; [|done].
  destruct (reconcile_loop_counts _ _ _ _ _ _ _ _ _ Hres) as [? ?]; [done..|].
  eapply move_insert_recon; [exact Hm| | |exact H]; done.
Defined.

(** ** Requests *)

(** The middleware has found the merchant it passes on. *)
Definition cut_authMerchant {B} (next : string -> request B -> M response) req
    (c : forall mid, along (has_merchant mid) (next mid req) (fun _ _ => True))
  : quiet (authMerchant next req).
Proof.
  unfold authMerchant. destruct (bearer_token (authorization req)) as [token|]; [|cutting].
  apply (cut_bind (on_answer (fun r d =>
    match r with inr mid => has_merchant mid d | inl _ => True end))); [..|done|done].
  - apply cut_attempt, (cut_select has_merchant); [|apply has_merchant_stable].
    intros d mid _ H. destruct (filter _ _) as [|x l] eqn:E; [done|]. injection H as <-.
    assert (x ∈ filter (fun x => m_api_key_hash x.2 = HashAPIKey token) (scan_table (merchants d)))
      as Hin by (rewrite E; left).
    destruct x as [k m]. apply list_elem_of_filter in Hin as [_ Hin%elem_of_scan_table].
    by exists m.
  - intros [e|mid]; [|apply c]. apply cut_weak. cutting.
Defined.

(** Something for every route of a table. *)
Fixpoint for_routes (P : route -> Type) (l : list route) : Type :=
  match l with
  | [] => unit
  | x :: l' => P x * for_routes P l'
  end.

Definition for_routes_lookup (P : route -> Type) l : forall i x,
  for_routes P l -> l !! i = Some x -> P x.
Proof.
  induction l as [|y l IH]; intros [|i] x; cbn; [done..| |].
  - intros [H _] [= <-]. exact H.
  - intros [_ H]. by apply IH.
Defined.

(** A handler behind the middleware: a report, or one that does not rely on the merchant. *)
Definition cut_report {A} mid period (m : M A) (k : A -> response)
    (c : along (has_merchant mid) m (fun _ _ => True)) :
  along (has_merchant mid)
    (if bool_decide (period = EmptyString)
     then mret (Error StatusBadRequest "period (YYYY-MM) is required")
     else r ← attempt m; match r with inl e => mret (writeErr e) | inr a => mret (k a) end)
    (fun _ _ => True).
Proof.
  destruct (bool_decide _); [apply cut_weak; cutting|].
  apply cut_head; [|intros [e|a]; cutting].
  by apply (cut_answer attempt_answer (attempt_is_answer m) c).
Defined.

(** The merchant's methods, by name. *)
Ltac cut_method :=
  lazymatch goal with
  | |- calm _ _ _ _ (CreateOrder _ _ _ _) => apply cut_CreateOrder
  | |- calm _ _ _ _ (RefundOrder _ _ _ _) => apply cut_RefundOrder
  | |- calm _ _ _ _ (GetOrder _ _) => apply calm_query_order
  | |- _ => cut_step
  end.

Definition cut_routes r : for_routes (fun x => forall ps, quiet (rt_Handler x r ps)) routes.
Proof.
  repeat split; open_handler; intros ps; try (apply cut_authMerchant; intros mid;
      first [apply cut_report, cut_Settlement | apply cut_report, cut_Reconcile | apply cut_weak]);
    repeat cut_method; intros t d x d'.
  - destruct x. apply move_ep_upsert.
  - apply move_remove.
  - destruct x. apply move_test_event.
  - destruct x. apply move_test_delivery.
  - apply move_replay.
Defined.

Definition cut_unmatched mount r : quiet (unmatched mount r).
Proof.
  unfold unmatched. destruct (bool_decide (mount = Some 1%nat)); [|cutting].
  apply cut_authMerchant. intros mid. apply cut_weak. cutting.
Defined.

Definition cut_serve r : quiet (serve r).
Proof.
  unfold serve. destruct (find_route r) as [i ps|mount]; [|apply cut_unmatched].
  destruct (routes !! i) as [x|] eqn:E; [|apply cut_unmatched].
  apply (for_routes_lookup _ routes i x (cut_routes r) E).
Defined.

Definition ended {A} (_ : result A) : result unit := Ok tt.

(** The router changes what [serve] answers, nothing else. *)
Lemma request_answer r w :
  run_action (ActRequest r) w = (ended (fst (serve r w)), snd (serve r w)).
Proof.
  cbn [run_action]. destruct (Router_runs r w (serve_answers r)) as (a & Ha & _).
  by rewrite (bind_intro _ _ _ _ _ Ha).
Qed.

Definition cut_request r : quiet (run_action (ActRequest r)) :=
  cut_answer ended (request_answer r) (cut_serve r) (fun _ _ _ H => H).

(** ** Every action *)

Definition cut_Provision name asset : quiet (Provision name asset).
Proof.
  unfold Provision, NewAPIKey, randHex. cutting. intros t d [] d'. apply move_insert_merchant.
Defined.

Definition cut_migrate v : quiet (run_action (ActMigrate v)).
Proof.
  apply (calm_stmt (SGoose v)); [done|]. intros w. split; [apply move_migrate|done].
Defined.

Definition cut_quiet (a : action) : flush_of a = None -> quiet (run_action a) :=
  match a with
  | ActMigrate v => fun _ => cut_migrate v
  | ActOutbox o => cut_op o
  | ActRequest r => fun _ => cut_request r
  | ActProvision name asset => fun _ =>
      calm_bind (cut_Provision name asset) (fun _ => calm_mret tt)
  end.

(** A flush is one transaction. *)
Definition cut_flush p seq : calm wf keeps quietly flushes (run_action (ActOutbox (OpSave p seq))) :=
  calm_InTx (tx_Save p seq).

Definition cut_action (a : action) : calm wf keeps quietly flushes (run_action a).
Proof.
  destruct a as [v|[]|r|name asset]; try apply cut_flush;
    match goal with |- calm _ _ _ _ (run_action ?a) =>
      exact (calm_writes _ _ _ eq flushes _ (cut_quiet a eq_refl)) end.
Defined.

Definition thread (a : action) : prog unit := cut_prog (cut_action a).

(** A thread is the action: alone, from any world, it does what the action does. *)
Lemma thread_runs a w :
  run (thread a) None w = (fst (run_action a w), None, snd (run_action a w)).
Proof. apply cut_run. Qed.

(** Every action but a flush leaves the index alone, whoever else runs. *)
Lemma thread_is_quiet a d :
  flush_of a = None -> thread_safe wf keeps quietly eq d (None, thread a).
Proof.
  intros Ha. split; [done|]. exists (fun _ => True). split_and!; [done|done|].
  pose proof (cut_safe (cut_quiet a Ha)) as H. by destruct a as [v|[]|r|name asset].
Qed.

Lemma thread_flush p seq :
  thread (ActOutbox (OpSave p seq)) = in_tx (tx_body (tx_Save p seq)).
Proof. done. Qed.

Lemma thread_is_safe a d : thread_safe wf keeps quietly flushes d (None, thread a).
Proof. split; [done|]. exists (fun _ => True). split_and!; [done|done|apply cut_safe]. Qed.

(** ** Configurations of the system *)

Definition idle (d : Database) : config := Config [] d.
Definition sys_pool : relation config := pool_step thread.
Definition live (c : config) : Prop := rtc sys_pool (idle empty_db) c.

Lemma pool_safe_idle d : wf d -> pool_safe wf keeps quietly flushes (idle d).
Proof. by split. Qed.

Lemma pool_moves c c' : pool_safe wf keeps quietly flushes c -> rtc sys_pool c c' ->
  pool_safe wf keeps quietly flushes c' ∧ keeps (shared c) (shared c').
Proof.
  intros Hc Hs. eapply pool_steps_safe; [apply _..|apply flushes_seen|apply thread_is_safe
    |exact Hs|exact Hc].
Qed.

Lemma live_safe c : live c -> pool_safe wf keeps quietly flushes c.
Proof. intros H. by apply (pool_moves (idle empty_db)); [apply pool_safe_idle, wf_empty|]. Qed.

(** An action that runs undisturbed is one of the schedules. *)
Lemma undisturbed a ps w : closed ps ->
  rtc sys_pool (Config ps (w_db w))
    (Config (ps ++ [(None, Done (fst (run_action a w)))]) (w_db (snd (run_action a w)))).
Proof.
  intros Hc. eapply rtc_l; [apply (pool_start _ a)|].
  eapply (rtc_subrel statement_step); [intros c c'; apply pool_run|].
  pose proof (thread_alone (thread a) None (ps ++ [(None, thread a)]) (length ps) w) as H.
  rewrite thread_runs in H. rewrite insert_app_r_alt, Nat.sub_diag in H by done.
  apply H; [by rewrite list_lookup_middle|].
  rewrite delete_take_drop, take_app_length, drop_ge, app_nil_r by (rewrite length_app; cbn; lia).
  exact Hc.
Qed.

Lemma closed_more ps r : closed ps -> closed (ps ++ [(None, Done r)]).
Proof. intros H. apply Forall_app. split; [done|]. by apply Forall_singleton. Qed.

Lemma sequential_steps d d' ps : closed ps -> rtc sys_step d d' ->
  ∃ ps', closed ps' ∧ rtc sys_pool (Config ps d) (Config ps' d').
Proof.
  intros Hc H. revert ps Hc. induction H as [d|d1 d2 d3 [a w <-] _ IH]; intros ps Hc; [by exists ps|].
  destruct (IH _ (closed_more ps (fst (run_action a w)) Hc)) as (ps' & Hc' & Hs).
  exists ps'. split; [done|]. etrans; [by apply (undisturbed a ps w)|exact Hs].
Qed.

(** An action executed whole while no transaction is open, the others where they are. *)
Lemma pool_safe_action c a w :
  closed (threads c) -> pool_safe wf keeps quietly flushes c -> w_db w = shared c ->
  pool_safe wf keeps quietly flushes (Config (threads c) (w_db (snd (run_action a w)))).
Proof.
  destruct c as [ps d]. cbn. intros Hc Hs <-.
  destruct (pool_moves _ _ Hs (undisturbed a ps w Hc)) as [[Hwf Hps] _].
  split; [done|]. by apply Forall_app in Hps as [? _].
Qed.
End threads.
