(* ===== verification/Indexing.v ===== *)
(** * The indexer inside the running system

    One process feeds the changes of the node to the projector, one flush at a time, as
    the runner of the library does: never beyond the change after the checkpoint, and
    again from any earlier one after a failure or a restart ([index_step]).  Meanwhile
    every other operation of the system runs, its statements interleaved with those of
    the flush.  [follows] are the properties that a flush takes along with the checkpoint
    and no other statement touches; [indexing_inv] keeps one in every such run,
    [flush_state] saying how far the flush in flight has come and what it will leave when
    it commits.  Two are: [feeding], the tables are those of one pass over the changes up to what a
    replay writes again, and [pays], an order is paid by the change with its invoice. *)

From stdpp Require Import relations.
From S2P Require Import Prelude Strconv GoTime External Schema Numeric Tables Replay Ids Config Indexer IndexerFacts Ingest IngestFacts Sql Http Frame Transactions Interleave Rely Webhook WebhookFacts Query Csv Merchant MerchantApi MerchantFacts Api ApiFacts System SystemFacts Moves Commits Flush Threads.

Section indexing.
Context {FT : Fibertypes} {FTL : FibertypesLaws} {KE : KanakaEvents} {PG : Postgres}
  {PGL : PostgresLaws} {CR : Crypto} {FR : FiberRPC} {XL : Excelize} {TP : TimeParser}
  {JD : JsonDecoder} {CH : Chi} {CHL : ChiLaws}.
Implicit Types (w : world).
Context (cs : list change) (d0 : Database).

(** ** The system with its runner *)

(** The flush of a change by a projector with an empty buffer. *)
Definition feed_thread (chg : change) : prog unit :=
  thread (ActOutbox (OpSave (foldl Handle New (c_Events chg)) (c_Seq chg))).

(** A configuration, and the thread that runs the flush the runner waits for. *)
Inductive index_step : relation (config * option nat) :=
| index_spawn a ps d f :
    flush_of a = None ->
    index_step (Config ps d, f) (Config (ps ++ [(None, thread a)]) d, f)
| index_run c c' f : statement_step c c' -> index_step (c, f) (c', f)
| index_kill i y e ps d f :
    ps !! i = Some y ->
    index_step (Config ps d, f) (Config (<[i := (None, Done (Err e))]> ps) d, f)
| index_feed i j chg ps d :
    at_position cs j d -> (j <= length cs)%nat -> (i <= j)%nat -> cs !! i = Some chg ->
    index_step (Config ps d, None) (Config (ps ++ [(None, feed_thread chg)]) d, Some (length ps))
| index_end k y ps d :
    ps !! k = Some y -> finished y -> index_step (Config ps d, Some k) (Config ps d, None).

(** It is the system: what it does, the interleaved operations of [sys_pool] do. *)
Lemma index_step_pool z z' : index_step z z' -> rtc sys_pool (fst z) (fst z').
Proof.
  intros [a ps d f _|c c' f H|i y e ps d f Hi|i j chg ps d _ _ _ _|k y ps d _ _]; cbn.
  - apply rtc_once, pool_start.
  - by apply rtc_once, pool_run.
  - apply rtc_once. by eapply pool_kill.
  - apply rtc_once. apply (pool_start thread (ActOutbox (OpSave _ _))).
  - done.
Qed.

(** ** The index between flushes *)

Record feeding (m j : nat) (d : Database) : Prop := {
  feeding_reach : (m <= length cs)%nat ∧ (j <= m)%nat;
  feeding_position : at_position cs j d;
  feeding_logged i chg e : (i < m)%nat -> cs !! i = Some chg -> e ∈ c_Events chg ->
    is_Some (events d !! e_ID e);
  feeding_payments : table_inv payment_key payment_keep payment_fill payment_mk
    (received_in <$> cs) m j (payments d0) (payments d);
  feeding_channels : table_inv channel_key channel_keep (fun k _ => k) channel_mk
    (opened_in <$> cs) m j (channels d0) (channels d);
  feeding_invoices : table_inv ip_PaymentHash invoice_keep invoice_fill invoice_mk
    (paid_in_change <$> cs) m j (invoices d0) (invoices d)
}.

Lemma feeding_start : ingest_checkpoint d0 = None -> feeding 0 0 d0.
Proof.
  intros H. split; [lia| |intros; lia|intros k; apply row_inv_start..].
  unfold at_position. by rewrite H, take_0.
Qed.

Lemma feeding_quiet m j d d' : quietly d d' -> feeding m j d -> feeding m j d'.
Proof.
  intros [Hk E] [Hr Hp Hl H1 H2 H3]. unfold index in E. injection E as E1 E2 E3 E4.
  split; [done|by unfold at_position; rewrite E4| |by rewrite E1|by rewrite E2|by rewrite E3].
  intros i chg e Hi Hc He. destruct (Hl i chg e Hi Hc He) as [r Hr'].
  eapply grows_lookup; [apply keeps_events, Hk|exact Hr'].
Qed.

(** A flush moves it on, or back to a change that is fed again. *)
Lemma feeding_flush m j i chg d d' :
  feeding m j d -> (i <= j)%nat -> cs !! i = Some chg ->
  flushed (c_Seq chg) (c_Events chg) d d' -> feeding (max m (S i)) (S i) d'.
Proof.
  intros [[Hm Hj] _ Hl H1 H2 H3] Hi Hc [[Hk Hn E1 E2 E3 _] E4].
  pose proof (lookup_lt_Some _ _ _ Hc). split; [lia| | |rewrite E1|rewrite E2|rewrite E3].
  - unfold at_position. by rewrite E4, (last_take_S _ _ _ Hc).
  - intros i' chg' e Hi' Hc' He. destruct (decide (i' = i)) as [->|Hne].
    + apply Hn. congruence.
    + destruct (Hl i' chg' e) as [r Hr]; [lia|done..|].
      eapply grows_lookup; [apply keeps_events, Hk|exact Hr].
  - apply (table_inv_step _ _ _ _ _ payment_fills _ m j); [done..| |done].
    by rewrite list_lookup_fmap, Hc.
  - apply (table_inv_step _ _ _ _ _ channel_fills _ m j); [done..| |done].
    by rewrite list_lookup_fmap, Hc.
  - apply (table_inv_step _ _ _ _ _ invoice_fills _ m j); [done..| |done].
    by rewrite list_lookup_fmap, Hc.
Qed.

(** All the changes fed: the tables of one pass. *)
Lemma feeding_end d ts :
  feeding (length cs) (length cs) d -> length ts = length cs ->
  payments d = payments (one_pass d0 cs ts) ∧ channels d = channels (one_pass d0 cs ts)
  ∧ invoices d = invoices (one_pass d0 cs ts).
Proof.
  intros [_ _ _ H1 H2 H3] Hl. destruct (one_pass_tables d0 cs ts Hl) as (-> & -> & -> & _).
  split_and!.
  - apply (table_inv_end _ _ _ _ _ payment_fills). by rewrite length_fmap.
  - apply (table_inv_end _ _ _ _ _ channel_fills). by rewrite length_fmap.
  - apply (table_inv_end _ _ _ _ _ invoice_fills). by rewrite length_fmap.
Qed.

(** ** What follows the flushes *)

(** [F j] holds of the database while the checkpoint is at change [j]: no statement outside
    flushes makes it false, and a flush takes it along. *)
Record follows (F : nat -> Database -> Prop) : Prop := {
  follows_position j d : F j d -> (j <= length cs)%nat ∧ at_position cs j d;
  follows_quiet j d d' : quietly d d' -> F j d -> F j d';
  follows_flush j i chg d d' : F j d -> (i <= j)%nat -> cs !! i = Some chg ->
    flushed (c_Seq chg) (c_Events chg) d d' -> F (S i) d'
}.

Lemma feeding_follows : follows (fun j d => ∃ m, feeding m j d).
Proof.
  split.
  - intros j d [m H]. destruct (feeding_reach _ _ _ H). split; [lia|apply H].
  - intros j d d' Hq [m H]. exists m. by eapply feeding_quiet.
  - intros j i chg d d' [m H] Hi Hc Hf. exists (max m (S i)). by eapply feeding_flush.
Qed.

(** Order [k], whose invoice change [i] pays, is there, and paid once [i] is behind the
    checkpoint. *)
Definition pays (i : nat) (k : string) (terms : string * option string * option string
    * option Z * option string * Time) (j : nat) (d : Database) : Prop :=
  ((j <= length cs)%nat ∧ at_position cs j d) ∧ 3 <= version d
  ∧ ∃ o, merchant_orders d !! k = Some o ∧ order_terms o = terms
      ∧ ((j <= i)%nat ∨ o_status o ≠ OPending).

Lemma pays_follows i chg x k o0 :
  cs !! i = Some chg -> x ∈ paid_in_change chg ->
  o_invoice_payment_hash o0 = Some (ip_PaymentHash x) -> follows (pays i k (order_terms o0)).
Proof.
  intros Hc Hx Hh. split.
  - by intros j d [? _].
  - intros j d d' [Hk E] ([Hj Hp] & Hv & o & Ho & Ht & Hs).
    unfold index in E. injection E as _ _ _ E4. pose proof (keeps_version _ _ Hk).
    destruct (keeps_order _ _ k o Hk Ho) as (o' & Ho' & Ht' & Hs').
    split_and!; [done|by unfold at_position; rewrite E4|lia|]. exists o'.
    split_and!; [done|congruence|]. destruct Hs; auto.
  - intros j i' chg' d d' (_ & Hv & o & Ho & Ht & Hs) Hi' Hc' [[Hk _ _ _ _ Hpaid] E].
    pose proof (lookup_lt_Some _ _ _ Hc'). pose proof (keeps_version _ _ Hk).
    split_and!; [lia|by unfold at_position; rewrite E, (last_take_S _ _ _ Hc')|lia|].
    destruct (keeps_order _ _ k o Hk Ho) as (o' & Ho' & Ht' & Hs'). exists o'.
    split_and!; [done|congruence|]. destruct (decide (S i' <= i)%nat); [by left|right].
    destruct (decide (i' = i)) as [->|Hne]; [|destruct Hs; [lia|by apply Hs']].
    assert (chg' = chg) as -> by congruence.
    destruct (Hpaid x k o Hx Hv Ho) as (o1 & Ho1 & Hp).
    + by rewrite (order_terms_hash _ _ Ht).
    + congruence.
Qed.

Section invariant.
Context (F : nat -> Database -> Prop) (HF : follows F).

(** ** The flush in flight *)

(** Not begun, open and about to leave the index after change [i], or over. *)
Definition flush_state (j : nat) (d : Database) (y : tstate) : Prop :=
  match fst y with
  | None => is_done (snd y) ∨
      ∃ i chg, (i <= j)%nat ∧ cs !! i = Some chg ∧ snd y = feed_thread chg
  | Some t => index d = index (tx_base t)
      ∧ ∃ i, commits wf quietly (snd y) (tx_view t) (F (S i))
  end.

Lemma flush_state_quiet j d d' y : quietly d d' -> flush_state j d y -> flush_state j d' y.
Proof.
  intros [_ E] H. unfold flush_state in *. destruct (fst y); [|done]. destruct H. by rewrite E.
Qed.

(** What it will commit. *)
Lemma flush_commits j i chg d :
  F j d -> (i <= j)%nat -> cs !! i = Some chg ->
  commits wf quietly
    (pthen (tx_body (tx_Save (foldl Handle New (c_Events chg)) (c_Seq chg))) commit_after) d
    (F (S i)).
Proof.
  intros Hf Hi Hc. eapply commits_after; [apply tx_safe| |intros v1 v2; by apply follows_quiet].
  eapply tx_does_weaken; [apply tx_spec|]. intros [] v H. rewrite buf_Handle in H.
  by apply (follows_flush F HF j i chg d v).
Qed.

(** Threads that are not flushes see every transaction of theirs empty. *)
Lemma quiet_seen t d :
  tx_ok wf keeps eq t d -> wf (tx_view t) -> wf d -> wf (seen t d) ∧ d = seen t d.
Proof. destruct t as [n b v]. intros (_ & E & _) _ Hd. cbn in E. subst v. by rewrite seen_none. Qed.

(** One statement of a thread, as a function of its program. *)
Definition advance (x : session) (p : prog unit) w : tstate * world :=
  match p with
  | Done r => ((x, Done r), w)
  | Step s k => let '(r, x', w') := do_stmt s x w in ((x', k r), w')
  end.

(** The flush begins, or does not. *)
Lemma flush_begins j i chg w y w' :
  F j (w_db w) -> (i <= j)%nat -> cs !! i = Some chg ->
  advance None (feed_thread chg) w = (y, w') ->
  w_db w' = w_db w ∧ flush_state j (w_db w) y.
Proof.
  intros Hf Hi Hc. unfold feed_thread. rewrite thread_flush. cbn.
  destruct (next_fault w) as [f w1] eqn:E. apply next_fault_frame in E as [E _].
  destruct f; intros [= <- <-]; rewrite E; (split; [done|]); [|by left..].
  split; [done|]. exists i. by apply (flush_commits j).
Qed.

(** The flush executes a statement. *)
Lemma flush_state_step {X} (s : stmt X) x k w r x' w' j :
  do_stmt s x w = (r, x', w') -> wf (w_db w) ->
  thread_safe wf keeps quietly flushes (w_db w) (x, Step s k) ->
  F j (w_db w) -> flush_state j (w_db w) (x, Step s k) ->
  ∃ j', F j' (w_db w') ∧ flush_state j' (w_db w') (x', k r).
Proof.
  intros E Hwf Hsafe Hf Hst.
  destruct (thread_step_moves wf keeps quietly flushes flushes_seen s x k w r x' w' E Hwf Hsafe)
    as [_ Hsame]. destruct x as [t|]; unfold flush_state in Hst; cbn [fst snd] in Hst.
  - destruct Hst as [Hix [i Hc]]. destruct Hsafe as [[Ht Hv] (P & _ & _ & Hs & _)]. cbn in Ht, Hv.
    destruct (flushes_seen t (w_db w) Ht Hv Hwf) as [Hsw _].
    pose proof (commits_step wf flushes quietly s t k w r x' w' _ E Hs Hc
      (seen_quietly t (w_db w) Ht Hix) Hv Hsw) as H.
    destruct x' as [t'|].
    + destruct H as [Hc' Hb]. rewrite (Hsame (mk_is_Some _ _ eq_refl) (mk_is_Some _ _ eq_refl)).
      exists j. split; [done|]. split; [|by exists i]. destruct Hb as [-> | ->]; done.
    + destruct H as [Hd [-> |Hq]]; [exists j|exists (S i)]; (split; [done|by left]).
  - destruct Hst as [[]|(i & chg & Hi & Hc & Ey)].
    destruct (flush_begins j i chg w (x', k r) w' Hf Hi Hc) as [-> ?]; [|by exists j].
    rewrite <- Ey. cbn. by rewrite E.
Qed.

(** ** The invariant *)

Definition quiet_threads (ps : list tstate) (d : Database) (f : option nat) : Prop :=
  forall i y, ps !! i = Some y -> f ≠ Some i -> thread_safe wf keeps quietly eq d y.

Definition indexing_inv (z : config * option nat) : Prop :=
  let '(Config ps d, f) := z in
  wf d ∧ quiet_threads ps d f
  ∧ ∃ j, F j d ∧ forall k, f = Some k -> ∃ y, ps !! k = Some y ∧ flush_state j d y.

(** The others stay where they are when a thread moves. *)
Lemma others_stay x x' ps d d' i y' f :
  wf d' -> keeps d d' -> (is_Some x -> is_Some x' -> d' = d) ->
  Forall (grants x x' d d') (delete i ps) -> quiet_threads ps d f ->
  (f ≠ Some i -> thread_safe wf keeps quietly eq d' y') -> quiet_threads (<[i := y']> ps) d' f.
Proof.
  intros Hd' Hk Hsame Hgr Hps Hy n y Hn Hf.
  apply list_lookup_insert_Some in Hn as [(-> & <- & _)|[Hne Hn]]; [by apply Hy|].
  eapply thread_safe_move; [apply _|exact Hd'|exact Hk|by eapply granted_other|by apply (Hps n)].
Qed.

Lemma inv_run c c' f :
  pool_safe wf keeps quietly flushes c -> statement_step c c' ->
  indexing_inv (c, f) -> indexing_inv (c', f).
Proof.
  intros Hsafe Hstep. destruct Hstep as [i x X s k ps w r x' w' Hi E Hgr].
  destruct Hsafe as [_ Hall]. cbn in Hall. intros (Hwf & Hq & j & Hf & Hst).
  pose proof (lookup_lt_Some _ _ _ Hi) as Hlt.
  destruct (decide (f = Some i)) as [->|Hne].
  - rewrite list.Forall_lookup in Hall. specialize (Hall i _ Hi).
    destruct (thread_step_safe wf keeps quietly flushes flushes_seen s x k w r x' w' E Hwf Hall)
      as (Hwf' & _ & _).
    destruct (thread_step_moves wf keeps quietly flushes flushes_seen s x k w r x' w' E Hwf Hall)
      as [Hk Hsame].
    destruct (Hst i eq_refl) as (y & Hy & Hys).
    pose proof (inj Some _ _ (eq_trans (eq_sym Hy) Hi)) as ->.
    destruct (flush_state_step s x k w r x' w' j E Hwf Hall Hf Hys) as (j' & Hf' & Hst').
    split; [done|]. split; [by eapply others_stay|]. exists j'. split; [done|].
    intros n [= <-]. exists (x', k r). by rewrite list_lookup_insert_eq.
  - pose proof (Hq i _ Hi Hne) as Hy.
    destruct (thread_step_safe wf keeps quietly eq quiet_seen s x k w r x' w' E Hwf Hy)
      as (Hwf' & Hy' & Hmv).
    destruct (thread_step_moves wf keeps quietly eq quiet_seen s x k w r x' w' E Hwf Hy)
      as [Hk Hsame].
    assert (quietly (w_db w) (w_db w')) as Hqu.
    { destruct x, x'; [rewrite Hmv; reflexivity|rewrite <- Hmv; reflexivity|exact Hmv..]. }
    split; [done|]. split; [by eapply others_stay|]. exists j.
    split; [by eapply follows_quiet|]. intros n ->. destruct (Hst n eq_refl) as (y & Hn & Hs).
    exists y. split; [by rewrite list_lookup_insert_ne by congruence|by eapply flush_state_quiet].
Qed.

(** A flush that is over has no transaction open. *)
Lemma finished_quiet ps d k y :
  pool_safe wf keeps quietly flushes (Config ps d) -> ps !! k = Some y -> finished y ->
  thread_safe wf keeps quietly eq d y.
Proof.
  intros [_ Hall] Hk Hy. cbn in Hall. rewrite list.Forall_lookup in Hall.
  destruct (Hall k y Hk) as [_ (P & _ & _ & Hs)]. destruct y as [[t|] [r|]]; [|done| |done].
  - by destruct Hs.
  - apply thread_safe_done.
Qed.

Lemma inv_step z z' :
  NoDup (c_Seq <$> cs) -> pool_safe wf keeps quietly flushes (fst z) ->
  index_step z z' -> indexing_inv z -> indexing_inv z'.
Proof.
  intros Hnd Hsafe Hz.
  destruct Hz as [a ps d f Ha|c c' f H|i y e ps d f Hi|i j chg ps d Hp Hj Hij Hc|k y ps d Hk Hfin].
  - intros (Hwf & Hq & j & Hf & Hst). split_and!; [done| |].
    + intros n y [Hn|[_ Hn]]%lookup_app_Some Hne; [by eapply Hq|].
      apply list_lookup_singleton_Some in Hn as [_ <-]. by apply thread_is_quiet.
    + exists j. split; [done|]. intros k Hk. destruct (Hst k Hk) as (y & Hy & ?).
      exists y. split; [by apply lookup_app_l_Some|done].
  - by apply inv_run.
  - intros (Hwf & Hq & j & Hf & Hst). split_and!; [done| |].
    + intros n y' Hn Hne. apply list_lookup_insert_Some in Hn as [(_ & <- & _)|[_ Hn]];
        [apply thread_safe_done|by eapply Hq].
    + exists j. split; [done|]. intros k ->. destruct (Hst k eq_refl) as (y' & Hk & ?).
      destruct (decide (i = k)) as [->|Hne].
      * eexists. split; [by apply list_lookup_insert_eq, (lookup_lt_Some _ _ _ Hi)|by left].
      * exists y'. by rewrite list_lookup_insert_ne.
  - intros (Hwf & Hq & j' & Hf & Hst). split_and!; [done| |].
    + intros n y [Hn|[Hge Hn]]%lookup_app_Some Hne; [by eapply Hq|].
      apply list_lookup_singleton_Some in Hn as [Hn _]. destruct Hne. f_equal. lia.
    + exists j'. split; [done|]. intros k [= <-]. eexists. split; [by rewrite list_lookup_middle|].
      right. exists i, chg. split_and!; [|done..]. destruct (follows_position F HF _ _ Hf).
      by replace j' with j by by eapply at_position_inj.
  - intros (Hwf & Hq & j & Hf & Hst). split_and!; [done| |by exists j].
    intros n y' Hn _. destruct (decide (n = k)) as [->|Hne]; [|by apply (Hq n); [|congruence]].
    pose proof (inj Some _ _ (eq_trans (eq_sym Hk) Hn)) as <-. by eapply finished_quiet.
Qed.

Lemma inv_steps z z' :
  NoDup (c_Seq <$> cs) -> pool_safe wf keeps quietly flushes (fst z) ->
  rtc index_step z z' -> indexing_inv z -> indexing_inv z'.
Proof.
  intros Hnd Hs Hz. induction Hz as [|z1 z2 z3 H _ IH]; [done|]. intros Hi. apply IH.
  - by apply (pool_moves (fst z1)), index_step_pool.
  - by eapply inv_step.
Qed.

(** It can be started between flushes. *)
Lemma inv_start ps d j :
  wf d -> quiet_threads ps d None -> F j d -> indexing_inv (Config ps d, None).
Proof. intros Hwf Hq Hf. split_and!; [done..|]. by exists j. Qed.
End invariant.

(** ** Reachable configurations *)

Lemma indexing_safe z :
  wf d0 -> rtc index_step (idle d0, None) z -> pool_safe wf keeps quietly flushes (fst z).
Proof.
  intros Hwf Hz. assert (rtc sys_pool (idle d0) (fst z)) as H.
  { change (idle d0) with (fst (idle d0, @None nat)). induction Hz as [|z1 z2 z3 H _ IH]; [done|].
    etrans; [by apply index_step_pool|exact IH]. }
  by apply (pool_moves (idle d0)); [apply pool_safe_idle|].
Qed.

Lemma indexing_holds z :
  NoDup (c_Seq <$> cs) -> wf d0 -> ingest_checkpoint d0 = None ->
  rtc index_step (idle d0, None) z -> indexing_inv (fun j d => ∃ m, feeding m j d) z.
Proof.
  intros Hnd Hwf H0 Hz.
  apply (inv_steps _ feeding_follows (idle d0, None)); [done|by apply pool_safe_idle|done|].
  apply (inv_start _ _ _ 0); [done|done|]. exists 0%nat. by apply feeding_start.
Qed.
End indexing.
