(* ===== verification/SystemProps.v ===== *)
(** * What the running system guarantees

    The operations of every process in flight at once, their statements interleaved in
    any order: the shape of every database they reach, what none of them undoes, and that
    the delivery of a flushed event reaches a worker. *)

From stdpp Require Import relations.
From S2P Require Import Prelude Strconv GoTime External Schema Numeric Tables Ids Sql Indexer IndexerFacts IndexerTotal IndexerProps Http Frame Webhook WebhookFacts WebhookProps Query Csv Merchant MerchantApi MerchantFacts MerchantProps Api ApiFacts ApiProps Transactions Interleave Rely System SystemFacts Moves Commits Flush Threads.

Section theorems.
Context {FT : Fibertypes} {FTL : FibertypesLaws} {KE : KanakaEvents} {PG : Postgres}
  {PGL : PostgresLaws} {CR : Crypto} {FR : FiberRPC} {XL : Excelize} {TP : TimeParser}
  {JD : JsonDecoder} {CH : Chi} {CHL : ChiLaws}.
Implicit Types (w : world).

(** C1.  Every database the system can get into is well formed: however the statements of
    flushes, claims, marks, requests, provisionings and migrations are interleaved, at
    whatever times, also inside open flushes, whichever of them fail, lose their
    acknowledgement or are the last their process executes, deliveries are of existing
    events to existing endpoints with counted attempts, orders belong to merchants and
    carry an amount, a hash and, unless pending, a time of payment, refunded orders have a
    refund and refunds a paid order, the idempotency key is unique, no row of the index
    lacks the amount or the time its listing sorts by, and every stored report is of a
    merchant, a settlement's net being what its fees leave of its gross. *)
Theorem system_wf c : live c -> wf (shared c).
Proof. intros H. apply (live_safe c H). Qed.

(** C2.  The history of an order: whatever runs at the same time, from any database the
    system can get into on, an order is never lost, its terms (merchant, external id,
    invoice, amount, asset, creation) never change, its status only goes from pending to
    paid and from paid to refunded, and its time of payment, once set, stays. *)
Theorem order_history c c' k o :
  live c -> rtc sys_pool c c' -> merchant_orders (shared c) !! k = Some o ->
  ∃ o', merchant_orders (shared c') !! k = Some o' ∧ rtc order_step o o'
    ∧ order_terms o' = order_terms o
    ∧ (∀ t, o_paid_at o = Some t -> o_paid_at o' = Some t).
Proof.
  intros Hc Hs Ho. pose proof (live_safe c Hc) as Hsafe. pose proof Hsafe as [Hwf _].
  apply pool_moves in Hs as [_ Hk]; [|done].
  destruct (keeps_orders _ _ Hk k o Ho) as (o' & Ho' & Hsteps).
  exists o'. split_and!; [done|done|by apply order_steps_terms|].
  intros t Ht. destruct (proj1 (wf_ledger _ Hwf) k o Ho) as (_ & _ & _ & _ & _ & Hp & _).
  destruct (order_steps_paid o o' Hsteps) as [_ ->]; [|done].
  intros E. apply Hp in E. congruence.
Qed.

(** C3.  Nothing is undone: whatever runs at the same time, no event, merchant, refund or
    report is lost or rewritten, no delivery, order, subscription, payment, channel or
    invoice is lost, deliveries and orders move along their state machines, a
    subscription keeps its secret and a payment its time of creation, the attempt log is
    appended to, and the schema is never taken back. *)
Theorem system_keeps c c' : live c -> rtc sys_pool c c' -> keeps (shared c) (shared c').
Proof. intros Hc Hs. by apply pool_moves; [apply live_safe|]. Qed.

(** The delivery id of [e] and [k] is theirs alone: no other event of the change has the
    id of [e], no id has the NUL byte that separates the hashed parts (Postgres stores
    none), and no other event and subscription hash to the same ULID. *)
Record own_delivery (evs : list Event) (d : Database) (e : Event) (k : string) : Prop := {
  own_event : ∀ e', e' ∈ evs -> e_ID e' = e_ID e -> e' = e;
  own_event_text : ∀ e', e' ∈ evs -> str_mem NUL (e_ID e') = false;
  own_endpoint_text : ∀ k', is_Some (webhook_endpoints d !! k') -> str_mem NUL k' = false;
  own_hash : ∀ e' k', e' ∈ evs -> is_Some (webhook_endpoints d !! k') ->
    hash_id (derive_input "delivery" [e_ID e'; k']) = hash_id (derive_input "delivery" [e_ID e; k]) ->
    derive_input "delivery" [e_ID e'; k'] = derive_input "delivery" [e_ID e; k]
}.

Lemma string_app_inj_l (p a b : string) : p +:+ a = p +:+ b -> a = b.
Proof. induction p as [|c p IH]; [done|]. rewrite !string_app_cons. by intros [= ?%IH]. Qed.

Lemma own_delivery_id evs d e k e' k' :
  own_delivery evs d e k -> e ∈ evs -> is_Some (webhook_endpoints d !! k) ->
  e' ∈ evs -> is_Some (webhook_endpoints d !! k') ->
  DeriveWithPrefix "dlv_" "delivery" [e_ID e; k] = DeriveWithPrefix "dlv_" "delivery" [e_ID e'; k'] ->
  e' = e ∧ k' = k.
Proof.
  intros [H1 H2 H3 H4] He Hk He' Hk' E%string_app_inj_l.
  assert (derive_input "delivery" [e_ID e'; k'] = derive_input "delivery" [e_ID e; k]) as Ei
    by by apply H4.
  apply derive_input_inj in Ei as [_ [= E1 E2]]; [|done|done|repeat constructor; eauto..].
  split; [by apply H1|done].
Qed.

(** A flush with no fault in the way leaves the delivery of each of its events to each
    subscription. *)
Lemma flush_enqueues p seq w e k r :
  healthy w -> forallb event_ok (buf p) = true -> e ∈ buf p ->
  webhook_endpoints (w_db w) !! k = Some r -> ep_active r = true -> e_Type e ∈ ep_event_types r ->
  own_delivery (buf p) (w_db w) e k ->
  let did := DeriveWithPrefix "dlv_" "delivery" [e_ID e; k] in
  webhook_deliveries (w_db w) !! did = None ->
  ∃ w1 row, snd (Save p seq) w = (Ok tt, w1)
    ∧ webhook_deliveries (w_db w1) !! did = Some row
    ∧ snapshot row = (k, e_ID e, ep_url r, ep_secret r, payload_of e, w_now w)
    ∧ d_attempts row = 0.
Proof.
  intros Hw Hok He Hk Ha Ht Hown did Hn. pose proof Hw as [_ Hv].
  destruct (Save_runs p seq w Hw Hok) as (w1 & Hs & Hf). exists w1.
  pose proof (Save_ok_db _ _ _ _ Hs) as Hdb.
  assert (is_Some (webhook_deliveries (w_db w1) !! did)) as [row Hrow].
  { rewrite Hdb. apply (lookup_upserts_in delivery_key _ _ _ (e, MkSnapshot k (ep_url r) (ep_secret r))).
    apply elem_of_fanout; [done|]. cbn. split_and!; [by rewrite Hv|done|by exists r]. }
  pose proof Hrow as Hnew. rewrite Hdb in Hnew.
  apply project_delivery_new in Hnew as (e' & ep & Hin & Hid & Erow); [|done].
  apply elem_of_fanout in Hin as (_ & He' & r' & Hr' & Ha' & Ht' & Eep); [|done].
  destruct (own_delivery_id _ _ _ _ _ _ Hown He (mk_is_Some _ _ Hk) He' (mk_is_Some _ _ Hr') Hid)
    as [-> Ek].
  rewrite Ek in Hr'. assert (r' = r) as -> by congruence. exists row. split_and!; [done|done| |by rewrite Erow].
  by rewrite Erow, Eep, Ek.
Qed.

(** A claim with room answers every due delivery it finds unlocked. *)
Lemma claim_answers s locked limit w k row :
  wf (w_db w) -> w_faults w = [] -> version (w_db w) = latest_version ->
  webhook_deliveries (w_db w) !! k = Some row -> due (w_now w) row = true -> locked k = false ->
  Z.of_nat (length (candidates locked (w_now w) (w_db w))) <= limit ->
  ∃ out w', ClaimDue s locked limit w = (Ok out, w')
    ∧ claimed_delivery s (w_now w) (w_db w) (k, row) ∈ out.
Proof.
  intros Hwf Hf Hv Hrow Hdue Hlock Hl.
  destruct (ClaimDue_total s locked limit w) as (out & w' & Hc & _); [done|lia| |].
  { intros k0 r0 H0. by apply (proj1 (wf_outbox _ Hwf) k0 r0 H0). }
  exists out, w'. split; [done|]. apply ClaimDue_Ok in Hc as (_ & -> & _).
  apply list_elem_of_fmap. exists (k, row). split; [done|].
  change (claim_set locked limit (w_now w) (w_db w)) with
    (take (Z.to_nat limit) (candidates locked (w_now w) (w_db w))).
  rewrite take_ge by lia. by apply elem_of_candidates.
Qed.

(** C7.  From an event to a worker: when a change is flushed while no transaction is open,
    nothing fails and no other statement runs inside the flush, the flush commits, and
    for every event of the change and every active subscription to its type whose
    delivery id is theirs alone and not taken there is a delivery from then on, to that
    subscription, of that event, with that subscription's url and secret and the event's
    payload; it is still there whatever runs next, and a claim with no fault in its way,
    at any time it is due and unlocked, with room for the due unlocked deliveries,
    succeeds and answers it. *)
Theorem event_reaches_worker c p seq w e k r :
  live c -> closed (threads c) -> w_db w = shared c -> healthy w ->
  forallb event_ok (buf p) = true -> e ∈ buf p ->
  webhook_endpoints (w_db w) !! k = Some r -> ep_active r = true -> e_Type e ∈ ep_event_types r ->
  own_delivery (buf p) (w_db w) e k ->
  let did := DeriveWithPrefix "dlv_" "delivery" [e_ID e; k] in
  webhook_deliveries (w_db w) !! did = None ->
  ∃ w1, snd (Save p seq) w = (Ok tt, w1)
  ∧ ∀ c', rtc sys_pool (Config (threads c) (w_db w1)) c' ->
    ∃ row, webhook_deliveries (shared c') !! did = Some row
    ∧ ∀ s locked limit w2, w_db w2 = shared c' -> w_faults w2 = [] ->
      due (w_now w2) row = true -> locked did = false ->
      Z.of_nat (length (candidates locked (w_now w2) (shared c'))) <= limit ->
      ∃ out w3 x, ClaimDue s locked limit w2 = (Ok out, w3) ∧ x ∈ out
        ∧ D_ID x = did ∧ D_Attempts x = d_attempts row ∧ D_EndpointID x = k
        ∧ D_EventID x = e_ID e ∧ D_URL x = ep_url r ∧ D_Secret x = ep_secret r
        ∧ D_Payload x = payload_of e.
Proof.
  intros Hc Hcl E Hw Hok He Hk Ha Ht Hown did Hn.
  destruct (flush_enqueues p seq w e k r Hw Hok He Hk Ha Ht Hown Hn)
    as (w1 & row1 & Hs & Hrow & Hsnap & _).
  exists w1. split; [done|]. intros c' Hc'.
  pose proof (pool_safe_action c (ActOutbox (OpSave p seq)) w Hcl (live_safe c Hc) E) as Hc1.
  assert (version (w_db w1) = latest_version) as Hv1
    by (rewrite (Save_ok_db _ _ _ _ Hs); by destruct Hw).
  cbn [run_action run_op] in Hc1. rewrite Hs in Hc1. cbn [snd] in Hc1.
  destruct (pool_moves _ _ Hc1 Hc') as [[Hwf' _] Hkeep].
  destruct (keeps_deliveries _ _ Hkeep did row1 Hrow) as (row & Hrow' & Hsame).
  exists row. split; [done|]. intros s locked limit w2 E2 Hf Hdue Hlock Hsize.
  destruct (claim_answers s locked limit w2 did row) as (out & w3 & Hcla & Hx); rewrite ?E2; [done..| |done|done|done|done|].
  { pose proof (keeps_version _ _ Hkeep) as Hv. pose proof (wf_version _ Hwf') as Hv'. cbn in Hv. lia. }
  exists out, w3, (claimed_delivery s (w_now w2) (w_db w2) (did, row)).
  apply delivery_moves_snapshot in Hsame. rewrite Hsnap in Hsame. injection Hsame as ? ? ? ? ? _. by split_and!.
Qed.
End theorems.

(** ** A history: migrate, provision, subscribe, order, pay, refund *)

Module SystemSample.
Import Sample ApiSample MerchantSample.

Definition api_key : string := hex_EncodeToString (rand_Read 1 32).
Definition order_request : http_request :=
  MkHttp "POST" "/api/merchant/orders" [] ("Bearer " +:+ api_key) "ext-1|0x64|CKB".
Definition subscribe_request : http_request :=
  MkHttp "POST" "/api/webhooks" [] EmptyString "http://m|invoice.paid".
Definition refund_it : http_request :=
  MkHttp "POST" "/api/merchant/orders/0x2/refund" [] ("Bearer " +:+ api_key) "0x64|damaged".

Definition settle_it : http_request :=
  MkHttp "GET" "/api/merchant/settlements" [("period", "0001-01")] ("Bearer " +:+ api_key) EmptyString.

Definition received : Event :=
  MkEvent "evt_1" "payment.received" 5000000 "0xinv0" "0xinv0|0x64|CKB|02ab".
Definition paid_event : Event :=
  MkEvent "evt_2" "invoice.paid" 6000000 "0xinv0" "0xinv0|0x64|CKB|7000000".
Definition pay : Projector := MkProjector [received; paid_event].

(** The set-up, one action after another. *)
Definition runs (i n : nat) : list (choice action) := replicate n (Run i).
Definition before : list (choice action) :=
  [Spawn (ActMigrate 3)] ++ runs 0 1 ++ [Spawn (ActProvision "Acme" EmptyString)] ++ runs 1 4
  ++ [Spawn (ActRequest order_request)] ++ runs 2 7
  ++ [Spawn (ActRequest subscribe_request)] ++ runs 3 3.

(** A flush that pays the order, a refund that is authenticated between its statements
    and looks the order up after its commit, a second refund whose lookup runs before the
    payment of the first, and a settlement of the month. *)
Definition after : list (choice action) :=
  [Spawn (ActRequest refund_it); Spawn (ActRequest refund_it); Spawn (ActOutbox (OpSave pay 1))]
  ++ runs 6 9 ++ runs 4 1 ++ runs 6 5 ++ runs 4 2 ++ runs 5 3 ++ runs 4 4 ++ runs 5 4
  ++ [Spawn (ActRequest settle_it)] ++ runs 7 4.

Definition genesis : world := World empty_db [] 1000 0 [].
Definition ordered : world := Eval vm_compute in (play thread before ([], genesis)).2.
Definition ended_threads (n : nat) : list tstate := replicate n (None, Done (Ok tt)).
Definition refunded_world : world :=
  Eval vm_compute in (play thread after (ended_threads 4, ordered)).2.
Definition ordered_config : config := Config (ended_threads 4) (w_db ordered).
Definition refunded_config : config := Config (ended_threads 8) (w_db refunded_world).
End SystemSample.

Module SystemWitness.
Import Sample ApiSample MerchantSample SystemSample.

Lemma ordered_live : live ordered_config.
Proof.
  assert (play thread before ([], genesis) = (ended_threads 4, ordered)) as E by by_eval.
  pose proof (play_steps thread before ([], genesis)) as H. rewrite E in H. exact H.
Qed.

Lemma refunded_steps : rtc sys_pool ordered_config refunded_config.
Proof.
  assert (play thread after (ended_threads 4, ordered) = (ended_threads 8, refunded_world)) as E
    by by_eval.
  pose proof (play_steps thread after (ended_threads 4, ordered)) as H. rewrite E in H. exact H.
Qed.

(** In the middle of the flush its writes are its own: the order it has settled is still
    pending for everyone else. *)
Definition half_flush : list (choice action) := Spawn (ActOutbox (OpSave pay 1)) :: runs 4 9.
Definition status_of (d : Database) : option OrderStatus :=
  o_status <$> merchant_orders d !! "0x2".

Example flush_hidden_until_commit :
  let z := play thread half_flush (ended_threads 4, ordered) in
  status_of (w_db (snd z)) = Some OPending
  ∧ (y ← fst z !! 4%nat; t ← fst y; status_of (tx_view t)) = Some OPaid.
Proof. split; by_eval. Qed.

Lemma system_wf_witness :
  wf (w_db refunded_world) ∧ size (refunds (w_db refunded_world)) = 2%nat
  ∧ size (settlements (w_db refunded_world)) = 1%nat.
Proof.
  split; [|split; by_eval]. apply (system_wf refunded_config).
  exact (transitivity (R := rtc sys_pool) ordered_live refunded_steps).
Defined.

Definition the_order : OrderRow :=
  MkOrderRow "0x0" (Some "ext-1") (Some "0xinv0") (Some 100) (Some "CKB") OPending 1000 None.

Lemma order_history_witness :
  ∃ o', merchant_orders (w_db refunded_world) !! "0x2" = Some o' ∧ rtc order_step the_order o'
    ∧ o_status o' = ORefunded.
Proof.
  destruct (order_history ordered_config refunded_config "0x2" the_order
    ordered_live refunded_steps) as (o' & Ho & Hs & _); [by_eval|].
  exists o'. split_and!; [exact Ho|exact Hs|].
  assert (o_status <$> merchant_orders (w_db refunded_world) !! "0x2" = Some ORefunded) as E
    by by_eval.
  cbn [shared refunded_config] in Ho. rewrite Ho in E. injection E as E. exact E.
Defined.

Lemma system_keeps_witness :
  webhook_endpoints (w_db ordered) ≠ ∅ ∧ keeps (w_db ordered) (w_db refunded_world).
Proof.
  split; [intros E; apply (f_equal size) in E; vm_compute in E; discriminate E|].
  exact (system_keeps ordered_config refunded_config ordered_live refunded_steps).
Defined.

Definition the_endpoint : EndpointRow :=
  MkEndpointRow None "http://m" (default EmptyString (ep_secret <$> webhook_endpoints (w_db ordered)
    !! endpoint_id "http://m")) ["invoice.paid"] true 1000.

(** The flush, then a refund, then a claim. *)
Definition refund_alone : list (choice action) := Spawn (ActRequest refund_it) :: runs 4 8.
Definition flushed : world := Eval vm_compute in snd (snd (Save pay 1) ordered).
Definition late : world :=
  Eval vm_compute in at_time 2000 (play thread refund_alone (ended_threads 4, flushed)).2.
Definition the_delivery : string :=
  DeriveWithPrefix "dlv_" "delivery" ["evt_2"; endpoint_id "http://m"].

Lemma late_steps :
  rtc sys_pool (Config (ended_threads 4) (w_db flushed)) (Config (ended_threads 5) (w_db late)).
Proof.
  assert (play thread refund_alone (ended_threads 4, flushed) = (ended_threads 5, at_time 1000 late))
    as E by by_eval.
  pose proof (play_steps thread refund_alone (ended_threads 4, flushed)) as H.
  rewrite E in H. exact H.
Qed.

(** The two events of the change and the one subscription hash to different ids. *)
Lemma the_delivery_own :
  own_delivery (buf pay) (w_db ordered) paid_event (endpoint_id "http://m").
Proof.
  assert (∀ k, is_Some (webhook_endpoints (w_db ordered) !! k) -> k = endpoint_id "http://m") as Hk.
  { intros k [r Hr].
    assert (webhook_endpoints (w_db ordered) = {[ endpoint_id "http://m" := the_endpoint ]}) as E
      by by_eval.
    rewrite E in Hr. by apply lookup_singleton_Some in Hr as [<- _]. }
  assert (∀ e, e ∈ buf pay -> e = received ∨ e = paid_event) as He.
  { intros e [->|[->|[]%not_elem_of_nil]%elem_of_cons]%elem_of_cons; [by left|by right]. }
  split.
  - intros e [-> | ->]%He E; [discriminate E|reflexivity].
  - intros e [-> | ->]%He; by_eval.
  - intros k ->%Hk. by_eval.
  - intros e k [-> | ->]%He ->%Hk E; [|reflexivity]. vm_compute in E. discriminate E.
Qed.

Lemma event_reaches_worker_witness :
  ∃ out w3 x, ClaimDue NewStore (fun _ => false) 10 late = (Ok out, w3)
    ∧ x ∈ out ∧ D_URL x = "http://m" ∧ D_Payload x = payload_of paid_event.
Proof.
  destruct (event_reaches_worker ordered_config pay 1 ordered paid_event (endpoint_id "http://m")
    the_endpoint) as (w1 & Hs & H).
  - exact ordered_live.
  - by repeat constructor.
  - reflexivity.
  - split; by_eval.
  - by_eval.
  - right. left.
  - by_eval.
  - reflexivity.
  - left.
  - exact the_delivery_own.
  - by_eval.
  - assert (snd (Save pay 1) ordered = (Ok tt, flushed)) as E by by_eval.
    rewrite E in Hs. injection Hs as <-.
    destruct (H _ late_steps) as (row & Hrow & Hc).
    assert (due 2000 <$> webhook_deliveries (w_db late) !! the_delivery = Some true) as Hdue
      by by_eval.
    assert (length (candidates (fun _ => false) 2000 (w_db late)) = 1%nat) as Hsize by by_eval.
    change (webhook_deliveries (w_db late) !! the_delivery = Some row) in Hrow.
    rewrite Hrow in Hdue. injection Hdue as Hdue.
    destruct (Hc NewStore (fun _ => false) 10 late) as (out & w3 & x & Hcl & Hx & _ & _ & _ & _ & Hurl & _ & Hpay).
    + reflexivity.
    + reflexivity.
    + exact Hdue.
    + reflexivity.
    + change (w_now late) with 2000. cbn [shared]. rewrite Hsize. lia.
    + exists out, w3, x. exact (conj Hcl (conj Hx (conj Hurl Hpay))).
Defined.
End SystemWitness.
