(* ===== verification/IndexingProps.v ===== *)
(** * Exactly-once indexing in the running system

    What the index and the orders it settles hold while every process runs, and the
    schedule the witnesses play: flushes that are interrupted, killed and fed again, while
    a refund, a settlement and a claim run between their statements. *)

From stdpp Require Import relations.
From S2P Require Import Prelude Strconv GoTime External Schema Numeric Tables Replay Ids Config Indexer IndexerFacts Ingest IngestFacts Sql Http Frame Transactions Interleave Rely Webhook WebhookFacts Query Csv Merchant MerchantApi MerchantFacts MerchantProps Api ApiFacts ApiProps System SystemFacts Moves Commits Flush Threads SystemProps Indexing.

Section theorems.
Context {FT : Fibertypes} {FTL : FibertypesLaws} {KE : KanakaEvents} {PG : Postgres}
  {PGL : PostgresLaws} {CR : Crypto} {FR : FiberRPC} {XL : Excelize} {TP : TimeParser}
  {JD : JsonDecoder} {CH : Chi} {CHL : ChiLaws}.
Implicit Types (w : world).

(** C4.  Exactly-once indexing in the running system: while one runner feeds the changes to
    the projector and requests, claims, marks, sweeps, provisionings and migrations are
    interleaved with the statements of its flushes, also those that read or write the same
    tables, whichever of them fail, lose their acknowledgement or are killed and fed again
    from any earlier change, every event of the changes up to the checkpoint is logged, and
    once the checkpoint is at the last change the payments, channels and invoices are
    exactly those of one pass that flushed every change once, in order, alone. *)
Theorem indexing_exactly_once cs d0 c f j ts :
  NoDup (c_Seq <$> cs) -> wf d0 -> ingest_checkpoint d0 = None ->
  rtc (index_step cs) (idle d0, None) (c, f) ->
  (j <= length cs)%nat -> at_position cs j (shared c) -> length ts = length cs ->
  (∀ i chg e, (i < j)%nat -> cs !! i = Some chg -> e ∈ c_Events chg ->
     is_Some (events (shared c) !! e_ID e))
  ∧ (j = length cs ->
     payments (shared c) = payments (one_pass d0 cs ts)
     ∧ channels (shared c) = channels (one_pass d0 cs ts)
     ∧ invoices (shared c) = invoices (one_pass d0 cs ts)).
Proof.
  intros Hnd Hwf H0 Hz Hj Hp Hts. destruct c as [ps d].
  destruct (indexing_holds cs d0 _ Hnd Hwf H0 Hz) as (_ & _ & j' & [m Hf] & _). cbn in Hp |- *.
  pose proof (feeding_reach _ _ _ _ _ Hf) as [? ?].
  assert (j' = j) as -> by (eapply at_position_inj; [done|lia|done|apply Hf|done]). split.
  - intros i chg e Hi. apply (feeding_logged _ _ _ _ _ Hf). lia.
  - intros ->. assert (m = length cs) as -> by lia. by apply feeding_end.
Qed.

(** C5.  No payment is missed: an order that is there before the change with its
    invoice.paid event is fed is paid or refunded, with the terms it had and a time of
    payment, as soon as the checkpoint is behind that change, whatever other operations ran
    between the statements of the flushes and however often the flushes failed, were killed
    or were fed again. *)
Theorem payment_settles_order cs d0 c1 c2 f j1 j2 i chg e x k o :
  NoDup (c_Seq <$> cs) -> wf d0 -> ingest_checkpoint d0 = None ->
  rtc (index_step cs) (idle d0, None) (c1, None) ->
  at_position cs j1 (shared c1) -> (j1 <= i)%nat ->
  3 <= version (shared c1) -> merchant_orders (shared c1) !! k = Some o ->
  cs !! i = Some chg -> e ∈ c_Events chg ->
  e_Type e = InvoicePaid -> unmarshal_InvoicePaid (e_Data e) = Ok x ->
  o_invoice_payment_hash o = Some (ip_PaymentHash x) ->
  rtc (index_step cs) (c1, None) (c2, f) ->
  at_position cs j2 (shared c2) -> (i < j2 <= length cs)%nat ->
  ∃ o', merchant_orders (shared c2) !! k = Some o' ∧ order_terms o' = order_terms o
    ∧ (o_status o' = OPaid ∨ o_status o' = ORefunded) ∧ is_Some (o_paid_at o').
Proof.
  intros Hnd Hwf H0 Hz1 Hp1 Hj1 Hv Ho Hc He Hty Hx Hh Hz2 Hp2 Hj2.
  pose proof (lookup_lt_Some _ _ _ Hc).
  assert (x ∈ paid_in_change chg) as Hpaid.
  { apply list_elem_of_omap. exists e. split; [done|]. unfold paid_of.
    by rewrite bool_decide_true, Hx by done. }
  pose proof (indexing_safe cs d0 _ Hwf Hz1) as Hsafe. destruct c1 as [ps1 d1].
  destruct (indexing_holds cs d0 _ Hnd Hwf H0 Hz1) as (Hwf1 & Hq1 & _).
  assert (indexing_inv cs (pays cs i k (order_terms o)) (c2, f)) as Hinv.
  { eapply (inv_steps _ _ (pays_follows cs i chg x k o Hc Hpaid Hh)); [done|exact Hsafe|exact Hz2|].
    apply (inv_start _ _ _ _ j1); [done|done|]. split_and!; [lia|done|done|].
    exists o. auto. }
  destruct c2 as [ps2 d2]. destruct Hinv as (Hwf2 & _ & j & ([Hj Hp] & _ & o' & Ho' & Ht & Hs) & _).
  assert (j = j2) as -> by (eapply at_position_inj; [done|done| |done|done]; lia).
  exists o'. split_and!; [done|done|..];
    destruct (proj1 (wf_ledger _ Hwf2) k o' Ho') as (_ & _ & _ & _ & Hne & Hpa & _).
  - destruct (o_status o'); tauto || (destruct Hs; [lia|done]).
  - destruct (o_paid_at o'); [by eexists|]. destruct Hs as [?|Hs]; [lia|]. destruct Hs. by apply Hpa.
Qed.

(** ** Schedules of the system with its runner *)

Inductive index_choice :=
| Other (c : choice action)
| Kill (i : nat)
| Feed (i j : nat)
| Over.

#[export] Instance at_position_dec cs j d : Decision (at_position cs j d).
Proof. unfold at_position. apply _. Defined.

Definition played : Type := list tstate * world * option nat.

Definition index_play_one (cs : list change) (z : played) (c : index_choice) : played :=
  let '(ps, w, f) := z in
  match c with
  | Other (Spawn a) =>
      match flush_of a with Some _ => z | None => (ps ++ [(None, thread a)], w, f) end
  | Other (Run i) =>
      match ps !! i with
      | Some (x, Step s k) =>
          let '(r, x', w') := do_stmt s x w in
          if decide (Forall (grants x x' (w_db w) (w_db w')) (delete i ps))
          then (<[i := (x', k r)]> ps, w', f) else z
      | _ => z
      end
  | Kill i =>
      match ps !! i with
      | Some _ => (<[i := (None, Done (Err (ESent ContextCanceled)))]> ps, w, f)
      | None => z
      end
  | Feed i j =>
      match f, cs !! i with
      | None, Some chg =>
          if decide (at_position cs j (w_db w) ∧ (j <= length cs)%nat ∧ (i <= j)%nat)
          then (ps ++ [(None, feed_thread chg)], w, Some (length ps)) else z
      | _, _ => z
      end
  | Over =>
      match f with
      | Some k =>
          match ps !! k with
          | Some y => if decide (finished y) then (ps, w, None) else z
          | None => z
          end
      | None => z
      end
  end.

Definition index_play cs (l : list index_choice) (z : played) : played :=
  foldl (index_play_one cs) z l.

Definition played_config (z : played) : config * option nat :=
  (Config (fst (fst z)) (w_db (snd (fst z))), snd z).

Lemma index_play_step cs z c :
  rtc (index_step cs) (played_config z) (played_config (index_play_one cs z c)).
Proof.
  destruct z as [[ps w] f], c as [[a|i]|i|i j|]; cbn.
  - destruct (flush_of a) eqn:E; [done|]. by apply rtc_once, index_spawn.
  - destruct (ps !! i) as [[x [r|X s k]]|] eqn:E; [done| |done].
    destruct (do_stmt s x w) as [[r x'] w'] eqn:Es. case_decide as Hg; [|done].
    apply rtc_once, index_run. by eapply statement_step_run.
  - destruct (ps !! i) eqn:E; [|done]. apply rtc_once. by eapply index_kill.
  - destruct f; [done|]. destruct (cs !! i) eqn:E; [|done]. case_decide as Hg; [|done].
    destruct Hg as (? & ? & ?). apply rtc_once. by eapply index_feed.
  - destruct f as [k|]; [|done]. destruct (ps !! k) eqn:E; [|done]. case_decide; [|done].
    apply rtc_once. by eapply index_end.
Qed.

Lemma index_play_steps cs l z :
  rtc (index_step cs) (played_config z) (played_config (index_play cs l z)).
Proof.
  revert z. induction l as [|c l IH]; intros z; [done|]. etrans; [apply index_play_step|apply IH].
Qed.
End theorems.

Module IndexingWitness.
Import Sample ApiSample MerchantSample SystemSample SystemWitness.

Definition node_changes : list change := [MkChange 7 [received]; MkChange 9 [paid_event]].
Definition turns (i n : nat) : list index_choice := replicate n (Other (Run i)).

(** The first change is fed, its process dies in the middle of the transaction and it is
    fed again; the second is, a restart goes back to the first, and the second once more.
    A refund is looked up and paid out, a month settled and a batch claimed meanwhile. *)
Definition interruptions : list index_choice :=
  [Feed 0 0] ++ turns 0 4 ++ [Other (Spawn (ActRequest refund_it))] ++ turns 1 1
  ++ [Kill 0; Over; Feed 0 0] ++ turns 2 7 ++ [Over; Feed 1 1] ++ turns 3 6
  ++ [Other (Spawn (ActRequest settle_it))] ++ turns 4 1 ++ turns 3 4 ++ [Over; Feed 0 2]
  ++ turns 5 3 ++ turns 1 7 ++ turns 5 4 ++ [Over; Feed 1 1] ++ turns 6 5
  ++ [Other (Spawn (ActOutbox (OpClaim NewStore (fun _ => false) 10)))] ++ turns 7 1 ++ turns 4 3
  ++ turns 6 5 ++ [Over].

Definition start : played := ([], ordered, None).
Definition indexed_world : world :=
  Eval vm_compute in (index_play node_changes interruptions start).1.2.
Definition outcomes : list tstate :=
  (fun i => (None, Done (if bool_decide (i = 0%nat) then Err (ESent ContextCanceled) else Ok tt)))
    <$> seq 0 8.

Lemma interruptions_steps :
  rtc (index_step node_changes) (idle (w_db ordered), None)
    (Config outcomes (w_db indexed_world), None).
Proof.
  assert (index_play node_changes interruptions start = (outcomes, indexed_world, None)) as E
    by by_eval.
  pose proof (index_play_steps node_changes interruptions start) as H. rewrite E in H. exact H.
Qed.

Lemma indexing_exactly_once_witness :
  let d := w_db indexed_world in
  let d1 := one_pass (w_db ordered) node_changes [1000; 1000] in
  (size (payments d), size (invoices d), size (refunds d), size (settlements d)) = (1, 1, 1, 1)%nat
  ∧ is_Some (events d !! "evt_1") ∧ is_Some (events d !! "evt_2")
  ∧ payments d = payments d1 ∧ channels d = channels d1 ∧ invoices d = invoices d1.
Proof.
  destruct (indexing_exactly_once node_changes (w_db ordered)
    (Config outcomes (w_db indexed_world)) None 2 [1000; 1000]) as [Hlog Htables].
  - apply list.NoDup_cons. split; [by intros ?%list_elem_of_singleton|apply list.NoDup_singleton].
  - apply (system_wf ordered_config), ordered_live.
  - by_eval.
  - exact interruptions_steps.
  - cbn. lia.
  - unfold at_position. by_eval.
  - reflexivity.
  - split; [by_eval|]. split_and!; [| |apply Htables; reflexivity..].
    + exact (Hlog 0%nat _ received ltac:(lia) eq_refl ltac:(left)).
    + exact (Hlog 1%nat _ paid_event ltac:(lia) eq_refl ltac:(left)).
Defined.

Definition paid_payload : InvoicePaidData :=
  MkInvoicePaidData "0xinv0" (fst (ParseAmount "0x64")) "CKB" 7000000.

Lemma payment_settles_order_witness :
  ∃ o', merchant_orders (w_db indexed_world) !! "0x2" = Some o'
    ∧ order_terms o' = order_terms the_order ∧ o_status o' ≠ OPending.
Proof.
  destruct (payment_settles_order node_changes (w_db ordered) (idle (w_db ordered))
    (Config outcomes (w_db indexed_world)) None 0 2 1 (MkChange 9 [paid_event]) paid_event
    paid_payload "0x2" the_order) as (o' & Ho & Ht & Hs & _).
  - apply list.NoDup_cons. split; [by intros ?%list_elem_of_singleton|apply list.NoDup_singleton].
  - apply (system_wf ordered_config), ordered_live.
  - by_eval.
  - reflexivity.
  - unfold at_position. by_eval.
  - lia.
  - cbn. lia.
  - by_eval.
  - reflexivity.
  - left.
  - reflexivity.
  - by_eval.
  - reflexivity.
  - exact interruptions_steps.
  - unfold at_position. by_eval.
  - cbn. lia.
  - exists o'. split_and!; [exact Ho|exact Ht|]. destruct Hs as [E|E]; rewrite E; discriminate.
Defined.
End IndexingWitness.
