(* ===== verification/LiveProps.v ===== *)
(** * Paging through tables that are being written

    The listings of payments and events, each page read while the rest of the system
    runs: the client's walk ends, repeats nothing and misses nothing that was there. *)

From stdpp Require Import relations.
From S2P Require Import Prelude Strconv GoTime External Schema Numeric Tables Sql Ids Indexer IndexerTotal Http Frame Transactions Interleave Rely Webhook WebhookFacts Query QueryApi QueryFacts QueryProps QueryLive Csv Merchant MerchantApi MerchantFacts MerchantProps Api ApiFacts ApiProps System SystemFacts Moves Commits Flush Threads SystemProps.

Section theorems.
Context {FT : Fibertypes} {FTL : FibertypesLaws} {KE : KanakaEvents} {PG : Postgres}
  {PGL : PostgresLaws} {CR : Crypto} {FR : FiberRPC} {XL : Excelize} {TP : TimeParser}
  {JD : JsonDecoder} {CH : Chi} {CHL : ChiLaws}.

(** The filter of a payment listing, on a row. *)
Definition payment_matches (f : PaymentFilter) (r : PaymentRow) : bool :=
  eq_filter (VText (p_direction r)) (pf_Direction f)
  && eq_filter (VText (p_status r)) (pf_Status f)
  && eq_filter (vtext (p_asset r)) (pf_Asset f) && eq_filter (vtext (p_peer r)) (pf_Peer f)
  && range_filter (vtime (p_created_at r)) (pf_From f) (pf_To f).

Definition event_matches (f : EventFilter) (r : EventRow) : bool :=
  eq_filter (VText (ev_type r)) (ef_Type f)
  && range_filter (VTime (ev_occurred_at r)) (ef_From f) (ef_To f).

(** A client reads the [i]-th page in the world [ws i]; between two pages the system makes
    any steps. *)
Definition pages_during (cs : nat -> config) (ws : nat -> world) : Prop :=
  live (cs 0%nat) ∧ (∀ i, rtc sys_pool (cs i) (cs (S i)))
  ∧ (∀ i, w_db (ws i) = shared (cs i) ∧ healthy (ws i)).

Lemma pages_live cs ws i : pages_during cs ws -> live (cs i).
Proof.
  intros (H0 & Hs & _). induction i as [|i IH]; [done|]. unfold live in *. by etrans; [exact IH|].
Qed.

Lemma pages_keep cs ws i : pages_during cs ws -> keeps (w_db (ws i)) (w_db (ws (S i))).
Proof.
  intros H. pose proof (pages_live cs ws i H) as Hl. destruct H as (_ & Hs & Hw).
  destruct (Hw i) as [-> _], (Hw (S i)) as [-> _]. by apply pool_moves; [apply live_safe|].
Qed.

(** C14.  Paging through payments while the system runs: whatever flushes, refunds and requests
    are interleaved with the requests of a client that follows [next_cursor] from the
    start, its walk ends within one page more than the rows the table ever has, lists no
    payment twice, lists every payment that is there and matches the filter throughout,
    and lists nothing that was not there and did not match. *)
Theorem payments_while_running f limit cs ws n :
  pages_during cs ws ->
  (∀ i, (size (payments (w_db (ws i))) <= n)%nat) ->
  (∀ i k r, payments (w_db (ws i)) !! k = Some r -> row_ok p_created_at (k, r)) ->
  ∃ out, walk_live (S n) (fun i cur => fst (Payments f cur limit (ws i))) 0 zero_Cursor = Ok out
  ∧ NoDup (py_PaymentHash <$> out)
  ∧ (∀ y, y ∈ out -> ∃ i k r, y = view_payment (k, r) ∧ payments (w_db (ws i)) !! k = Some r
       ∧ payment_matches f r = true)
  ∧ (∀ k, (∀ i, ∃ r, payments (w_db (ws i)) !! k = Some r ∧ payment_matches f r = true) ->
       k ∈ py_PaymentHash <$> out).
Proof.
  intros H Hn Hok. destruct (payment_base_means f) as [Hb Hm]. pose proof (clampLimit_bounds limit).
  destruct (walk_live_listing payment_col p_created_at "created_at" "payment_hash"
    (fun x => eq_refl) (fun x => eq_refl) (payment_base f) Hb (fun i => payments (w_db (ws i)))
    view_payment payment_cursor (clampLimit limit) n
    (fun i cur => fst (Payments f cur limit (ws i)))) as (rows & Hw & Hnd & Hin & Hall).
  - lia.
  - done.
  - intros i. apply (pages_keep cs ws i H).
  - exact Hn.
  - intros i [k r] [Hk _]%elem_of_listing. by apply (Hok i).
  - intros i cur. destruct H as (_ & _ & Hw). by rewrite Payments_run by apply Hw.
  - exists (view_payment <$> rows). split_and!; [exact Hw|..]; rewrite <- ?list_fmap_compose.
    + exact Hnd.
    + intros y ([k r] & -> & (i & [Hk Hb']%elem_of_listing)%Hin)%list_elem_of_fmap.
      exists i, k, r. rewrite Hm in Hb'. done.
    + intros k Hk. apply Hall. intros i. destruct (Hk i) as (r & Hr & Hmr). exists r.
      apply elem_of_listing. by rewrite Hm.
Qed.

(** Events are immutable, so every event that is there when the walk begins is listed. *)
Theorem events_while_running f limit cs ws n :
  pages_during cs ws ->
  (∀ i, (size (events (w_db (ws i))) <= n)%nat) ->
  (∀ i k r, events (w_db (ws i)) !! k = Some r -> row_ok event_ts (k, r)) ->
  ∃ out, walk_live (S n) (fun i cur => fst (Events f cur limit (ws i))) 0 zero_Cursor = Ok out
  ∧ NoDup (v_ID <$> out)
  ∧ (∀ y, y ∈ out -> ∃ i k r, y = view_event (k, r) ∧ events (w_db (ws i)) !! k = Some r
       ∧ event_matches f r = true)
  ∧ (∀ k r, events (w_db (ws 0%nat)) !! k = Some r -> event_matches f r = true ->
       view_event (k, r) ∈ out).
Proof.
  intros H Hn Hok. destruct (event_base_means f) as [Hb Hm]. pose proof (clampLimit_bounds limit).
  assert (∀ i, grows eq (events (w_db (ws i))) (events (w_db (ws (S i))))) as Hk
    by (intros i; apply (pages_keep cs ws i H)).
  assert (∀ i k r, events (w_db (ws 0%nat)) !! k = Some r -> events (w_db (ws i)) !! k = Some r) as Hstay.
  { intros i k r. induction i as [|i IH]; [done|]. intros Hr. by eapply grows_eq, IH; [apply Hk|]. }
  destruct (walk_live_listing event_col event_ts "occurred_at" "id"
    (fun x => eq_refl) (fun x => eq_refl) (event_base f) Hb (fun i => events (w_db (ws i)))
    view_event event_cursor (clampLimit limit) n
    (fun i cur => fst (Events f cur limit (ws i)))) as (rows & Hw & Hnd & Hin & Hall).
  - lia.
  - done.
  - intros i k r Hr. exists r. split; [by apply (grows_eq _ _ _ _ (Hk i))|done].
  - exact Hn.
  - intros i [k r] [Hr _]%elem_of_listing. by apply (Hok i).
  - intros i cur. destruct H as (_ & _ & Hw). by rewrite Events_run by apply Hw.
  - exists (view_event <$> rows). split_and!; [exact Hw|by rewrite <- list_fmap_compose|..].
    + intros y ([k r] & -> & (i & [Hr Hb']%elem_of_listing)%Hin)%list_elem_of_fmap.
      exists i, k, r. rewrite Hm in Hb'. done.
    + intros k r Hr Hmr. assert (k ∈ rows.*1) as Hkr.
      { apply Hall. intros i. exists r. apply elem_of_listing. rewrite Hm. auto. }
      apply list_elem_of_fmap in Hkr as ([k' r'] & -> & Hkr). apply list_elem_of_fmap.
      exists (k', r'). split; [|done]. destruct (Hin _ Hkr) as (i & [Hr' _]%elem_of_listing).
      apply (Hstay i) in Hr. cbn in *. congruence.
Qed.
End theorems.

(** ** A walk over two pages with a flush in between *)

Module LiveSample.
Import Sample ApiSample MerchantSample SystemSample.

Definition received_at (id hash : string) (t : Time) : Event :=
  MkEvent id "payment.received" t hash (hash +:+ "|0x64|CKB|02ab").
Definition two_payments : Projector :=
  MkProjector [received_at "evt_1" "0xa" 5000000; received_at "evt_2" "0xb" 6000000].
Definition late_payment : Projector := MkProjector [received_at "evt_3" "0xc" 5500000].

(** The client reads the newest payment; then an older one arrives. *)
Definition paying : list (choice action) :=
  [Spawn (ActMigrate 3)] ++ runs 0 1 ++ [Spawn (ActOutbox (OpSave two_payments 1))] ++ runs 1 11.
Definition paying_more : list (choice action) :=
  [Spawn (ActOutbox (OpSave late_payment 2))] ++ runs 2 7.

Definition first_world : world := Eval vm_compute in (play thread paying ([], genesis)).2.
Definition next_world : world :=
  Eval vm_compute in (play thread paying_more (ended_threads 2, first_world)).2.
Definition page_world (i : nat) : world := match i with O => first_world | S _ => next_world end.
Definition page_config (i : nat) : config :=
  match i with
  | O => Config (ended_threads 2) (w_db first_world)
  | S _ => Config (ended_threads 3) (w_db next_world)
  end.
Definition no_filter : PaymentFilter := MkPaymentFilter EmptyString EmptyString EmptyString EmptyString None None.
End LiveSample.

Module LiveWitness.
Import Sample ApiSample MerchantSample SystemSample LiveSample.

Lemma page_steps i : rtc sys_pool (page_config i) (page_config (S i)).
Proof.
  destruct i as [|i]; [|reflexivity].
  assert (play thread paying_more (ended_threads 2, first_world) = (ended_threads 3, next_world))
    as E by by_eval.
  pose proof (play_steps thread paying_more (ended_threads 2, first_world)) as H.
  rewrite E in H. exact H.
Qed.

Lemma page_start : live (page_config 0).
Proof.
  assert (play thread paying ([], genesis) = (ended_threads 2, first_world)) as E by by_eval.
  pose proof (play_steps thread paying ([], genesis)) as H. rewrite E in H. exact H.
Qed.

Lemma pages_are_during : pages_during page_config page_world.
Proof.
  split_and!; [exact page_start|exact page_steps|].
  intros [|i]; (split; [reflexivity|split; by_eval]).
Qed.

(** Every row of the two tables is good, and what is in the first stays. *)
Lemma rows_good i k r :
  payments (w_db (page_world i)) !! k = Some r -> row_ok p_created_at (k, r).
Proof.
  intros Hk. apply (row_ok_check p_created_at (map_to_list (payments (w_db (page_world i)))));
    [|by apply elem_of_map_to_list]. destruct i as [|i]; by_eval.
Qed.

Lemma stays_listed k :
  (payment_matches no_filter <$> payments (w_db first_world) !! k) = Some true ->
  (payment_matches no_filter <$> payments (w_db next_world) !! k) = Some true ->
  ∀ i, ∃ r, payments (w_db (page_world i)) !! k = Some r ∧ payment_matches no_filter r = true.
Proof.
  intros (r1 & E1 & H1)%fmap_Some (r2 & E2 & H2)%fmap_Some [|i]; cbn [page_world]; eauto.
Qed.

Lemma payments_while_running_witness :
  ∃ out, walk_live 4 (fun i cur => fst (Payments no_filter cur 1 (page_world i))) 0 zero_Cursor = Ok out
    ∧ "0xa" ∈ py_PaymentHash <$> out ∧ "0xb" ∈ py_PaymentHash <$> out.
Proof.
  destruct (payments_while_running no_filter 1 page_config page_world 3) as (out & Hw & _ & _ & Hall).
  - exact pages_are_during.
  - intros i. assert (size (payments (w_db first_world)) = 2%nat) as E1 by by_eval.
    assert (size (payments (w_db next_world)) = 3%nat) as E2 by by_eval.
    destruct i as [|i]; cbn [page_world]; lia.
  - exact rows_good.
  - exists out. split; [exact Hw|]. split; apply Hall, stays_listed; by_eval.
Defined.

(** The same for the events of the two worlds. *)
Definition all_events : EventFilter := MkEventFilter EmptyString None None.

Lemma events_while_running_witness :
  ∃ out, walk_live 4 (fun i cur => fst (Events all_events cur 1 (page_world i))) 0 zero_Cursor = Ok out
    ∧ NoDup (v_ID <$> out).
Proof.
  destruct (events_while_running all_events 1 page_config page_world 3) as (out & Hw & Hn & _).
  - exact pages_are_during.
  - intros i. assert (size (events (w_db first_world)) = 2%nat) as E1 by by_eval.
    assert (size (events (w_db next_world)) = 3%nat) as E2 by by_eval.
    destruct i as [|i]; cbn [page_world]; lia.
  - intros i k r Hk. apply (row_ok_check event_ts (map_to_list (events (w_db (page_world i)))));
      [|by apply elem_of_map_to_list]. destruct i as [|i]; by_eval.
  - exists out. exact (conj Hw Hn).
Defined.
End LiveWitness.
