(* ===== verification/PlatformProps.v ===== *)
(** * Amounts across the database (internal/platform/db/numeric.go)

    What the platform package promises to the components that store and read
    amounts. *)

From S2P Require Import Prelude Strconv External Schema Numeric Query.

Section props.
Context {FT : Fibertypes} {FTL : FibertypesLaws} {PG : Postgres} {PGL : PostgresLaws}.

(** C26.  Amounts survive the database: an amount written to a NUMERIC column is read
    back as itself; any finite representation, with zeros in the exponent or after
    the decimal point, of a whole number of at most 128 bits is read as that number;
    and a negative number or a number with a fractional part is refused, never
    rounded. *)
Theorem amount_numeric_roundtrip (a : Amount) n v i :
  numeric_repr n v -> num_Int n = Some i ->
  NumericToAmount (read_numeric (numeric_col (AmountToNumeric a))) = Ok a ∧
  (0 <= v < 2 ^ 128 -> ∃ b, NumericToAmount n = Ok b ∧ BigInt b = v) ∧
  (v < 0 -> NumericToAmount n = Err (EText "db: NUMERIC is negative")) ∧
  (forall k, 0 < k <= int32_max -> Z.rem i (10 ^ k) ≠ 0 ->
     NumericToAmount (MkNumeric (Some i) (- k) false Finite true)
       = Err (EText "db: NUMERIC has a fractional part, not a whole amount")).
Proof.
  intros Hn Hi. split_and!.
  - rewrite numeric_col_amount. apply NumericToAmount_BigInt, pg_numeric_out_repr.
  - intros Hv. by apply NumericToAmount_u128.
  - intros Hv. rewrite (NumericToAmount_repr _ _ Hn). by rewrite (proj2 (Z.ltb_lt _ _)).
  - intros k Hk Hr. unfold NumericToAmount. cbn [num_Valid num_NaN negb orb
      num_InfinityModifier num_Int num_Exp].
    rewrite (proj2 (Z.ltb_ge _ _)), (proj2 (Z.ltb_lt _ _)) by lia.
    unfold int32_max in Hk. rewrite Z.opp_involutive,
      wrap32_small, pow10_pos by (unfold int32_min, int32_max; lia).
    by rewrite (proj2 (Z.eqb_neq _ _)).
Qed.
End props.

Module PlatformWitness.
Import Sample.

Lemma amount_numeric_roundtrip_witness :
  NumericToAmount (MkNumeric (Some 1250) (-1) false Finite true) = Ok (125%N : @Amount fibertypes) ∧
  NumericToAmount (MkNumeric (Some 1250) (-2) false Finite true)
    = Err (EText "db: NUMERIC has a fractional part, not a whole amount").
Proof.
  destruct (amount_numeric_roundtrip (FT := fibertypes) 125%N
    (MkNumeric (Some 1250) (-1) false Finite true) 125 1250) as (_ & H & _ & F).
  - unfold numeric_repr. cbn. unfold int32_min, int32_max.
    split_and!; try done. exists 1250. by split.
  - done.
  - split; [|by apply (F 2)].
    destruct (H ltac:(lia)) as (b & -> & Hb). f_equal. cbn in Hb. by apply N2Z.inj.
Defined.
End PlatformWitness.
